(* ===== verification/_CoqProject ===== *)
-Q . S2P
Prelude.v
Utf8.v
StrOps.v
Io.v
Consts.v
BsonScalar.v
Writers.v
F64.v
BsonValue.v
Convert.v
Json.v
Macros.v
BsonEncode.v
BsonDecode.v
BsonRoundtrip.v
BsonGrammar.v
LogText.v
LogQuote.v
LogDouble.v
LogFormat.v
Header.v
Message.v
OpMsg.v
OpLegacy.v
OpCompressed.v
Compressors.v
Framing.v
Fuzz.v
Auth.v
TestKit.v
TestsCommon.v
TestsBson.v
Scram.v
ScramCorrect.v
Api.v
SaslBridge.v
Server.v
ServerCorrect.v
Demo.v
ConnState.v
Client.v
Serve.v
ServeBounds.v
Session.v
Main.v
TestsMessages.v
Recorded.v
RecordedBson.v
TestsWire.v
TestsFraming.v
TestsScram.v
TestsServer.v
TestsAuth.v
TestsGolden.v
TestsIntegration.v
