(* ===== verification/Prelude.v ===== *)
(** * A verification of mongowire: the MongoDB wire protocol in Rust

    ** The program

    The repository is a Rust workspace of four crates, each built on the one
    before it.
    - [mongo_common]: byte readers and writers, protocol constants, BSON scalars,
      CRC-32C, and the PLAIN and SCRAM authentication mechanisms.
    - [wirebson]: BSON documents, arrays and values; an encoder; a decoder that
      works on raw bytes, with lazy field access.
    - [mongowire]: message headers, OP_MSG, OP_QUERY, OP_REPLY and OP_COMPRESSED
      bodies, framing with optional checksums, the tokio codec, and the
      embeddable server (connection loop, built-in commands, SASL bridge).
    - [examples/mongowire-server]: a demonstration server.

    A connection is a byte stream.  Framing cuts it into frames and verifies
    checksums; the body parsers turn a frame into a message, whose documents
    stay raw bytes until someone asks for a field; the loop unwraps compressed
    requests, hands commands to a chain of handlers and frames their replies.
    SASL commands drive a SCRAM server kept in the connection's context.

    ** Files and the code they model

    - [Prelude]: outcomes (below), machine ranges, byte lists with Rust's
      checked indexing and slicing, little-endian integers, decimal rendering;
      the tactics and the hint database [wire] of the development.
    - [Utf8]: [std::str::from_utf8].  [StrOps]: the other [str] methods used.
    - [Io]: [mongo_common/src/io.rs]; readers are functions from the remaining
      bytes, with their own bind notation.
    - [Consts]: [mongo_common/src/consts.rs].
    - [BsonScalar]: [mongo_common/src/bson/scalar.rs].
    - [Writers]: the write trait of [io.rs] as a class, its implementations for
      vectors and for [BytesMut], and the scalar encoder generic in it; every
      writer refines the plain buffers the other files use.
    - [F64]: the operations on [f64] the code uses, on bit patterns: comparison,
      casts, rounding to nearest even, and the shortest decimal of [Display].
    - [BsonValue]: [wirebson/src/value.rs], [document.rs], [array.rs], [error.rs]
      and the validation in [raw.rs].
    - [Convert]: the conversions of [mongo_common/src/bson/convert.rs] and
      [wirebson/src/convert.rs].  [Json]: the JSON conversions of the latter.
    - [Macros]: [wirebson/src/macros.rs]; a macro is a function of its tokens,
      one branch per arm.
    - [BsonEncode]: the encoder of [wirebson/src/encode.rs], with the BSON layout
      as a function of the value.
    - [BsonDecode]: [wirebson/src/decode.rs], [raw.rs], [raw_value.rs].
    - [BsonRoundtrip]: the theorems that relate encoder, decoder and lazy access.
    - [BsonGrammar]: the BSON grammar as mutually inductive relations, and that
      the decoder decides it.
    - [LogText], [LogFormat]: the log formatter of [encode.rs]: quoting, base64
      and dates, and the rendering of documents with its depth cut-off.
      [LogQuote], [LogDouble]: reading quoted text and doubles back.
    - [Header]: [mongowire/src/error.rs] and [messages/header.rs].
    - [Message]: the trait of message bodies as a class, with the laws every
      body satisfies as a second class; framing is proved against the laws.
    - [OpMsg], [OpLegacy], [OpCompressed]: the bodies, the dispatch
      [MessageBody], and [mongowire/src/compression]; [Compressors]: the snappy,
      zlib and zstd modules there.
    - [Framing]: [framing.rs], [codec.rs], the CRC wrapper, and the receive loop
      of [test_client.rs].
    - [Fuzz]: the fuzz targets, as functions that panic where an assertion fires.
    - [Auth]: [mongo_common/src/auth/mod.rs] and [plain.rs].
    - [Scram]: [mongo_common/src/auth/scram.rs]; [ScramCorrect]: its theorems.
    - [Api]: [mongowire/src/api/client_info.rs], [handler.rs], [response.rs].
    - [SaslBridge]: [mongowire/src/api/auth.rs] and its theorems.
    - [Server]: [mongowire/src/api/mod.rs]; [ServerCorrect]: its theorems,
      proved against the handler contract [HandlerLaws].
    - [Demo]: [examples/mongowire-server]: its handler, as an instance of the
      contract, and its argument parsing.  [Main]: its [main].
    - [ConnState]: the type of a connection's state, preserved by every handler
      that is an instance of [KeepsConnection].
    - [Client]: the rest of [test_client.rs].
    - [Serve]: [serve] and the tasks it spawns, as a labelled transition system
      over the pool of connections, with an executable version of its steps.
      [ServeBounds]: how much a connection makes the server buffer.
    - [Session]: conversations of the client with the server, over the wire.
    - [TestKit], [TestsCommon], [TestsBson], [TestsMessages], [TestsWire],
      [TestsFraming], [TestsScram], [TestsServer], [TestsAuth], [TestsGolden],
      [TestsIntegration]: the unit tests of the crates and the suites under
      their [tests] directories, replayed on the definitions above; [Recorded],
      [RecordedBson]: the recorded traffic and documents they read.

    Names follow the source: [Type::Ctor] is [Type_Ctor] and [Type::method] is
    [Type_method]; newtypes around byte strings are erased; a loop of the source
    is a [Fixpoint] of its own next to the function that contains it.

    ** How the code is modelled

    - A call yields an [outcome]: [Ok], [Err], [Panic] (an unwinding panic: an
      index or slice out of range, an arithmetic underflow, a failed [expect] or
      [debug_assert]) or [Fuel].  The model is of a build with debug assertions
      and overflow checks, so the absence of [Panic] covers both profiles.
    - Integers are [Z] with their ranges written out; conversions that truncate
      or wrap do so in the model.  [usize] is 64 bits wide.  A double is its bit
      pattern.
    - [&mut] arguments are threaded as state, also on the error paths of framing,
      the message bodies, the state machines and the handlers, so that what a
      failed call consumed, wrote or changed is part of its result.  The BSON
      encoder and the scanner are the exceptions: what [encode_scalar] or
      [encode_document] wrote before an error, and the offset at which
      [Scanner::next] gave up, are left out; every caller drops them.  [Bytes],
      [BytesMut] and [Vec<u8>] are byte lists.
    - One handler serves all connections and may keep state of its own.  A
      handler value is the handler as a call meets it, with that state; a call is
      one step.  [run] keeps one such value; in a [shared_run] every event meets
      a handler of its own, in whatever state.
    - A macro's input is a list of token trees in which an expression is one
      token; the compiler's recursion limit is left out.
    - Third-party crates are parameters, with their documented behaviour as a
      class where a theorem needs it: the CRC function; the cryptography and
      base64 of SCRAM ([Crypto], [CryptoLaws]); snap, flate2 and zstd ([Crates],
      [CrateLaws]); uuid and dec ([ValueCrates], [ValueCratesLaws]); serde_json
      ([JsonCrate], [JsonLaws]); bytes ([BytesMutCrate], [BytesMutLaws]).  One crate
      is modelled concretely, after its documentation: tokio_util's framed stream
      keeps a read buffer for a connection, decodes what it holds, reads when the
      codec asks for more, and reports an error when the stream ends inside a
      frame ([task_step] of [Serve]).  Which non-ASCII code points [Debug] prints
      unescaped is the parameter [unicode_plain].  Clock readings and random
      bytes are arguments.
    - Error reasons are the source's literals.

    ** Fuel

    Decoding recurses on nested documents through slices, so the decoder takes
    gas: 21 levels, one more than the nesting limit at which the code gives up.
    Loops over fields and sections take the length of their input plus one as
    fuel, since every iteration consumes a byte.  No theorem assumes that fuel
    suffices: [bson_decode_total], [fuzz_targets_hold] and
    [connections_served] show that [Fuel] is never the result.  The search for
    the shortest decimal of a double tries up to 21 positions;
    [format_shortest_spec] shows that it ends before it gives up.

    ** What the theorems show

    - BSON: encoding is exactly the layout; the decoder accepts exactly the bytes
      the grammar derives, with the value it derives, and the grammar is
      unambiguous; encode and decode are mutually
      inverse on well-formed documents up to the nesting limit; whatever decodes
      re-encodes; decoding any bytes returns; lazy access agrees with decoding;
      both decode modes coincide; the two value parsers agree; scalars round
      trip canonically and reject every truncation, but for a user-defined
      subtype below 128, which reads back as another subtype or not at all;
      document mutators meet their specifications.
    - Conversions: a number converts exactly when the target holds its value,
      with the one double that does not; dates round trip through [SystemTime];
      a document converts to the JSON object of its fields unless one has no JSON
      form.  The macros build what their token language
      denotes.
    - Logs: rendering any received bytes returns, and the compact form of a document
      is one line but for its regular expressions; what lies below the depth
      limit does not show;
      dates are those of the Gregorian calendar, for every [i64] (years outside
      0 to 9999 included, whose text RFC 3339 does not know); base64 decodes to the
      bytes; a quoted text reads back as the text; a double is printed as a decimal
      with a point that rounds back to it, and no coarser decimal does.
    - Messages: every body parses byte-exactly and round trips; section rules;
      compressed bodies round trip; the compressor modules accept exactly the
      streams that hold the declared number of bytes, neither fewer nor more;
      unwrapping is bounded and single-level.
    - Framing: frames round trip behind whatever the buffer holds, with
      checksums where asked; parsing accounts
      for every byte, consumes nothing until a frame is complete, does not
      depend on how the stream is chunked, and accepts a checksummed frame only
      if the checksum matches.  The assertions of the fuzz targets never fire.
    - Authentication: PLAIN payloads are exact; the honest SCRAM exchange
      completes for every user name; a server authenticates exactly on a
      verified proof, of a message specified without the parser; under arbitrary
      call sequences the states of both machines are tied to the log of accepted
      calls: one client-first message, then the one proof or signature that
      verified; a connection is logged in only if the log of its commands has an
      accepted saslStart of that user and then an accepted proof for it.
    - Server: the loop returns on every item sequence; replies answer requests
      in order, at most one each, echoing the request id; a message a handler
      returns is sent; requests announcing more to come are never answered;
      errors are sent as error documents or close the connection; the handshake
      reply is the documented document, field by field, with the intersection of
      the compressors in server order; the connection's state stays well typed;
      the example's commands answer what they document.
    - Concurrency: in every interleaving of accepts, arriving bytes and scheduled
      tasks, each connection is a [process_socket] of its own on the bytes it
      received; with a handler whose state all connections share, what a
      connection does depends besides on the answers of the handler at its own
      turns and on nothing else; no task panics, and while
      its socket accepts, what it wrote is a sequence of frames answering the
      messages it read.  A read buffer waits with less than the frame limit, and
      a header that declares more, or less than a header, closes the connection.
    - Sessions: a client's requests, in any chunks and between any other
      connections' events, come back answered in order; the legacy handshake and
      a SCRAM login work from bytes to bytes.
    - Identifiers generated with one counter differ.
    - Tests: 252 unit, golden and integration tests pass on the model, among them
      the recorded traffic of a driver and the published SCRAM exchanges; the
      property tests pass on every value their strategies produce.

    ** What is not modelled

    Binding a socket (its outcome is an argument of [main]) and the crates above,
    which are parameters; how a handler's own state changes, which is the
    embedder's code.  Of the unit tests, those of addresses (that a parsed
    document is a view of its buffer), of the dec crate's arithmetic and of one
    published MD5 digest have no counterpart.  What else is left of the
    sources is imports, re-exports, trivial constructors and the conversions of a newtype to
    the byte string it erases to. *)
From stdpp Require Import base list numbers strings.
From Stdlib Require Import ZArith Lia.
From Stdlib Require Export Strings.Byte.

Declare Scope wire_scope.
Delimit Scope wire_scope with wire.
Open Scope wire_scope.
Local Open Scope Z_scope.

(** ** Outcomes: [Result] plus the two ways a Rust call fails to return

    [Ok]/[Err] are Rust's [Result]; [Panic] is an unwinding panic (slice or
    index out of range, arithmetic underflow, a failed [expect]); [Fuel] is a
    loop that used up the iteration bound of its model.  Both are values so
    that their absence is a theorem. *)
Inductive outcome (E A : Type) : Type :=
| Ok (a : A)
| Err (e : E)
| Panic
| Fuel.
Arguments Ok {E A} a.
Arguments Err {E A} e.
Arguments Panic {E A}.
Arguments Fuel {E A}.

Definition bind {E A B} (m : outcome E A) (k : A → outcome E B) : outcome E B :=
  match m with
  | Ok a => k a
  | Err e => Err e
  | Panic => Panic
  | Fuel => Fuel
  end.

Notation "'let*' x ':=' m 'in' k" := (bind m (fun x => k))
  (at level 10, x name, m at level 100, k at level 200) : wire_scope.
Notation "'let*' ' p ':=' m 'in' k" := (bind m (fun x => match x with p => k end))
  (at level 10, p pattern, m at level 100, k at level 200) : wire_scope.

(** [Result::map_err] (also the [From] conversion a [?] performs). *)
Definition map_err {E F A} (f : E → F) (m : outcome E A) : outcome F A :=
  match m with
  | Ok a => Ok a
  | Err e => Err (f e)
  | Panic => Panic
  | Fuel => Fuel
  end.

(** [Option::ok_or]. *)
Definition ok_or {E A} (o : option A) (e : E) : outcome E A :=
  match o with Some a => Ok a | None => Err e end.

(** [Option::expect] / [Option::unwrap]. *)
Definition expect {E A} (o : option A) : outcome E A :=
  match o with Some a => Ok a | None => Panic end.

(** [Option::is_some]. *)
Definition is_some {A} (o : option A) : bool := match o with Some _ => true | None => false end.

(** [debug_assert!]: the model is of a build with assertions enabled. *)
Definition debug_assert {E} (c : bool) : outcome E () := if c then Ok () else Panic.

(** A call that returns: neither a panic nor an exhausted loop. *)
Definition returns {E A} (m : outcome E A) : Prop :=
  match m with Ok _ | Err _ => True | Panic | Fuel => False end.

Definition is_ok {E A} (m : outcome E A) : bool :=
  match m with Ok _ => true | _ => false end.

Section OutcomeLemmas.
Context {E A B : Type}.

Lemma bind_Ok_inv (m : outcome E A) (k : A → outcome E B) b :
  bind m k = Ok b → ∃ a, m = Ok a ∧ k a = Ok b.
Proof. destruct m; simpl; intros; simplify_eq; eauto. Qed.

Lemma bind_assoc {C} (m : outcome E A) (k : A → outcome E B) (h : B → outcome E C) :
  bind (bind m k) h = bind m (λ a, bind (k a) h).
Proof. by destruct m. Qed.

Lemma bind_ext (m : outcome E A) (k h : A → outcome E B) :
  (∀ a, m = Ok a → k a = h a) → bind m k = bind m h.
Proof. destruct m; simpl; auto. Qed.

Lemma returns_bind (m : outcome E A) (k : A → outcome E B) :
  returns m → (∀ a, m = Ok a → returns (k a)) → returns (bind m k).
Proof. destruct m; simpl; auto. Qed.

Lemma returns_map_err {F} (f : E → F) (m : outcome E A) :
  returns m → returns (map_err f m).
Proof. by destruct m. Qed.

Lemma map_err_Ok_inv {F} (f : E → F) (m : outcome E A) a :
  map_err f m = Ok a → m = Ok a.
Proof. destruct m; simpl; intros; by simplify_eq. Qed.

Lemma map_err_bind {F} (f : E → F) (m : outcome E A) (k : A → outcome E B) :
  map_err f (bind m k) = bind (map_err f m) (λ a, map_err f (k a)).
Proof. by destruct m. Qed.

Lemma returns_ok_or (o : option A) (e : E) : returns (ok_or o e).
Proof. by destruct o. Qed.

Lemma ok_or_Ok_inv (o : option A) (e : E) a : ok_or o e = Ok a → o = Some a.
Proof. destruct o; simpl; intros; by simplify_eq. Qed.
End OutcomeLemmas.

(** ** Automation *)

Create HintDb wire discriminated.
#[export] Hint Resolve returns_ok_or returns_map_err : wire.

(** Decompose a hypothesis stating that a monadic computation succeeded. *)
Ltac inv_ok :=
  repeat match goal with
  | H : bind _ _ = Ok _ |- _ =>
      let a := fresh "a" in let H1 := fresh "Hk" in let H2 := fresh "Hk" in
      apply bind_Ok_inv in H as (a & H1 & H2)
  | H : map_err _ _ = Ok _ |- _ => apply map_err_Ok_inv in H
  | H : ok_or _ _ = Ok _ |- _ => apply ok_or_Ok_inv in H
  | H : Ok _ = Ok _ |- _ => injection H; clear H; intros; subst
  | H : Err _ = Ok _ |- _ => discriminate H
  | H : Panic = Ok _ |- _ => discriminate H
  | H : Fuel = Ok _ |- _ => discriminate H
  | H : Some _ = Some _ |- _ => injection H; clear H; intros; subst
  | H : (let (_, _) := ?p in _) = _ |- _ => destruct p
  | H : (if ?c then _ else _) = Ok _ |- _ =>
      let Hc := fresh "Hc" in destruct c eqn:Hc
  end.

(** Boolean comparisons on [Z] as propositions, in hypotheses and goal. *)
Ltac zbool :=
  repeat match goal with
  | H : (_ <? _) = true |- _ => apply Z.ltb_lt in H
  | H : (_ <? _) = false |- _ => apply Z.ltb_ge in H
  | H : (_ <=? _) = true |- _ => apply Z.leb_le in H
  | H : (_ <=? _) = false |- _ => apply Z.leb_gt in H
  | H : (_ =? _) = true |- _ => apply Z.eqb_eq in H
  | H : (_ =? _) = false |- _ => apply Z.eqb_neq in H
  | H : (_ >? _) = _ |- _ => rewrite Z.gtb_ltb in H
  | H : negb _ = true |- _ => apply negb_true_iff in H
  | H : negb _ = false |- _ => apply negb_false_iff in H
  | H : (_ && _)%bool = true |- _ => apply andb_true_iff in H as [? ?]
  | H : (_ || _)%bool = false |- _ => apply orb_false_iff in H as [? ?]
  end.

(** [lia] on a boolean equation; it does not look for the sign of a [Z.of_nat]
    below a boolean operator, so state it first. *)
Ltac zlia :=
  repeat match goal with
  | |- context [Z.of_nat ?n] => lazymatch goal with
      | _ : 0 <= Z.of_nat n |- _ => fail | _ => pose proof (Nat2Z.is_nonneg n) end
  end; lia.

(** Rewrite the condition of a conditional whose value [lia] can compute. *)
Ltac zif :=
  match goal with
  | |- context [if ?c then _ else _] =>
      let H := fresh in
      first [ assert (c = true) as H by zlia | assert (c = false) as H by zlia ];
      rewrite H; clear H
  end.

(** ** Machine integers: a w-bit integer is a [Z] in the range of its type *)

Definition u8_max : Z := 255.
Definition u32_max : Z := 4294967295.
Definition i32_min : Z := -2147483648.
Definition i32_max : Z := 2147483647.
Definition i64_min : Z := -9223372036854775808.
Definition i64_max : Z := 9223372036854775807.
Definition u64_max : Z := 18446744073709551615.

Definition in_u32 (z : Z) : Prop := 0 <= z <= u32_max.
Definition in_i32 (z : Z) : Prop := i32_min <= z <= i32_max.
Definition in_i64 (z : Z) : Prop := i64_min <= z <= i64_max.
Definition in_u64 (z : Z) : Prop := 0 <= z <= u64_max.

Ltac unfold_ranges :=
  unfold in_u32, in_i32, in_i64, in_u64, u8_max, u32_max, i32_min, i32_max,
    i64_min, i64_max, u64_max in *.

(** Reinterpret an unsigned [w]-bit value as two's complement. *)
Definition to_signed (w z : Z) : Z := if z <? 2 ^ (w - 1) then z else z - 2 ^ w.

(** [i32::try_from] of an unbounded or [usize] value. *)
Definition i32_try_from (z : Z) : option Z :=
  if (i32_min <=? z) && (z <=? i32_max) then Some z else None.

(** Subtraction on [usize], panicking below zero as in a checked build. *)
Definition usub {E} (a b : Z) : outcome E Z := if a <? b then Panic else Ok (a - b).

Lemma usub_Ok_inv {E} a b c : @usub E a b = Ok c → b <= a ∧ c = a - b.
Proof. unfold usub. intros. inv_ok. zbool. done. Qed.
Lemma usub_Ok {E} a b : b <= a → @usub E a b = Ok (a - b).
Proof. unfold usub. intros. by zif. Qed.

(** ** Bytes *)

Abbreviation bytes := (list byte).
(** Rust [String]/[&str]: the UTF-8 bytes. *)
Abbreviation str := (list byte).

Definition u8 (b : byte) : Z := Z.of_N (Byte.to_N b).
Definition of_u8 (z : Z) : byte :=
  match Byte.of_N (Z.to_N (z mod 256)) with Some b => b | None => x00 end.

(** The bytes of a literal. *)
Definition lit (s : string) : bytes := String.list_byte_of_string s.

Lemma u8_range b : 0 <= u8 b < 256.
Proof.
  unfold u8. pose proof (Byte.to_N_bounded b). lia.
Qed.

Lemma u8_of_u8 z : u8 (of_u8 z) = z mod 256.
Proof.
  unfold u8, of_u8. pose proof (Z.mod_pos_bound z 256 eq_refl) as Hz.
  destruct (Byte.of_N (Z.to_N (z mod 256))) eqn:E.
  - apply Byte.to_of_N in E. rewrite E. lia.
  - apply Byte.of_N_None_iff in E. lia.
Qed.

Lemma u8_inj a b : u8 a = u8 b → a = b.
Proof.
  unfold u8. intros H. assert (Byte.to_N a = Byte.to_N b) as H' by lia.
  pose proof (Byte.of_to_N a) as Ha. pose proof (Byte.of_to_N b) as Hb.
  rewrite H' in Ha. congruence.
Qed.

Lemma of_u8_u8 b : of_u8 (u8 b) = b.
Proof. apply u8_inj. rewrite u8_of_u8. apply Z.mod_small, u8_range. Qed.

#[export] Instance byte_eq_dec : EqDecision byte := Byte.byte_eq_dec.
#[export] Instance byte_countable : countable.Countable byte.
Proof.
  refine (countable.inj_countable Byte.to_N Byte.of_N _). apply Byte.of_to_N.
Defined.

(** Equality of [&str] / [&[u8]]. *)
Definition str_eqb (a b : bytes) : bool := bool_decide (a = b).

(** ** Lengths, slices and indexing with [usize] offsets *)

Definition len {A} (l : list A) : Z := Z.of_nat (length l).
Definition takeZ {A} (n : Z) (l : list A) : list A := take (Z.to_nat n) l.
Definition dropZ {A} (n : Z) (l : list A) : list A := drop (Z.to_nat n) l.

(** [slice::get(i)]. *)
Definition get {A} (l : list A) (i : Z) : option A :=
  if i <? 0 then None else l !! Z.to_nat i.
(** [l[i]]. *)
Definition index {E A} (l : list A) (i : Z) : outcome E A := expect (get l i).
(** [l[a..b]] and [Bytes::slice(a..b)]. *)
Definition slice {E A} (l : list A) (a b : Z) : outcome E (list A) :=
  if (0 <=? a) && (a <=? b) && (b <=? len l) then Ok (takeZ (b - a) (dropZ a l)) else Panic.
(** [l[i] = v]. *)
Definition set_index {E A} (l : list A) (i : Z) (v : A) : outcome E (list A) :=
  if (0 <=? i) && (i <? len l) then Ok (<[Z.to_nat i := v]> l) else Panic.
(** [iter().position(p)]. *)
Fixpoint position {A} (p : A → bool) (l : list A) : option Z :=
  match l with
  | [] => None
  | x :: t => if p x then Some 0 else Z.succ <$> position p t
  end.
Definition is_nul (b : byte) : bool := u8 b =? 0.
(** [contains(&0)]. *)
Definition has_nul (s : bytes) : bool := existsb is_nul s.

Section ListLemmas.
Context {A : Type}.
Implicit Types l : list A.

Lemma len_nonneg l : 0 <= len l.
Proof. unfold len. lia. Qed.
Lemma len_nil : len (@nil A) = 0.
Proof. done. Qed.
Lemma len_cons x l : len (x :: l) = 1 + len l.
Proof. unfold len. simpl. lia. Qed.
Lemma len_app l1 l2 : len (l1 ++ l2) = len l1 + len l2.
Proof. unfold len. rewrite length_app. lia. Qed.
Lemma len_nil_inv l : len l = 0 → l = [].
Proof. destruct l; [done|]. rewrite len_cons. pose proof (len_nonneg l). lia. Qed.

Lemma takeZ_app n l1 l2 : n = len l1 → takeZ n (l1 ++ l2) = l1.
Proof. intros ->. unfold takeZ, len. rewrite Nat2Z.id. apply take_app_length. Qed.
Lemma dropZ_app n l1 l2 : n = len l1 → dropZ n (l1 ++ l2) = l2.
Proof. intros ->. unfold dropZ, len. rewrite Nat2Z.id. apply drop_app_length. Qed.
Lemma takeZ_all n l : len l <= n → takeZ n l = l.
Proof. unfold takeZ, len. intros. apply take_ge. lia. Qed.
Lemma dropZ_all n l : len l <= n → dropZ n l = [].
Proof. unfold dropZ, len. intros. apply drop_ge. lia. Qed.
Lemma takeZ_0 n l : n <= 0 → takeZ n l = [].
Proof. unfold takeZ. intros. by replace (Z.to_nat n) with 0%nat by lia. Qed.
Lemma dropZ_0 n l : n <= 0 → dropZ n l = l.
Proof. unfold dropZ. intros. by replace (Z.to_nat n) with 0%nat by lia. Qed.
Lemma take_dropZ n l : takeZ n l ++ dropZ n l = l.
Proof. apply take_drop. Qed.
Lemma dropZ_dropZ n m l : 0 <= n → 0 <= m → dropZ n (dropZ m l) = dropZ (m + n) l.
Proof. intros. unfold dropZ. rewrite drop_drop. f_equal. lia. Qed.
Lemma len_takeZ n l : 0 <= n <= len l → len (takeZ n l) = n.
Proof. unfold takeZ, len. rewrite length_take. lia. Qed.
Lemma len_dropZ n l : 0 <= n <= len l → len (dropZ n l) = len l - n.
Proof. unfold dropZ, len. rewrite length_drop. lia. Qed.
Lemma len_dropZ_le n l : len (dropZ n l) <= len l.
Proof. unfold dropZ, len. rewrite length_drop. lia. Qed.
Lemma takeZ_takeZ n m l : 0 <= n <= m → takeZ n (takeZ m l) = takeZ n l.
Proof. intros. unfold takeZ. rewrite take_take. f_equal. lia. Qed.
Lemma takeZ_app_le n l1 l2 : n <= len l1 → takeZ n (l1 ++ l2) = takeZ n l1.
Proof. unfold takeZ, len. intros. apply take_app_le. lia. Qed.
Lemma dropZ_app_le n l1 l2 : n <= len l1 → dropZ n (l1 ++ l2) = dropZ n l1 ++ l2.
Proof. unfold dropZ, len. intros. apply drop_app_le. lia. Qed.
Lemma dropZ_cons n x l : 0 < n → dropZ n (x :: l) = dropZ (n - 1) l.
Proof.
  intros. unfold dropZ. replace (Z.to_nat n) with (S (Z.to_nat (n - 1))) by lia. done.
Qed.
Lemma split_at n l : 0 <= n <= len l → ∃ a b, l = a ++ b ∧ len a = n.
Proof.
  intros. exists (takeZ n l), (dropZ n l). by rewrite take_dropZ, len_takeZ.
Qed.

Lemma get_app_r l1 x l2 : get (l1 ++ x :: l2) (len l1) = Some x.
Proof.
  unfold get, len. zif. rewrite Nat2Z.id. by apply list_lookup_middle.
Qed.
Lemma get_Some_lt l i x : get l i = Some x → 0 <= i < len l.
Proof.
  unfold get, len. intros. inv_ok. case_match; [done|]. zbool.
  apply lookup_lt_Some in H. lia.
Qed.
Lemma get_lt l i : 0 <= i < len l → ∃ x, get l i = Some x.
Proof.
  unfold get, len. intros. zif. apply lookup_lt_is_Some_2. lia.
Qed.
Lemma get_None_ge l i : 0 <= i → get l i = None → len l <= i.
Proof.
  intros Hi Hg. destruct (decide (len l <= i)); [done|].
  destruct (get_lt l i) as [x Hx]; [lia|congruence].
Qed.
Lemma get_dropZ l i x : get l i = Some x → dropZ i l = x :: dropZ (i + 1) l.
Proof.
  intros Hg. pose proof (get_Some_lt _ _ _ Hg). unfold get in Hg.
  case_match; [done|]. unfold dropZ. erewrite drop_S by done.
  do 2 f_equal. lia.
Qed.

Lemma slice_Ok {E} l a b : 0 <= a → a <= b → b <= len l →
  @slice E A l a b = Ok (takeZ (b - a) (dropZ a l)).
Proof. intros. unfold slice. by zif. Qed.
Lemma slice_mid {E} l1 l2 l3 a b : a = len l1 → b = len l1 + len l2 →
  @slice E A (l1 ++ l2 ++ l3) a b = Ok l2.
Proof.
  intros -> ->. rewrite slice_Ok; rewrite ?len_app;
    pose proof (len_nonneg l1); pose proof (len_nonneg l2); pose proof (len_nonneg l3); try lia.
  rewrite dropZ_app by done. rewrite takeZ_app; [done|lia].
Qed.
Lemma slice_Ok_inv {E} l a b s : @slice E A l a b = Ok s →
  0 <= a ∧ a <= b ∧ b <= len l ∧ s = takeZ (b - a) (dropZ a l).
Proof. unfold slice. intros. inv_ok; try done. zbool. repeat split; done. Qed.
Lemma len_slice {E} l a b s : @slice E A l a b = Ok s → len s = b - a.
Proof.
  intros (?&?&?&->)%slice_Ok_inv. rewrite len_takeZ; [done|]. rewrite len_dropZ; lia.
Qed.

Lemma position_Some p l n : position p l = Some n →
  ∃ l1 x l2, l = l1 ++ x :: l2 ∧ len l1 = n ∧ p x = true ∧ Forall (λ y, p y = false) l1.
Proof.
  revert n. induction l as [|y l IH]; intros n; simpl; [done|].
  destruct (p y) eqn:Hp.
  - intros [= <-]. exists [], y, l. by repeat split.
  - intros (m & Hm & ->)%fmap_Some.
    destruct (IH m Hm) as (l1 & x & l2 & -> & <- & Hx & Hall).
    exists (y :: l1), x, l2. rewrite len_cons. repeat split; [lia|done|by constructor].
Qed.
Lemma position_None p l : position p l = None → Forall (λ y, p y = false) l.
Proof.
  induction l as [|y l IH]; simpl; [by constructor|].
  destruct (p y) eqn:Hp; [done|]. intros H%fmap_None. constructor; auto.
Qed.
Lemma position_app p l1 x l2 : Forall (λ y, p y = false) l1 → p x = true →
  position p (l1 ++ x :: l2) = Some (len l1).
Proof.
  induction 1 as [|y l1 Hy _ IH]; intros Hx; simpl; [by rewrite Hx|].
  rewrite Hy, (IH Hx), len_cons. simpl. f_equal. lia.
Qed.
Lemma position_range p l n : position p l = Some n → 0 <= n < len l.
Proof.
  intros (l1 & x & l2 & -> & <- & _ & _)%position_Some.
  rewrite len_app, len_cons. pose proof (len_nonneg l1). pose proof (len_nonneg l2). lia.
Qed.
End ListLemmas.

#[export] Hint Rewrite @len_app @len_cons @len_nil : len.
Ltac len_tac := autorewrite with len in *;
  repeat match goal with
  | |- context [len ?l] => lazymatch goal with
      | _ : 0 <= len l |- _ => fail | _ => pose proof (len_nonneg l) end
  | _ : context [len ?l] |- _ => lazymatch goal with
      | _ : 0 <= len l |- _ => fail | _ => pose proof (len_nonneg l) end
  end; try lia.

Lemma has_nul_false s : has_nul s = false ↔ Forall (λ b, is_nul b = false) s.
Proof.
  unfold has_nul. induction s as [|b s IH]; simpl; [by split; constructor|].
  rewrite orb_false_iff, IH, Forall_cons. done.
Qed.
Lemma is_nul_x00 b : is_nul b = true ↔ b = x00.
Proof.
  unfold is_nul. rewrite Z.eqb_eq. split; [|by intros ->].
  intros H. apply u8_inj. by rewrite H.
Qed.

(** ** Little-endian integers *)

(** [uN::from_le_bytes]. *)
Fixpoint le_decode (bs : bytes) : Z :=
  match bs with [] => 0 | b :: t => u8 b + 256 * le_decode t end.
(** [iN::to_le_bytes] / [uN::to_le_bytes] at [n] bytes (two's complement). *)
Fixpoint le_encode (n : nat) (z : Z) : bytes :=
  match n with O => [] | S m => of_u8 z :: le_encode m (z / 256) end.

Arguments le_decode : simpl never.
Arguments le_encode : simpl never.

Definition u32_of_le (bs : bytes) : Z := le_decode bs.
Definition u64_of_le (bs : bytes) : Z := le_decode bs.
Definition i32_of_le (bs : bytes) : Z := to_signed 32 (le_decode bs).
Definition i64_of_le (bs : bytes) : Z := to_signed 64 (le_decode bs).

Lemma length_le_encode n z : length (le_encode n z) = n.
Proof. revert z. induction n; intros; cbv [le_encode]; fold le_encode; simpl; auto. Qed.
Lemma len_le_encode n z : len (le_encode n z) = Z.of_nat n.
Proof. unfold len. by rewrite length_le_encode. Qed.
#[export] Hint Rewrite len_le_encode : len.

Lemma le_decode_bound bs : 0 <= le_decode bs < 256 ^ len bs.
Proof.
  induction bs as [|b bs IH]; [done|].
  change (le_decode (b :: bs)) with (u8 b + 256 * le_decode bs). rewrite len_cons.
  rewrite Z.pow_add_r by (pose proof (len_nonneg bs); lia).
  pose proof (u8_range b). lia.
Qed.

Lemma le_decode_encode n z : le_decode (le_encode n z) = z mod 256 ^ Z.of_nat n.
Proof.
  revert z. induction n as [|n IH]; intros z; [by rewrite Z.mod_1_r|].
  change (le_decode (le_encode (S n) z)) with (u8 (of_u8 z) + 256 * le_decode (le_encode n (z / 256))).
  rewrite u8_of_u8, IH.
  rewrite Nat2Z.inj_succ, Z.pow_succ_r by lia.
  rewrite Z.rem_mul_r by lia. done.
Qed.

Lemma le_encode_decode bs : le_encode (length bs) (le_decode bs) = bs.
Proof.
  induction bs as [|b bs IH]; [done|].
  change (le_encode (length (b :: bs)) (le_decode (b :: bs))) with
    (of_u8 (u8 b + 256 * le_decode bs) :: le_encode (length bs) ((u8 b + 256 * le_decode bs) / 256)).
  pose proof (u8_range b) as Hb. f_equal.
  - apply u8_inj. rewrite u8_of_u8, Z.mul_comm, Z.mod_add by done.
    by apply Z.mod_small.
  - rewrite Z.mul_comm, Z.div_add, Z.div_small by lia. done.
Qed.

Lemma le_encode_decode_len n bs : len bs = Z.of_nat n → le_encode n (le_decode bs) = bs.
Proof.
  unfold len. intros H. replace n with (length bs) by lia. apply le_encode_decode.
Qed.

Lemma le_encode_mod n z z' : z mod 256 ^ Z.of_nat n = z' mod 256 ^ Z.of_nat n →
  le_encode n z = le_encode n z'.
Proof.
  intros H. rewrite <- (le_encode_decode_len n (le_encode n z)) by apply len_le_encode.
  rewrite <- (le_encode_decode_len n (le_encode n z')) by apply len_le_encode.
  by rewrite !le_decode_encode, H.
Qed.

Lemma u32_of_le_encode z : in_u32 z → u32_of_le (le_encode 4 z) = z.
Proof.
  unfold u32_of_le. intros. rewrite le_decode_encode. apply Z.mod_small.
  unfold_ranges. lia.
Qed.
Lemma u64_of_le_encode z : in_u64 z → u64_of_le (le_encode 8 z) = z.
Proof.
  unfold u64_of_le. intros. rewrite le_decode_encode. apply Z.mod_small.
  unfold_ranges. lia.
Qed.

Lemma to_signed_mod w z : 0 < w → - 2 ^ (w - 1) <= z < 2 ^ (w - 1) →
  to_signed w (z mod 2 ^ w) = z.
Proof.
  intros Hw Hz. unfold to_signed.
  assert (2 ^ w = 2 * 2 ^ (w - 1)) as E.
  { rewrite <- Z.pow_succ_r by lia. f_equal. lia. }
  destruct (Z_lt_le_dec z 0).
  - rewrite <- (Z.mod_add z 1), Z.mul_1_l by lia.
    rewrite (Z.mod_small (z + 2 ^ w)) by lia. zif. lia.
  - rewrite Z.mod_small by lia. by zif.
Qed.
Lemma i32_of_le_encode z : in_i32 z → i32_of_le (le_encode 4 z) = z.
Proof.
  unfold i32_of_le. intros. rewrite le_decode_encode.
  change (256 ^ Z.of_nat 4) with (2 ^ 32). apply to_signed_mod; unfold_ranges; lia.
Qed.
Lemma i64_of_le_encode z : in_i64 z → i64_of_le (le_encode 8 z) = z.
Proof.
  unfold i64_of_le. intros. rewrite le_decode_encode.
  change (256 ^ Z.of_nat 8) with (2 ^ 64). apply to_signed_mod; unfold_ranges; lia.
Qed.

Lemma i32_encode_of_le bs : len bs = 4 → le_encode 4 (i32_of_le bs) = bs.
Proof.
  intros H. rewrite <- (le_encode_decode_len 4 bs) at 2 by done.
  apply le_encode_mod. unfold i32_of_le, to_signed. case_match; [done|].
  change (256 ^ Z.of_nat 4) with (2 ^ 32).
  rewrite <- (Z.mod_add (le_decode bs - 2 ^ 32) 1) by done. f_equal. lia.
Qed.
Lemma i64_encode_of_le bs : len bs = 8 → le_encode 8 (i64_of_le bs) = bs.
Proof.
  intros H. rewrite <- (le_encode_decode_len 8 bs) at 2 by done.
  apply le_encode_mod. unfold i64_of_le, to_signed. case_match; [done|].
  change (256 ^ Z.of_nat 8) with (2 ^ 64).
  rewrite <- (Z.mod_add (le_decode bs - 2 ^ 64) 1) by done. f_equal. lia.
Qed.
Lemma u32_of_le_range bs : len bs = 4 → in_u32 (u32_of_le bs).
Proof.
  intros H. pose proof (le_decode_bound bs) as B. rewrite H in B.
  unfold u32_of_le. unfold_ranges. lia.
Qed.
Lemma i32_of_le_range bs : len bs = 4 → in_i32 (i32_of_le bs).
Proof.
  intros H. pose proof (le_decode_bound bs) as B. rewrite H in B.
  unfold i32_of_le, to_signed. unfold_ranges. case_match; zbool; lia.
Qed.
Lemma i64_of_le_range bs : len bs = 8 → in_i64 (i64_of_le bs).
Proof.
  intros H. pose proof (le_decode_bound bs) as B. rewrite H in B.
  unfold i64_of_le, to_signed. unfold_ranges. case_match; zbool; lia.
Qed.

Lemma i32_try_from_Some z z' : i32_try_from z = Some z' ↔ in_i32 z ∧ z' = z.
Proof.
  unfold i32_try_from, in_i32.
  destruct (decide (i32_min <= z <= i32_max)); zif;
    (split; [intros [= <-]; done || lia|intros [? ->]; done]).
Qed.

(** ** Decimal rendering of unsigned integers ([to_string], [{n}]) *)

Fixpoint dec_digits (fuel : nat) (n : Z) (acc : bytes) : bytes :=
  match fuel with
  | O => acc
  | S f =>
      let acc := of_u8 (48 + n mod 10) :: acc in
      if n <? 10 then acc else dec_digits f (n / 10) acc
  end.
(** 20 digits hold every [u64]/[usize]. *)
Definition dec_bytes (n : Z) : bytes := dec_digits 20 n [].
Definition dec_string (n : Z) : string := String.string_of_list_byte (dec_bytes n).

Lemma dec_digits_digits fuel : ∀ n acc, Forall (λ b, 48 <= u8 b <= 57) acc →
  Forall (λ b, 48 <= u8 b <= 57) (dec_digits fuel n acc).
Proof.
  induction fuel as [|f IH]; intros n acc H; simpl; [done|].
  assert (Forall (λ b, 48 <= u8 b <= 57) (of_u8 (48 + n mod 10) :: acc)).
  { constructor; [|done]. rewrite u8_of_u8. pose proof (Z.mod_pos_bound n 10).
    rewrite Z.mod_small; lia. }
  case_match; auto.
Qed.
Lemma dec_bytes_digits n : Forall (λ b, 48 <= u8 b <= 57) (dec_bytes n).
Proof. by apply dec_digits_digits. Qed.
Lemma has_nul_dec_bytes n : has_nul (dec_bytes n) = false.
Proof.
  apply has_nul_false. eapply Forall_impl; [apply dec_bytes_digits|].
  intros b Hb. unfold is_nul. simpl in Hb. lia.
Qed.
Lemma dec_digits_len fuel : ∀ n acc, len (dec_digits fuel n acc) <= Z.of_nat fuel + len acc.
Proof.
  induction fuel as [|f IH]; intros n acc; cbn [dec_digits]; [lia|].
  case_match; [rewrite len_cons; lia|].
  etransitivity; [apply IH|]. rewrite len_cons. lia.
Qed.
Lemma dec_bytes_len n : len (dec_bytes n) <= 20.
Proof. apply (dec_digits_len 20 n []). Qed.

(** ** Bit masks *)

Lemma land_mask_range x m k : 0 <= k → 0 <= m < 2 ^ k → 0 <= Z.land x m < 2 ^ k.
Proof.
  intros Hk Hm. assert (Z.land x m = Z.land x m mod 2 ^ k) as ->.
  { rewrite <- Z.land_ones, <- Z.land_assoc, Z.land_ones, (Z.mod_small m) by lia. done. }
  apply Z.mod_pos_bound. lia.
Qed.
Lemma land_idem x m : Z.land (Z.land x m) m = Z.land x m.
Proof. by rewrite <- Z.land_assoc, Z.land_diag. Qed.
