(* ===== verification/Utf8.v ===== *)
(** * UTF-8 validation: [std::str::from_utf8] and [String::from_utf8]

    The scalar path of the standard library's validator: the first ill-formed
    sequence is reported with its offset and the number of bytes to skip
    ([None] when the input ends inside a sequence). *)
From stdpp Require Import base list numbers strings.
From Stdlib Require Import ZArith Lia.
From S2P Require Import Prelude.
Local Open Scope Z_scope.

Record Utf8Error := mkUtf8Error { valid_up_to : Z; error_len : option Z }.
#[export] Instance Utf8Error_eq_dec : EqDecision Utf8Error.
Proof. solve_decision. Defined.

Definition between (lo hi : Z) (b : byte) : bool := (lo <=? u8 b) && (u8 b <=? hi).
(** A continuation byte ([b as i8 < -64]). *)
Definition is_cont (b : byte) : bool := between 128 191 b.
(** The second byte a three- or four-byte lead admits. *)
Definition second_ok3 (b0 b1 : byte) : bool :=
  (between 224 224 b0 && between 160 191 b1)
  || (between 225 236 b0 && between 128 191 b1)
  || (between 237 237 b0 && between 128 159 b1)
  || (between 238 239 b0 && between 128 191 b1).
Definition second_ok4 (b0 b1 : byte) : bool :=
  (between 240 240 b0 && between 144 191 b1)
  || (between 241 243 b0 && between 128 191 b1)
  || (between 244 244 b0 && between 128 143 b1).

Fixpoint utf8_error (bs : bytes) (off : Z) : option Utf8Error :=
  match bs with
  | [] => None
  | b0 :: t0 =>
      if between 0 127 b0 then utf8_error t0 (off + 1)
      else if between 194 223 b0 then
        match t0 with
        | [] => Some (mkUtf8Error off None)
        | b1 :: t1 =>
            if is_cont b1 then utf8_error t1 (off + 2)
            else Some (mkUtf8Error off (Some 1))
        end
      else if between 224 239 b0 then
        match t0 with
        | [] => Some (mkUtf8Error off None)
        | b1 :: t1 =>
            if second_ok3 b0 b1 then
              match t1 with
              | [] => Some (mkUtf8Error off None)
              | b2 :: t2 =>
                  if is_cont b2 then utf8_error t2 (off + 3)
                  else Some (mkUtf8Error off (Some 2))
              end
            else Some (mkUtf8Error off (Some 1))
        end
      else if between 240 244 b0 then
        match t0 with
        | [] => Some (mkUtf8Error off None)
        | b1 :: t1 =>
            if second_ok4 b0 b1 then
              match t1 with
              | [] => Some (mkUtf8Error off None)
              | b2 :: t2 =>
                  if is_cont b2 then
                    match t2 with
                    | [] => Some (mkUtf8Error off None)
                    | b3 :: t3 =>
                        if is_cont b3 then utf8_error t3 (off + 4)
                        else Some (mkUtf8Error off (Some 3))
                    end
                  else Some (mkUtf8Error off (Some 2))
              end
            else Some (mkUtf8Error off (Some 1))
        end
      else Some (mkUtf8Error off (Some 1))
  end.

Definition valid_utf8 (bs : bytes) : bool :=
  match utf8_error bs 0 with None => true | Some _ => false end.

Definition from_utf8 (bs : bytes) : outcome Utf8Error str :=
  match utf8_error bs 0 with None => Ok bs | Some e => Err e end.

Lemma from_utf8_valid bs : valid_utf8 bs = true → from_utf8 bs = Ok bs.
Proof. unfold valid_utf8, from_utf8. by case_match. Qed.

Lemma from_utf8_Ok_inv bs s : from_utf8 bs = Ok s → s = bs ∧ valid_utf8 bs = true.
Proof. unfold valid_utf8, from_utf8. case_match; naive_solver. Qed.

Lemma returns_from_utf8 bs : returns (from_utf8 bs).
Proof. unfold from_utf8. by case_match. Qed.
#[export] Hint Resolve returns_from_utf8 : wire.

Lemma utf8_error_ascii bs off :
  Forall (λ b, u8 b < 128) bs → utf8_error bs off = None.
Proof.
  intros H. revert off. induction H as [|b bs Hb _ IH]; intros off; [done|].
  simpl. pose proof (u8_range b). unfold between. zif. apply IH.
Qed.

Lemma valid_utf8_ascii bs : Forall (λ b, u8 b < 128) bs → valid_utf8 bs = true.
Proof. intros. unfold valid_utf8. by rewrite utf8_error_ascii. Qed.
