(* ===== verification/StrOps.v ===== *)
(** * The [str] and slice methods the authentication code uses

    Strings are their UTF-8 bytes.  [split], [replace], [strip_prefix],
    [starts_with], the first [char] of a string, [parse::<u32>] and the
    [{:02x}] rendering, with the lemmas that relate splitting to joining and
    replacing to escaping. *)
From stdpp Require Import base list numbers strings.
From Stdlib Require Import ZArith Lia.
From S2P Require Import Prelude Utf8.
Local Open Scope Z_scope.

(** A [char] as the bytes of its UTF-8 encoding. *)
Definition char : Type := bytes.

Definition comma : byte := x2c.
Definition equals : byte := x3d.

(** ** Definitions *)

(** [split]: the pieces between separators, at least one. *)
Fixpoint split_on (sep : byte) (s : bytes) : list bytes :=
  match s with
  | [] => [[]]
  | b :: t =>
      if bool_decide (b = sep) then [] :: split_on sep t
      else match split_on sep t with
           | [] => [[b]]
           | p :: ps => (b :: p) :: ps
           end
  end.

Fixpoint strip_prefix (p s : bytes) : option bytes :=
  match p, s with
  | [], _ => Some s
  | a :: p, b :: s => if bool_decide (a = b) then strip_prefix p s else None
  | _ :: _, [] => None
  end.

Definition starts_with (p s : bytes) : bool :=
  match strip_prefix p s with Some _ => true | None => false end.

(** [replace(pat, to)] for a non-empty pattern: the matches found from left to
    right without overlap; [skip] counts the bytes of the current match still
    to be dropped. *)
Fixpoint replace_from (skip : nat) (pat to : bytes) (s : bytes) : bytes :=
  match s with
  | [] => []
  | b :: t =>
      match skip with
      | S k => replace_from k pat to t
      | O =>
          if starts_with pat s then to ++ replace_from (pred (length pat)) pat to t
          else b :: replace_from 0 pat to t
      end
  end.
Definition replace (pat to s : bytes) : bytes := replace_from 0 pat to s.

(** The first [char] of a valid string and what follows it. *)
Definition next_char (s : str) : option (char * str) :=
  match s with
  | [] => None
  | b :: _ =>
      let w := if u8 b <? 128 then 1 else if u8 b <? 224 then 2
               else if u8 b <? 240 then 3 else 4 in
      Some (takeZ w s, dropZ w s)
  end.

(** [str::parse::<u32>]: an optional [+], at least one digit, no overflow. *)
Definition dec_digit (b : byte) : option Z :=
  if (48 <=? u8 b) && (u8 b <=? 57) then Some (u8 b - 48) else None.
Fixpoint parse_digits (s : bytes) (acc : Z) : option Z :=
  match s with
  | [] => Some acc
  | b :: t =>
      match dec_digit b with
      | None => None
      | Some d =>
          let v := acc * 10 + d in
          if u32_max <? v then None else parse_digits t v
      end
  end.
Definition parse_u32 (s : str) : option Z :=
  match s with
  | [] => None
  | b :: t =>
      if bool_decide (b = x2b) then match t with [] => None | _ => parse_digits t 0 end
      else parse_digits s 0
  end.

(** [format!("{byte:02x}")]. *)
Definition lower_hex_digit (n : Z) : byte := of_u8 (if n <? 10 then 48 + n else 87 + n).
Definition lower_hex (b : byte) : bytes :=
  [lower_hex_digit (u8 b / 16); lower_hex_digit (u8 b mod 16)].

(** [s] does not contain the byte [b]. *)
Definition lacks (b : byte) (s : bytes) : Prop := b ∉ s.

(** ** Lemmas *)

Lemma lacks_nil b : lacks b [].
Proof. apply not_elem_of_nil. Qed.
Lemma lacks_cons b a s : lacks b (a :: s) ↔ b ≠ a ∧ lacks b s.
Proof. apply not_elem_of_cons. Qed.
Lemma lacks_app b s t : lacks b (s ++ t) ↔ lacks b s ∧ lacks b t.
Proof. apply not_elem_of_app. Qed.
Create HintDb lacks discriminated.
#[export] Hint Rewrite lacks_cons lacks_app : lacks.
#[export] Hint Resolve lacks_nil : wire.

Lemma split_on_lacks sep s : lacks sep s → split_on sep s = [s].
Proof.
  induction s as [|b t IH]; [done|]. rewrite lacks_cons. intros [? H]. simpl.
  rewrite bool_decide_false, IH by done. done.
Qed.

Lemma split_on_app sep s t : lacks sep s →
  split_on sep (s ++ sep :: t) = s :: split_on sep t.
Proof.
  induction s as [|b s IH]; simpl; intros H.
  - by rewrite bool_decide_true.
  - apply lacks_cons in H as [? H]. rewrite bool_decide_false, IH by done. done.
Qed.

(** Splitting recovers the pieces that were joined. *)
Fixpoint join_with (sep : byte) (ps : list bytes) : bytes :=
  match ps with
  | [] => []
  | [p] => p
  | p :: ps => p ++ sep :: join_with sep ps
  end.

Lemma split_join sep ps : ps ≠ [] → Forall (lacks sep) ps → split_on sep (join_with sep ps) = ps.
Proof.
  induction ps as [|p ps IH]; [done|]. intros _ H. inversion_clear H as [|?? Hp Hps].
  destruct ps as [|q ps].
  - by apply split_on_lacks.
  - change (split_on sep (p ++ sep :: join_with sep (q :: ps)) = p :: q :: ps).
    rewrite split_on_app by done. by rewrite IH.
Qed.

Lemma join_split sep s : join_with sep (split_on sep s) = s ∧ split_on sep s ≠ []
  ∧ Forall (lacks sep) (split_on sep s).
Proof.
  induction s as [|b t (IH & Hne & Hl)]; simpl.
  { split_and!; [done|done|]. constructor; auto with wire. }
  case_bool_decide as Hb.
  - subst b. destruct (split_on sep t) as [|p ps] eqn:E; [done|]. split_and!.
    + simpl. f_equal. exact IH.
    + done.
    + constructor; [apply lacks_nil|done].
  - destruct (split_on sep t) as [|p ps] eqn:E; [done|]. split_and!; [|done|].
    + destruct ps; simpl in *; by rewrite <- IH.
    + inversion_clear Hl. constructor; [by apply lacks_cons|done].
Qed.

Lemma strip_prefix_Some p s t : strip_prefix p s = Some t ↔ s = p ++ t.
Proof.
  revert s. induction p as [|a p IH]; intros [|b s]; simpl; try naive_solver.
  case_bool_decide; [subst; rewrite IH|]; naive_solver.
Qed.

Lemma strip_prefix_app p t : strip_prefix p (p ++ t) = Some t.
Proof. by apply strip_prefix_Some. Qed.

Lemma starts_with_app p t : starts_with p (p ++ t) = true.
Proof. unfold starts_with. by rewrite strip_prefix_app. Qed.

Lemma starts_with_true p s : starts_with p s = true ↔ ∃ t, s = p ++ t.
Proof.
  unfold starts_with. destruct (strip_prefix p s) as [t|] eqn:E.
  - apply strip_prefix_Some in E. naive_solver.
  - split; [done|]. intros [t ->]. by rewrite strip_prefix_app in E.
Qed.

(** The first byte of a key that is plain ASCII is its first [char]. *)
Lemma next_char_ascii b s : u8 b < 128 → next_char (b :: s) = Some ([b], s).
Proof. intros. simpl. zif. reflexivity. Qed.

Lemma parse_digits_app s t acc : ∀ v, parse_digits s acc = Some v →
  parse_digits (s ++ t) acc = parse_digits t v.
Proof.
  revert acc. induction s as [|b s IH]; simpl; intros acc v H; [by simplify_eq|].
  destruct (dec_digit b); [|done]. case_match; [done|]. by apply IH.
Qed.

Lemma dec_digit_of d : 0 <= d < 10 → dec_digit (of_u8 (48 + d)) = Some d.
Proof.
  intros. unfold dec_digit. rewrite u8_of_u8, Z.mod_small by lia. zif. f_equal. lia.
Qed.

Lemma parse_digits_dec fuel : ∀ n acc, 0 <= n <= u32_max → n < 10 ^ Z.of_nat fuel → (0 < fuel)%nat →
  parse_digits (dec_digits fuel n acc) 0 = parse_digits acc n.
Proof.
  induction fuel as [|f IH]; intros n acc Hn Hf Hp; [lia|]. cbn [dec_digits].
  pose proof (Z.mod_pos_bound n 10 ltac:(lia)). pose proof (Z.div_mod n 10 ltac:(lia)).
  destruct (n <? 10) eqn:E.
  - cbn [parse_digits]. rewrite dec_digit_of by lia. rewrite Z.mod_small by lia. zif.
    f_equal; lia.
  - rewrite Nat2Z.inj_succ, Z.pow_succ_r in Hf by lia.
    rewrite IH; [|split; [apply Z.div_pos; lia|]|apply Z.div_lt_upper_bound; lia|].
    + cbn [parse_digits]. rewrite dec_digit_of by lia. zif. f_equal; lia.
    + etransitivity; [apply Z.div_le_upper_bound with (q := n); lia|lia].
    + destruct f; [simpl in Hf; lia|lia].
Qed.

Lemma dec_digits_grows f : ∀ n acc, len acc <= len (dec_digits f n acc).
Proof.
  induction f as [|f IH]; intros n acc; cbn [dec_digits]; [lia|].
  destruct (n <? 10); [len_tac; lia|].
  pose proof (IH (n / 10) (of_u8 (48 + n mod 10) :: acc)). len_tac; lia.
Qed.
Lemma dec_bytes_nonempty n : dec_bytes n ≠ [].
Proof.
  unfold dec_bytes. change 20%nat with (S 19). generalize 19%nat. intros f E.
  cbn [dec_digits] in E. destruct (n <? 10); [done|].
  pose proof (dec_digits_grows f (n / 10) [of_u8 (48 + n mod 10)]) as H.
  rewrite E in H. len_tac; lia.
Qed.

(** Rendering and parsing a [u32]. *)
Lemma parse_u32_dec n : in_u32 n → parse_u32 (dec_bytes n) = Some n.
Proof.
  intros Hn. unfold_ranges. pose proof (dec_bytes_digits n) as Hd.
  assert (parse_digits (dec_bytes n) 0 = Some n) as Hp.
  { unfold dec_bytes. rewrite parse_digits_dec; [done| | |lia];
      [|change (10 ^ Z.of_nat 20) with 100000000000000000000]; unfold_ranges; lia. }
  pose proof (dec_bytes_nonempty n) as Hne.
  destruct (dec_bytes n) as [|b t]; [done|]. unfold parse_u32. rewrite bool_decide_false; [done|].
  inversion_clear Hd. intros ->. change (u8 x2b) with 43 in *. lia.
Qed.

Lemma lacks_dec_bytes b n : u8 b < 48 → lacks b (dec_bytes n).
Proof.
  intros Hb Hin. pose proof (dec_bytes_digits n) as Hd. rewrite Forall_forall in Hd.
  apply Hd in Hin. simpl in Hin. lia.
Qed.

(** Replacing one byte is a byte-wise substitution. *)
Lemma replace_byte c to s :
  replace [c] to s = concat ((λ b, if bool_decide (b = c) then to else [b]) <$> s).
Proof.
  induction s as [|b t IH]; [done|]. unfold replace in *. cbn [replace_from].
  unfold starts_with. cbn [strip_prefix fmap list_fmap concat].
  destruct (decide (b = c)) as [->|Hb].
  - rewrite !bool_decide_true by done. cbn [length pred]. by rewrite IH.
  - rewrite !bool_decide_false by congruence. by rewrite IH.
Qed.
Lemma replace_byte_nil c to : replace [c] to [] = [].
Proof. done. Qed.
Lemma replace_byte_cons c to b s :
  replace [c] to (b :: s) = (if bool_decide (b = c) then to else [b]) ++ replace [c] to s.
Proof. by rewrite !replace_byte. Qed.
Lemma replace_byte_app c to s t : replace [c] to (s ++ t) = replace [c] to s ++ replace [c] to t.
Proof. by rewrite !replace_byte, fmap_app, concat_app. Qed.

(** A pattern is replaced where it stands ... *)
Lemma replace_match p pat to s : replace (p :: pat) to ((p :: pat) ++ s) = to ++ replace (p :: pat) to s.
Proof.
  unfold replace. cbn [app replace_from].
  change (p :: pat ++ s) with ((p :: pat) ++ s). rewrite starts_with_app. cbn [length pred].
  f_equal. generalize (p :: pat) as full. intros full.
  assert (∀ q, replace_from (length q) full to (q ++ s) = replace_from 0 full to s) as Hskip.
  { induction q as [|a q IH]; [done|]. cbn. exact IH. }
  apply Hskip.
Qed.
(** ... and bytes that do not start it are kept. *)
Lemma replace_other p pat to b s : b ≠ p → replace (p :: pat) to (b :: s) = b :: replace (p :: pat) to s.
Proof.
  intros. unfold replace. cbn [replace_from]. unfold starts_with. cbn [strip_prefix].
  by rewrite bool_decide_false by congruence.
Qed.
