(* ===== verification/Io.v ===== *)
(** * Protocol IO: [mongo_common/src/io.rs]

    [ProtocolRead for &'a [u8]] is a cursor: a reader takes the remaining
    bytes and, on success, returns the value and the advanced cursor.
    [ProtocolWrite for Vec<u8>/BytesMut] appends to, or patches, a buffer. *)
From stdpp Require Import base list numbers strings.
From Stdlib Require Import ZArith Lia.
From S2P Require Import Prelude.
Local Open Scope Z_scope.

(** [ReadError] and [WriteError]. *)
Inductive ReadError :=
| ReadError_ShortInput (needed got : Z)
| ReadError_Invalid (reason : string).
Inductive WriteError := WriteError_NulInString.

(** ** Readers *)

(** A cursor-advancing read with error type [E]. *)
Definition reader (E A : Type) : Type := bytes → outcome E (A * bytes).

Definition rret {E A} (a : A) : reader E A := λ r, Ok (a, r).
Definition rfail {E A} (e : E) : reader E A := λ _, Err e.
Definition rbind {E A B} (m : reader E A) (k : A → reader E B) : reader E B :=
  λ r, let* '(a, r') := m r in k a r'.
Definition rmap_err {E F A} (f : E → F) (m : reader E A) : reader F A :=
  λ r, map_err f (m r).
(** A computation that does not touch the cursor. *)
Definition rlift {E A} (m : outcome E A) : reader E A :=
  λ r, let* a := m in Ok (a, r).

Notation "'do' x <- m ; k" := (rbind m (fun x => k))
  (at level 10, x name, m at level 100, k at level 200) : wire_scope.

Section ProtocolRead.
(** [read_bytes(n)]. *)
Definition read_bytes (n : Z) : reader ReadError bytes := λ r,
  if len r <? n then Err (ReadError_ShortInput n (len r))
  else Ok (takeZ n r, dropZ n r).

(** [remaining()]. *)
Definition remaining (r : bytes) : Z := len r.

(** [peek_i32_le()]: does not advance. *)
Definition peek_i32_le (r : bytes) : outcome ReadError Z :=
  if len r <? 4 then Err (ReadError_ShortInput 4 (len r))
  else
    let* b0 := index r 0 in let* b1 := index r 1 in
    let* b2 := index r 2 in let* b3 := index r 3 in
    Ok (i32_of_le [b0; b1; b2; b3]).

(** [read_u8()]. *)
Definition read_u8 : reader ReadError byte :=
  do b <- read_bytes 1; rlift (index b 0).

(** [[b[0], …, b[n-1]]]: the array the integer readers build by indexing. *)
Fixpoint indices (n : nat) (i : Z) (b : bytes) : outcome ReadError bytes :=
  match n with
  | O => Ok []
  | S m => let* x := index b i in let* t := indices m (i + 1) b in Ok (x :: t)
  end.

Definition read_i32_le : reader ReadError Z :=
  do b <- read_bytes 4; do a <- rlift (indices 4 0 b); rret (i32_of_le a).
Definition read_u32_le : reader ReadError Z :=
  do b <- read_bytes 4; do a <- rlift (indices 4 0 b); rret (u32_of_le a).
Definition read_i64_le : reader ReadError Z :=
  do b <- read_bytes 8; do a <- rlift (indices 8 0 b); rret (i64_of_le a).
Definition read_u64_le : reader ReadError Z :=
  do b <- read_bytes 8; do a <- rlift (indices 8 0 b); rret (u64_of_le a).

(** [read_cstring()]. *)
Definition read_cstring : reader ReadError bytes := λ r,
  match position is_nul r with
  | Some pos => Ok (takeZ pos r, dropZ 1 (dropZ pos r))
  | None => Err (ReadError_ShortInput (len r + 1) (len r))
  end.
End ProtocolRead.

(** ** Writers *)
Section ProtocolWrite.
Definition put_bytes (out b : bytes) : bytes := out ++ b.
Definition put_u8 (out : bytes) (v : Z) : bytes := out ++ [of_u8 v].
(** [put_u8_at(pos, v)]: panics out of range. *)
Definition put_u8_at {E} (out : bytes) (pos : Z) (v : byte) : outcome E bytes :=
  set_index out pos v.
Definition put_i32_le (out : bytes) (v : Z) : bytes := put_bytes out (le_encode 4 v).
Definition put_u32_le (out : bytes) (v : Z) : bytes := put_bytes out (le_encode 4 v).
Definition put_i64_le (out : bytes) (v : Z) : bytes := put_bytes out (le_encode 8 v).
Definition put_u64_le (out : bytes) (v : Z) : bytes := put_bytes out (le_encode 8 v).
Definition put_cstring (out : bytes) (s : str) : outcome WriteError bytes :=
  if has_nul s then Err WriteError_NulInString else Ok (put_u8 (put_bytes out s) 0).
(** [placeholder_i32()]: the offset and the extended buffer. *)
Definition placeholder_i32 (out : bytes) : Z * bytes :=
  (len out, put_bytes out [x00; x00; x00; x00]).
Definition put_i32_le_at {E} (out : bytes) (pos v : Z) : outcome E bytes :=
  let b := le_encode 4 v in
  let* b0 := index b 0 in let* out := put_u8_at out pos b0 in
  let* b1 := index b 1 in let* out := put_u8_at out (pos + 1) b1 in
  let* b2 := index b 2 in let* out := put_u8_at out (pos + 2) b2 in
  let* b3 := index b 3 in put_u8_at out (pos + 3) b3.
End ProtocolWrite.

(** ** Laws of the readers *)

Definition reader_returns {E A} (m : reader E A) : Prop := ∀ r, returns (m r).
(** [m] consumes exactly [enc] and yields [v], whatever follows. *)
Definition parses {E A} (m : reader E A) (enc : bytes) (v : A) : Prop :=
  ∀ rest, m (enc ++ rest) = Ok (v, rest).

Section ReaderLemmas.
Context {E : Type}.

Lemma rbind_Ok_inv {A B} (m : reader E A) (k : A → reader E B) r b r' :
  rbind m k r = Ok (b, r') → ∃ a r1, m r = Ok (a, r1) ∧ k a r1 = Ok (b, r').
Proof. unfold rbind. intros ([a r1] & ? & ?)%bind_Ok_inv. eauto. Qed.

Lemma rmap_err_Ok_inv {F A} (f : E → F) (m : reader E A) r x :
  rmap_err f m r = Ok x → m r = Ok x.
Proof. apply map_err_Ok_inv. Qed.

Lemma rlift_Ok_inv {A} (m : outcome E A) r a r' :
  rlift m r = Ok (a, r') → m = Ok a ∧ r' = r.
Proof. unfold rlift. intros. by inv_ok. Qed.

Lemma rret_Ok_inv {A} (a a' : A) (r r' : bytes) :
  @rret E A a r = Ok (a', r') → a' = a ∧ r' = r.
Proof. unfold rret. naive_solver. Qed.

(** Running a bind whose first step is known. *)
Lemma rbind_eq {A B} (m : reader E A) (k : A → reader E B) r a r' :
  m r = Ok (a, r') → rbind m k r = k a r'.
Proof. intros H. unfold rbind. by rewrite H. Qed.
Lemma rbind_ret {A B} (a : A) (k : A → reader E B) r : rbind (rret a) k r = k a r.
Proof. done. Qed.
Lemma rbind_lift_Ok {A B} (a : A) (k : A → reader E B) r : rbind (rlift (Ok a)) k r = k a r.
Proof. done. Qed.

Lemma reader_returns_bind {A B} (m : reader E A) (k : A → reader E B) :
  reader_returns m → (∀ a r r', m r = Ok (a, r') → returns (k a r')) →
  reader_returns (rbind m k).
Proof.
  intros Hm Hk r. apply returns_bind; [apply Hm|]. intros [a r'] H. eauto.
Qed.
Lemma reader_returns_map_err {F A} (f : E → F) (m : reader E A) :
  reader_returns m → reader_returns (rmap_err f m).
Proof. intros H r. apply returns_map_err, H. Qed.
Lemma reader_returns_ret {A} (a : A) : reader_returns (@rret E A a).
Proof. done. Qed.
Lemma reader_returns_fail {A} (e : E) : reader_returns (@rfail E A e).
Proof. done. Qed.
Lemma reader_returns_lift {A} (m : outcome E A) : returns m → reader_returns (rlift m).
Proof. intros H r. unfold rlift. by destruct m. Qed.

Lemma parses_ret {A} (a : A) : parses (@rret E A a) [] a.
Proof. intros rest. done. Qed.
Lemma parses_bind {A B} (m : reader E A) (k : A → reader E B) e1 e2 a b :
  parses m e1 a → parses (k a) e2 b → parses (rbind m k) (e1 ++ e2) b.
Proof.
  intros H1 H2 rest. unfold rbind. rewrite <- app_assoc, H1. simpl. apply H2.
Qed.
Lemma parses_map_err {F A} (f : E → F) (m : reader E A) e a :
  parses m e a → parses (rmap_err f m) e a.
Proof. intros H rest. unfold rmap_err. by rewrite H. Qed.
Lemma parses_bind_nil {A B} (m : reader E A) (k : A → reader E B) e a b :
  parses m e a → parses (k a) [] b → parses (rbind m k) e b.
Proof. intros H1 H2. rewrite <- (app_nil_r e). by eapply parses_bind. Qed.
Lemma parses_bind_skip {A B} (m : reader E A) (k : A → reader E B) e a b :
  parses m [] a → parses (k a) e b → parses (rbind m k) e b.
Proof. intros H1 H2. change e with ([] ++ e). by eapply parses_bind. Qed.
Lemma parses_lift {A} (m : outcome E A) a : m = Ok a → parses (rlift m) [] a.
Proof. intros -> rest. done. Qed.
End ReaderLemmas.

#[export] Hint Resolve reader_returns_map_err reader_returns_ret reader_returns_fail
  reader_returns_lift : wire.

(** Invert a successful run of a reader. *)
Ltac inv_read :=
  repeat match goal with
  | H : rbind _ _ _ = Ok _ |- _ =>
      let a := fresh "a" in let r := fresh "r" in let H1 := fresh "Hr" in let H2 := fresh "Hr" in
      apply rbind_Ok_inv in H as (a & r & H1 & H2)
  | H : rmap_err _ _ _ = Ok _ |- _ => apply rmap_err_Ok_inv in H
  | H : rlift _ _ = Ok _ |- _ => apply rlift_Ok_inv in H as [? ?]
  | H : rret _ _ = Ok _ |- _ => apply rret_Ok_inv in H as [? ?]
  | H : rfail _ _ = Ok _ |- _ => discriminate H
  | H : Ok _ = Ok _ |- _ => injection H; clear H; intros; subst
  | H : (if ?c then _ else _) _ = Ok _ |- _ =>
      let Hc := fresh "Hc" in destruct c eqn:Hc
  end; subst.

Lemma read_bytes_Ok_inv n r b r' : 0 <= n →
  read_bytes n r = Ok (b, r') → r = b ++ r' ∧ len b = n.
Proof.
  unfold read_bytes. intros Hn H. inv_ok. zbool.
  rewrite take_dropZ, len_takeZ by lia. done.
Qed.
Lemma parses_read_bytes n b : len b = n → parses (read_bytes n) b b.
Proof.
  intros <- rest. unfold read_bytes. len_tac. zif.
  by rewrite takeZ_app, dropZ_app.
Qed.
Lemma returns_read_bytes n : reader_returns (read_bytes n).
Proof. intros r. unfold read_bytes. by case_match. Qed.

Lemma indices_drop n i b : 0 <= i → i + Z.of_nat n <= len b →
  indices n i b = Ok (takeZ (Z.of_nat n) (dropZ i b)).
Proof.
  revert i. induction n as [|n IH]; intros i Hi Hl; [done|]. simpl indices.
  destruct (get_lt b i) as [x Hx]; [lia|].
  unfold index at 1. rewrite Hx. simpl. rewrite IH by lia. simpl.
  rewrite (get_dropZ _ _ _ Hx). unfold takeZ.
  replace (Z.to_nat (Z.of_nat n)) with n by lia.
  by replace (Z.to_nat (Z.of_nat (S n))) with (S n) by lia.
Qed.
Lemma indices_all n b : len b = Z.of_nat n → indices n 0 b = Ok b.
Proof.
  intros. rewrite indices_drop by lia. rewrite dropZ_0, takeZ_all by lia. done.
Qed.

Lemma index_singleton (b : byte) : @index ReadError _ [b] 0 = Ok b.
Proof. done. Qed.

Lemma len1_inv {A} (l : list A) : len l = 1 → ∃ x, l = [x].
Proof.
  destruct l as [|x [|y l]]; [done|eauto|]. rewrite !len_cons. len_tac.
Qed.

Lemma read_u8_Ok_inv r b r' : read_u8 r = Ok (b, r') → r = b :: r'.
Proof.
  unfold read_u8. intros. inv_read. apply read_bytes_Ok_inv in Hr as [-> Hl]; [|done].
  apply len1_inv in Hl as [x ->]. rewrite index_singleton in H. by simplify_eq.
Qed.
Lemma parses_read_u8 b : parses read_u8 [b] b.
Proof.
  unfold read_u8. eapply parses_bind_nil; [by apply parses_read_bytes|].
  by apply parses_lift.
Qed.
Lemma returns_read_u8 : reader_returns read_u8.
Proof.
  apply reader_returns_bind; [apply returns_read_bytes|]. intros b r r' H.
  apply read_bytes_Ok_inv in H as [-> Hl]; [|done]. by apply len1_inv in Hl as [x ->].
Qed.

(** The integer readers share one shape. *)
Definition read_le (n : nat) (f : bytes → Z) : reader ReadError Z :=
  do b <- read_bytes (Z.of_nat n); do a <- rlift (indices n 0 b); rret (f a).
Lemma read_le_Ok_inv n f r z r' : read_le n f r = Ok (z, r') →
  ∃ b, r = b ++ r' ∧ len b = Z.of_nat n ∧ z = f b.
Proof.
  unfold read_le. intros. inv_read. apply read_bytes_Ok_inv in Hr as [-> Hl]; [|lia].
  rewrite indices_all in H by done. inv_ok. eauto.
Qed.
Lemma parses_read_le n f b : len b = Z.of_nat n → parses (read_le n f) b (f b).
Proof.
  intros. unfold read_le. eapply parses_bind_nil; [by apply parses_read_bytes|].
  eapply parses_bind_nil; [by apply parses_lift, indices_all|]. apply parses_ret.
Qed.
Lemma returns_read_le n f : reader_returns (read_le n f).
Proof.
  apply reader_returns_bind; [apply returns_read_bytes|]. intros b r r' H.
  apply read_bytes_Ok_inv in H as [-> Hl]; [|lia].
  unfold rbind, rlift. by rewrite indices_all.
Qed.

Lemma read_i32_le_eq : read_i32_le = read_le 4 i32_of_le.
Proof. done. Qed.
Lemma read_u32_le_eq : read_u32_le = read_le 4 u32_of_le.
Proof. done. Qed.
Lemma read_i64_le_eq : read_i64_le = read_le 8 i64_of_le.
Proof. done. Qed.
Lemma read_u64_le_eq : read_u64_le = read_le 8 u64_of_le.
Proof. done. Qed.

Lemma parses_read_i32 z : in_i32 z → parses read_i32_le (le_encode 4 z) z.
Proof.
  intros. rewrite read_i32_le_eq. rewrite <- (i32_of_le_encode z) at 2 by done.
  by apply parses_read_le.
Qed.
Lemma parses_read_u32 z : in_u32 z → parses read_u32_le (le_encode 4 z) z.
Proof.
  intros. rewrite read_u32_le_eq. rewrite <- (u32_of_le_encode z) at 2 by done.
  by apply parses_read_le.
Qed.
Lemma parses_read_i64 z : in_i64 z → parses read_i64_le (le_encode 8 z) z.
Proof.
  intros. rewrite read_i64_le_eq. rewrite <- (i64_of_le_encode z) at 2 by done.
  by apply parses_read_le.
Qed.

Lemma read_i32_Ok_inv r z r' : read_i32_le r = Ok (z, r') →
  r = le_encode 4 z ++ r' ∧ in_i32 z.
Proof.
  rewrite read_i32_le_eq. intros (b & -> & Hb & ->)%read_le_Ok_inv.
  rewrite i32_encode_of_le by done. by split; [|apply i32_of_le_range].
Qed.
Lemma read_u32_Ok_inv r z r' : read_u32_le r = Ok (z, r') →
  r = le_encode 4 z ++ r' ∧ in_u32 z.
Proof.
  rewrite read_u32_le_eq. intros (b & -> & Hb & ->)%read_le_Ok_inv.
  unfold u32_of_le at 1. rewrite le_encode_decode_len by done.
  by split; [|apply u32_of_le_range].
Qed.
Lemma read_i64_Ok_inv r z r' : read_i64_le r = Ok (z, r') →
  r = le_encode 8 z ++ r' ∧ in_i64 z.
Proof.
  rewrite read_i64_le_eq. intros (b & -> & Hb & ->)%read_le_Ok_inv.
  rewrite i64_encode_of_le by done. by split; [|apply i64_of_le_range].
Qed.

Lemma read_cstring_Ok_inv r s r' : read_cstring r = Ok (s, r') →
  r = s ++ x00 :: r' ∧ has_nul s = false.
Proof.
  unfold read_cstring. case_match; [|done]. intros. inv_ok.
  apply position_Some in H as (l1 & x & l2 & -> & <- & Hx & Hall).
  rewrite takeZ_app, dropZ_app by done. unfold dropZ. simpl.
  apply is_nul_x00 in Hx as ->. by rewrite has_nul_false.
Qed.
Lemma parses_read_cstring s : has_nul s = false → parses read_cstring (s ++ [x00]) s.
Proof.
  intros Hs%has_nul_false rest. unfold read_cstring. rewrite <- app_assoc. simpl.
  rewrite position_app by done. by rewrite takeZ_app, dropZ_app.
Qed.
Lemma returns_read_cstring : reader_returns read_cstring.
Proof. intros r. unfold read_cstring. by case_match. Qed.

Lemma peek_i32_le_eq r : 4 <= len r → peek_i32_le r = Ok (i32_of_le (takeZ 4 r)).
Proof.
  intros. unfold peek_i32_le. zif.
  destruct r as [|b0 [|b1 [|b2 [|b3 r]]]]; autorewrite with len in *; try lia. done.
Qed.
Lemma returns_peek_i32_le r : returns (peek_i32_le r).
Proof.
  destruct (decide (len r < 4)).
  - unfold peek_i32_le. by zif.
  - rewrite peek_i32_le_eq by lia. done.
Qed.

(** Turn every successful primitive read into an equation on its input. *)
Ltac inv_prim :=
  repeat match goal with
  | H : read_u32_le _ = Ok _ |- _ => apply read_u32_Ok_inv in H as [-> ?]
  | H : read_i32_le _ = Ok _ |- _ => apply read_i32_Ok_inv in H as [-> ?]
  | H : read_i64_le _ = Ok _ |- _ => apply read_i64_Ok_inv in H as [-> ?]
  | H : read_u8 _ = Ok _ |- _ => apply read_u8_Ok_inv in H as ->
  | H : read_cstring _ = Ok _ |- _ => apply read_cstring_Ok_inv in H as [-> ?]
  | H : read_bytes _ _ = Ok _ |- _ =>
      apply read_bytes_Ok_inv in H as [-> ?]; [|unfold_ranges; lia]
  end.

#[export] Hint Resolve returns_read_bytes returns_read_u8 returns_read_cstring
  returns_peek_i32_le : wire.
#[export] Hint Extern 1 (reader_returns read_i32_le) => exact (returns_read_le 4 i32_of_le) : wire.
#[export] Hint Extern 1 (reader_returns read_u32_le) => exact (returns_read_le 4 u32_of_le) : wire.
#[export] Hint Extern 1 (reader_returns read_i64_le) => exact (returns_read_le 8 i64_of_le) : wire.

(** Show that a reader built from the combinators returns. *)
Ltac returns_tac :=
  repeat first
    [ progress intros
    | match goal with
      | |- reader_returns (rbind _ _) => apply reader_returns_bind
      | |- reader_returns (if ?c then _ else _) => destruct c
      | |- reader_returns (match ?x with _ => _ end) => destruct x
      | |- returns ((if ?c then _ else _) _) => destruct c
      | |- returns (if ?c then _ else _) => destruct c eqn:?
      | |- returns (match ?x with _ => _ end) => destruct x eqn:?
      | |- returns ((match ?x with _ => _ end) _) => destruct x eqn:?
      | |- returns (rbind ?m ?k ?r) => apply (reader_returns_bind m k)
      | |- returns (bind _ _) => apply returns_bind
      | |- returns (map_err _ _) => apply returns_map_err
      | |- returns (rlift ?m ?r) => apply (reader_returns_lift m)
      | |- returns (rret _ _) => exact I
      | |- returns (rfail _ _) => exact I
      | |- returns (rmap_err ?f ?m ?r) => apply (reader_returns_map_err f m)
      | |- returns (read_bytes ?n ?r) => apply (returns_read_bytes n)
      | |- returns (read_cstring ?r) => apply returns_read_cstring
      | |- returns (read_u8 ?r) => apply returns_read_u8
      | |- returns (read_u32_le ?r) => apply (returns_read_le 4 u32_of_le)
      | |- returns (read_i32_le ?r) => apply (returns_read_le 4 i32_of_le)
      | |- returns (read_i64_le ?r) => apply (returns_read_le 8 i64_of_le)
      | |- returns (Ok _) => exact I
      | |- returns (Err _) => exact I
      end
    | solve [eauto 3 with wire] ].

(** ** Laws of the writers *)

Lemma set_index_app {E A} (l1 l2 : list A) x y :
  @set_index E A (l1 ++ x :: l2) (len l1) y = Ok (l1 ++ y :: l2).
Proof.
  unfold set_index. len_tac. zif. unfold len. rewrite Nat2Z.id.
  by rewrite insert_app_r_alt, Nat.sub_diag by lia.
Qed.

(** Patching a reserved placeholder overwrites exactly its four bytes. *)
Lemma put_i32_le_at_app {E} (l1 l2 : bytes) a b c d v :
  @put_i32_le_at E (l1 ++ a :: b :: c :: d :: l2) (len l1) v = Ok (l1 ++ le_encode 4 v ++ l2).
Proof.
  change (le_encode 4 v) with
    [of_u8 v; of_u8 (v / 256); of_u8 (v / 256 / 256); of_u8 (v / 256 / 256 / 256)].
  unfold put_i32_le_at, put_u8_at.
  change (le_encode 4 v) with
    [of_u8 v; of_u8 (v / 256); of_u8 (v / 256 / 256); of_u8 (v / 256 / 256 / 256)].
  simpl. rewrite set_index_app. simpl.
  rewrite (cons_middle _ l1), app_assoc.
  replace (len l1 + 1) with (len (l1 ++ [of_u8 v])) by len_tac.
  rewrite set_index_app. simpl. rewrite (cons_middle _ (l1 ++ _)), app_assoc.
  replace (len l1 + 2) with (len ((l1 ++ [of_u8 v]) ++ [of_u8 (v / 256)])) by len_tac.
  rewrite set_index_app. simpl. rewrite (cons_middle _ ((l1 ++ _) ++ _)), app_assoc.
  match goal with |- context [set_index (?l ++ d :: l2) _ _] =>
    replace (len l1 + 3) with (len l) by len_tac end.
  rewrite set_index_app. simpl. by rewrite <- !app_assoc.
Qed.
