(* ===== verification/Consts.v ===== *)
(** * Protocol constants: [mongo_common/src/consts.rs] and the BSON element
    tags of [mongo_common/src/bson/scalar.rs]. *)
From Stdlib Require Import ZArith.
From S2P Require Import Prelude.
Local Open Scope Z_scope.

(** ** Limits *)
Definition MSG_HEADER_LEN : Z := 16.
Definition MAX_MSG_LEN : Z := 48000000.
Definition MAX_BSON_LEN : Z := 16777216.

(** ** [opcodes] *)
Definition OP_REPLY : Z := 1.
Definition OP_UPDATE : Z := 2001.
Definition OP_INSERT : Z := 2002.
Definition OP_RESERVED : Z := 2003.
Definition OP_QUERY : Z := 2004.
Definition OP_GET_MORE : Z := 2005.
Definition OP_DELETE : Z := 2006.
Definition OP_KILL_CURSORS : Z := 2007.
Definition OP_COMPRESSED : Z := 2012.
Definition OP_MSG : Z := 2013.

(** ** [msg_flags] *)
Definition CHECKSUM_PRESENT : Z := Z.shiftl 1 0.
Definition MORE_TO_COME : Z := Z.shiftl 1 1.
Definition EXHAUST_ALLOWED : Z := Z.shiftl 1 16.

(** ** [query_flags] *)
Definition TAILABLE_CURSOR : Z := Z.shiftl 1 1.
Definition SLAVE_OK : Z := Z.shiftl 1 2.
Definition OPLOG_REPLAY : Z := Z.shiftl 1 3.
Definition NO_CURSOR_TIMEOUT : Z := Z.shiftl 1 4.
Definition AWAIT_DATA : Z := Z.shiftl 1 5.
Definition EXHAUST : Z := Z.shiftl 1 6.
Definition PARTIAL : Z := Z.shiftl 1 7.

(** ** [reply_flags] *)
Definition CURSOR_NOT_FOUND : Z := Z.shiftl 1 0.
Definition QUERY_FAILURE : Z := Z.shiftl 1 1.
Definition SHARD_CONFIG_STALE : Z := Z.shiftl 1 2.
Definition AWAIT_CAPABLE : Z := Z.shiftl 1 3.

(** ** [compressor_ids] *)
Definition NOOP : Z := 0.
Definition SNAPPY : Z := 1.
Definition ZLIB : Z := 2.
Definition ZSTD : Z := 3.
Definition FIRST_RESERVED : Z := 4.

(** ** BSON element tags *)
Definition TAG_DOUBLE : Z := 1.
Definition TAG_STRING : Z := 2.
Definition TAG_DOCUMENT : Z := 3.
Definition TAG_ARRAY : Z := 4.
Definition TAG_BINARY : Z := 5.
Definition TAG_UNDEFINED : Z := 6.
Definition TAG_OBJECT_ID : Z := 7.
Definition TAG_BOOL : Z := 8.
Definition TAG_DATE_TIME : Z := 9.
Definition TAG_NULL : Z := 10.
Definition TAG_REGEX : Z := 11.
Definition TAG_DB_POINTER : Z := 12.
Definition TAG_JAVASCRIPT : Z := 13.
Definition TAG_SYMBOL : Z := 14.
Definition TAG_JAVASCRIPT_SCOPE : Z := 15.
Definition TAG_INT32 : Z := 16.
Definition TAG_TIMESTAMP : Z := 17.
Definition TAG_INT64 : Z := 18.
Definition TAG_DECIMAL128 : Z := 19.
Definition TAG_MIN_KEY : Z := 255.
Definition TAG_MAX_KEY : Z := 127.

Definition MIN_DOC_LEN : Z := 5.
(** [wirebson::MAX_NESTING_DEPTH]. *)
Definition MAX_NESTING_DEPTH : Z := 20.
