(* ===== verification/BsonScalar.v ===== *)
(** * BSON scalars: [mongo_common/src/bson/scalar.rs] *)
From stdpp Require Import base list numbers strings.
From Stdlib Require Import ZArith Lia.
From S2P Require Import Prelude Utf8 Io Consts.
Local Open Scope Z_scope.

(** ** Types *)

(** An [f64] is carried as its 64-bit pattern: [from_le_bytes]/[to_le_bytes]
    preserve every bit, NaN payloads included. *)
Abbreviation f64 := Z.

(** [struct ObjectId([u8; 12])]: the twelve bytes. *)
Abbreviation ObjectId := (list byte).
(** [struct Decimal128([u8; 16])]. *)
Abbreviation Decimal128 := (list byte).

Record Timestamp := mkTimestamp { seconds : Z; increment : Z }.
Record Regex := mkRegex { pattern : str; options : str }.

Inductive BinarySubtype :=
| BinarySubtype_Generic
| BinarySubtype_Function
| BinarySubtype_BinaryOld
| BinarySubtype_UuidOld
| BinarySubtype_Uuid
| BinarySubtype_Md5
| BinarySubtype_Encrypted
| BinarySubtype_UserDefined (b : byte).

Record Binary := mkBinary { subtype : BinarySubtype; binary_bytes : bytes }.
Record DbPointer := mkDbPointer { namespace : str; pointer_id : ObjectId }.

Inductive Scalar :=
| Scalar_Double (v : f64)
| Scalar_String (v : str)
| Scalar_Binary (b : Binary)
| Scalar_Undefined
| Scalar_ObjectId (v : ObjectId)
| Scalar_Bool (v : bool)
| Scalar_DateTime (v : Z)
| Scalar_Null
| Scalar_Regex (r : Regex)
| Scalar_DbPointer (p : DbPointer)
| Scalar_JavaScript (v : str)
| Scalar_Symbol (v : str)
| Scalar_Int32 (v : Z)
| Scalar_Timestamp (t : Timestamp)
| Scalar_Int64 (v : Z)
| Scalar_Decimal128 (d : Decimal128)
| Scalar_MinKey
| Scalar_MaxKey.

Inductive ScalarError :=
| ScalarError_ShortInput (needed got : Z)
| ScalarError_Invalid (tag : Z) (reason : string)
| ScalarError_Utf8 (e : Utf8Error)
| ScalarError_OutOfRange
| ScalarError_NotConvertible.

#[export] Instance BinarySubtype_eq_dec : EqDecision BinarySubtype.
Proof. solve_decision. Defined.
#[export] Instance Binary_eq_dec : EqDecision Binary.
Proof. solve_decision. Defined.
#[export] Instance Timestamp_eq_dec : EqDecision Timestamp.
Proof. solve_decision. Defined.
#[export] Instance Regex_eq_dec : EqDecision Regex.
Proof. solve_decision. Defined.
#[export] Instance DbPointer_eq_dec : EqDecision DbPointer.
Proof. solve_decision. Defined.
#[export] Instance ScalarError_eq_dec : EqDecision ScalarError.
Proof. solve_decision. Defined.

(** [impl From<ReadError> for ScalarError]. *)
Definition ScalarError_from_read (e : ReadError) : ScalarError :=
  match e with
  | ReadError_ShortInput needed got => ScalarError_ShortInput needed got
  | ReadError_Invalid reason => ScalarError_Invalid 0 reason
  end.

(** ** Binary subtypes *)

Definition BinarySubtype_to_u8 (s : BinarySubtype) : byte :=
  match s with
  | BinarySubtype_Generic => x00
  | BinarySubtype_Function => x01
  | BinarySubtype_BinaryOld => x02
  | BinarySubtype_UuidOld => x03
  | BinarySubtype_Uuid => x04
  | BinarySubtype_Md5 => x05
  | BinarySubtype_Encrypted => x06
  | BinarySubtype_UserDefined b => b
  end.

Definition BinarySubtype_from_u8 (b : byte) : outcome ScalarError BinarySubtype :=
  match b with
  | x00 => Ok BinarySubtype_Generic
  | x01 => Ok BinarySubtype_Function
  | x02 => Ok BinarySubtype_BinaryOld
  | x03 => Ok BinarySubtype_UuidOld
  | x04 => Ok BinarySubtype_Uuid
  | x05 => Ok BinarySubtype_Md5
  | x06 => Ok BinarySubtype_Encrypted
  | _ =>
      if (7 <=? u8 b) && (u8 b <=? 127)
      then Err (ScalarError_Invalid (u8 b) "reserved binary subtype")
      else Ok (BinarySubtype_UserDefined b)
  end.

(** ** ObjectId *)

(** [ObjectId::to_hex]. *)
Definition HEX_DIGITS : bytes := lit "0123456789abcdef".
Definition hex_char (i : Z) : byte := default x00 (get HEX_DIGITS i).
Definition ObjectId_to_hex (id : ObjectId) : str :=
  flat_map (λ b, [hex_char (Z.shiftr (u8 b) 4); hex_char (Z.land (u8 b) 15)]) id.

Definition hex_digit (b : byte) : option Z :=
  let c := u8 b in
  if (48 <=? c) && (c <=? 57) then Some (c - 48)
  else if (97 <=? c) && (c <=? 102) then Some (c - 97 + 10)
  else if (65 <=? c) && (c <=? 70) then Some (c - 65 + 10)
  else None.

(** The loop of [ObjectId::from_hex] over [input.chunks_exact(2)]. *)
Fixpoint hex_pairs (input : bytes) : outcome ScalarError bytes :=
  match input with
  | a :: b :: t =>
      let bad := ScalarError_Invalid TAG_OBJECT_ID
                   "object id hex string contains a non-hex character" in
      let* hi := ok_or (hex_digit a) bad in
      let* lo := ok_or (hex_digit b) bad in
      let* rest := hex_pairs t in
      Ok (of_u8 (Z.lor (Z.shiftl hi 4) lo) :: rest)
  | _ => Ok []
  end.
Definition ObjectId_from_hex (s : str) : outcome ScalarError ObjectId :=
  if negb (len s =? 24)
  then Err (ScalarError_Invalid TAG_OBJECT_ID "object id hex string must be 24 characters")
  else hex_pairs s.

(** [ObjectId::new]: unix seconds (clamped to [0] before the epoch and
    truncated to [u32]), five random bytes, and the low three bytes of the
    process-global counter; the new counter value wraps at 32 bits. *)
Definition be_encode (n : nat) (z : Z) : bytes := rev (le_encode n z).
Definition ObjectId_new (now : option Z) (random : bytes) (counter : Z) : ObjectId * Z :=
  let seconds := match now with Some s => s mod 2 ^ 32 | None => 0 end in
  (be_encode 4 seconds ++ random ++ drop 1 (be_encode 4 counter),
   (counter + 1) mod 2 ^ 32).

(** ** Tags *)

Definition tag_of (s : Scalar) : Z :=
  match s with
  | Scalar_Double _ => TAG_DOUBLE
  | Scalar_String _ => TAG_STRING
  | Scalar_Binary _ => TAG_BINARY
  | Scalar_Undefined => TAG_UNDEFINED
  | Scalar_ObjectId _ => TAG_OBJECT_ID
  | Scalar_Bool _ => TAG_BOOL
  | Scalar_DateTime _ => TAG_DATE_TIME
  | Scalar_Null => TAG_NULL
  | Scalar_Regex _ => TAG_REGEX
  | Scalar_DbPointer _ => TAG_DB_POINTER
  | Scalar_JavaScript _ => TAG_JAVASCRIPT
  | Scalar_Symbol _ => TAG_SYMBOL
  | Scalar_Int32 _ => TAG_INT32
  | Scalar_Timestamp _ => TAG_TIMESTAMP
  | Scalar_Int64 _ => TAG_INT64
  | Scalar_Decimal128 _ => TAG_DECIMAL128
  | Scalar_MinKey => TAG_MIN_KEY
  | Scalar_MaxKey => TAG_MAX_KEY
  end.

(** ** Parsing *)

(** A [?] on a protocol read inside the scalar parser. *)
Definition sread {A} (m : reader ReadError A) : reader ScalarError A :=
  rmap_err ScalarError_from_read m.

(** [<[u8; N]>::try_from(slice).unwrap()]. *)
Definition array_of {E} (n : Z) (b : bytes) : outcome E bytes :=
  if len b =? n then Ok b else Panic.

(** [read_u32_as_usize]: [usize] is at least 32 bits, so the conversion holds. *)
Definition read_u32_as_usize (tag : Z) : reader ScalarError Z := sread read_u32_le.

Definition parse_string (tag : Z) : reader ScalarError str :=
  do l <- read_u32_as_usize tag;
  if l =? 0 then rfail (ScalarError_Invalid tag "zero-length string")
  else
    do b <- sread (read_bytes (l - 1));
    do nul <- sread read_u8;
    if negb (u8 nul =? 0) then rfail (ScalarError_Invalid tag "string not NUL-terminated")
    else rlift (map_err ScalarError_Utf8 (from_utf8 b)).

Definition read_cstring_str (tag : Z) : reader ScalarError str :=
  do b <- sread read_cstring; rlift (map_err ScalarError_Utf8 (from_utf8 b)).

(** The [TAG_BINARY] arm. *)
Definition parse_binary (tag : Z) : reader ScalarError Binary :=
  do l <- read_u32_as_usize tag;
  do sb <- sread read_u8;
  do st <- rlift (BinarySubtype_from_u8 sb);
  do payload_len <-
    (match st with
     | BinarySubtype_BinaryOld =>
         do inner <- read_u32_as_usize tag;
         if negb (inner + 4 =? l)
         then rfail (ScalarError_Invalid tag "old binary inner length mismatch")
         else rret inner
     | _ => rret l
     end);
  do b <- sread (read_bytes payload_len);
  rret (mkBinary st b).

(** The [match tag] of [parse_scalar]. *)
Definition parse_scalar_arm (tag : Z) : reader ScalarError Scalar :=
  if tag =? TAG_DOUBLE then
    do b <- sread (read_bytes 8); do a <- rlift (array_of 8 b);
    rret (Scalar_Double (u64_of_le a))
  else if tag =? TAG_STRING then do s <- parse_string tag; rret (Scalar_String s)
  else if tag =? TAG_BINARY then do b <- parse_binary tag; rret (Scalar_Binary b)
  else if tag =? TAG_UNDEFINED then rret Scalar_Undefined
  else if tag =? TAG_OBJECT_ID then
    do b <- sread (read_bytes 12); do a <- rlift (array_of 12 b); rret (Scalar_ObjectId a)
  else if tag =? TAG_BOOL then
    do b <- sread read_u8;
    match b with
    | x00 => rret (Scalar_Bool false)
    | x01 => rret (Scalar_Bool true)
    | _ => rfail (ScalarError_Invalid tag "invalid bool byte")
    end
  else if tag =? TAG_DATE_TIME then do v <- sread read_i64_le; rret (Scalar_DateTime v)
  else if tag =? TAG_NULL then rret Scalar_Null
  else if tag =? TAG_REGEX then
    do p <- read_cstring_str tag; do o <- read_cstring_str tag;
    rret (Scalar_Regex (mkRegex p o))
  else if tag =? TAG_DB_POINTER then
    do ns <- parse_string tag;
    do b <- sread (read_bytes 12); do a <- rlift (array_of 12 b);
    rret (Scalar_DbPointer (mkDbPointer ns a))
  else if tag =? TAG_JAVASCRIPT then do s <- parse_string tag; rret (Scalar_JavaScript s)
  else if tag =? TAG_SYMBOL then do s <- parse_string tag; rret (Scalar_Symbol s)
  else if tag =? TAG_INT32 then do v <- sread read_i32_le; rret (Scalar_Int32 v)
  else if tag =? TAG_TIMESTAMP then
    do inc <- sread read_u32_le; do sec <- sread read_u32_le;
    rret (Scalar_Timestamp (mkTimestamp sec inc))
  else if tag =? TAG_INT64 then do v <- sread read_i64_le; rret (Scalar_Int64 v)
  else if tag =? TAG_DECIMAL128 then
    do b <- sread (read_bytes 16); do a <- rlift (array_of 16 b); rret (Scalar_Decimal128 a)
  else if tag =? TAG_MIN_KEY then rret Scalar_MinKey
  else if tag =? TAG_MAX_KEY then rret Scalar_MaxKey
  else if (tag =? TAG_DOCUMENT) || (tag =? TAG_ARRAY) || (tag =? TAG_JAVASCRIPT_SCOPE) then
    rfail (ScalarError_Invalid tag "composite type; handled by wirebson")
  else rfail (ScalarError_Invalid tag "unknown element type").

Definition parse_scalar (tag : Z) (input : bytes) : outcome ScalarError (Scalar * Z) :=
  let* '(scalar, r) := parse_scalar_arm tag input in
  let* consumed := usub (len input) (remaining r) in
  Ok (scalar, consumed).

(** ** Encoding *)

Definition scalar_encode_string (v : str) (out : bytes) : outcome ScalarError bytes :=
  let* l := ok_or (i32_try_from (len v + 1)) ScalarError_OutOfRange in
  Ok (put_u8 (put_bytes (put_i32_le out l) v) 0).

Definition is_binary_old (s : BinarySubtype) : bool :=
  bool_decide (s = BinarySubtype_BinaryOld).

(** The [S::Binary] arm. *)
Definition scalar_encode_binary (b : Binary) (out : bytes) : outcome ScalarError bytes :=
  let extra := if is_binary_old (subtype b) then 4 else 0 in
  let* l := ok_or (i32_try_from (len (binary_bytes b) + extra)) ScalarError_OutOfRange in
  let out := put_i32_le out l in
  let out := put_u8 out (u8 (BinarySubtype_to_u8 (subtype b))) in
  let* out :=
    (if is_binary_old (subtype b) then
       let* inner := ok_or (i32_try_from (len (binary_bytes b))) ScalarError_OutOfRange in
       Ok (put_i32_le out inner)
     else Ok out) in
  Ok (put_bytes out (binary_bytes b)).

Definition put_cstring_as {E} (out : bytes) (s : str) (e : E) : outcome E bytes :=
  map_err (λ _, e) (put_cstring out s).

(** [encode_scalar]: the number of bytes written and the buffer. *)
Definition encode_scalar (s : Scalar) (out : bytes) : outcome ScalarError (Z * bytes) :=
  let start := len out in
  let* out :=
    match s with
    | Scalar_Double v => Ok (put_bytes out (le_encode 8 v))
    | Scalar_String v => scalar_encode_string v out
    | Scalar_Binary b => scalar_encode_binary b out
    | Scalar_Undefined | Scalar_Null | Scalar_MinKey | Scalar_MaxKey => Ok out
    | Scalar_ObjectId v => Ok (put_bytes out v)
    | Scalar_Bool v => Ok (put_u8 out (if v then 1 else 0))
    | Scalar_DateTime v => Ok (put_i64_le out v)
    | Scalar_Regex r =>
        let* out := put_cstring_as out (pattern r)
                      (ScalarError_Invalid TAG_REGEX "interior NUL in pattern") in
        put_cstring_as out (options r)
          (ScalarError_Invalid TAG_REGEX "interior NUL in options")
    | Scalar_DbPointer p =>
        let* out := scalar_encode_string (namespace p) out in
        Ok (put_bytes out (pointer_id p))
    | Scalar_JavaScript v | Scalar_Symbol v => scalar_encode_string v out
    | Scalar_Int32 v => Ok (put_i32_le out v)
    | Scalar_Timestamp t => Ok (put_u32_le (put_u32_le out (increment t)) (seconds t))
    | Scalar_Int64 v => Ok (put_i64_le out v)
    | Scalar_Decimal128 d => Ok (put_bytes out d)
    end in
  let* n := usub (len out) start in
  Ok (n, out).

(** ** The wire layout as a function of the value *)

Definition string_wire (s : str) : bytes := le_encode 4 (len s + 1) ++ s ++ [x00].
Definition binary_wire (b : Binary) : bytes :=
  if is_binary_old (subtype b) then
    le_encode 4 (len (binary_bytes b) + 4) ++ [BinarySubtype_to_u8 (subtype b)]
      ++ le_encode 4 (len (binary_bytes b)) ++ binary_bytes b
  else le_encode 4 (len (binary_bytes b)) ++ [BinarySubtype_to_u8 (subtype b)] ++ binary_bytes b.
Definition scalar_wire (s : Scalar) : bytes :=
  match s with
  | Scalar_Double v => le_encode 8 v
  | Scalar_String v | Scalar_JavaScript v | Scalar_Symbol v => string_wire v
  | Scalar_Binary b => binary_wire b
  | Scalar_Undefined | Scalar_Null | Scalar_MinKey | Scalar_MaxKey => []
  | Scalar_ObjectId v => v
  | Scalar_Bool v => [if v then x01 else x00]
  | Scalar_DateTime v | Scalar_Int64 v => le_encode 8 v
  | Scalar_Regex r => (pattern r ++ [x00]) ++ (options r ++ [x00])
  | Scalar_DbPointer p => string_wire (namespace p) ++ pointer_id p
  | Scalar_Int32 v => le_encode 4 v
  | Scalar_Timestamp t => le_encode 4 (increment t) ++ le_encode 4 (seconds t)
  | Scalar_Decimal128 d => d
  end.

(** What the Rust types guarantee of a value: integer ranges, array lengths and
    UTF-8 strings; plus a canonical subtype ([UserDefined] is 0x80-0xFF). *)
Definition subtype_canonical (s : BinarySubtype) : Prop :=
  match s with BinarySubtype_UserDefined b => 128 <= u8 b | _ => True end.
Definition scalar_ok (s : Scalar) : Prop :=
  match s with
  | Scalar_Double v => in_u64 v
  | Scalar_String v | Scalar_JavaScript v | Scalar_Symbol v => valid_utf8 v = true
  | Scalar_Binary b => subtype_canonical (subtype b)
  | Scalar_Undefined | Scalar_Null | Scalar_MinKey | Scalar_MaxKey | Scalar_Bool _ => True
  | Scalar_ObjectId v => len v = 12
  | Scalar_DateTime v | Scalar_Int64 v => in_i64 v
  | Scalar_Regex r => valid_utf8 (pattern r) = true ∧ valid_utf8 (options r) = true
  | Scalar_DbPointer p => valid_utf8 (namespace p) = true ∧ len (pointer_id p) = 12
  | Scalar_Int32 v => in_i32 v
  | Scalar_Timestamp t => in_u32 (seconds t) ∧ in_u32 (increment t)
  | Scalar_Decimal128 d => len d = 16
  end.

(** The error [encode_scalar] reports, if any. *)
Definition scalar_encode_error (s : Scalar) : option ScalarError :=
  match s with
  | Scalar_String v | Scalar_JavaScript v | Scalar_Symbol v
  | Scalar_DbPointer (mkDbPointer v _) =>
      if len v + 1 <=? i32_max then None else Some ScalarError_OutOfRange
  | Scalar_Binary b =>
      if len (binary_bytes b) + (if is_binary_old (subtype b) then 4 else 0) <=? i32_max
      then None else Some ScalarError_OutOfRange
  | Scalar_Regex r =>
      if has_nul (pattern r)
      then Some (ScalarError_Invalid TAG_REGEX "interior NUL in pattern")
      else if has_nul (options r)
      then Some (ScalarError_Invalid TAG_REGEX "interior NUL in options")
      else None
  | _ => None
  end.

(** ** Encoding is the layout, or the stated error *)

Lemma put_u8_x00 out : put_u8 out 0 = out ++ [x00].
Proof. done. Qed.

Lemma i32_try_from_len z : 0 <= z →
  i32_try_from z = if z <=? i32_max then Some z else None.
Proof.
  intros. unfold i32_try_from. unfold_ranges. destruct (z <=? 2147483647) eqn:E; zbool; by zif.
Qed.

Lemma scalar_encode_string_eq v out :
  scalar_encode_string v out =
    if len v + 1 <=? i32_max then Ok (out ++ string_wire v) else Err ScalarError_OutOfRange.
Proof.
  unfold scalar_encode_string, string_wire, put_i32_le, put_bytes.
  rewrite i32_try_from_len by len_tac. destruct (_ <=? _); [|done].
  simpl. rewrite put_u8_x00. by rewrite <- !app_assoc.
Qed.

Lemma put_cstring_as_eq {E} out s (e : E) :
  put_cstring_as out s e = if has_nul s then Err e else Ok (out ++ s ++ [x00]).
Proof.
  unfold put_cstring_as, put_cstring, put_bytes. destruct (has_nul s); [done|].
  simpl. by rewrite put_u8_x00, <- app_assoc.
Qed.

Lemma scalar_encode_binary_eq b out :
  scalar_encode_binary b out =
    if len (binary_bytes b) + (if is_binary_old (subtype b) then 4 else 0) <=? i32_max
    then Ok (out ++ binary_wire b) else Err ScalarError_OutOfRange.
Proof.
  unfold scalar_encode_binary, binary_wire, put_i32_le, put_bytes, put_u8.
  rewrite of_u8_u8. destruct (is_binary_old (subtype b)); cbv zeta.
  - rewrite i32_try_from_len by len_tac. destruct (_ <=? _) eqn:E; [|done]. simpl.
    rewrite i32_try_from_len by len_tac. zbool. unfold i32_max in *. zif. simpl.
    by rewrite <- !app_assoc.
  - rewrite i32_try_from_len by len_tac. rewrite !Z.add_0_r. destruct (_ <=? _); [|done].
    simpl. by rewrite <- !app_assoc.
Qed.

Lemma usub_app {E} (a b : bytes) : @usub E (len (a ++ b)) (len a) = Ok (len b).
Proof. unfold usub. len_tac. zif. f_equal. lia. Qed.

Lemma usub_app_r {E} (a b : bytes) : @usub E (len (a ++ b)) (len b) = Ok (len a).
Proof. unfold usub. len_tac. zif. f_equal. lia. Qed.

Lemma encode_scalar_spec s out :
  encode_scalar s out =
    match scalar_encode_error s with
    | Some e => Err e
    | None => Ok (len (scalar_wire s), out ++ scalar_wire s)
    end.
Proof.
  assert (∀ w, (let* n := usub (len (out ++ w)) (len out) in Ok (n, out ++ w))
               = @Ok ScalarError _ (len w, out ++ w)) as Hend
    by (intros w; by rewrite usub_app).
  unfold encode_scalar, put_i64_le, put_i32_le, put_u32_le, put_bytes.
  destruct s as [v|v|b| |v|v|v| |[p o]|[ns i]|v|v|v|[sec inc]|v|d| | ];
    cbv zeta; simpl scalar_encode_error; simpl scalar_wire; simpl bind at 2; try apply Hend.
  - rewrite scalar_encode_string_eq. destruct (_ <=? _); [apply Hend|done].
  - rewrite scalar_encode_binary_eq. destruct (_ <=? _); [apply Hend|done].
  - rewrite <- (Hend []), app_nil_r. done.
  - destruct v; apply Hend.
  - rewrite <- (Hend []), app_nil_r. done.
  - simpl. rewrite put_cstring_as_eq. destruct (has_nul p); [done|]. simpl.
    rewrite put_cstring_as_eq. destruct (has_nul o); [done|].
    rewrite <- (app_assoc out). apply Hend.
  - simpl. rewrite scalar_encode_string_eq. destruct (_ <=? _); [|done].
    simpl. rewrite <- (app_assoc out). apply Hend.
  - rewrite scalar_encode_string_eq. destruct (_ <=? _); [apply Hend|done].
  - rewrite scalar_encode_string_eq. destruct (_ <=? _); [apply Hend|done].
  - simpl. rewrite <- (app_assoc out). apply Hend.
  - rewrite <- (Hend []), app_nil_r. done.
  - rewrite <- (Hend []), app_nil_r. done.
Qed.

(** ** Parsing inverts the layout *)

Lemma parses_sread {A} (m : reader ReadError A) e a : parses m e a → parses (sread m) e a.
Proof. apply parses_map_err. Qed.

Lemma parses_array n b : len b = n →
  parses (do x <- sread (read_bytes n); rlift (array_of n x)) b b.
Proof.
  intros Hb. eapply parses_bind_nil; [by apply parses_sread, parses_read_bytes|].
  apply parses_lift. unfold array_of. by rewrite Hb, Z.eqb_refl.
Qed.

Lemma rbind_assoc_parses {E A B C} (m : reader E A) (k : A → reader E B)
  (h : B → reader E C) e c :
  parses (rbind (rbind m k) h) e c → parses (rbind m (λ a, rbind (k a) h)) e c.
Proof.
  intros H rest. rewrite <- H. unfold rbind. destruct (m (e ++ rest)) as [[a r]| | |]; done.
Qed.

Lemma parses_array_then {B} n b (k : bytes → reader ScalarError B) e v : len b = n →
  parses (k b) e v →
  parses (do x <- sread (read_bytes n); do a <- rlift (array_of n x); k a) (b ++ e) v.
Proof.
  intros Hb Hk. apply rbind_assoc_parses. eapply parses_bind; [by apply parses_array|done].
Qed.
Lemma parses_array_ret {B} n b (f : bytes → B) : len b = n →
  parses (do x <- sread (read_bytes n); do a <- rlift (array_of n x); rret (f a)) b (f b).
Proof.
  intros Hb. rewrite <- (app_nil_r b) at 1. by apply parses_array_then, parses_ret.
Qed.

Lemma parses_string tag s : valid_utf8 s = true → len s + 1 <= u32_max →
  parses (parse_string tag) (string_wire s) s.
Proof.
  intros Hu Hl. unfold parse_string, string_wire, read_u32_as_usize.
  eapply parses_bind; [apply parses_sread, parses_read_u32; unfold in_u32; len_tac|].
  cbv beta. replace (len s + 1 =? 0) with false by (symmetry; len_tac).
  eapply parses_bind; [apply parses_sread, parses_read_bytes; lia|].
  eapply parses_bind_nil; [apply parses_sread, parses_read_u8|].
  apply parses_lift. by rewrite from_utf8_valid.
Qed.

Lemma parses_cstring_str tag s : valid_utf8 s = true → has_nul s = false →
  parses (read_cstring_str tag) (s ++ [x00]) s.
Proof.
  intros Hu Hn. unfold read_cstring_str.
  eapply parses_bind_nil; [by apply parses_sread, parses_read_cstring|].
  apply parses_lift. by rewrite from_utf8_valid.
Qed.

Lemma subtype_from_to_u8 s : subtype_canonical s →
  BinarySubtype_from_u8 (BinarySubtype_to_u8 s) = Ok s.
Proof.
  destruct s as [| | | | | | |b]; try done. simpl. intros Hb.
  unfold BinarySubtype_from_u8. pose proof (u8_range b).
  replace ((7 <=? u8 b) && (u8 b <=? 127)) with false by (symmetry; lia).
  destruct b; try reflexivity; vm_compute in Hb; by destruct Hb.
Qed.

Lemma parses_binary tag b : subtype_canonical (subtype b) →
  len (binary_bytes b) + (if is_binary_old (subtype b) then 4 else 0) <= u32_max →
  parses (parse_binary tag) (binary_wire b) b.
Proof.
  destruct b as [st bs]. simpl. intros Hc Hl.
  unfold parse_binary, binary_wire, read_u32_as_usize. cbn [subtype binary_bytes].
  destruct (is_binary_old st) eqn:Eo.
  - unfold is_binary_old in Eo. apply bool_decide_eq_true in Eo as ->.
    eapply parses_bind; [apply parses_sread, parses_read_u32; unfold in_u32; len_tac|].
    eapply parses_bind; [apply parses_sread, parses_read_u8|]. cbv beta.
    eapply parses_bind_skip; [by apply parses_lift|]. cbv beta iota.
    eapply parses_bind.
    { eapply parses_bind_nil;
        [apply parses_sread, parses_read_u32; unfold in_u32, u32_max in *; len_tac|].
      cbv beta. rewrite Z.eqb_refl. apply parses_ret. }
    eapply parses_bind_nil; [by apply parses_sread, parses_read_bytes|]. apply parses_ret.
  - eapply parses_bind; [apply parses_sread, parses_read_u32; unfold in_u32; len_tac|].
    eapply parses_bind; [apply parses_sread, parses_read_u8|]. cbv beta.
    eapply parses_bind_skip; [by apply parses_lift, subtype_from_to_u8|]. cbv beta.
    eapply parses_bind_skip; [destruct st; try apply parses_ret; done|].
    eapply parses_bind_nil; [by apply parses_sread, parses_read_bytes|]. apply parses_ret.
Qed.

(** The [u32] length fields bound what a parse can reproduce. *)
Definition scalar_fits (s : Scalar) : Prop :=
  match s with
  | Scalar_String v | Scalar_JavaScript v | Scalar_Symbol v => len v + 1 <= u32_max
  | Scalar_DbPointer p => len (namespace p) + 1 <= u32_max
  | Scalar_Binary b =>
      len (binary_bytes b) + (if is_binary_old (subtype b) then 4 else 0) <= u32_max
  | Scalar_Regex r => has_nul (pattern r) = false ∧ has_nul (options r) = false
  | _ => True
  end.

Lemma scalar_encodable_fits s : scalar_encode_error s = None → scalar_fits s.
Proof.
  destruct s as [v|v|b| |v|v|v| |[p o]|[ns i]|v|v|v|[sec inc]|v|d| | ];
    simpl; try done; intros; unfold i32_max, u32_max in *;
    repeat case_match; try done; zbool; lia.
Qed.

Lemma parses_scalar s : scalar_ok s → scalar_fits s →
  parses (parse_scalar_arm (tag_of s)) (scalar_wire s) s.
Proof.
  destruct s as [v|v|b| |v|v|v| |[p o]|[ns i]|v|v|v|[sec inc]|v|d| | ];
    intros Hok Hfit; cbn in Hok, Hfit;
    unfold parse_scalar_arm; cbn [tag_of scalar_wire]; simpl (_ =? _); cbv iota.
  - (* Double *)
    rewrite <- (u64_of_le_encode v) at 2 by done.
    apply (parses_array_ret 8 _ (λ a, Scalar_Double (u64_of_le a))). by rewrite len_le_encode.
  - eapply parses_bind_nil; [by apply parses_string|apply parses_ret].
  - eapply parses_bind_nil; [by apply parses_binary|apply parses_ret].
  - apply parses_ret.
  - by apply (parses_array_ret 12 v Scalar_ObjectId).
  - eapply parses_bind_nil; [apply parses_sread, parses_read_u8|].
    destruct v; apply parses_ret.
  - eapply parses_bind_nil; [by apply parses_sread, parses_read_i64|apply parses_ret].
  - apply parses_ret.
  - destruct Hok, Hfit.
    eapply parses_bind; [by apply parses_cstring_str|].
    eapply parses_bind_nil; [by apply parses_cstring_str|apply parses_ret].
  - destruct Hok. eapply parses_bind; [by apply parses_string|].
    by apply (parses_array_ret 12 i (λ a, Scalar_DbPointer (mkDbPointer ns a))).
  - eapply parses_bind_nil; [by apply parses_string|apply parses_ret].
  - eapply parses_bind_nil; [by apply parses_string|apply parses_ret].
  - eapply parses_bind_nil; [by apply parses_sread, parses_read_i32|apply parses_ret].
  - destruct Hok. eapply parses_bind; [by apply parses_sread, parses_read_u32|].
    eapply parses_bind_nil; [by apply parses_sread, parses_read_u32|apply parses_ret].
  - eapply parses_bind_nil; [by apply parses_sread, parses_read_i64|apply parses_ret].
  - by apply (parses_array_ret 16 d Scalar_Decimal128).
  - apply parses_ret.
  - apply parses_ret.
Qed.

Lemma parse_scalar_wire s rest : scalar_ok s → scalar_fits s →
  parse_scalar (tag_of s) (scalar_wire s ++ rest) = Ok (s, len (scalar_wire s)).
Proof.
  intros. unfold parse_scalar, remaining. rewrite parses_scalar by done. simpl.
  unfold usub. len_tac. zif. simpl. do 2 f_equal. lia.
Qed.

(** ** Whatever parses is the layout of the result *)

Lemma subtype_to_from_u8 b s : BinarySubtype_from_u8 b = Ok s →
  BinarySubtype_to_u8 s = b ∧ subtype_canonical s.
Proof.
  destruct b; vm_compute; intros; simplify_eq; split; try done; intros; discriminate.
Qed.

Lemma array_of_Ok_inv {E} n b a : @array_of E n b = Ok a → a = b ∧ len b = n.
Proof. unfold array_of. intros. inv_ok. zbool. done. Qed.

Lemma parse_string_Ok_inv tag r s r' : parse_string tag r = Ok (s, r') →
  r = string_wire s ++ r' ∧ valid_utf8 s = true ∧ len s + 1 <= u32_max.
Proof.
  unfold parse_string, read_u32_as_usize, sread, string_wire. intros. inv_read.
  zbool. inv_ok. apply from_utf8_Ok_inv in H as [-> Hu]. inv_prim.
  assert (a1 = x00) as -> by (apply is_nul_x00; unfold is_nul; lia).
  replace (len a0 + 1) with a by lia.
  rewrite <- !app_assoc. unfold_ranges. repeat split; try done; lia.
Qed.

Lemma read_cstring_str_Ok_inv tag r s r' : read_cstring_str tag r = Ok (s, r') →
  r = (s ++ [x00]) ++ r' ∧ valid_utf8 s = true ∧ has_nul s = false.
Proof.
  unfold read_cstring_str, sread. intros. inv_read. inv_ok.
  apply from_utf8_Ok_inv in H as [-> Hu].
  apply read_cstring_Ok_inv in Hr as [-> Hn]. by rewrite <- app_assoc.
Qed.

Lemma parse_binary_Ok_inv tag r b r' : parse_binary tag r = Ok (b, r') →
  r = binary_wire b ++ r' ∧ subtype_canonical (subtype b) ∧
  len (binary_bytes b) + (if is_binary_old (subtype b) then 4 else 0) <= u32_max.
Proof.
  unfold parse_binary, read_u32_as_usize, sread. intros. inv_read. inv_prim.
  match goal with H : BinarySubtype_from_u8 _ = Ok ?st |- _ =>
    apply subtype_to_from_u8 in H as [<- Hc]; rename st into s end.
  unfold binary_wire. cbn [subtype binary_bytes].
  destruct (is_binary_old s) eqn:Eo.
  - unfold is_binary_old in Eo. apply bool_decide_eq_true in Eo as ->.
    inv_read. zbool. inv_prim. subst. rewrite <- !app_assoc.
    unfold_ranges. repeat split; simpl; lia.
  - assert (∀ m m' : reader ScalarError Z,
      match s with BinarySubtype_BinaryOld => m | _ => m' end = m') as Es by (by destruct s).
    rewrite Es in *. inv_read. inv_prim. subst.
    rewrite <- !app_assoc. rewrite Z.add_0_r. unfold_ranges. repeat split; try done; lia.
Qed.

Lemma read_array_Ok_inv n r b r' x : 0 <= n → read_bytes n r = Ok (b, r') →
  @array_of ScalarError n b = Ok x → r = x ++ r' ∧ len x = n.
Proof.
  intros Hn H1 H2. apply array_of_Ok_inv in H2 as [-> Hl].
  by apply read_bytes_Ok_inv in H1 as [-> _].
Qed.

Ltac tag_cases := repeat match goal with
  | H : (if ?t =? ?c then _ else _) _ = Ok _ |- _ =>
      destruct (Z.eqb_spec t c) as [->|]
  end.

Lemma parse_scalar_arm_Ok_inv tag r s r' : parse_scalar_arm tag r = Ok (s, r') →
  tag_of s = tag ∧ r = scalar_wire s ++ r' ∧ scalar_ok s ∧ scalar_fits s.
Proof.
  unfold parse_scalar_arm, sread. intros H. tag_cases; inv_read; cbn [tag_of scalar_wire scalar_ok scalar_fits pattern options].
  - eapply read_array_Ok_inv in Hr as [-> Hl]; [|done|done].
    unfold u64_of_le. rewrite le_encode_decode_len by done.
    pose proof (le_decode_bound a0). rewrite Hl in *. unfold_ranges. repeat split; lia.
  - apply parse_string_Ok_inv in Hr as (-> & ? & ?). done.
  - apply parse_binary_Ok_inv in Hr as (-> & ? & ?). done.
  - done.
  - by eapply read_array_Ok_inv in Hr as [-> Hl].
  - apply read_u8_Ok_inv in Hr as ->. destruct a; by inv_read.
  - apply read_i64_Ok_inv in Hr as [-> ?]. done.
  - done.
  - apply read_cstring_str_Ok_inv in Hr as (-> & ? & ?).
    apply read_cstring_str_Ok_inv in Hr1 as (-> & ? & ?). by rewrite <- !app_assoc.
  - apply parse_string_Ok_inv in Hr as (-> & ? & ?).
    eapply read_array_Ok_inv in Hr1 as [-> Hl]; [|done|done]. by rewrite <- app_assoc.
  - apply parse_string_Ok_inv in Hr as (-> & ? & ?). done.
  - apply parse_string_Ok_inv in Hr as (-> & ? & ?). done.
  - apply read_i32_Ok_inv in Hr as [-> ?]. done.
  - apply read_u32_Ok_inv in Hr as [-> ?]. apply read_u32_Ok_inv in Hr1 as [-> ?].
    by rewrite <- app_assoc.
  - apply read_i64_Ok_inv in Hr as [-> ?]. done.
  - by eapply read_array_Ok_inv in Hr as [-> Hl].
  - done.
  - done.
Qed.

Lemma parse_scalar_Ok_inv tag input s n : parse_scalar tag input = Ok (s, n) →
  tag_of s = tag ∧ scalar_ok s ∧ scalar_fits s ∧ n = len (scalar_wire s) ∧
  ∃ rest, input = scalar_wire s ++ rest.
Proof.
  unfold parse_scalar, remaining. intros. inv_ok.
  apply parse_scalar_arm_Ok_inv in Hk as (? & -> & ? & ?).
  unfold usub in Hk1. inv_ok. len_tac. repeat split; try done; try lia. eauto.
Qed.

(** ** Parsing returns on every input *)

Lemma returns_parse_string tag : reader_returns (parse_string tag).
Proof. unfold parse_string, read_u32_as_usize, sread. returns_tac. Qed.
Lemma returns_read_cstring_str tag : reader_returns (read_cstring_str tag).
Proof. unfold read_cstring_str, sread. returns_tac. Qed.
Lemma returns_subtype b : returns (BinarySubtype_from_u8 b).
Proof. destruct b; exact I. Qed.
#[export] Hint Resolve returns_parse_string returns_read_cstring_str returns_subtype : wire.
Lemma returns_parse_binary tag : reader_returns (parse_binary tag).
Proof. unfold parse_binary, read_u32_as_usize, sread. returns_tac. Qed.

Lemma returns_read_array {B} n (k : bytes → reader ScalarError B) : 0 <= n →
  (∀ a, reader_returns (k a)) →
  reader_returns (do x <- sread (read_bytes n); do a <- rlift (array_of n x); k a).
Proof.
  intros Hn Hk. apply reader_returns_bind; [apply reader_returns_map_err, returns_read_bytes|].
  intros b r r' H. unfold sread in H. inv_read.
  apply read_bytes_Ok_inv in H as [-> Hl]; [|done].
  unfold rbind, rlift, array_of. rewrite Hl, Z.eqb_refl. simpl. apply Hk.
Qed.

Lemma returns_parse_scalar_arm tag : reader_returns (parse_scalar_arm tag).
Proof.
  unfold parse_scalar_arm.
  repeat match goal with |- reader_returns (if _ then _ else _) => case_match end;
    try (apply returns_read_array; [done|]);
    try (apply reader_returns_bind; [apply returns_parse_string|]; intros ns r r' _;
         apply (returns_read_array 12 (λ a, rret (Scalar_DbPointer (mkDbPointer ns a))));
         [done|]);
    unfold sread; returns_tac;
    apply returns_parse_binary || apply returns_parse_string || apply returns_read_cstring_str.
Qed.

Lemma returns_parse_scalar tag input : returns (parse_scalar tag input).
Proof.
  unfold parse_scalar. apply returns_bind; [apply returns_parse_scalar_arm|].
  intros [s r] H. apply parse_scalar_arm_Ok_inv in H as (_ & -> & _).
  unfold usub, remaining. len_tac. by zif.
Qed.

Lemma scalar_wire_encodable s : scalar_ok s → scalar_fits s → len (scalar_wire s) <= i32_max →
  scalar_encode_error s = None.
Proof.
  destruct s as [v|v|b| |v|v|v| |[p o]|[ns i]|v|v|v|[sec inc]|v|d| | ];
    cbn [scalar_ok scalar_fits scalar_wire scalar_encode_error pattern options namespace];
    intros Hok Hf Hl; try done; unfold string_wire, binary_wire in Hl;
    try (len_tac; by zif).
  - destruct (is_binary_old (subtype b)); len_tac; by zif.
  - by destruct Hf as [-> ->].
Qed.

(** Characters of a hexadecimal rendering. *)
Lemma hex_byte_roundtrip b :
  hex_digit (hex_char (Z.shiftr (u8 b) 4)) = Some (Z.shiftr (u8 b) 4) ∧
  hex_digit (hex_char (Z.land (u8 b) 15)) = Some (Z.land (u8 b) 15) ∧
  of_u8 (Z.lor (Z.shiftl (Z.shiftr (u8 b) 4) 4) (Z.land (u8 b) 15)) = b.
Proof. destruct b; vm_compute; done. Qed.

(** ASCII lower case ([u8::to_ascii_lowercase]) on hex digits. *)
Definition ascii_lower (b : byte) : byte :=
  if (65 <=? u8 b) && (u8 b <=? 90) then of_u8 (u8 b + 32) else b.

Lemma hex_digit_char b h : hex_digit b = Some h → hex_char h = ascii_lower b ∧ 0 <= h < 16.
Proof. destruct b; vm_compute; intros; simplify_eq; split; done. Qed.

Lemma hex_nibbles hi lo : 0 <= hi < 16 → 0 <= lo < 16 →
  let b := of_u8 (Z.lor (Z.shiftl hi 4) lo) in
  Z.shiftr (u8 b) 4 = hi ∧ Z.land (u8 b) 15 = lo.
Proof.
  intros H1 H2. cbv zeta.
  assert (forallb (λ h, forallb (λ l,
    let b := of_u8 (Z.lor (Z.shiftl h 4) l) in
    (Z.shiftr (u8 b) 4 =? h) && (Z.land (u8 b) 15 =? l)) (seqZ 0 16)) (seqZ 0 16) = true)
    as Hall by (vm_compute; reflexivity).
  rewrite forallb_forall in Hall. specialize (Hall hi). rewrite forallb_forall in Hall.
  assert (∀ z, 0 <= z < 16 → In z (seqZ 0 16)) as Hin
    by (intros; apply list_elem_of_In, elem_of_seqZ; lia).
  specialize (Hall (Hin _ H1) lo (Hin _ H2)). cbv zeta in Hall. zbool. done.
Qed.

Lemma hex_pairs_to_hex id : hex_pairs (ObjectId_to_hex id) = Ok id.
Proof.
  induction id as [|b id IH]; [done|].
  change (ObjectId_to_hex (b :: id)) with
    (hex_char (Z.shiftr (u8 b) 4) :: hex_char (Z.land (u8 b) 15) :: ObjectId_to_hex id).
  destruct (hex_byte_roundtrip b) as (E1 & E2 & E3).
  cbn [hex_pairs]. rewrite E1, E2. cbn [ok_or bind]. rewrite IH. cbn [bind]. by rewrite E3.
Qed.
Lemma len_to_hex id : len (ObjectId_to_hex id) = 2 * len id.
Proof. induction id as [|b id IH]; [done|]. simpl. rewrite !len_cons, IH. lia. Qed.

Lemma hex_pairs_Ok_inv n s id : length s = (2 * n)%nat → hex_pairs s = Ok id →
  ObjectId_to_hex id = ascii_lower <$> s ∧ length id = n.
Proof.
  revert s id. induction n as [|n IH]; intros s id Hl H.
  - destruct s; [|done]. simpl in H. by simplify_eq.
  - destruct s as [|a [|b s]]; simpl in Hl; try lia.
    simpl hex_pairs in H.
    destruct (hex_digit a) eqn:Ea; [|done]. destruct (hex_digit b) eqn:Eb; [|done].
    simpl in H. inv_ok. apply IH in Hk as [IHs IHl]; [|lia].
    apply hex_digit_char in Ea as [Ea Ra]. apply hex_digit_char in Eb as [Eb Rb].
    pose proof (hex_nibbles _ _ Ra Rb) as [N1 N2].
    simpl ObjectId_to_hex. rewrite N1, N2, Ea, Eb. rewrite fmap_cons, fmap_cons.
    split; [|by simpl; f_equal]. do 2 f_equal. done.
Qed.

(** Encoding a scalar and parsing the bytes back under its own tag yields the
    same scalar and consumes exactly the bytes written, whatever follows them
    and whatever the output buffer already held. *)
Lemma scalar_encode_parse s out n out' rest :
  scalar_ok s → encode_scalar s out = Ok (n, out') →
  ∃ w, out' = out ++ w ∧ n = len w ∧ parse_scalar (tag_of s) (w ++ rest) = Ok (s, n).
Proof.
  intros Hok He. rewrite encode_scalar_spec in He.
  destruct (scalar_encode_error s) eqn:Ee; [done|]. inv_ok.
  exists (scalar_wire s). split; [done|]. split; [done|].
  apply parse_scalar_wire; [done|]. by apply scalar_encodable_fits.
Qed.

(** The wire form of a scalar is canonical: whatever [parse_scalar] accepts
    re-encodes, under the same tag, to exactly the bytes it consumed (up to the
    [i32] length limit of the encoder). *)
Lemma scalar_parse_encode tag input s n :
  parse_scalar tag input = Ok (s, n) → n <= i32_max →
  tag_of s = tag ∧ encode_scalar s [] = Ok (n, takeZ n input).
Proof.
  intros (Ht & Hok & Hf & -> & rest & ->)%parse_scalar_Ok_inv Hn. split; [done|].
  rewrite encode_scalar_spec, scalar_wire_encodable by done. by rewrite takeZ_app.
Qed.

(** Every strict prefix of a scalar's encoding is rejected with an error
    (never accepted, and never a panic). *)
Lemma scalar_truncated s w n k :
  scalar_ok s → encode_scalar s [] = Ok (n, w) → 0 <= k < n →
  ∃ e, parse_scalar (tag_of s) (takeZ k w) = Err e.
Proof.
  intros Hok He Hk. rewrite encode_scalar_spec in He.
  destruct (scalar_encode_error s) eqn:Ee; [done|]. inv_ok.
  pose proof (returns_parse_scalar (tag_of s) (takeZ k (scalar_wire s))) as Hr.
  destruct (parse_scalar _ _) as [[s' n']|e| |] eqn:Ep; [|by eauto|done|done].
  exfalso. apply parse_scalar_Ok_inv in Ep as (Ht & Hok' & Hf' & -> & rest & Hw).
  pose proof (parse_scalar_wire s' (rest ++ dropZ k (scalar_wire s)) Hok' Hf') as P1.
  rewrite app_assoc, <- Hw, take_dropZ, Ht in P1.
  pose proof (parse_scalar_wire s [] Hok (scalar_encodable_fits _ Ee)) as P2.
  rewrite app_nil_r in P2. rewrite P1 in P2. injection P2 as E1 E2.
  apply (f_equal len) in Hw. rewrite len_takeZ in Hw by lia. len_tac.
Qed.

(** C39. Scalars are canonical on the wire.  Take a scalar with valid UTF-8
    strings, fields within their types' ranges and, if it is binary data with a
    user-defined subtype, a subtype of 0x80 to 0xFF: encoding it, where that
    succeeds, and parsing the bytes back under its own tag yields the scalar and
    consumes exactly the bytes written, whatever follows them and whatever the
    buffer held, and every strict prefix of those bytes is an error.  Whatever
    the parser accepts is such a scalar and re-encodes, under the same tag, to
    exactly the bytes it consumed (up to the [i32] length limit of the encoder).
    A user-defined subtype below 0x80 is encoded too, but never read back. *)
Theorem scalar_codec :
  (∀ s out n out' rest, scalar_ok s → encode_scalar s out = Ok (n, out') →
     ∃ w, out' = out ++ w ∧ n = len w ∧ parse_scalar (tag_of s) (w ++ rest) = Ok (s, n)
       ∧ ∀ k, 0 <= k < n → ∃ e, parse_scalar (tag_of s) (takeZ k w) = Err e)
  ∧ (∀ tag input s n, parse_scalar tag input = Ok (s, n) →
       scalar_ok s ∧ tag_of s = tag ∧ (n <= i32_max → encode_scalar s [] = Ok (n, takeZ n input)))
  ∧ (∀ b data tag input n, u8 b < 128 →
       parse_scalar tag input ≠ Ok (Scalar_Binary (mkBinary (BinarySubtype_UserDefined b) data), n))
  ∧ (∀ b data, len data <= i32_max →
       ∃ n w, encode_scalar (Scalar_Binary (mkBinary (BinarySubtype_UserDefined b) data)) [] = Ok (n, w)).
Proof.
  split_and!.
  - intros s out n out' rest Hok He.
    destruct (scalar_encode_parse s out n out' rest Hok He) as (w & -> & -> & Hp).
    exists w. split_and!; [done|done|done|]. intros k Hk.
    rewrite encode_scalar_spec in He. destruct (scalar_encode_error s) eqn:Ee; [done|].
    injection He as _ Hw. apply app_inv_head in Hw as <-.
    apply (scalar_truncated s (scalar_wire s) (len (scalar_wire s)) k Hok); [|done].
    rewrite encode_scalar_spec, Ee. done.
  - intros tag input s n Hp. destruct (parse_scalar_Ok_inv _ _ _ _ Hp) as (Ht & Hok & _).
    split; [done|]. split; [done|]. intros Hn. by apply (scalar_parse_encode tag input s n Hp Hn).
  - intros b data tag input n Hb Hp. apply parse_scalar_Ok_inv in Hp as (_ & Hok & _). cbn in Hok. lia.
  - intros b data Hl. rewrite encode_scalar_spec. unfold scalar_encode_error.
    cbn [subtype binary_bytes]. change (is_binary_old (BinarySubtype_UserDefined b)) with false. cbv iota.
    rewrite (proj2 (Z.leb_le (len data + 0) i32_max)) by lia. by do 2 eexists.
Qed.
Lemma scalar_codec_witness :
  ∃ w, lit "pre" ++ string_wire (lit "hi") = lit "pre" ++ w ∧ 7 = len w ∧
       parse_scalar TAG_STRING (w ++ lit "tail") = Ok (Scalar_String (lit "hi"), 7)
       ∧ ∀ k, 0 <= k < 7 → ∃ e, parse_scalar TAG_STRING (takeZ k w) = Err e.
Proof.
  apply (proj1 scalar_codec (Scalar_String (lit "hi")) (lit "pre") 7 (lit "pre" ++ string_wire (lit "hi"))
    (lit "tail")); reflexivity.
Defined.

(** Hex rendering of ObjectIds: [from_hex] inverts [to_hex], and any string
    it accepts renders back to its ASCII lower case. *)
Lemma objectid_hex id s :
  len id = 12 →
  ObjectId_from_hex (ObjectId_to_hex id) = Ok id ∧
  (ObjectId_from_hex s = Ok id → ObjectId_to_hex id = ascii_lower <$> s).
Proof.
  intros Hl. unfold ObjectId_from_hex. split.
  - rewrite len_to_hex, Hl. simpl negb. cbv iota. apply hex_pairs_to_hex.
  - intros H. inv_ok. zbool. apply (hex_pairs_Ok_inv 12) in H as [? _]; [done|].
    unfold len in *. lia.
Qed.


(** ** Generated identifiers *)

(** The calls of [ObjectId::new] in the order in which they increment the
    counter, whatever threads make them: each with its clock reading and its
    random bytes. *)
Fixpoint object_ids (calls : list (option Z * bytes)) (counter : Z) : list ObjectId :=
  match calls with
  | [] => []
  | (now, random) :: calls =>
      let '(id, counter) := ObjectId_new now random counter in id :: object_ids calls counter
  end.

Lemma object_ids_lookup calls : ∀ counter i id, object_ids calls counter !! i = Some id →
  ∃ call, calls !! i = Some call ∧ id = (ObjectId_new call.1 call.2 ((counter + Z.of_nat i) mod 2 ^ 32)).1.
Proof.
  assert (∀ now random c, (ObjectId_new now random (c mod 2 ^ 32)).1 = (ObjectId_new now random c).1) as Hm.
  { intros now random c.
    assert (le_encode 4 (c mod 2 ^ 32) = le_encode 4 c) as E
      by (apply le_encode_mod; change (256 ^ Z.of_nat 4) with (2 ^ 32); apply Zmod_mod).
    unfold ObjectId_new, be_encode. by rewrite E. }
  induction calls as [|[now random] calls IH]; intros counter i id Hi; [done|].
  destruct i as [|i]; cbn in Hi.
  - injection Hi as <-. exists (now, random). split; [done|]. rewrite Z.add_0_r. by rewrite Hm.
  - apply IH in Hi as (call & Hc & ->). exists call. split; [done|]. do 2 f_equal.
    rewrite Zplus_mod_idemp_l. f_equal. lia.
Qed.

(** The last three bytes are the counter's. *)
Lemma ObjectId_counter now random c : len random = 5 →
  le_decode (rev (drop 9 (ObjectId_new now random c).1)) = c mod 2 ^ 24.
Proof.
  intros Hr. unfold ObjectId_new. cbn [fst]. rewrite app_assoc, drop_app_length'.
  2: { rewrite length_app. unfold be_encode. rewrite length_rev, length_le_encode. unfold len in Hr. lia. }
  assert (drop 1 (be_encode 4 c) = rev (le_encode 3 c)) as -> by done.
  rewrite rev_involutive, le_decode_encode. done.
Qed.

(** C40. Object ids.  Up to [2^24] consecutive calls of [ObjectId::new], on any
    threads, at any times and with any random bytes, give pairwise different ids
    of twelve bytes, also when the 32-bit counter wraps around in between; and
    their hexadecimal form reads back, every accepted string rendering back to
    its ASCII lower case. *)
Theorem object_ids_unique calls counter :
  Forall (λ call, len call.2 = 5) calls → len calls <= 2 ^ 24 →
  NoDup (object_ids calls counter)
  ∧ Forall (λ id, len id = 12 ∧ ObjectId_from_hex (ObjectId_to_hex id) = Ok id
      ∧ ∀ s, ObjectId_from_hex s = Ok id → ObjectId_to_hex id = ascii_lower <$> s)
      (object_ids calls counter).
Proof.
  intros Hr Hl. split.
  - apply NoDup_alt. intros i j id Hi Hj.
    apply object_ids_lookup in Hi as (ci & Hci & Ei). apply object_ids_lookup in Hj as (cj & Hcj & Ej).
    pose proof (Forall_lookup_1 _ _ _ _ Hr Hci) as Ri. pose proof (Forall_lookup_1 _ _ _ _ Hr Hcj) as Rj.
    apply lookup_lt_Some in Hci, Hcj. unfold len in Hl.
    pose proof (ObjectId_counter ci.1 ci.2 ((counter + Z.of_nat i) mod 2 ^ 32) Ri) as Di.
    pose proof (ObjectId_counter cj.1 cj.2 ((counter + Z.of_nat j) mod 2 ^ 32) Rj) as Dj.
    rewrite <- Ei in Di. rewrite <- Ej, Di in Dj.
    Z.div_mod_to_equations. lia.
  - apply Forall_lookup. intros i id (call & Hc & ->)%object_ids_lookup.
    pose proof (Forall_lookup_1 _ _ _ _ Hr Hc) as R.
    assert (len (ObjectId_new call.1 call.2 ((counter + Z.of_nat i) mod 2 ^ 32)).1 = 12) as L.
    { unfold ObjectId_new, be_encode, len in *. cbn [fst].
      rewrite !length_app, length_drop, !length_rev, !length_le_encode. lia. }
    split; [done|]. split; [by apply (objectid_hex _ [])|]. intros s. by apply objectid_hex.
Qed.

(** Three calls across the wrap-around of the counter. *)
Lemma object_ids_unique_witness :
  NoDup (object_ids [(Some 1700000000, replicate 5 x07); (None, replicate 5 x07); (None, replicate 5 x07)]
           (2 ^ 32 - 2)).
Proof.
  apply (object_ids_unique
           [(Some 1700000000, replicate 5 x07); (None, replicate 5 x07); (None, replicate 5 x07)] (2 ^ 32 - 2)).
  - repeat constructor.
  - vm_compute. discriminate.
Defined.
