(* ===== verification/Writers.v ===== *)
(** * The write trait: [ProtocolWrite] of [mongo_common/src/io.rs]

    The trait is a class of the required methods; the provided methods and the
    scalar encoder, which the source writes against the trait, are generic in it.
    Its two implementations are vectors and [BytesMut] of the bytes crate, whose
    methods are parameters.  Under the laws of appending and patching every generic
    method does to the contents what the definitions on plain buffers in [Io] and
    [BsonScalar] do, so the rest of the development works with plain buffers. *)
From stdpp Require Import base list numbers strings.
From Stdlib Require Import ZArith Lia.
From S2P Require Import Prelude Utf8 Io Consts BsonScalar.
Local Open Scope Z_scope.

(** ** The trait *)

Class ProtocolWrite (T : Type) := {
  w_put_bytes : T → bytes → T;
  w_put_u8 : T → Z → T;
  w_reserve : T → Z → T;
  w_len : T → Z;
  w_put_u8_at : ∀ {E}, T → Z → byte → outcome E T
}.

(** Required methods append to and patch the contents. *)
Class ProtocolWriteLaws (T : Type) `{ProtocolWrite T} := {
  contents : T → bytes;
  put_bytes_law out b : contents (w_put_bytes out b) = put_bytes (contents out) b;
  put_u8_law out v : contents (w_put_u8 out v) = put_u8 (contents out) v;
  reserve_law out n : contents (w_reserve out n) = contents out;
  len_law out : w_len out = len (contents out);
  put_u8_at_law {E} out pos v :
    (let* out' := w_put_u8_at (E := E) out pos v in Ok (contents out')) = put_u8_at (contents out) pos v
}.

(** ** The provided methods *)

Section Provided.
Context {T : Type} `{ProtocolWrite T}.
Implicit Types out : T.

Definition w_is_empty out : bool := w_len out =? 0.
Definition w_put_i32_le out (v : Z) : T := w_put_bytes out (le_encode 4 v).
Definition w_put_u32_le out (v : Z) : T := w_put_bytes out (le_encode 4 v).
Definition w_put_i64_le out (v : Z) : T := w_put_bytes out (le_encode 8 v).
Definition w_put_u64_le out (v : Z) : T := w_put_bytes out (le_encode 8 v).
Definition w_put_cstring out (s : str) : outcome WriteError T :=
  if has_nul s then Err WriteError_NulInString else Ok (w_put_u8 (w_put_bytes out s) 0).
Definition w_placeholder_i32 out : Z * T := (w_len out, w_put_bytes out [x00; x00; x00; x00]).
Definition w_put_i32_le_at {E} out (pos v : Z) : outcome E T :=
  let b := le_encode 4 v in
  let* b0 := index b 0 in let* out := w_put_u8_at out pos b0 in
  let* b1 := index b 1 in let* out := w_put_u8_at out (pos + 1) b1 in
  let* b2 := index b 2 in let* out := w_put_u8_at out (pos + 2) b2 in
  let* b3 := index b 3 in w_put_u8_at out (pos + 3) b3.

(** [encode_string] and [encode_scalar] on any [impl ProtocolWrite]. *)
Definition w_encode_string (v : str) out : outcome ScalarError T :=
  let* l := ok_or (i32_try_from (len v + 1)) ScalarError_OutOfRange in
  Ok (w_put_u8 (w_put_bytes (w_put_i32_le out l) v) 0).
Definition w_encode_binary (b : Binary) out : outcome ScalarError T :=
  let extra := if is_binary_old (subtype b) then 4 else 0 in
  let* l := ok_or (i32_try_from (len (binary_bytes b) + extra)) ScalarError_OutOfRange in
  let out := w_put_i32_le out l in
  let out := w_put_u8 out (u8 (BinarySubtype_to_u8 (subtype b))) in
  let* out :=
    (if is_binary_old (subtype b) then
       let* inner := ok_or (i32_try_from (len (binary_bytes b))) ScalarError_OutOfRange in
       Ok (w_put_i32_le out inner)
     else Ok out) in
  Ok (w_put_bytes out (binary_bytes b)).
Definition w_put_cstring_as {E} out (s : str) (e : E) : outcome E T :=
  map_err (λ _, e) (w_put_cstring out s).
Definition w_encode_scalar (s : Scalar) out : outcome ScalarError (Z * T) :=
  let start := w_len out in
  let* out :=
    match s with
    | Scalar_Double v => Ok (w_put_bytes out (le_encode 8 v))
    | Scalar_String v => w_encode_string v out
    | Scalar_Binary b => w_encode_binary b out
    | Scalar_Undefined | Scalar_Null | Scalar_MinKey | Scalar_MaxKey => Ok out
    | Scalar_ObjectId v => Ok (w_put_bytes out v)
    | Scalar_Bool v => Ok (w_put_u8 out (if v then 1 else 0))
    | Scalar_DateTime v => Ok (w_put_i64_le out v)
    | Scalar_Regex r =>
        let* out := w_put_cstring_as out (pattern r)
                      (ScalarError_Invalid TAG_REGEX "interior NUL in pattern") in
        w_put_cstring_as out (options r) (ScalarError_Invalid TAG_REGEX "interior NUL in options")
    | Scalar_DbPointer p =>
        let* out := w_encode_string (namespace p) out in
        Ok (w_put_bytes out (pointer_id p))
    | Scalar_JavaScript v | Scalar_Symbol v => w_encode_string v out
    | Scalar_Int32 v => Ok (w_put_i32_le out v)
    | Scalar_Timestamp t => Ok (w_put_u32_le (w_put_u32_le out (increment t)) (seconds t))
    | Scalar_Int64 v => Ok (w_put_i64_le out v)
    | Scalar_Decimal128 d => Ok (w_put_bytes out d)
    end in
  let* n := usub (w_len out) start in
  Ok (n, out).
End Provided.

(** ** Every implementation does to its contents what the plain functions do *)

Section Refinement.
Context {T : Type} `{ProtocolWriteLaws T}.
Implicit Types out : T.

Definition viewed {E} (m : outcome E T) : outcome E bytes := let* out := m in Ok (contents out).
Lemma viewed_bind {E} (m : outcome E T) (k : T → outcome E T) k' :
  (∀ out, viewed (k out) = k' (contents out)) → viewed (bind m k) = bind (viewed m) k'.
Proof. intros Hk. destruct m; cbn [bind viewed]; [apply Hk|done..]. Qed.
Lemma viewed_bind_l {E A} (m : outcome E A) (k : A → outcome E T) k' :
  (∀ a, viewed (k a) = k' a) → viewed (bind m k) = bind m k'.
Proof. intros Hk. destruct m; cbn [bind]; [apply Hk|done..]. Qed.
Lemma viewed_map_err {E F} (f : E → F) (m : outcome E T) : viewed (map_err f m) = map_err f (viewed m).
Proof. by destruct m. Qed.

#[local] Ltac unfold_writers :=
  unfold w_put_i32_le, w_put_u32_le, w_put_i64_le, w_put_u64_le, put_i32_le, put_u32_le, put_i64_le, put_u64_le in *.
#[local] Ltac view := cbn [viewed bind]; unfold_writers; repeat (rewrite put_u8_law || rewrite put_bytes_law); try done.

Lemma put_cstring_view out s : viewed (w_put_cstring out s) = put_cstring (contents out) s.
Proof. unfold w_put_cstring, put_cstring. destruct (has_nul s); view. Qed.
Lemma put_i32_le_at_view {E} out pos v :
  viewed (w_put_i32_le_at (E := E) out pos v) = put_i32_le_at (contents out) pos v.
Proof.
  unfold w_put_i32_le_at, put_i32_le_at.
  repeat (apply viewed_bind_l; intros ?; rewrite <- put_u8_at_law; try (apply viewed_bind; intros ?)); done.
Qed.
Lemma encode_string_view v out : viewed (w_encode_string v out) = scalar_encode_string v (contents out).
Proof. unfold w_encode_string, scalar_encode_string. apply viewed_bind_l. intros l. view. Qed.
Lemma encode_binary_view b out : viewed (w_encode_binary b out) = scalar_encode_binary b (contents out).
Proof.
  unfold w_encode_binary, scalar_encode_binary. apply viewed_bind_l. intros l. cbv zeta.
  destruct (is_binary_old (subtype b)); [|view]. rewrite (viewed_bind _ _ (λ o, Ok (put_bytes o (binary_bytes b)))).
  - f_equal. apply viewed_bind_l. intros inner. view.
  - intros o. view.
Qed.

Lemma encode_scalar_view s out :
  (let* '(n, out') := w_encode_scalar s out in Ok (n, contents out')) = encode_scalar s (contents out).
Proof.
  assert (∀ m m', viewed m = m' →
    (let* '(n, out') := (let* o := m in let* n := usub (w_len o) (w_len out) in Ok (n, o)) in Ok (n, contents out')) =
    (let* o := m' in let* n := usub (len o) (len (contents out)) in @Ok ScalarError _ (n, o))) as Hend.
  { intros m m' <-. destruct m as [o|e| |]; cbn [viewed bind]; try done. rewrite !len_law.
    by destruct (usub _ _). }
  unfold w_encode_scalar, encode_scalar. cbv zeta. apply Hend.
  destruct s as [v|v|b| |v|v|v| |r|p|v|v|v|t|v|d| |]; try (by view); try apply encode_string_view.
  - apply encode_binary_view.
  - unfold w_put_cstring_as, put_cstring_as.
    rewrite <- put_cstring_view, <- viewed_map_err. apply viewed_bind. intros o.
    by rewrite viewed_map_err, put_cstring_view.
  - rewrite <- encode_string_view. apply viewed_bind. intros o. view.
Qed.
End Refinement.

(** ** The implementations *)

(** [impl ProtocolWrite for Vec<u8>]; the capacity of a vector is not observed. *)
Definition ProtocolWrite_Vec : ProtocolWrite bytes := {|
  w_put_bytes := put_bytes; w_put_u8 := put_u8; w_reserve out _ := out; w_len := len;
  w_put_u8_at := λ E out pos v, put_u8_at out pos v
|}.
#[export] Existing Instance ProtocolWrite_Vec.
#[export, refine] Instance ProtocolWriteLaws_Vec : ProtocolWriteLaws bytes := { contents out := out }.
Proof. all: try done. intros E out pos v. simpl. by destruct (put_u8_at out pos v). Defined.

(** [BytesMut] of the bytes crate: the methods the implementation calls, and that
    they append, leave the contents alone, measure and overwrite them. *)
Record BytesMutCrate := mkBytesMutCrate {
  BytesMut : Type;
  bm_contents : BytesMut → bytes;
  bm_extend_from_slice : BytesMut → bytes → BytesMut;
  bm_put_u8 : BytesMut → Z → BytesMut;
  bm_reserve : BytesMut → Z → BytesMut;
  bm_len : BytesMut → Z;
  bm_index_set : ∀ {E}, BytesMut → Z → byte → outcome E BytesMut
}.
Class BytesMutLaws (C : BytesMutCrate) := {
  bm_extend_law b s : bm_contents C (bm_extend_from_slice C b s) = bm_contents C b ++ s;
  bm_put_u8_law b v : bm_contents C (bm_put_u8 C b v) = bm_contents C b ++ [of_u8 v];
  bm_reserve_law b n : bm_contents C (bm_reserve C b n) = bm_contents C b;
  bm_len_law b : bm_len C b = len (bm_contents C b);
  bm_index_law {E} b pos v :
    (let* b' := bm_index_set C (E := E) b pos v in Ok (bm_contents C b')) = set_index (bm_contents C b) pos v
}.
(** [impl ProtocolWrite for BytesMut]. *)
Definition ProtocolWrite_BytesMut (C : BytesMutCrate) : ProtocolWrite (BytesMut C) := {|
  w_put_bytes := bm_extend_from_slice C; w_put_u8 := bm_put_u8 C; w_reserve := bm_reserve C; w_len := bm_len C;
  w_put_u8_at := λ E out pos v, bm_index_set C out pos v
|}.
#[export] Existing Instance ProtocolWrite_BytesMut.
#[export, refine] Instance ProtocolWriteLaws_BytesMut C `{BytesMutLaws C} : ProtocolWriteLaws (BytesMut C) :=
  { contents := bm_contents C }.
Proof.
  - intros. apply bm_extend_law.
  - intros. apply bm_put_u8_law.
  - intros. apply bm_reserve_law.
  - intros. apply bm_len_law.
  - intros. apply bm_index_law.
Defined.

(** A buffer with spare capacity is such a [BytesMut]. *)
Definition capacity_crate : BytesMutCrate := {|
  BytesMut := bytes * Z; bm_contents := fst;
  bm_extend_from_slice b s := (b.1 ++ s, Z.max b.2 (len b.1 + len s));
  bm_put_u8 b v := (b.1 ++ [of_u8 v], Z.max b.2 (len b.1 + 1));
  bm_reserve b n := (b.1, Z.max b.2 (len b.1 + n)); bm_len b := len b.1;
  bm_index_set := λ E b pos v, let* c := set_index b.1 pos v in Ok (c, b.2)
|}.
#[export] Instance capacity_crate_laws : BytesMutLaws capacity_crate.
Proof. split; intros; try done. simpl. by destruct (set_index _ _ _). Qed.

(** ** Writers are interchangeable *)

(** On any implementation of the write trait
    that appends and patches, [encode_scalar] returns the number of bytes and
    leaves the contents that the layout of the scalar gives, or the error the
    scalar's contents call for; a placeholder patched after anything was appended
    holds the patched number and nothing else has changed; and a string with a
    NUL is refused. *)
Lemma any_writer T `{ProtocolWriteLaws T} (out : T) :
  (∀ s, (let* '(n, out') := w_encode_scalar s out in Ok (n, contents out')) =
     match scalar_encode_error s with
     | Some e => Err e
     | None => Ok (len (scalar_wire s), contents out ++ scalar_wire s)
     end)
  ∧ (∀ b v, let '(pos, out1) := w_placeholder_i32 out in
     viewed (E := ScalarError) (w_put_i32_le_at (w_put_bytes out1 b) pos v) = Ok (contents out ++ le_encode 4 v ++ b))
  ∧ (∀ s, viewed (w_put_cstring out s) =
     if has_nul s then Err WriteError_NulInString else Ok (contents out ++ s ++ [x00])).
Proof.
  split_and!.
  - intros s. by rewrite encode_scalar_view, encode_scalar_spec.
  - intros b v. cbn [w_placeholder_i32]. rewrite put_i32_le_at_view, len_law, !put_bytes_law.
    unfold put_bytes. rewrite <- app_assoc. apply put_i32_le_at_app.
  - intros s. rewrite put_cstring_view. unfold put_cstring. destruct (has_nul s); [done|].
    unfold put_u8, put_bytes. by rewrite <- app_assoc.
Qed.
(** On vectors, and on a [BytesMut] with spare capacity. *)
Example any_writer_run :
  w_encode_scalar (Scalar_Int32 7) [x2a] = Ok (4, x2a :: le_encode 4 7)
  ∧ w_encode_scalar (T := BytesMut capacity_crate) (Scalar_Bool true) ([x2a], 64) = Ok (1, ([x2a; x01], 64)).
Proof. by split; vm_compute. Qed.
