(* ===== verification/F64.v ===== *)
(** * IEEE 754 doubles: the [f64] operations of the standard library that the
    conversions and the log formatter use.

    An [f64] is its bit pattern, so every definition works on the integer.  A
    double's value is kept exact as an integer multiple of [2^-1074], the
    distance of the smallest doubles; infinities get the next power of two, so
    comparison is comparison of these integers. *)
From stdpp Require Import base list numbers strings.
From Stdlib Require Import ZArith Lia.
From S2P Require Import Prelude Utf8 Io Consts BsonScalar.
Local Open Scope Z_scope.

(** ** Fields of the representation *)

Definition f64_is_sign_negative (f : f64) : bool := Z.testbit f 63.
Definition f64_exponent (f : f64) : Z := Z.shiftr f 52 mod 2048.
Definition f64_fraction (f : f64) : Z := f mod 2 ^ 52.

Definition f64_is_nan (f : f64) : bool := (f64_exponent f =? 2047) && negb (f64_fraction f =? 0).
Definition f64_is_infinite (f : f64) : bool := (f64_exponent f =? 2047) && (f64_fraction f =? 0).
Definition f64_is_finite (f : f64) : bool := negb (f64_exponent f =? 2047).

(** A finite double is [± f64_mant f * 2 ^ f64_exp2 f]. *)
Definition f64_mant (f : f64) : Z :=
  if f64_exponent f =? 0 then f64_fraction f else f64_fraction f + 2 ^ 52.
Definition f64_exp2 (f : f64) : Z := Z.max 1 (f64_exponent f) - 1075.

(** The value in units of [2^-1074]. *)
Definition f64_scale : Z := 2 ^ 1074.
Definition f64_units (f : f64) : Z :=
  let a := f64_mant f * 2 ^ (f64_exp2 f + 1074) in
  if f64_is_sign_negative f then - a else a.

(** ** Comparison, [fract], and [as i64] *)

Definition f64_le (a b : f64) : bool :=
  negb (f64_is_nan a) && negb (f64_is_nan b) && (f64_units a <=? f64_units b).
(** [f.fract() == 0.0]: the subtraction [f - f.trunc()] is exact, and NaN for
    an infinity or a NaN. *)
Definition f64_fract_is_zero (f : f64) : bool :=
  f64_is_finite f && (Z.rem (f64_units f) f64_scale =? 0).
(** [f as i64]: towards zero, saturating, NaN to zero. *)
Definition f64_as_i64 (f : f64) : Z :=
  if f64_is_nan f then 0
  else Z.max i64_min (Z.min i64_max (Z.quot (f64_units f) f64_scale)).

(** ** Rounding to a binary format: nearest, ties to even *)

(** [m / 2 ^ s] to the nearest integer. *)
Definition round_half_even (m s : Z) : Z :=
  let q := Z.shiftr m s in
  let r := m mod 2 ^ s in
  if (2 ^ s <? 2 * r) || ((2 ^ s =? 2 * r) && Z.odd q) then q + 1 else q.

(** The bits of the number nearest to [m * 2 ^ e] ([0 < m]) in the format with
    [p] significant bits and least exponent [emin]; a carry out of the
    significand moves into the exponent, and from there into infinity. *)
Definition float_bits (p emin inf m e : Z) : Z :=
  let q := Z.max (Z.log2 m + 1 - p + e) emin in
  let c := if e <=? q then round_half_even m (q - e) else m * 2 ^ (e - q) in
  Z.min inf ((q - emin) * 2 ^ (p - 1) + c).

Definition f64_inf : Z := 2047 * 2 ^ 52.
Definition f32_inf : Z := 255 * 2 ^ 23.

(** [i as f64]. *)
Definition f64_of_i64 (i : Z) : f64 :=
  if i =? 0 then 0
  else (if i <? 0 then 2 ^ 63 else 0) + float_bits 53 (-1074) f64_inf (Z.abs i) 0.

(** An [f32] is its 32-bit pattern. *)
Abbreviation f32 := Z.
Definition f32_is_nan (f : f32) : bool :=
  (Z.shiftr f 23 mod 256 =? 255) && negb (f mod 2 ^ 23 =? 0).
(** [f as f32]; which NaN a NaN becomes is left open by the language and is the
    first argument. *)
Definition f64_as_f32 (nan_cast : f64 → f32) (f : f64) : f32 :=
  if f64_is_nan f then nan_cast f
  else
    (if f64_is_sign_negative f then 2 ^ 31 else 0)
    + (if f64_is_infinite f then f32_inf
       else if f64_mant f =? 0 then 0
       else float_bits 24 (-149) f32_inf (f64_mant f) (f64_exp2 f)).

(** ** [Display]: the shortest decimal that reads back *)

(** [core::num::flt2dec::decode]: the value [mant * 2 ^ exp] with the half
    distances [minus] and [plus] to its neighbours in the same unit.  The interval
    is inclusive when the mantissa [integer_decode] returns is even, which that of
    a subnormal always is, being doubled. *)
Record Decoded := mkDecoded
  { dec_mant : Z; dec_minus : Z; dec_plus : Z; dec_exp : Z; dec_inclusive : bool }.
Definition flt2dec_decode (f : f64) : Decoded :=
  let m := f64_mant f in
  if negb (f64_exponent f =? 0) && (m =? 2 ^ 52)
  then mkDecoded (4 * m) 1 2 (f64_exp2 f - 2) (Z.even m)
  else mkDecoded (2 * m) 1 1 (f64_exp2 f - 1) ((f64_exponent f =? 0) || Z.even m).

(** Digits are produced from the position [10 ^ k] downwards until the digits so
    far, or their successor, lie within the rounding interval. *)
Fixpoint shortest_from (fuel : nat) (d : Decoded) (k : Z) : Z * Z :=
  let unit := 2 ^ Z.max 0 (dec_exp d) * 10 ^ Z.max 0 (- k) in
  let scale := 2 ^ Z.max 0 (- dec_exp d) * 10 ^ Z.max 0 k in
  let q := dec_mant d * unit / scale in
  let r := dec_mant d * unit mod scale in
  let within a b := (a <? b) || (dec_inclusive d && (a =? b)) in
  let down := within r (dec_minus d * unit) in
  let up := within (scale - r) (dec_plus d * unit) in
  if down || up then (if up && (negb down || (scale <=? 2 * r)) then q + 1 else q, k)
  else match fuel with O => (q, k) | S fuel => shortest_from fuel d (k - 1) end.

(** [estimate_scaling_factor]: [10 ^ (k - 1) < mant * 2 ^ exp <= 10 ^ (k + 1)]. *)
Definition estimate_scaling_factor (mant exp : Z) : Z :=
  Z.shiftr ((Z.log2 (mant - 1) + 1 + exp) * 1292913986) 32.
(** [format_shortest]: the digits and the power of ten of the last one. *)
Definition format_shortest (d : Decoded) : Z * Z :=
  shortest_from 20 d (estimate_scaling_factor (dec_mant d) (dec_exp d) + 1).

(** [digits_to_dec_str] without a minimum of fractional digits. *)
Definition digits_to_dec_str (buf : bytes) (exp : Z) : bytes :=
  if exp <=? 0 then lit "0." ++ replicate (Z.to_nat (- exp)) x30 ++ buf
  else if exp <? len buf then takeZ exp buf ++ lit "." ++ dropZ exp buf
  else buf ++ replicate (Z.to_nat (exp - len buf)) x30.

(** [format!("{v}")]. *)
Definition f64_display (f : f64) : str :=
  if f64_is_nan f then lit "NaN"
  else
    (if f64_is_sign_negative f then lit "-" else [])
    ++ (if f64_is_infinite f then lit "inf"
        else if f64_mant f =? 0 then lit "0"
        else
          let '(d, k) := format_shortest (flt2dec_decode f) in
          let buf := dec_bytes d in
          digits_to_dec_str buf (len buf + k)).

(** Bit patterns: 0.1, 1.0, 3.25, 1e21, -0.0, the least and the largest double. *)
Example f64_display_values :
  f64_display 4591870180066957722 = lit "0.1"
  ∧ f64_display 4607182418800017408 = lit "1"
  ∧ f64_display 4614500768194494464 = lit "3.25"
  ∧ f64_display 4921056587992461136 = lit "1000000000000000000000"
  ∧ f64_display 9223372036854775808 = lit "-0"
  ∧ len (f64_display 1) = 326 ∧ dropZ 324 (f64_display 1) = lit "05"
  ∧ takeZ 20 (f64_display 9218868437227405311) = lit "17976931348623157000".
Proof. vm_compute. repeat split. Qed.

(** ** Lemmas *)

Section Fields.
#[local] Ltac Zify.zify_post_hook ::= Z.div_mod_to_equations.

(** A pattern assembled from its fields has these fields. *)
Lemma f64_fields s e m : 0 <= e < 2048 → 0 <= m < 2 ^ 52 →
  let f := (if s : bool then 2 ^ 63 else 0) + (e * 2 ^ 52 + m) in
  f64_is_sign_negative f = s ∧ f64_exponent f = e ∧ f64_fraction f = m.
Proof.
  intros He Hm f. unfold f64_is_sign_negative, f64_exponent, f64_fraction, f.
  rewrite Z.testbit_odd, !Z.shiftr_div_pow2 by lia.
  change (2 ^ 52) with 4503599627370496 in *. change (2 ^ 63) with 9223372036854775808.
  split_and!.
  - destruct s.
    + replace (_ / _) with 1 by lia. done.
    + replace (_ / _) with 0 by lia. done.
  - destruct s; lia.
  - destruct s; lia.
Qed.
End Fields.

(** The value of a normal number from its significand [c], hidden bit included. *)
Lemma f64_units_normal s e c : 0 < e < 2047 → 2 ^ 52 <= c < 2 ^ 53 →
  let f := (if s : bool then 2 ^ 63 else 0) + ((e - 1) * 2 ^ 52 + c) in
  f64_is_finite f = true ∧
  f64_units f = (if s then -1 else 1) * (c * 2 ^ (e - 1)).
Proof.
  intros He Hc f. unfold f.
  replace ((e - 1) * 2 ^ 52 + c) with (e * 2 ^ 52 + (c - 2 ^ 52)) by lia.
  destruct (f64_fields s e (c - 2 ^ 52)) as (Hs & Hx & Hf); [lia|lia|].
  unfold f64_is_finite, f64_units, f64_mant, f64_exp2. rewrite Hs, Hx, Hf.
  replace (e =? 2047) with false by lia. replace (e =? 0) with false by lia.
  split; [done|]. rewrite Z.max_r by lia.
  replace (c - 2 ^ 52 + 2 ^ 52) with c by lia.
  replace (e - 1075 + 1074) with (e - 1) by lia. destruct s; lia.
Qed.

Lemma round_half_even_exact c s : 0 <= s → round_half_even (c * 2 ^ s) s = c.
Proof.
  intros Hs. unfold round_half_even.
  rewrite Z.shiftr_div_pow2, Z.div_mul, Z.mod_mul by lia.
  pose proof (Z.pow_pos_nonneg 2 s ltac:(lia) Hs).
  replace (2 ^ s <? 2 * 0) with false by lia.
  by replace (2 ^ s =? 2 * 0) with false by lia.
Qed.

(** Integers up to [2^53] convert exactly. *)
Lemma f64_of_i64_exact i : Z.abs i <= 2 ^ 53 →
  f64_is_finite (f64_of_i64 i) = true ∧ f64_units (f64_of_i64 i) = i * f64_scale.
Proof.
  intros Hi. unfold f64_of_i64. destruct (Z.eqb_spec i 0) as [->|Hnz]; [done|].
  set (m := Z.abs i). set (n := Z.log2 m).
  assert (0 < m) as Hm by lia. pose proof (Z.log2_spec m Hm) as Hn. fold n in Hn.
  pose proof (Z.log2_nonneg m) as Hn0. fold n in Hn0.
  assert (n <= 53) as Hn53 by (change 53 with (Z.log2 (2 ^ 53)); by apply Z.log2_le_mono).
  assert (∃ c, 2 ^ 52 <= c < 2 ^ 53 ∧ c * 2 ^ n = m * 2 ^ 52 ∧
    float_bits 53 (-1074) f64_inf m 0 = (n + 1023 - 1) * 2 ^ 52 + c) as (c & Hc & Hcm & ->).
  { destruct (decide (n <= 52)) as [H|H].
    - exists (m * 2 ^ (52 - n)).
      assert (m * 2 ^ (52 - n) * 2 ^ n = m * 2 ^ 52) as E.
      { rewrite <- Z.mul_assoc, <- Z.pow_add_r by lia. do 2 f_equal. lia. }
      assert (2 ^ 52 <= m * 2 ^ (52 - n) < 2 ^ 53) as R.
      { rewrite Z.pow_succ_r in Hn by lia. pose proof (Z.pow_pos_nonneg 2 n).
        split; apply (Z.mul_le_mono_pos_r _ _ (2 ^ n)) || apply (Z.mul_lt_mono_pos_r (2 ^ n));
          rewrite ?E; change (2 ^ 53) with (2 * 2 ^ 52); nia. }
      split; [done|]. split; [done|]. unfold float_bits. fold n.
      rewrite Z.max_l by lia.
      assert ((if 0 <=? n + 1 - 53 + 0 then round_half_even m (n + 1 - 53 + 0 - 0)
               else m * 2 ^ (0 - (n + 1 - 53 + 0))) = m * 2 ^ (52 - n)) as ->.
      { case_match; zbool; [|do 2 f_equal; lia].
        assert (n = 52) as -> by lia.
        pose proof (round_half_even_exact m 0) as R0. rewrite Z.pow_0_r, Z.mul_1_r in R0.
        change (2 ^ (52 - 52)) with 1. rewrite Z.mul_1_r. by apply R0. }
      unfold f64_inf. rewrite Z.min_r; lia.
    - assert (n = 53) as Hn' by lia. assert (m = 2 ^ 53) as -> by (rewrite Hn' in Hn; lia).
      exists (2 ^ 52). unfold n. split; [done|]. split; reflexivity. }
  destruct (f64_units_normal (i <? 0) (n + 1023) c) as [Hf Hu]; [lia|done|].
  split; [done|]. rewrite Hu. replace (n + 1023 - 1) with (n + 1022) by lia.
  assert (c * 2 ^ (n + 1022) = m * f64_scale) as ->.
  { rewrite Z.pow_add_r, Z.mul_assoc, Hcm, <- Z.mul_assoc by lia. done. }
  unfold m. destruct (Z.ltb_spec i 0); lia.
Qed.
