(* ===== verification/BsonValue.v ===== *)
(** * Eager BSON values: [wirebson/src/value.rs], [document.rs], [array.rs],
    [error.rs] and the validated raw wrappers of [raw.rs].

    [Document { fields }] and [Array { values }] are single-field structs and
    appear as their field; [RawDocument(Bytes)] and [RawArray(Bytes)] likewise
    as the bytes they wrap. *)
From stdpp Require Import base list numbers strings.
From Stdlib Require Import ZArith Lia.
From S2P Require Import Prelude Utf8 Io Consts BsonScalar.
Local Open Scope Z_scope.

(** ** Types *)

Abbreviation RawDocument := (list byte).
Abbreviation RawArray := (list byte).

Inductive Bson :=
| Bson_Double (v : f64)
| Bson_String (v : str)
| Bson_Document (fields : list (str * Bson))
| Bson_Array (values : list Bson)
| Bson_Binary (b : Binary)
| Bson_Undefined
| Bson_ObjectId (v : ObjectId)
| Bson_Bool (v : bool)
| Bson_DateTime (v : Z)
| Bson_Null
| Bson_Regex (r : Regex)
| Bson_DbPointer (p : DbPointer)
| Bson_JavaScript (v : str)
| Bson_Symbol (v : str)
| Bson_JavaScriptScope (code : str) (scope : RawDocument)
| Bson_Int32 (v : Z)
| Bson_Timestamp (t : Timestamp)
| Bson_Int64 (v : Z)
| Bson_Decimal128 (d : Decimal128)
| Bson_MinKey
| Bson_MaxKey.

(** [struct Field { name, value }]. *)
Abbreviation Field := (str * Bson)%type.
Abbreviation Document := (list Field).
Abbreviation Array := (list Bson).

(** [wirebson::Error]. *)
Inductive BsonError :=
| BsonError_ShortInput (needed got : Z)
| BsonError_InvalidInput (offset : Z) (reason : string)
| BsonError_LengthMismatch (declared actual : Z)
| BsonError_Utf8 (e : Utf8Error)
| BsonError_NestedTooDeep (max : Z)
| BsonError_Scalar (e : ScalarError).

(** [Error::invalid]. *)
Definition BsonError_invalid (offset : Z) (reason : string) : BsonError :=
  BsonError_InvalidInput offset reason.

(** Induction with hypotheses for the members of documents and arrays. *)
Section BsonInd.
Variable P : Bson → Prop.
Hypothesis H_doc : ∀ fs, Forall (λ f, P f.2) fs → P (Bson_Document fs).
Hypothesis H_arr : ∀ vs, Forall P vs → P (Bson_Array vs).
Hypothesis H_leaf : ∀ v, (∀ fs, v ≠ Bson_Document fs) → (∀ vs, v ≠ Bson_Array vs) → P v.

Fixpoint Bson_nested_ind (v : Bson) : P v :=
  match v with
  | Bson_Document fs =>
      H_doc fs ((fix go (l : list (str * Bson)) : Forall (λ f, P f.2) l :=
        match l with
        | [] => Forall_nil_2 _
        | f :: l' => Forall_cons_2 _ f l' (Bson_nested_ind f.2) (go l')
        end) fs)
  | Bson_Array vs =>
      H_arr vs ((fix go (l : list Bson) : Forall P l :=
        match l with
        | [] => Forall_nil_2 _
        | x :: l' => Forall_cons_2 _ x l' (Bson_nested_ind x) (go l')
        end) vs)
  | _ => ltac:(apply H_leaf; discriminate)
  end.
End BsonInd.

(** ** [Bson::tag], [Bson::as_scalar], [From<Scalar> for Bson] *)

Definition Bson_tag (v : Bson) : Z :=
  match v with
  | Bson_Double _ => TAG_DOUBLE
  | Bson_String _ => TAG_STRING
  | Bson_Document _ => TAG_DOCUMENT
  | Bson_Array _ => TAG_ARRAY
  | Bson_Binary _ => TAG_BINARY
  | Bson_Undefined => TAG_UNDEFINED
  | Bson_ObjectId _ => TAG_OBJECT_ID
  | Bson_Bool _ => TAG_BOOL
  | Bson_DateTime _ => TAG_DATE_TIME
  | Bson_Null => TAG_NULL
  | Bson_Regex _ => TAG_REGEX
  | Bson_DbPointer _ => TAG_DB_POINTER
  | Bson_JavaScript _ => TAG_JAVASCRIPT
  | Bson_Symbol _ => TAG_SYMBOL
  | Bson_JavaScriptScope _ _ => TAG_JAVASCRIPT_SCOPE
  | Bson_Int32 _ => TAG_INT32
  | Bson_Timestamp _ => TAG_TIMESTAMP
  | Bson_Int64 _ => TAG_INT64
  | Bson_Decimal128 _ => TAG_DECIMAL128
  | Bson_MinKey => TAG_MIN_KEY
  | Bson_MaxKey => TAG_MAX_KEY
  end.

Definition Bson_as_scalar (v : Bson) : option Scalar :=
  match v with
  | Bson_Double v => Some (Scalar_Double v)
  | Bson_String v => Some (Scalar_String v)
  | Bson_Binary v => Some (Scalar_Binary v)
  | Bson_Undefined => Some Scalar_Undefined
  | Bson_ObjectId v => Some (Scalar_ObjectId v)
  | Bson_Bool v => Some (Scalar_Bool v)
  | Bson_DateTime v => Some (Scalar_DateTime v)
  | Bson_Null => Some Scalar_Null
  | Bson_Regex v => Some (Scalar_Regex v)
  | Bson_DbPointer v => Some (Scalar_DbPointer v)
  | Bson_JavaScript v => Some (Scalar_JavaScript v)
  | Bson_Symbol v => Some (Scalar_Symbol v)
  | Bson_Int32 v => Some (Scalar_Int32 v)
  | Bson_Timestamp v => Some (Scalar_Timestamp v)
  | Bson_Int64 v => Some (Scalar_Int64 v)
  | Bson_Decimal128 v => Some (Scalar_Decimal128 v)
  | Bson_MinKey => Some Scalar_MinKey
  | Bson_MaxKey => Some Scalar_MaxKey
  | Bson_Document _ | Bson_Array _ | Bson_JavaScriptScope _ _ => None
  end.

Definition Bson_from_scalar (s : Scalar) : Bson :=
  match s with
  | Scalar_Double v => Bson_Double v
  | Scalar_String v => Bson_String v
  | Scalar_Binary v => Bson_Binary v
  | Scalar_Undefined => Bson_Undefined
  | Scalar_ObjectId v => Bson_ObjectId v
  | Scalar_Bool v => Bson_Bool v
  | Scalar_DateTime v => Bson_DateTime v
  | Scalar_Null => Bson_Null
  | Scalar_Regex v => Bson_Regex v
  | Scalar_DbPointer v => Bson_DbPointer v
  | Scalar_JavaScript v => Bson_JavaScript v
  | Scalar_Symbol v => Bson_Symbol v
  | Scalar_Int32 v => Bson_Int32 v
  | Scalar_Timestamp v => Bson_Timestamp v
  | Scalar_Int64 v => Bson_Int64 v
  | Scalar_Decimal128 v => Bson_Decimal128 v
  | Scalar_MinKey => Bson_MinKey
  | Scalar_MaxKey => Bson_MaxKey
  end.

(** ** [Document] *)

Definition Document_new : Document := [].
(** [FromIterator<(K, V)>], given the conversions [K: Into<String>] and
    [V: Into<Bson>]. *)
Definition Document_from_iter {K V} (name : K → str) (value : V → Bson) (iter : list (K * V)) : Document :=
  (λ kv, (name kv.1, value kv.2)) <$> iter.
Definition Document_len (d : Document) : Z := len d.
Definition Document_is_empty (d : Document) : bool := match d with [] => true | _ => false end.
Definition Document_add (d : Document) (name : str) (value : Bson) : Document :=
  d ++ [(name, value)].
(** [iter().find(|f| f.name == name)]. *)
Fixpoint Document_get (d : Document) (name : str) : option Bson :=
  match d with
  | [] => None
  | (n, v) :: t => if str_eqb n name then Some v else Document_get t name
  end.
(** [get_mut(name)] followed by a write [*v = f v] through the reference. *)
Fixpoint Document_get_mut (d : Document) (name : str) (f : Bson → Bson) : option Document :=
  match d with
  | [] => None
  | (n, v) :: t =>
      if str_eqb n name then Some ((n, f v) :: t)
      else cons (n, v) <$> Document_get_mut t name f
  end.

(** The [while i < self.fields.len()] loop of [remove]: an iteration either
    removes element [i] or advances [i]. *)
Fixpoint Document_remove_loop (fuel : nat) (name : str) (i : Z) (first : option Bson)
  (d : Document) : outcome BsonError (option Bson * Document) :=
  match fuel with
  | O => Fuel
  | S fuel =>
      if i <? len d then
        let* f := index d i in
        if str_eqb (fst f) name then
          let d' := takeZ i d ++ dropZ (i + 1) d in
          Document_remove_loop fuel name i
            (match first with None => Some (snd f) | Some _ => first end) d'
        else Document_remove_loop fuel name (i + 1) first d
      else Ok (first, d)
  end.
Definition Document_remove (d : Document) (name : str)
  : outcome BsonError (option Bson * Document) :=
  Document_remove_loop (S (length d)) name 0 None d.

(** [replace]: the [for field in &mut self.fields] loop with its early return. *)
Fixpoint Document_replace_loop (d : Document) (name : str) (value : Bson) : option Document :=
  match d with
  | [] => None
  | (n, v) :: t =>
      if str_eqb n name then Some ((n, value) :: t)
      else cons (n, v) <$> Document_replace_loop t name value
  end.
Definition Document_replace (d : Document) (name : str) (value : Bson) : Document :=
  match Document_replace_loop d name value with
  | Some d' => d'
  | None => d ++ [(name, value)]
  end.

Definition Document_field_names (d : Document) : list str := fst <$> d.
Definition Document_command (d : Document) : option str := fst <$> head d.

(** ** [Array] *)
Definition Array_new : Array := [].
Definition Array_from_iter (iter : list Bson) : Array := iter.
Definition Array_push (a : Array) (value : Bson) : Array := a ++ [value].
Definition Array_len (a : Array) : Z := len a.
Definition Array_is_empty (a : Array) : bool := match a with [] => true | _ => false end.

(** ** Raw validation *)

(** [RawDocument::from_bytes]. *)
Definition RawDocument_from_bytes (b : bytes) : outcome BsonError RawDocument :=
  let actual := len b in
  if actual <? MIN_DOC_LEN then Err (BsonError_ShortInput MIN_DOC_LEN actual)
  else
    let* b0 := index b 0 in let* b1 := index b 1 in
    let* b2 := index b 2 in let* b3 := index b 3 in
    let declared := u32_of_le [b0; b1; b2; b3] in
    if declared <? MIN_DOC_LEN then
      Err (BsonError_invalid 0 (String.append "declared length "
             (String.append (dec_string declared)
                (String.append " is below the minimum " (dec_string MIN_DOC_LEN)))))
    else if negb (declared =? actual) then Err (BsonError_LengthMismatch declared actual)
    else
      let* i := usub actual 1 in
      let* last := index b i in
      if negb (u8 last =? 0) then Err (BsonError_invalid i "missing trailing NUL")
      else Ok b.
Definition RawDocument_from_vec (v : bytes) : outcome BsonError RawDocument :=
  RawDocument_from_bytes v.
(** [RawArray::from_bytes]. *)
Definition RawArray_from_bytes (b : bytes) : outcome BsonError RawArray :=
  RawDocument_from_bytes b.
Definition RawArray_from_vec (v : bytes) : outcome BsonError RawArray :=
  RawArray_from_bytes v.

(** [RawDocument::command]. *)
Definition RawDocument_command (bytes : RawDocument) : outcome BsonError str :=
  if len bytes <? 4 then Err (BsonError_ShortInput MIN_DOC_LEN (len bytes))
  else
    match dropZ 4 bytes with
    | [] => Ok []
    | tag :: name =>
        if u8 tag =? 0 then Ok []
        else
          match position is_nul name with
          | None => Err (BsonError_ShortInput (len bytes + 1) (len bytes))
          | Some e => map_err BsonError_Utf8 (from_utf8 (takeZ e name))
          end
    end.

(** ** Lemmas *)

Lemma str_eqb_spec a b : reflect (a = b) (str_eqb a b).
Proof. unfold str_eqb. case_bool_decide; by constructor. Qed.
Lemma str_eqb_refl a : str_eqb a a = true.
Proof. by destruct (str_eqb_spec a a). Qed.

(** The validated shape: prefix, exact length, trailing NUL. *)
Definition raw_ok (b : bytes) : Prop :=
  ∃ body, b = le_encode 4 (len body + 5) ++ body ++ [x00] ∧ len body + 5 <= u32_max.

(** [len body + 5] framed as a document. *)
Definition doc_frame (body : bytes) : bytes := le_encode 4 (len body + 5) ++ body ++ [x00].

Lemma len_doc_frame body : len (doc_frame body) = len body + 5.
Proof. unfold doc_frame. len_tac. Qed.

Lemma index_take4 {E} (b : bytes) (k : bytes → outcome E RawDocument) : 4 <= len b →
  (let* b0 := index b 0 in let* b1 := index b 1 in
   let* b2 := index b 2 in let* b3 := index b 3 in k [b0; b1; b2; b3]) = k (takeZ 4 b).
Proof.
  intros. destruct b as [|b0 [|b1 [|b2 [|b3 r]]]]; autorewrite with len in *; try lia. done.
Qed.

Lemma last_byte (b : bytes) : 5 <= len b →
  ∃ body x, b = takeZ 4 b ++ body ++ [x] ∧ get b (len b - 1) = Some x.
Proof.
  intros Hl. destruct (exists_last (l := dropZ 4 b)) as (body & x & E).
  { intros E. apply (f_equal len) in E. rewrite len_dropZ in E by lia. len_tac. }
  exists body, x. rewrite <- E, take_dropZ. split; [done|].
  rewrite <- (take_dropZ 4 b), E.
  replace (len (takeZ 4 b ++ body ++ [x]) - 1) with (len (takeZ 4 b ++ body)) by len_tac.
  rewrite app_assoc. apply get_app_r.
Qed.

Lemma RawDocument_from_bytes_frame body : len body + 5 <= u32_max →
  RawDocument_from_bytes (doc_frame body) = Ok (doc_frame body).
Proof.
  intros Hl. unfold RawDocument_from_bytes. cbv zeta. rewrite len_doc_frame.
  pose proof (len_nonneg body). unfold MIN_DOC_LEN.
  replace (len body + 5 <? 5) with false by lia.
  rewrite (index_take4 (doc_frame body) (λ x, _)) by (rewrite len_doc_frame; lia).
  unfold doc_frame at 1 2 3 4. rewrite takeZ_app by done.
  rewrite u32_of_le_encode by (unfold in_u32; lia). zif.
  rewrite Z.eqb_refl. simpl negb. cbv iota. unfold usub. zif. cbn [bind].
  unfold index, doc_frame. rewrite app_assoc.
  replace (len body + 5 - 1) with (len (le_encode 4 (len body + 5) ++ body)) by len_tac.
  rewrite get_app_r. done.
Qed.

Lemma RawDocument_from_bytes_Ok_inv b r : RawDocument_from_bytes b = Ok r →
  r = b ∧ raw_ok b.
Proof.
  unfold RawDocument_from_bytes, MIN_DOC_LEN. cbv zeta. intros H.
  destruct (len b <? 5) eqn:E1; [done|]. zbool.
  rewrite (index_take4 b (λ x, _)) in H by lia.
  destruct (u32_of_le (takeZ 4 b) <? 5) eqn:E2; [done|].
  destruct (negb (u32_of_le (takeZ 4 b) =? len b)) eqn:E3; [done|]. zbool.
  destruct (last_byte b) as (body & x & Eb & Eg); [lia|].
  unfold usub in H. destruct (len b <? 1); [done|]. cbn [bind] in H.
  unfold index in H. rewrite Eg in H. cbn [expect bind] in H.
  destruct (negb (u8 x =? 0)) eqn:E4; [done|]. zbool. inv_ok. split; [done|].
  exists body. assert (len body + 5 = len r) as El.
  { apply (f_equal len) in Eb. rewrite !len_app, len_takeZ in Eb by lia. len_tac. }
  rewrite El, <- E3. unfold u32_of_le.
  rewrite le_encode_decode_len by (by rewrite len_takeZ by lia).
  assert (x = x00) as -> by (apply is_nul_x00; unfold is_nul; lia).
  split; [done|]. assert (in_u32 (le_decode (takeZ 4 r))) as Hu.
  { apply u32_of_le_range. rewrite len_takeZ; lia. }
  unfold in_u32 in Hu. lia.
Qed.

Lemma returns_RawDocument_from_bytes b : returns (RawDocument_from_bytes b).
Proof.
  unfold RawDocument_from_bytes, MIN_DOC_LEN. cbv zeta.
  destruct (len b <? 5) eqn:E1; [done|]. zbool.
  rewrite (index_take4 b (λ x, _)) by lia. repeat case_match; try done.
  destruct (last_byte b) as (body & x & Eb & Eg); [lia|].
  unfold usub. zif. cbn [bind]. unfold index. rewrite Eg. cbn [expect bind]. by case_match.
Qed.
#[export] Hint Resolve returns_RawDocument_from_bytes : wire.

Lemma raw_ok_frame b : raw_ok b ↔ ∃ body, b = doc_frame body ∧ len body + 5 <= u32_max.
Proof. done. Qed.
Lemma RawDocument_from_bytes_ok b : raw_ok b → RawDocument_from_bytes b = Ok b.
Proof. intros (body & -> & H)%raw_ok_frame. by apply RawDocument_from_bytes_frame. Qed.

Lemma Document_get_fmap_names d name :
  Document_get d name = None ↔ name ∉ Document_field_names d.
Proof.
  unfold Document_field_names. induction d as [|[n v] d IH]; simpl.
  - split; [intros _; apply not_elem_of_nil|done].
  - rewrite not_elem_of_cons. destruct (str_eqb_spec n name) as [->|Hn].
    + split; [done|]. by intros [? _].
    + rewrite IH. naive_solver.
Qed.

Lemma Document_get_app d d' name :
  Document_get (d ++ d') name =
    match Document_get d name with Some v => Some v | None => Document_get d' name end.
Proof. induction d as [|[n v] d IH]; simpl; [done|]. by destruct (str_eqb n name). Qed.

Lemma takeZ_dropZ_del {A} (l1 : list A) x l2 :
  takeZ (len l1) (l1 ++ x :: l2) ++ dropZ (len l1 + 1) (l1 ++ x :: l2) = l1 ++ l2.
Proof.
  rewrite takeZ_app by done. f_equal. rewrite (cons_middle x l1 l2), app_assoc.
  apply dropZ_app. len_tac.
Qed.

(** Invariant of the [remove] loop: the prefix before [i] is already free of
    [name]; the bound only has to exceed what is left. *)
Lemma Document_remove_loop_spec name suf : ∀ fuel pre first,
  (length suf < fuel)%nat →
  Document_remove_loop fuel name (len pre) first (pre ++ suf) =
    Ok (match first with Some v => Some v | None => Document_get suf name end,
        pre ++ filter (λ f, f.1 ≠ name) suf).
Proof.
  induction suf as [|[n v] suf IH]; intros fuel pre first Hf;
    (destruct fuel as [|fuel]; [simpl in Hf; lia|]); cbn [Document_remove_loop].
  - rewrite app_nil_r, filter_nil, app_nil_r. zif. by destruct first.
  - rewrite len_app, len_cons. pose proof (len_nonneg suf).
    replace (len pre <? len pre + (1 + len suf)) with true by lia.
    unfold index. rewrite get_app_r. cbn [expect bind fst snd].
    destruct (str_eqb_spec n name) as [->|Hn].
    + rewrite takeZ_dropZ_del, IH by (simpl in Hf; lia).
      rewrite filter_cons_False by naive_solver. simpl. rewrite str_eqb_refl.
      by destruct first.
    + rewrite (cons_middle _ pre suf), app_assoc.
      replace (len pre + 1) with (len (pre ++ [(n, v)])) by len_tac.
      rewrite IH by (simpl in Hf; lia). rewrite filter_cons_True by done. simpl.
      destruct (str_eqb_spec n name); [done|]. by rewrite <- app_assoc.
Qed.

Lemma Document_replace_loop_get d name value d' m :
  Document_replace_loop d name value = Some d' →
  Document_get d' m = (if str_eqb m name then Some value else Document_get d m) ∧
  Document_field_names d' = Document_field_names d.
Proof.
  revert d'. induction d as [|[n v] d IH]; intros d'; simpl; [done|].
  destruct (str_eqb_spec n name) as [->|Hn].
  - intros [= <-]. simpl. destruct (str_eqb_spec m name) as [Hm|Hm].
    + rewrite Hm. by rewrite str_eqb_refl.
    + by destruct (str_eqb_spec name m) as [Hx|]; [symmetry in Hx|].
  - intros (d1 & H1 & ->)%fmap_Some. destruct (IH _ H1) as [IH1 IH2]. simpl.
    rewrite IH1, IH2. split; [|done].
    destruct (str_eqb_spec m name) as [Hm|]; [|done].
    rewrite Hm. by destruct (str_eqb_spec n name).
Qed.
Lemma Document_replace_loop_None d name value :
  Document_replace_loop d name value = None ↔ Document_get d name = None.
Proof.
  induction d as [|[n v] d IH]; simpl; [done|]. case_match; [done|].
  by rewrite fmap_None.
Qed.

(** ** Document operations *)

(** [Document::remove] always terminates without a panic, returns the value
    [get] would have returned, and leaves exactly the fields with another
    name, in order (every duplicate of the name is gone). *)
Lemma document_remove_spec d name :
  Document_remove d name = Ok (Document_get d name, filter (λ f, f.1 ≠ name) d).
Proof. apply (Document_remove_loop_spec name d _ [] None). lia. Qed.

(** [Document::replace] behaves as a map update on the first occurrence:
    [get] of the name yields the new value, [get] of any other name is
    unchanged, and the field names keep their order, with the name appended
    only when it was absent. *)
Lemma document_replace_spec d name value m :
  Document_get (Document_replace d name value) m =
    (if str_eqb m name then Some value else Document_get d m) ∧
  Document_field_names (Document_replace d name value) =
    Document_field_names d ++ (if Document_get d name then [] else [name]).
Proof.
  unfold Document_replace. destruct (Document_replace_loop d name value) as [d'|] eqn:E.
  - destruct (Document_replace_loop_get _ _ _ _ m E) as [-> ->]. split; [done|].
    destruct (Document_get d name) eqn:G; [by rewrite app_nil_r|].
    apply (Document_replace_loop_None _ _ value) in G. congruence.
  - apply Document_replace_loop_None in E. rewrite E, Document_get_app. simpl.
    unfold Document_field_names. rewrite fmap_app. split; [|done].
    destruct (str_eqb_spec m name) as [Hm|Hm].
    + by rewrite Hm, E, str_eqb_refl.
    + destruct (str_eqb_spec name m); [by subst|]. by case_match.
Qed.

(** Document mutators: [remove] always terminates without a panic, returns
    what [get] would have returned and leaves exactly the fields with another
    name, in order; [replace] is a map update on the first occurrence: [get] of
    the name yields the new value, [get] of any other name is unchanged, and the
    field names keep their order, with the name appended only when it was
    absent. *)
Lemma document_mutators d name value m :
  Document_remove d name = Ok (Document_get d name, filter (λ f, f.1 ≠ name) d)
  ∧ Document_get (Document_replace d name value) m
    = (if str_eqb m name then Some value else Document_get d m)
  ∧ Document_field_names (Document_replace d name value)
    = Document_field_names d ++ (if Document_get d name then [] else [name]).
Proof. split; [apply document_remove_spec|apply document_replace_spec]. Qed.
