(* ===== verification/Convert.v ===== *)
(** * Conversions between BSON and native types:
    [mongo_common/src/bson/convert.rs] and [wirebson/src/convert.rs].

    The nine integer targets of [try_from_numeric!] are the type [IntTy]; the
    sources of the infallible [From] implementations are the type [Native].
    Times are nanoseconds relative to the epoch, with the second count of the
    Unix implementation kept within [i64]. *)
From stdpp Require Import base list numbers strings.
From Stdlib Require Import ZArith Lia.
From S2P Require Import Prelude Utf8 Io Consts BsonScalar F64 BsonValue.
Local Open Scope Z_scope.

(** ** Infallible conversions *)

Inductive Native :=
| Native_i8 (v : Z)
| Native_i16 (v : Z)
| Native_u8 (v : Z)
| Native_u16 (v : Z)
| Native_i32 (v : Z)
| Native_i64 (v : Z)
| Native_f64 (v : f64)
| Native_bool (v : bool)
| Native_String (v : str)
| Native_str (v : str)
| Native_ObjectId (v : ObjectId)
| Native_Binary (v : Binary).

(** The [From] implementations for [Scalar]. *)
Definition Scalar_from (v : Native) : Scalar :=
  match v with
  | Native_i8 v | Native_i16 v | Native_u8 v | Native_u16 v => Scalar_Int32 v
  | Native_i32 v => Scalar_Int32 v
  | Native_i64 v => Scalar_Int64 v
  | Native_f64 v => Scalar_Double v
  | Native_bool v => Scalar_Bool v
  | Native_String v | Native_str v => Scalar_String v
  | Native_ObjectId v => Scalar_ObjectId v
  | Native_Binary v => Scalar_Binary v
  end.

(** The [From] implementations for [Bson]. *)
Definition Bson_from (v : Native) : Bson :=
  match v with
  | Native_i8 v | Native_i16 v | Native_u8 v | Native_u16 v => Bson_Int32 v
  | Native_i32 v => Bson_Int32 v
  | Native_i64 v => Bson_Int64 v
  | Native_f64 v => Bson_Double v
  | Native_bool v => Bson_Bool v
  | Native_String v | Native_str v => Bson_String v
  | Native_ObjectId v => Bson_ObjectId v
  | Native_Binary v => Bson_Binary v
  end.
Definition Bson_from_regex (v : Regex) : Bson := Bson_Regex v.
Definition Bson_from_timestamp (v : Timestamp) : Bson := Bson_Timestamp v.

(** ** Numbers *)

Inductive IntTy := I8 | I16 | I32 | I64 | I128 | U8 | U16 | U32 | U64.
Definition int_min (t : IntTy) : Z :=
  match t with
  | I8 => -128 | I16 => -32768 | I32 => i32_min | I64 => i64_min
  | I128 => - 2 ^ 127 | U8 | U16 | U32 | U64 => 0
  end.
Definition int_max (t : IntTy) : Z :=
  match t with
  | I8 => 127 | I16 => 32767 | I32 => i32_max | I64 => i64_max | I128 => 2 ^ 127 - 1
  | U8 => u8_max | U16 => 65535 | U32 => u32_max | U64 => u64_max
  end.
(** [<$t>::try_from(wide)]. *)
Definition int_try_from (t : IntTy) (wide : Z) : option Z :=
  if (int_min t <=? wide) && (wide <=? int_max t) then Some wide else None.

(** [try_from_numeric!]. *)
Definition Scalar_try_int (t : IntTy) (v : Scalar) : outcome ScalarError Z :=
  let* wide :=
    match v with
    | Scalar_Int32 i => Ok i
    | Scalar_Int64 i => Ok i
    | Scalar_Bool b => Ok (if b then 1 else 0)
    | Scalar_Double f =>
        if f64_fract_is_zero f && f64_le (f64_of_i64 i64_min) f
             && f64_le f (f64_of_i64 i64_max)
        then Ok (f64_as_i64 f) else Err ScalarError_NotConvertible
    | _ => Err ScalarError_NotConvertible
    end in
  ok_or (int_try_from t wide) ScalarError_OutOfRange.

Definition Scalar_try_f64 (v : Scalar) : outcome ScalarError f64 :=
  match v with
  | Scalar_Double f => Ok f
  | Scalar_Int32 i => Ok (f64_of_i64 i)
  | Scalar_Int64 i => Ok (f64_of_i64 i)
  | _ => Err ScalarError_NotConvertible
  end.
Definition Scalar_try_f32 (nan_cast : f64 → f32) (v : Scalar) : outcome ScalarError f32 :=
  let* f := Scalar_try_f64 v in Ok (f64_as_f32 nan_cast f).
Definition Scalar_try_bool (v : Scalar) : outcome ScalarError bool :=
  match v with Scalar_Bool b => Ok b | _ => Err ScalarError_NotConvertible end.
Definition Scalar_try_String (v : Scalar) : outcome ScalarError str :=
  match v with
  | Scalar_String s | Scalar_JavaScript s | Scalar_Symbol s => Ok s
  | Scalar_ObjectId id => Ok (ObjectId_to_hex id)
  | _ => Err ScalarError_NotConvertible
  end.

(** ** Time *)

Abbreviation SystemTime := Z.
Abbreviation Duration := Z.
Definition nanos_per_sec : Z := 1000000000.
Definition Duration_from_millis (ms : Z) : Duration := ms * 1000000.
Definition Duration_as_millis (d : Duration) : Z := d / 1000000.
(** A [SystemTime] the platform represents: [i64] seconds and the nanoseconds. *)
Definition system_time_ok (t : SystemTime) : bool :=
  (i64_min <=? t / nanos_per_sec) && (t / nanos_per_sec <=? i64_max).
(** [UNIX_EPOCH + d] and [UNIX_EPOCH - d] panic outside it. *)
Definition epoch_plus {E} (d : Duration) : outcome E SystemTime :=
  if system_time_ok d then Ok d else Panic.
Definition epoch_minus {E} (d : Duration) : outcome E SystemTime :=
  if system_time_ok (- d) then Ok (- d) else Panic.
(** [t.duration_since(UNIX_EPOCH)]: the distance, on the right before the epoch. *)
Definition duration_since_epoch (t : SystemTime) : Duration + Duration :=
  if 0 <=? t then inl t else inr (- t).
(** [n as i64] of a [u128]. *)
Definition as_i64 (n : Z) : Z := to_signed 64 (n mod 2 ^ 64).
(** [-n] on [i64], overflow-checked. *)
Definition i64_neg {E} (n : Z) : outcome E Z := if n =? i64_min then Panic else Ok (- n).

Definition Scalar_try_SystemTime (v : Scalar) : outcome ScalarError SystemTime :=
  match v with
  | Scalar_DateTime ms =>
      let d := Duration_from_millis (Z.abs ms) in
      if 0 <=? ms then epoch_plus d else epoch_minus d
  | _ => Err ScalarError_NotConvertible
  end.
Definition millis_from_time {E} (t : SystemTime) : outcome E Z :=
  match duration_since_epoch t with
  | inl d => Ok (as_i64 (Duration_as_millis d))
  | inr d => i64_neg (as_i64 (Duration_as_millis d))
  end.
(** [impl From<SystemTime>] for [Scalar] and for [Bson]. *)
Definition Scalar_from_time {E} (t : SystemTime) : outcome E Scalar :=
  let* ms := millis_from_time t in Ok (Scalar_DateTime ms).
Definition Bson_from_time {E} (t : SystemTime) : outcome E Bson :=
  let* ms := millis_from_time t in Ok (Bson_DateTime ms).
Definition Scalar_try_Duration (v : Scalar) : outcome ScalarError Duration :=
  match v with
  | Scalar_Int64 ms =>
      if 0 <=? ms then Ok (Duration_from_millis ms) else Err ScalarError_NotConvertible
  | _ => Err ScalarError_NotConvertible
  end.

(** ** The [uuid] and [dec] crates *)

(** [Uuid::from_slice], [Uuid::as_bytes]; [dec::Decimal128::from_le_bytes] and
    [to_le_bytes]. *)
Record ValueCrates := mkValueCrates
  { Uuid : Type; uuid_from_slice : bytes → option Uuid; uuid_as_bytes : Uuid → bytes;
    Dec : Type; dec_from_le_bytes : bytes → Dec; dec_to_le_bytes : Dec → bytes }.
(** Their documented behaviour: both are wrappers of a byte array. *)
Class ValueCratesLaws (C : ValueCrates) : Prop :=
  { uuid_bytes_len u : len (uuid_as_bytes C u) = 16;
    uuid_from_as u : uuid_from_slice C (uuid_as_bytes C u) = Some u;
    uuid_as_from b u : uuid_from_slice C b = Some u → uuid_as_bytes C u = b;
    uuid_from_16 b : len b = 16 → is_Some (uuid_from_slice C b);
    dec_from_to d : dec_from_le_bytes C (dec_to_le_bytes C d) = d;
    dec_to_from b : len b = 16 → dec_to_le_bytes C (dec_from_le_bytes C b) = b }.

Section Crates.
Context (C : ValueCrates).

Definition Scalar_try_Uuid (v : Scalar) : outcome ScalarError (Uuid C) :=
  match v with
  | Scalar_Binary b =>
      if bool_decide (subtype b = BinarySubtype_Uuid) && (len (binary_bytes b) =? 16)
      then ok_or (uuid_from_slice C (binary_bytes b)) ScalarError_OutOfRange
      else Err ScalarError_NotConvertible
  | _ => Err ScalarError_NotConvertible
  end.
Definition Scalar_from_Uuid (v : Uuid C) : Scalar :=
  Scalar_Binary (mkBinary BinarySubtype_Uuid (uuid_as_bytes C v)).
Definition Scalar_try_Dec (v : Scalar) : outcome ScalarError (Dec C) :=
  match v with
  | Scalar_Decimal128 d => Ok (dec_from_le_bytes C d)
  | _ => Err ScalarError_NotConvertible
  end.
Definition Scalar_from_Dec (v : Dec C) : Scalar := Scalar_Decimal128 (dec_to_le_bytes C v).
End Crates.

(** ** [Bson]: every [TryFrom<&Bson>] delegates to the scalar layer *)

Definition bson_try {A} (f : Scalar → outcome ScalarError A) (v : Bson) : outcome BsonError A :=
  match Bson_as_scalar v with
  | Some s => map_err BsonError_Scalar (f s)
  | None => Err (BsonError_Scalar ScalarError_NotConvertible)
  end.
Definition Bson_try_int (t : IntTy) : Bson → outcome BsonError Z := bson_try (Scalar_try_int t).
Definition Bson_try_f64 : Bson → outcome BsonError f64 := bson_try Scalar_try_f64.
Definition Bson_try_f32 (nan_cast : f64 → f32) : Bson → outcome BsonError f32 :=
  bson_try (Scalar_try_f32 nan_cast).
Definition Bson_try_bool : Bson → outcome BsonError bool := bson_try Scalar_try_bool.
Definition Bson_try_String : Bson → outcome BsonError str := bson_try Scalar_try_String.
Definition Bson_try_SystemTime : Bson → outcome BsonError SystemTime :=
  bson_try Scalar_try_SystemTime.

(** ** Numeric conversions against the exact value *)

(** [f] is the integer [n]. *)
Definition f64_is_int (f : f64) (n : Z) : Prop :=
  f64_is_finite f = true ∧ f64_units f = n * f64_scale.
(** [s] is a number or a boolean of integer value [n]. *)
Definition scalar_int (s : Scalar) (n : Z) : Prop :=
  match s with
  | Scalar_Int32 i | Scalar_Int64 i => n = i
  | Scalar_Bool b => n = if b then 1 else 0
  | Scalar_Double f => f64_is_int f n
  | _ => False
  end.

Lemma f64_scale_pos : 0 < f64_scale.
Proof. done. Qed.
Lemma f64_units_i64_min : f64_units (f64_of_i64 i64_min) = i64_min * f64_scale.
Proof. by vm_compute. Qed.
Lemma f64_units_i64_max : f64_units (f64_of_i64 i64_max) = 2 ^ 63 * f64_scale.
Proof. by vm_compute. Qed.
Lemma f64_finite_not_nan f : f64_is_finite f = true → f64_is_nan f = false.
Proof. unfold f64_is_finite, f64_is_nan. by intros ->%negb_true_iff. Qed.

Section DoubleGuard.
#[local] Opaque f64_scale f64_units f64_of_i64 Z.pow.

Lemma f64_is_int_inj f n m : f64_is_int f n → f64_is_int f m → n = m.
Proof. intros [_ H] [_ H']. rewrite H in H'. apply (Z.mul_reg_r _ _ f64_scale); [|done].
  pose proof f64_scale_pos. lia. Qed.

Lemma f64_fract_is_zero_spec f : f64_fract_is_zero f = true ↔ ∃ n, f64_is_int f n.
Proof.
  pose proof f64_scale_pos. unfold f64_fract_is_zero, f64_is_int.
  rewrite andb_true_iff, Z.eqb_eq, Z.rem_divide by lia. split.
  - intros [Hf [n Hn]]. by exists n.
  - intros (n & Hf & Hn). split; [done|]. by exists n.
Qed.

(** The guard of the [Double] arm and the cast it guards. *)
Lemma f64_guard_spec f n : f64_is_int f n →
  f64_le (f64_of_i64 i64_min) f && f64_le f (f64_of_i64 i64_max)
    = (i64_min <=? n) && (n <=? 2 ^ 63)
  ∧ (i64_min <= n → f64_as_i64 f = Z.min i64_max n).
Proof.
  intros [Hf Hn]. pose proof f64_scale_pos. pose proof (f64_finite_not_nan f Hf) as Hnan.
  split.
  - unfold f64_le. rewrite f64_units_i64_min, f64_units_i64_max, Hn, Hnan.
    change (f64_is_nan (f64_of_i64 i64_min)) with false.
    change (f64_is_nan (f64_of_i64 i64_max)) with false. cbn [negb andb].
    apply eq_true_iff_eq. rewrite !andb_true_iff, !Z.leb_le.
    by rewrite <- !Z.mul_le_mono_pos_r.
  - intros Hmin. unfold f64_as_i64. rewrite Hnan, Hn, Z.quot_mul by lia.
    unfold i64_min, i64_max in *. lia.
Qed.

Lemma Scalar_try_int_double t f n : f64_is_int f n →
  Scalar_try_int t (Scalar_Double f) =
    if (i64_min <=? n) && (n <=? 2 ^ 63)
    then ok_or (int_try_from t (Z.min i64_max n)) ScalarError_OutOfRange
    else Err ScalarError_NotConvertible.
Proof.
  intros Hn. destruct (f64_guard_spec f n Hn) as [Hg Hc]. unfold Scalar_try_int.
  rewrite (proj2 (f64_fract_is_zero_spec f)) by eauto. rewrite andb_true_l, Hg.
  case_match; [|done]. zbool. simpl. by rewrite Hc.
Qed.
End DoubleGuard.

Lemma int_try_from_spec t n :
  ok_or (int_try_from t n) ScalarError_OutOfRange
    = if bool_decide (int_min t <= n <= int_max t) then Ok n else Err ScalarError_OutOfRange.
Proof.
  unfold int_try_from. case_bool_decide as H; zbool; [by zif|].
  destruct ((int_min t <=? n) && (n <=? int_max t)) eqn:E; zbool; [lia|done].
Qed.

(** C33. Integer targets.  A scalar whose value is an integer [n] of 64 bits
    converts to [n] when the target type holds [n] and reports [OutOfRange] when
    it does not; the double [2^63], just outside, passes the guard and is taken
    for [i64::MAX]; a scalar that is no integer in that range (another kind, a
    fraction, a NaN, an infinity, a larger double) is not convertible. *)
Theorem numeric_conversion t s : scalar_ok s →
  (∀ n, scalar_int s n → in_i64 n →
    Scalar_try_int t s =
      if bool_decide (int_min t <= n <= int_max t) then Ok n else Err ScalarError_OutOfRange)
  ∧ (scalar_int s (2 ^ 63) →
    Scalar_try_int t s =
      if bool_decide (i64_max <= int_max t) then Ok i64_max else Err ScalarError_OutOfRange)
  ∧ ((∀ n, scalar_int s n → ¬ i64_min <= n <= 2 ^ 63) →
    Scalar_try_int t s = Err ScalarError_NotConvertible).
Proof.
  intros Hok. split_and!.
  - intros n Hn Hr. rewrite <- int_try_from_spec. destruct s; cbn in Hn; try done; subst;
      [|destruct v| |]; try done.
    rewrite (Scalar_try_int_double _ _ n) by done. unfold_ranges.
    rewrite Z.min_r by lia. by zif.
  - intros Hn. assert (int_min t <= i64_max) as Hmin by (by destruct t).
    destruct s; cbn in Hn, Hok; unfold_ranges; try lia; [|destruct v; lia].
    rewrite (Scalar_try_int_double _ _ (2 ^ 63)) by done.
    change (Z.min i64_max (2 ^ 63)) with i64_max.
    change ((i64_min <=? 2 ^ 63) && (2 ^ 63 <=? 2 ^ 63)) with true. cbv iota. rewrite int_try_from_spec.
    unfold_ranges. repeat case_bool_decide; done || lia.
  - intros Hn. destruct s; cbn in Hn, Hok; try done;
      try (exfalso; eapply (Hn _ eq_refl); unfold_ranges; lia).
    + destruct (f64_fract_is_zero v) eqn:Hz; [|unfold Scalar_try_int; by rewrite Hz].
      apply f64_fract_is_zero_spec in Hz as [n Hi]. rewrite (Scalar_try_int_double _ _ n) by done.
      specialize (Hn n Hi). unfold_ranges. by zif.
    + exfalso. apply (Hn _ eq_refl). unfold_ranges. destruct v; lia.
Qed.

Lemma numeric_conversion_witness :
  Scalar_try_int U8 (Scalar_Int64 200) = Ok 200
  ∧ Scalar_try_int U64 (Scalar_Double 4890909195324358656) = Ok i64_max
  ∧ Scalar_try_int I32 (Scalar_Double 4602678819172646912) = Err ScalarError_NotConvertible.
Proof.
  split_and!.
  - exact (proj1 (numeric_conversion U8 (Scalar_Int64 200) ltac:(done)) 200 eq_refl
      ltac:(done)).
  - apply (proj1 (proj2 (numeric_conversion U64 (Scalar_Double 4890909195324358656)
      ltac:(done)))). by split.
  - apply (proj2 (proj2 (numeric_conversion I32 (Scalar_Double 4602678819172646912)
      ltac:(done)))).
    intros n [_ Hn] _. apply (f_equal (λ z, z mod f64_scale)) in Hn.
    rewrite Z.mod_mul in Hn by done. by vm_compute in Hn.
Defined.

(** ** Native values read back *)

(** A value of its type. *)
Definition native_ok (v : Native) : Prop :=
  match v with
  | Native_i8 z => int_min I8 <= z <= int_max I8
  | Native_i16 z => int_min I16 <= z <= int_max I16
  | Native_u8 z => int_min U8 <= z <= int_max U8
  | Native_u16 z => int_min U16 <= z <= int_max U16
  | Native_i32 z => int_min I32 <= z <= int_max I32
  | Native_i64 z => int_min I64 <= z <= int_max I64
  | _ => True
  end.

(** Converting [s] to the type of [v] gives [v]; an object id is read as its
    hexadecimal form. *)
Definition reads_back (v : Native) (s : Scalar) : Prop :=
  match v with
  | Native_i8 z => Scalar_try_int I8 s = Ok z
  | Native_i16 z => Scalar_try_int I16 s = Ok z
  | Native_u8 z => Scalar_try_int U8 s = Ok z
  | Native_u16 z => Scalar_try_int U16 s = Ok z
  | Native_i32 z => Scalar_try_int I32 s = Ok z
  | Native_i64 z => Scalar_try_int I64 s = Ok z
  | Native_f64 f => Scalar_try_f64 s = Ok f
  | Native_bool b => Scalar_try_bool s = Ok b
  | Native_String x | Native_str x => Scalar_try_String s = Ok x
  | Native_ObjectId id => Scalar_try_String s = Ok (ObjectId_to_hex id)
  | Native_Binary b => s = Scalar_Binary b
  end.

Lemma int_try_from_Ok t n : int_min t <= n <= int_max t → int_try_from t n = Some n.
Proof. intros. unfold int_try_from. by zif. Qed.

Lemma Scalar_try_int_of_f64 t i : Z.abs i <= 2 ^ 53 → int_min t <= i <= int_max t →
  Scalar_try_int t (Scalar_Double (f64_of_i64 i)) = Ok i.
Proof.
  intros Hi Ht. rewrite (Scalar_try_int_double _ _ i) by (by apply f64_of_i64_exact).
  unfold i64_min, i64_max. rewrite Z.min_r by lia. zif. by rewrite int_try_from_Ok.
Qed.

(** The infallible conversions lose nothing: converting back to the type a
    scalar was made from gives the value, the conversions into [Bson] are those
    into [Scalar] and read back alike, and an integer of at most 53 bits
    survives the detour through a double. *)
Lemma native_roundtrip v : native_ok v →
  reads_back v (Scalar_from v)
  ∧ Bson_as_scalar (Bson_from v) = Some (Scalar_from v)
  ∧ ∀ i, v = Native_i64 i → Z.abs i <= 2 ^ 53 →
      Bson_try_f64 (Bson_from v) = Ok (f64_of_i64 i)
      ∧ Scalar_try_int I64 (Scalar_Double (f64_of_i64 i)) = Ok i.
Proof.
  intros Hv. split_and!.
  - destruct v; cbn -[int_try_from int_min int_max] in *; try done;
      by rewrite int_try_from_Ok.
  - by destruct v.
  - intros i -> Hi. split; [done|]. by apply Scalar_try_int_of_f64.
Qed.
(** ** Times *)

Lemma system_time_ok_millis ms : Z.abs ms <= 2 ^ 63 →
  system_time_ok (Duration_from_millis ms) = true.
Proof.
  intros H. unfold system_time_ok, Duration_from_millis, nanos_per_sec, i64_min, i64_max.
  assert (ms * 1000000 / 1000000000 = ms / 1000) as ->.
  { change 1000000000 with (1000 * 1000000). by rewrite Z.div_mul_cancel_r. }
  change (2 ^ 63) with 9223372036854775808 in H.
  pose proof (Z.div_mod ms 1000). pose proof (Z.mod_pos_bound ms 1000).
  apply andb_true_iff. rewrite !Z.leb_le. lia.
Qed.

Lemma as_i64_range n : in_i64 (as_i64 n).
Proof.
  unfold as_i64, to_signed. unfold_ranges. pose proof (Z.mod_pos_bound n (2 ^ 64) eq_refl).
  change (2 ^ 64) with 18446744073709551616 in *. case_match; zbool; lia.
Qed.
Lemma as_i64_id n : in_i64 n → 0 <= n → as_i64 n = n.
Proof.
  intros. unfold as_i64, to_signed. unfold_ranges.
  rewrite Z.mod_small by (change (2 ^ 64) with 18446744073709551616; lia). by zif.
Qed.

(** What [From<SystemTime>] computes wherever the millisecond count fits: the
    count rounded towards the epoch. *)
Lemma millis_from_time_spec {E} t : in_i64 (Z.quot t 1000000) →
  @millis_from_time E t =
    if Z.quot t 1000000 =? i64_min then Panic else Ok (Z.quot t 1000000).
Proof.
  intros H. unfold millis_from_time, duration_since_epoch, Duration_as_millis.
  destruct (Z.leb_spec 0 t) as [Ht|Ht].
  - rewrite Z.quot_div_nonneg in * by lia. pose proof (Z.div_pos t 1000000 ltac:(done) ltac:(lia)).
    rewrite as_i64_id by done. destruct (Z.eqb_spec (t / 1000000) i64_min); [|done].
    unfold i64_min in *. lia.
  - rewrite <- (Z.opp_involutive t), Z.quot_opp_l, Z.quot_div_nonneg in * by lia.
    rewrite !Z.opp_involutive in *. set (m := (- t) / 1000000) in *.
    assert (0 <= m) by (apply Z.div_pos; lia).
    destruct (Z.eqb_spec (- m) i64_min) as [Hm|Hm].
    + assert (m = 2 ^ 63) as -> by (unfold i64_min in Hm; lia). done.
    + unfold i64_neg. rewrite as_i64_id by (unfold_ranges; lia).
      by replace (m =? i64_min) with false by (unfold i64_min; lia).
Qed.

(** C34. Every BSON date is a [SystemTime], and converting that back gives the
    date, before and after the epoch, for scalars and for values; the single
    exception is the earliest date, where the conversion back negates
    [i64::MIN] and panics. *)
Theorem datetime_roundtrip ms : in_i64 ms → ∃ t,
  Scalar_try_SystemTime (Scalar_DateTime ms) = Ok t
  ∧ Bson_try_SystemTime (Bson_DateTime ms) = Ok t
  ∧ Scalar_from_time (E := ScalarError) t =
      (if ms =? i64_min then Panic else Ok (Scalar_DateTime ms))
  ∧ Bson_from_time (E := BsonError) t =
      (if ms =? i64_min then Panic else Ok (Bson_DateTime ms)).
Proof.
  intros H. exists (Duration_from_millis ms).
  assert (Scalar_try_SystemTime (Scalar_DateTime ms) = Ok (Duration_from_millis ms)) as E.
  { unfold Scalar_try_SystemTime, epoch_plus, epoch_minus.
    assert (Z.abs ms <= 2 ^ 63) by (unfold_ranges; lia).
    destruct (Z.leb_spec 0 ms).
    - rewrite Z.abs_eq by done. by rewrite system_time_ok_millis.
    - rewrite Z.abs_neq by lia. replace (- Duration_from_millis (- ms))
        with (Duration_from_millis ms) by (unfold Duration_from_millis; lia).
      by rewrite system_time_ok_millis. }
  unfold Bson_try_SystemTime, bson_try, Scalar_from_time, Bson_from_time. cbn [Bson_as_scalar].
  rewrite E, !millis_from_time_spec;
    unfold Duration_from_millis; rewrite ?Z.quot_mul by done; try done.
  by destruct (ms =? i64_min).
Qed.
Lemma datetime_roundtrip_witness : ∃ t,
  Scalar_try_SystemTime (Scalar_DateTime (-1500)) = Ok t
  ∧ Bson_try_SystemTime (Bson_DateTime (-1500)) = Ok t
  ∧ Scalar_from_time (E := ScalarError) t = Ok (Scalar_DateTime (-1500))
  ∧ Bson_from_time (E := BsonError) t = Ok (Bson_DateTime (-1500)).
Proof. exact (datetime_roundtrip (-1500) ltac:(done)). Defined.

(** ** Crate values *)

Section CratesLemmas.
Context (C : ValueCrates) {L : ValueCratesLaws C}.

Lemma uuid_roundtrip u : Scalar_try_Uuid C (Scalar_from_Uuid C u) = Ok u.
Proof.
  cbn. rewrite uuid_bytes_len, bool_decide_eq_true_2 by done. simpl. by rewrite uuid_from_as.
Qed.
(** A UUID binary of sixteen bytes converts, and converts back to itself. *)
Lemma uuid_scalar_roundtrip b : len b = 16 →
  ∃ u, Scalar_try_Uuid C (Scalar_Binary (mkBinary BinarySubtype_Uuid b)) = Ok u
    ∧ Scalar_from_Uuid C u = Scalar_Binary (mkBinary BinarySubtype_Uuid b).
Proof.
  intros Hb. destruct (uuid_from_16 b Hb) as [u Hu]. exists u. cbn. rewrite Hb, Hu.
  rewrite bool_decide_eq_true_2 by done. split; [done|].
  unfold Scalar_from_Uuid. by rewrite (uuid_as_from b u Hu).
Qed.
Lemma decimal_roundtrip d : len d = 16 →
  ∃ v, Scalar_try_Dec C (Scalar_Decimal128 d) = Ok v
    ∧ Scalar_from_Dec C v = Scalar_Decimal128 d.
Proof.
  intros Hd. eexists. split; [done|]. unfold Scalar_from_Dec. by rewrite dec_to_from.
Qed.
End CratesLemmas.
