(* ===== verification/Json.v ===== *)
(** * JSON: the module [serde_json_conv] of [wirebson/src/convert.rs]

    The crate [serde_json] is a parameter: its value type and its ordered map,
    of which the code uses the constructors and [insert]. *)
From stdpp Require Import base list numbers strings.
From Stdlib Require Import ZArith Lia.
From S2P Require Import Prelude Utf8 StrOps Io Consts BsonScalar BsonValue.
Local Open Scope Z_scope.

(** [serde_json::Value] and [serde_json::Map]; [json_bool] to [json_str] are the
    [From] implementations. *)
Record JsonCrate := mkJsonCrate
  { Value : Type; JMap : Type;
    json_null : Value; json_bool : bool → Value; json_f64 : f64 → Value;
    json_int : Z → Value; json_str : str → Value;
    json_array : list Value → Value; json_object : JMap → Value;
    map_new : JMap; map_insert : JMap → str → Value → JMap; map_get : JMap → str → option Value }.

(** The documented behaviour of the map. *)
Class JsonLaws (J : JsonCrate) : Prop :=
  { map_get_new k : map_get J (map_new J) k = None;
    map_get_insert m k v k' : map_get J (map_insert J m k v) k'
      = if str_eqb k k' then Some v else map_get J m k' }.

Section Conversion.
Context (J : JsonCrate).

Definition hex_string (b : bytes) : str := flat_map lower_hex b.
Definition json_binary (b : Binary) : Value J :=
  json_object J (map_insert J (map_new J) (lit "$binary")
    (json_str J (hex_string (binary_bytes b)))).
(** The derived [Debug] of [Decimal128([u8; 16])]. *)
Fixpoint debug_bytes (b : bytes) : str :=
  match b with
  | [] => []
  | [x] => dec_bytes (u8 x)
  | x :: t => dec_bytes (u8 x) ++ lit ", " ++ debug_bytes t
  end.
Definition Decimal128_debug (d : Decimal128) : str :=
  lit "Decimal128([" ++ debug_bytes d ++ lit "])".

Definition json_unsupported : BsonError :=
  BsonError_invalid 0 "extended-json rendering not implemented for this type".

Section Loops.
Variable try_from : Bson → outcome BsonError (Value J).
(** The loop of the [Document] arm. *)
Definition json_fields : list (str * Bson) → JMap J → outcome BsonError (JMap J) :=
  fix go fields map :=
    match fields with
    | [] => Ok map
    | (k, v) :: t => let* x := try_from v in go t (map_insert J map k x)
    end.
(** The loop of the [Array] arm. *)
Definition json_values : list Bson → list (Value J) → outcome BsonError (list (Value J)) :=
  fix go values acc :=
    match values with
    | [] => Ok acc
    | v :: t => let* x := try_from v in go t (acc ++ [x])
    end.
End Loops.

(** [TryFrom<&Bson> for serde_json::Value]. *)
Fixpoint json_try_from (v : Bson) : outcome BsonError (Value J) :=
  match v with
  | Bson_Double f => Ok (json_f64 J f)
  | Bson_String s | Bson_JavaScript s | Bson_Symbol s => Ok (json_str J s)
  | Bson_Bool b => Ok (json_bool J b)
  | Bson_Null | Bson_Undefined => Ok (json_null J)
  | Bson_Int32 i => Ok (json_int J i)
  | Bson_Int64 i => Ok (json_int J i)
  | Bson_DateTime ms => Ok (json_int J ms)
  | Bson_ObjectId id => Ok (json_str J (ObjectId_to_hex id))
  | Bson_Decimal128 d => Ok (json_str J (Decimal128_debug d))
  | Bson_Document doc =>
      let* map := json_fields json_try_from doc (map_new J) in Ok (json_object J map)
  | Bson_Array arr =>
      let* list := json_values json_try_from arr [] in Ok (json_array J list)
  | Bson_Binary b => Ok (json_binary b)
  | Bson_Timestamp _ | Bson_Regex _ | Bson_DbPointer _ => Err json_unsupported
  | Bson_JavaScriptScope _ _ | Bson_MinKey | Bson_MaxKey => Err json_unsupported
  end.

(** [Result::unwrap_or]. *)
Definition unwrap_or {E A} (m : outcome E A) (a : A) : outcome E A :=
  match m with Err _ => Ok a | other => other end.
(** [From<&Document>] and [From<&Array>] for [serde_json::Value]. *)
Definition json_from_document (doc : Document) : outcome BsonError (Value J) :=
  unwrap_or (json_try_from (Bson_Document doc)) (json_null J).
Definition json_from_array (arr : Array) : outcome BsonError (Value J) :=
  unwrap_or (json_try_from (Bson_Array arr)) (json_null J).

(** ** What converts *)

(** No value without a JSON form occurs in [v]. *)
Fixpoint json_supported (v : Bson) : bool :=
  match v with
  | Bson_Timestamp _ | Bson_Regex _ | Bson_DbPointer _ | Bson_JavaScriptScope _ _
  | Bson_MinKey | Bson_MaxKey => false
  | Bson_Document fs => forallb (λ f, json_supported f.2) fs
  | Bson_Array vs => forallb json_supported vs
  | _ => true
  end.

(** Success exactly on supported values; the one error otherwise. *)
Definition json_verdict (v : Bson) (r : outcome BsonError (Value J)) : Prop :=
  if json_supported v then ∃ x, r = Ok x else r = Err json_unsupported.

Lemma json_fields_verdict fs : Forall (λ f, json_verdict f.2 (json_try_from f.2)) fs → ∀ m,
  if forallb (λ f, json_supported f.2) fs
  then ∃ m', json_fields json_try_from fs m = Ok m'
  else json_fields json_try_from fs m = Err json_unsupported.
Proof.
  induction 1 as [|[k v] fs Hv _ IH]; intros m; simpl; [eauto|].
  unfold json_verdict in Hv. simpl in Hv. destruct (json_supported v); simpl.
  - destruct Hv as [x ->]. simpl. apply IH.
  - by rewrite Hv.
Qed.
Lemma json_values_verdict vs : Forall (λ v, json_verdict v (json_try_from v)) vs → ∀ acc,
  if forallb json_supported vs
  then ∃ l, json_values json_try_from vs acc = Ok l
  else json_values json_try_from vs acc = Err json_unsupported.
Proof.
  induction 1 as [|v vs Hv _ IH]; intros m; simpl; [eauto|].
  unfold json_verdict in Hv. destruct (json_supported v); simpl.
  - destruct Hv as [x ->]. simpl. apply IH.
  - by rewrite Hv.
Qed.
Lemma json_try_from_verdict v : json_verdict v (json_try_from v).
Proof.
  induction v as [fs IH|vs IH|v Hd Ha] using Bson_nested_ind.
  - pose proof (json_fields_verdict fs IH (map_new J)) as H. unfold json_verdict.
    cbn [json_supported json_try_from]. case_match; [|by rewrite H].
    destruct H as [m ->]. simpl. eauto.
  - pose proof (json_values_verdict vs IH []) as H. unfold json_verdict.
    cbn [json_supported json_try_from]. case_match; [|by rewrite H].
    destruct H as [m ->]. simpl. eauto.
  - unfold json_verdict. destruct v; simpl; eauto; naive_solver.
Qed.

(** The value of the last field named [k]; [Document_get] gives the first. *)
Definition get_last (d : Document) (k : str) : option Bson := Document_get (rev d) k.

Context {L : JsonLaws J}.

Lemma get_last_cons k v d k' : get_last ((k, v) :: d) k'
  = match get_last d k' with Some x => Some x | None => if str_eqb k k' then Some v else None end.
Proof.
  unfold get_last. simpl. induction (rev d) as [|[n x] r IH]; simpl; [done|].
  by destruct (str_eqb n k').
Qed.

Lemma json_fields_get fs : ∀ m m' k, json_fields json_try_from fs m = Ok m' →
  match get_last fs k with
  | Some v => ∃ x, json_try_from v = Ok x ∧ map_get J m' k = Some x
  | None => map_get J m' k = map_get J m k
  end.
Proof.
  induction fs as [|[n v] fs IH]; intros m m' k H; simpl in H; [by inv_ok|].
  apply bind_Ok_inv in H as (x & Hx & H). specialize (IH _ _ k H).
  rewrite get_last_cons. destruct (get_last fs k) as [y|]; [done|].
  rewrite map_get_insert in IH. destruct (str_eqb n k); eauto.
Qed.
End Conversion.

Arguments get_last : simpl never.

(** C35. JSON.  A value converts exactly when no timestamp, regular expression,
    DB pointer, scoped code or min/max key occurs anywhere in it, and the
    infallible conversion of a document that has one gives null for the whole
    document; the object a document converts to maps every name to the
    conversion of the last field with that name, and nothing else. *)
Theorem json_conversion J {L : JsonLaws J} d :
  (json_supported (Bson_Document d) = false →
     json_try_from J (Bson_Document d) = Err json_unsupported
     ∧ json_from_document J d = Ok (json_null J))
  ∧ (json_supported (Bson_Document d) = true → ∃ m,
     json_try_from J (Bson_Document d) = Ok (json_object J m)
     ∧ json_from_document J d = Ok (json_object J m)
     ∧ ∀ k, match get_last d k with
            | Some v => ∃ x, json_try_from J v = Ok x ∧ map_get J m k = Some x
            | None => map_get J m k = None
            end).
Proof.
  pose proof (json_try_from_verdict J (Bson_Document d)) as V. unfold json_verdict in V.
  unfold json_from_document. split; intros Hs; rewrite Hs in V; [by rewrite V|].
  destruct V as [x V]. cbn [json_try_from] in V |- *.
  apply bind_Ok_inv in V as (m & Hm & _). rewrite Hm. exists m. split; [done|]. split; [done|].
  intros k. pose proof (json_fields_get J d _ m k Hm) as H. by rewrite map_get_new in H.
Qed.

(** A concrete JSON type: an association list as the map. *)
Inductive JValue :=
| JNull | JBool (b : bool) | JDouble (f : f64) | JInt (z : Z) | JStr (s : str)
| JArr (l : list JValue) | JObj (m : list (str * JValue)).
Fixpoint assoc_get {A} (m : list (str * A)) (k : str) : option A :=
  match m with [] => None | (n, v) :: t => if str_eqb n k then Some v else assoc_get t k end.
Definition json_model : JsonCrate :=
  mkJsonCrate JValue (list (str * JValue)) JNull JBool JDouble JInt JStr JArr JObj
    [] (λ m k v, (k, v) :: m) assoc_get.
Lemma json_model_laws : JsonLaws json_model.
Proof. by split; intros; simplify_eq/=. Qed.
Lemma json_conversion_witness :
  json_from_document json_model [(lit "a", Bson_Int32 1); (lit "b", Bson_MinKey)] = Ok JNull
  ∧ ∃ m, json_try_from json_model
           (Bson_Document [(lit "a", Bson_Int32 1); (lit "a", Bson_Int32 2)])
           = Ok (json_object json_model m)
         ∧ map_get json_model m (lit "a") = Some (JInt 2).
Proof.
  split.
  - apply (@json_conversion json_model json_model_laws
      [(lit "a", Bson_Int32 1); (lit "b", Bson_MinKey)]). reflexivity.
  - destruct (proj2 (@json_conversion json_model json_model_laws
      [(lit "a", Bson_Int32 1); (lit "a", Bson_Int32 2)]) eq_refl) as (m & H1 & _ & H2).
    exists m. split; [exact H1|]. destruct (H2 (lit "a")) as (x & Hx & ->).
    cbn in Hx. injection Hx as <-. reflexivity.
Defined.
