(* ===== verification/Macros.v ===== *)
(** * The document macros: [wirebson/src/macros.rs]

    [doc!] and [arr!] are functions of their token trees; [None] is an
    invocation no arm matches, which the compiler rejects.  An expression counts
    as one token, carrying the value its [Into<Bson>] conversion yields; a string
    literal is a token of its own because [doc!] keys must be literals. *)
From stdpp Require Import base list numbers strings.
From Stdlib Require Import ZArith Lia.
From S2P Require Import Prelude Utf8 Io Consts BsonScalar BsonValue.
Local Open Scope Z_scope.

Inductive token :=
| Tok_literal (s : str)
| Tok_expr (v : Bson)
| Tok_null
| Tok_MIN_KEY
| Tok_MAX_KEY
| Tok_colon
| Tok_comma.

(** What [$value:expr] matches and converts to. *)
Definition expr_value (t : token) : option Bson :=
  match t with
  | Tok_literal s => Some (Bson_String s)
  | Tok_expr v => Some v
  | _ => None
  end.

(** [__doc_build!], arm by arm. *)
Fixpoint doc_build (doc : Document) (toks : list token) : option Document :=
  match toks with
  | [] => Some doc
  | Tok_literal key :: Tok_colon :: Tok_null :: Tok_comma :: rest =>
      doc_build (Document_add doc key Bson_Null) rest
  | [Tok_literal key; Tok_colon; Tok_null] => Some (Document_add doc key Bson_Null)
  | Tok_literal key :: Tok_colon :: Tok_MIN_KEY :: Tok_comma :: rest =>
      doc_build (Document_add doc key Bson_MinKey) rest
  | [Tok_literal key; Tok_colon; Tok_MIN_KEY] => Some (Document_add doc key Bson_MinKey)
  | Tok_literal key :: Tok_colon :: Tok_MAX_KEY :: Tok_comma :: rest =>
      doc_build (Document_add doc key Bson_MaxKey) rest
  | [Tok_literal key; Tok_colon; Tok_MAX_KEY] => Some (Document_add doc key Bson_MaxKey)
  | Tok_literal key :: Tok_colon :: value :: Tok_comma :: rest =>
      match expr_value value with
      | Some v => doc_build (Document_add doc key v) rest
      | None => None
      end
  | [Tok_literal key; Tok_colon; value] => Document_add doc key <$> expr_value value
  | _ => None
  end.

(** [__arr_build!]. *)
Fixpoint arr_build (arr : Array) (toks : list token) : option Array :=
  match toks with
  | [] => Some arr
  | Tok_null :: Tok_comma :: rest => arr_build (Array_push arr Bson_Null) rest
  | [Tok_null] => Some (Array_push arr Bson_Null)
  | Tok_MIN_KEY :: Tok_comma :: rest => arr_build (Array_push arr Bson_MinKey) rest
  | [Tok_MIN_KEY] => Some (Array_push arr Bson_MinKey)
  | Tok_MAX_KEY :: Tok_comma :: rest => arr_build (Array_push arr Bson_MaxKey) rest
  | [Tok_MAX_KEY] => Some (Array_push arr Bson_MaxKey)
  | value :: Tok_comma :: rest =>
      match expr_value value with
      | Some v => arr_build (Array_push arr v) rest
      | None => None
      end
  | [value] => Array_push arr <$> expr_value value
  | _ => None
  end.

(** [doc!] and [arr!]: the empty invocation has an arm of its own. *)
Definition doc_macro (toks : list token) : option Document :=
  match toks with [] => Some Document_new | _ => doc_build Document_new toks end.
Definition arr_macro (toks : list token) : option Array :=
  match toks with [] => Some Array_new | _ => arr_build Array_new toks end.

(** [__oid_from_hex], [oid!] and [dt!]. *)
Definition oid_from_hex (s : str) : outcome ScalarError ObjectId := ObjectId_from_hex s.
Definition oid_macro {E} (s : str) : outcome E Bson :=
  match oid_from_hex s with
  | Ok id => Ok (Bson_ObjectId id)
  | Err _ => Panic
  | Panic => Panic
  | Fuel => Fuel
  end.
Definition dt_macro (ms : Z) : Bson := Bson_DateTime ms.

(** ** The language the macros accept *)

(** The value a token denotes in value position. *)
Definition token_value (t : token) : option Bson :=
  match t with
  | Tok_null => Some Bson_Null
  | Tok_MIN_KEY => Some Bson_MinKey
  | Tok_MAX_KEY => Some Bson_MaxKey
  | _ => expr_value t
  end.

(** Items separated by commas, the last one optional. *)
Inductive item_list {A} (item : list token → A → Prop) : list token → list A → Prop :=
| items_nil : item_list item [] []
| items_last ts a : item ts a → item_list item ts [a]
| items_cons ts a rest l : item ts a → item_list item rest l →
    item_list item (ts ++ Tok_comma :: rest) (a :: l).
Inductive pair_item : list token → Field → Prop :=
| pair_item_intro key t v : token_value t = Some v →
    pair_item [Tok_literal key; Tok_colon; t] (key, v).
Inductive value_item : list token → Bson → Prop :=
| value_item_intro t v : token_value t = Some v → value_item [t] v.

Lemma doc_build_sound toks : ∀ doc d, doc_build doc toks = Some d →
  ∃ l, item_list pair_item toks l ∧ d = doc ++ l.
Proof.
  induction toks as [toks IH] using (induction_ltof1 _ (@length token)). unfold ltof in IH.
  intros doc d H.
  assert (∀ key t v rest, token_value t = Some v →
    doc_build (Document_add doc key v) rest = Some d →
    toks = Tok_literal key :: Tok_colon :: t :: Tok_comma :: rest →
    ∃ l, item_list pair_item toks l ∧ d = doc ++ l) as Hcons.
  { intros key t v rest Ht Hr ->. destruct (IH rest ltac:(simpl; lia) _ _ Hr) as (l & Hl & ->).
    exists ((key, v) :: l). unfold Document_add. rewrite <- app_assoc. split; [|done].
    apply (items_cons pair_item [_; _; _]); [by constructor|done]. }
  assert (∀ key t v, token_value t = Some v → Some (Document_add doc key v) = Some d →
    toks = [Tok_literal key; Tok_colon; t] →
    ∃ l, item_list pair_item toks l ∧ d = doc ++ l) as Hlast.
  { intros key t v Ht [= <-] ->. exists [(key, v)]. split; [|done].
    by apply items_last; constructor. }
  destruct toks as [|[key| | | | | |] [|[| | | | | |] [|t [|[| | | | | |] rest]]]];
    try done; cbn [doc_build] in H;
    try (injection H as <-; exists []; rewrite app_nil_r; split; [apply items_nil|done]);
    destruct t; cbn [expr_value fmap option_fmap option_map] in H; try done;
    first [ eapply Hcons; [|exact H|reflexivity]; reflexivity
          | eapply Hlast; [|exact H|reflexivity]; reflexivity ].
Qed.

Lemma arr_build_sound toks : ∀ arr d, arr_build arr toks = Some d →
  ∃ l, item_list value_item toks l ∧ d = arr ++ l.
Proof.
  induction toks as [toks IH] using (induction_ltof1 _ (@length token)). unfold ltof in IH.
  intros arr d H.
  assert (∀ t v rest, token_value t = Some v → arr_build (Array_push arr v) rest = Some d →
    toks = t :: Tok_comma :: rest →
    ∃ l, item_list value_item toks l ∧ d = arr ++ l) as Hcons.
  { intros t v rest Ht Hr ->. destruct (IH rest ltac:(simpl; lia) _ _ Hr) as (l & Hl & ->).
    exists (v :: l). unfold Array_push. rewrite <- app_assoc. split; [|done].
    apply (items_cons value_item [_]); [by constructor|done]. }
  assert (∀ t v, token_value t = Some v → Some (Array_push arr v) = Some d → toks = [t] →
    ∃ l, item_list value_item toks l ∧ d = arr ++ l) as Hlast.
  { intros t v Ht [= <-] ->. exists [v]. split; [|done]. by apply items_last; constructor. }
  destruct toks as [|t [|[| | | | | |] rest]];
    try (injection H as <-; exists []; rewrite app_nil_r; split; [apply items_nil|done]);
    cbn [arr_build] in H; destruct t; cbn [expr_value fmap option_fmap option_map] in H; try done;
    first [ eapply Hcons; [|exact H|reflexivity]; reflexivity
          | eapply Hlast; [|exact H|reflexivity]; reflexivity ].
Qed.

Lemma doc_build_complete toks l : item_list pair_item toks l → ∀ doc,
  doc_build doc toks = Some (doc ++ l).
Proof.
  induction 1 as [|ts f Hf|ts f rest l Hf _ IH]; intros doc;
    [by rewrite app_nil_r|destruct Hf as [key t v Ht]..].
  - destruct t; simpl in *; by simplify_eq.
  - assert (doc_build doc ([Tok_literal key; Tok_colon; t] ++ Tok_comma :: rest)
      = doc_build (Document_add doc key v) rest) as ->
      by (destruct t; simpl in *; by simplify_eq).
    rewrite IH. unfold Document_add. by rewrite <- app_assoc.
Qed.
Lemma arr_build_complete toks l : item_list value_item toks l → ∀ arr,
  arr_build arr toks = Some (arr ++ l).
Proof.
  induction 1 as [|ts f Hf|ts f rest l Hf _ IH]; intros arr;
    [by rewrite app_nil_r|destruct Hf as [t v Ht]..].
  - destruct t; simpl in *; by simplify_eq.
  - assert (arr_build arr ([t] ++ Tok_comma :: rest) = arr_build (Array_push arr v) rest) as ->
      by (destruct t; simpl in *; by simplify_eq).
    rewrite IH. unfold Array_push. by rewrite <- app_assoc.
Qed.

(** C36. The macros.  [doc!] accepts exactly the comma-separated lists of
    [literal: value] pairs, with or without a final comma, and builds the
    document with those fields in that order; [arr!] likewise with values;
    [null], [MIN_KEY] and [MAX_KEY] stand for their BSON values wherever a value
    may stand. *)
Theorem macro_language toks d a :
  (doc_macro toks = Some d ↔ item_list pair_item toks d)
  ∧ (arr_macro toks = Some a ↔ item_list value_item toks a).
Proof.
  assert (doc_macro toks = doc_build [] toks) as -> by (by destruct toks).
  assert (arr_macro toks = arr_build [] toks) as -> by (by destruct toks).
  split; split.
  - intros (l & Hl & ->)%doc_build_sound. done.
  - intros H. apply (doc_build_complete _ _ H []).
  - intros (l & Hl & ->)%arr_build_sound. done.
  - intros H. apply (arr_build_complete _ _ H []).
Qed.
