(* ===== verification/BsonEncode.v ===== *)
(** * Encoding documents: [wirebson/src/encode.rs] (wire half)

    The encoder writes into a growing buffer: it reserves the four length
    bytes, appends the fields and patches the length afterwards.  The lemmas
    relate it to [value_wire], the layout as a function of the value. *)
From stdpp Require Import base list numbers strings.
From Stdlib Require Import ZArith Lia.
From S2P Require Import Prelude Utf8 Io Consts BsonScalar BsonValue.
Local Open Scope Z_scope.

(** ** Operations *)

(** [patch_len]. *)
Definition patch_len (out : bytes) (len_pos : Z) : outcome BsonError bytes :=
  let* total := usub (len out) len_pos in
  let* total := ok_or (i32_try_from total)
                  (BsonError_invalid len_pos "document exceeds the maximum BSON length") in
  put_i32_le_at out len_pos total.

(** [encode_string]: [i32::try_from(len).and_then(checked_add(1))]. *)
Definition encode_string (out : bytes) (s : str) : outcome BsonError bytes :=
  let checked_add l := if l + 1 <=? i32_max then Some (l + 1) else None in
  let* l := ok_or (i32_try_from (len s) ≫= checked_add)
              (BsonError_invalid (len out) "string too large") in
  Ok (put_u8 (put_bytes (put_i32_le out l) s) 0).

(** The functions below call each other through [encode_value]; each is
    defined over it and the knot is tied at the end. *)
Section Open.
Variable encode_value : bytes → Bson → outcome BsonError bytes.

(** [encode_field]. *)
Definition encode_field_with (out : bytes) (name : str) (value : Bson)
  : outcome BsonError bytes :=
  let field_start := len out in
  let out := put_u8 out (Bson_tag value) in
  let* out := put_cstring_as out name
                (BsonError_invalid field_start "interior NUL in field name") in
  encode_value out value.

(** The [for] loop of [encode_document]. *)
Definition encode_fields_with : list (str * Bson) → bytes → outcome BsonError bytes :=
  fix go fields out :=
    match fields with
    | [] => Ok out
    | (name, value) :: t => let* out := encode_field_with out name value in go t out
    end.
(** The [for] loop of [encode_array]; [i.to_string()] names the element. *)
Definition encode_values_with : Z → list Bson → bytes → outcome BsonError bytes :=
  fix go i values out {struct values} :=
    match values with
    | [] => Ok out
    | value :: t =>
        let* out := encode_field_with out (dec_bytes i) value in go (i + 1) t out
    end.

(** [encode_document]. *)
Definition encode_document_with (doc : list (str * Bson)) (out : bytes)
  : outcome BsonError bytes :=
  let '(len_pos, out) := placeholder_i32 out in
  let* out := encode_fields_with doc out in
  patch_len (put_u8 out 0) len_pos.
(** [encode_array]. *)
Definition encode_array_with (arr : list Bson) (out : bytes) : outcome BsonError bytes :=
  let '(len_pos, out) := placeholder_i32 out in
  let* out := encode_values_with 0 arr out in
  patch_len (put_u8 out 0) len_pos.
End Open.

(** [encode_value]. *)
Fixpoint encode_value (out : bytes) (value : Bson) {struct value} : outcome BsonError bytes :=
  match value with
  | Bson_Document doc => encode_document_with encode_value doc out
  | Bson_Array arr => encode_array_with encode_value arr out
  | Bson_JavaScriptScope code scope =>
      if len scope <? MIN_DOC_LEN
      then Err (BsonError_invalid (len out) "empty JavaScript scope document")
      else
        let '(len_pos, out) := placeholder_i32 out in
        let* out := encode_string out code in
        patch_len (put_bytes out scope) len_pos
  | other =>
      let* scalar := ok_or (Bson_as_scalar other)
        (BsonError_invalid (len out) "unexpected composite value without as_scalar()") in
      let* '(_, out) := map_err BsonError_Scalar (encode_scalar scalar out) in
      Ok out
  end.
Definition encode_field : bytes → str → Bson → outcome BsonError bytes :=
  encode_field_with encode_value.
Definition encode_document : list (str * Bson) → bytes → outcome BsonError bytes :=
  encode_document_with encode_value.
Definition encode_array : list Bson → bytes → outcome BsonError bytes :=
  encode_array_with encode_value.

(** [Document::encode] and [Array::encode]: encode into a fresh vector, then
    validate it as raw bytes. *)
Definition Document_encode (d : Document) : outcome BsonError RawDocument :=
  let* out := encode_document d [] in RawDocument_from_vec out.
Definition Array_encode (a : Array) : outcome BsonError RawArray :=
  let* out := encode_array a [] in RawArray_from_vec out.

(** ** The layout as a function of the value *)

Section Wire.
Variable value_wire : Bson → bytes.
Definition field_wire_with (name : str) (value : Bson) : bytes :=
  of_u8 (Bson_tag value) :: (name ++ [x00]) ++ value_wire value.
Definition fields_wire_with : list (str * Bson) → bytes :=
  fix go fields :=
    match fields with
    | [] => []
    | (name, value) :: t => field_wire_with name value ++ go t
    end.
Definition values_wire_with : Z → list Bson → bytes :=
  fix go i values {struct values} :=
    match values with
    | [] => []
    | value :: t => field_wire_with (dec_bytes i) value ++ go (i + 1) t
    end.
End Wire.

Definition scope_wire (code : str) (scope : RawDocument) : bytes :=
  le_encode 4 (len (string_wire code ++ scope) + 4) ++ string_wire code ++ scope.

Fixpoint value_wire (v : Bson) : bytes :=
  match v with
  | Bson_Document doc => doc_frame (fields_wire_with value_wire doc)
  | Bson_Array arr => doc_frame (values_wire_with value_wire 0 arr)
  | Bson_JavaScriptScope code scope => scope_wire code scope
  | other => match Bson_as_scalar other with Some s => scalar_wire s | None => [] end
  end.
Definition fields_wire : list (str * Bson) → bytes := fields_wire_with value_wire.
Definition values_wire : Z → list Bson → bytes := values_wire_with value_wire.
Definition document_wire (d : Document) : bytes := doc_frame (fields_wire d).
Definition array_wire (a : Array) : bytes := doc_frame (values_wire 0 a).

(** Exactly what the encoder accepts. *)
Fixpoint encodable (v : Bson) : bool :=
  match v with
  | Bson_Document doc =>
      forallb (λ f, negb (has_nul f.1) && encodable f.2) doc
      && (len (value_wire v) <=? i32_max)
  | Bson_Array arr => forallb encodable arr && (len (value_wire v) <=? i32_max)
  | Bson_JavaScriptScope code scope =>
      (MIN_DOC_LEN <=? len scope) && (len (value_wire v) <=? i32_max)
  | other =>
      match Bson_as_scalar other with
      | Some s => match scalar_encode_error s with None => true | Some _ => false end
      | None => true
      end
  end.
Definition fields_encodable (doc : list (str * Bson)) : bool :=
  forallb (λ f, negb (has_nul f.1) && encodable f.2) doc.

(** ** The encoder writes the layout, or fails *)

(** [m] appends [w] to [out] when [ok], and returns an error otherwise. *)
Definition writes (m : outcome BsonError bytes) (ok : bool) (out w : bytes) : Prop :=
  if ok then m = Ok (out ++ w) else ∃ e, m = Err e.

Lemma writes_bind m k ok1 ok2 out w1 w2 :
  writes m ok1 out w1 → (ok1 = true → writes (k (out ++ w1)) ok2 (out ++ w1) w2) →
  writes (bind m k) (ok1 && ok2) out (w1 ++ w2).
Proof.
  unfold writes. destruct ok1; simpl.
  - intros -> H. simpl. specialize (H eq_refl). by rewrite app_assoc.
  - intros [e ->] _. by exists e.
Qed.

Lemma patch_len_spec out a b c d w :
  writes (patch_len ((out ++ [a; b; c; d]) ++ w) (len out)) (len w + 4 <=? i32_max)
    out (le_encode 4 (len w + 4) ++ w).
Proof.
  unfold patch_len, usub, writes. rewrite <- app_assoc. rewrite (len_app out). simpl app.
  rewrite !len_cons. pose proof (len_nonneg w). zif. cbn [bind].
  replace (len out + (1 + (1 + (1 + (1 + len w)))) - len out) with (len w + 4) by lia.
  rewrite i32_try_from_len by lia. destruct (len w + 4 <=? i32_max); simpl ok_or.
  - cbn [bind]. by rewrite put_i32_le_at_app.
  - simpl. eauto.
Qed.

Lemma encode_string_eq out s :
  encode_string out s =
    if len s + 1 <=? i32_max then Ok (out ++ string_wire s)
    else Err (BsonError_invalid (len out) "string too large").
Proof.
  unfold encode_string, string_wire, put_i32_le, put_bytes.
  rewrite i32_try_from_len by len_tac.
  destruct (len s <=? i32_max) eqn:E1; cbn [mbind option_bind].
  - destruct (len s + 1 <=? i32_max); [|done]. simpl ok_or. cbn [bind].
    rewrite put_u8_x00. by rewrite <- !app_assoc.
  - zbool. zif. done.
Qed.

Lemma encode_field_spec out name v :
  (∀ out, writes (encode_value out v) (encodable v) out (value_wire v)) →
  writes (encode_field_with encode_value out name v)
    (negb (has_nul name) && encodable v) out (field_wire_with value_wire name v).
Proof.
  intros IH. unfold encode_field_with, field_wire_with. rewrite put_cstring_as_eq.
  unfold writes in *. destruct (has_nul name); simpl; [eauto|].
  specialize (IH (put_u8 out (Bson_tag v) ++ name ++ [x00])). destruct (encodable v); [|done].
  rewrite IH. unfold put_u8. by rewrite <- !app_assoc.
Qed.

Lemma encode_fields_spec fs :
  Forall (λ f, ∀ out, writes (encode_value out f.2) (encodable f.2) out (value_wire f.2)) fs →
  ∀ out, writes (encode_fields_with encode_value fs out)
           (fields_encodable fs) out (fields_wire fs).
Proof.
  unfold fields_wire. induction 1 as [|[n v] fs Hv _ IH]; intros out;
    cbn [encode_fields_with fields_wire_with fields_encodable forallb].
  - unfold writes. by rewrite app_nil_r.
  - apply writes_bind; [by apply encode_field_spec|]. intros _. apply IH.
Qed.
Lemma encode_values_spec vs :
  Forall (λ v, ∀ out, writes (encode_value out v) (encodable v) out (value_wire v)) vs →
  ∀ i out, writes (encode_values_with encode_value i vs out)
           (forallb encodable vs) out (values_wire i vs).
Proof.
  unfold values_wire. induction 1 as [|v vs Hv _ IH]; intros i out;
    cbn [encode_values_with values_wire_with forallb].
  - unfold writes. by rewrite app_nil_r.
  - apply writes_bind; [|intros _; apply IH].
    pose proof (encode_field_spec out (dec_bytes i) v Hv) as H.
    by rewrite has_nul_dec_bytes in H.
Qed.

Lemma framed_spec out (k : bytes → outcome BsonError bytes) ok body :
  (∀ out, writes (k out) ok out body) →
  writes (let '(len_pos, out) := placeholder_i32 out in
          let* out := k out in patch_len (put_u8 out 0) len_pos)
    (ok && (len (doc_frame body) <=? i32_max)) out (doc_frame body).
Proof.
  intros Hk. unfold placeholder_i32, put_bytes. cbv beta iota zeta.
  specialize (Hk (out ++ [x00; x00; x00; x00])). unfold writes in *.
  destruct ok; cbn [andb]; [|by destruct Hk as [e ->]; eauto].
  rewrite Hk. cbn [bind]. rewrite put_u8_x00, <- app_assoc.
  pose proof (patch_len_spec out x00 x00 x00 x00 (body ++ [x00])) as H.
  unfold writes in H. rewrite len_doc_frame. unfold doc_frame.
  rewrite len_app in H. replace (len body + len [x00] + 4) with (len body + 5) in H by len_tac.
  done.
Qed.

Lemma scope_spec out code scope : MIN_DOC_LEN <= len scope →
  writes (let '(len_pos, out) := placeholder_i32 out in
          let* out := encode_string out code in patch_len (put_bytes out scope) len_pos)
    (len (scope_wire code scope) <=? i32_max) out (scope_wire code scope).
Proof.
  intros Hs. unfold placeholder_i32, put_bytes. cbv beta iota zeta.
  rewrite encode_string_eq. unfold scope_wire.
  pose proof (patch_len_spec out x00 x00 x00 x00 (string_wire code ++ scope)) as H.
  replace (len (le_encode 4 (len (string_wire code ++ scope) + 4) ++ string_wire code ++ scope))
    with (len (string_wire code ++ scope) + 4) by len_tac.
  destruct (len code + 1 <=? i32_max) eqn:E; cbn [bind]; [by rewrite <- (app_assoc _ (string_wire code))|].
  unfold writes. zbool. assert (len code + 1 <= len (string_wire code ++ scope)).
  { unfold string_wire. len_tac. }
  zif. eauto.
Qed.

Lemma encode_value_spec v : ∀ out,
  writes (encode_value out v) (encodable v) out (value_wire v).
Proof.
  induction v as [fs IH|vs IH|v Hd Ha] using Bson_nested_ind; intros out.
  - apply (framed_spec _ (encode_fields_with encode_value fs)). by apply encode_fields_spec.
  - apply (framed_spec _ (encode_values_with encode_value 0 vs)). by apply encode_values_spec.
  - destruct v; try (by destruct (Hd fields)); try (by destruct (Ha values));
      try (cbn [encode_value encodable value_wire Bson_as_scalar ok_or bind];
           rewrite encode_scalar_spec; unfold writes; destruct (scalar_encode_error _); simpl; eauto; fail).
    cbn [encode_value encodable value_wire]. destruct (len scope <? MIN_DOC_LEN) eqn:E; zbool.
    + replace (MIN_DOC_LEN <=? len scope) with false by lia. simpl. eauto.
    + replace (MIN_DOC_LEN <=? len scope) with true by lia. by apply scope_spec.
Qed.

Lemma from_vec_writes m ok body :
  writes m (ok && (len (doc_frame body) <=? i32_max)) [] (doc_frame body) →
  writes (bind m RawDocument_from_vec) (ok && (len (doc_frame body) <=? i32_max)) []
    (doc_frame body).
Proof.
  unfold writes. destruct (ok && _) eqn:E; [|by intros [e ->]; exists e].
  intros ->. simpl. zbool. rewrite len_doc_frame in *.
  apply RawDocument_from_bytes_frame. unfold_ranges. lia.
Qed.

Lemma Document_encode_writes d :
  writes (Document_encode d) (encodable (Bson_Document d)) [] (document_wire d).
Proof.
  apply (from_vec_writes _ (fields_encodable d)). apply (encode_value_spec (Bson_Document d)).
Qed.
Lemma Array_encode_writes a :
  writes (Array_encode a) (encodable (Bson_Array a)) [] (array_wire a).
Proof.
  apply (from_vec_writes _ (forallb encodable a)). apply (encode_value_spec (Bson_Array a)).
Qed.

(** C19. Encoding is exactly the BSON layout: appending to any buffer, the
    encoder extends it by the layout of the document when the document is
    encodable (no NUL in a field name or regex, every length within [i32], no
    empty code scope) and returns an error otherwise; it never panics, and
    [Document::encode] / [Array::encode] agree with it. *)
Theorem encode_is_layout d a out :
  (if encodable (Bson_Document d)
   then encode_document d out = Ok (out ++ document_wire d) ∧
        Document_encode d = Ok (document_wire d)
   else (∃ e, encode_document d out = Err e) ∧ (∃ e, Document_encode d = Err e)) ∧
  (if encodable (Bson_Array a)
   then encode_array a out = Ok (out ++ array_wire a) ∧ Array_encode a = Ok (array_wire a)
   else (∃ e, encode_array a out = Err e) ∧ (∃ e, Array_encode a = Err e)).
Proof.
  pose proof (encode_value_spec (Bson_Document d) out) as Hd.
  pose proof (Document_encode_writes d) as Hd'.
  pose proof (encode_value_spec (Bson_Array a) out) as Ha.
  pose proof (Array_encode_writes a) as Ha'.
  unfold writes in *. split; [clear Ha Ha'; destruct (encodable (Bson_Document d))|
    clear Hd Hd'; destruct (encodable (Bson_Array a))]; by split.
Qed.
