(* ===== verification/BsonDecode.v ===== *)
(** * Decoding documents: [wirebson/src/decode.rs], [raw_value.rs] and the
    field access of [raw.rs].

    A [Scanner] walks the fields of a validated document and yields borrowed
    names and raw values; nested composites are sliced off the parent and
    validated, and decoded recursively under a depth limit. *)
From stdpp Require Import base list numbers strings.
From Stdlib Require Import ZArith Lia.
From S2P Require Import Prelude Utf8 Io Consts BsonScalar BsonValue BsonEncode.
Local Open Scope Z_scope.

(** ** Types *)

Inductive RawBsonRef :=
| RawBsonRef_Double (v : f64)
| RawBsonRef_String (v : str)
| RawBsonRef_Document (d : RawDocument)
| RawBsonRef_Array (a : RawArray)
| RawBsonRef_Binary (b : Binary)
| RawBsonRef_Undefined
| RawBsonRef_ObjectId (v : ObjectId)
| RawBsonRef_Bool (v : bool)
| RawBsonRef_DateTime (v : Z)
| RawBsonRef_Null
| RawBsonRef_Regex (r : Regex)
| RawBsonRef_DbPointer (p : DbPointer)
| RawBsonRef_JavaScript (v : str)
| RawBsonRef_Symbol (v : str)
| RawBsonRef_JavaScriptScope (code : str) (scope : RawDocument)
| RawBsonRef_Int32 (v : Z)
| RawBsonRef_Timestamp (t : Timestamp)
| RawBsonRef_Int64 (v : Z)
| RawBsonRef_Decimal128 (d : Decimal128)
| RawBsonRef_MinKey
| RawBsonRef_MaxKey.

Inductive Mode := Mode_Shallow | Mode_Deep.

Record Scanner := mkScanner { sc_parent : bytes; sc_body : bytes; sc_offset : Z }.

(** ** Value parsing *)

Definition map_read (e : ReadError) : BsonError :=
  match e with
  | ReadError_ShortInput needed got => BsonError_ShortInput needed got
  | ReadError_Invalid reason => BsonError_invalid 0 reason
  end.

(** [.map_err(map_read)?]. *)
Definition bread {A} (m : reader ReadError A) : reader BsonError A := rmap_err map_read m.

Definition doc_len (rest : bytes) (abs : Z) : outcome BsonError Z :=
  if len rest <? 4 then Err (BsonError_ShortInput 4 (len rest))
  else
    let* p := slice rest 0 4 in
    let* a := array_of 4 p in
    let l := u32_of_le a in
    if l <? MIN_DOC_LEN then Err (BsonError_invalid abs "composite length below minimum")
    else if len rest <? l then Err (BsonError_ShortInput l (len rest))
    else Ok l.

Definition read_str (abs : Z) : reader BsonError str :=
  do l <- bread read_u32_le;
  if l <? 1 then rfail (BsonError_invalid abs "zero-length string")
  else
    do b <- bread (read_bytes (l - 1));
    do nul <- bread read_u8;
    if negb (u8 nul =? 0) then rfail (BsonError_invalid abs "string not NUL-terminated")
    else rlift (map_err BsonError_Utf8 (from_utf8 b)).

Definition read_cstr : reader BsonError str :=
  do b <- bread read_cstring; rlift (map_err BsonError_Utf8 (from_utf8 b)).

Definition read_binary (abs : Z) : reader BsonError Binary :=
  do l <- bread read_u32_le;
  do sb <- bread read_u8;
  do st <- rlift (map_err BsonError_Scalar (BinarySubtype_from_u8 sb));
  do payload <-
    (match st with
     | BinarySubtype_BinaryOld =>
         do inner <- bread read_u32_le;
         if negb (inner + 4 =? l)
         then rfail (BsonError_invalid abs "old binary inner length mismatch")
         else rret inner
     | _ => rret l
     end);
  do b <- bread (read_bytes payload);
  rret (mkBinary st b).

(** The [TAG_DOCUMENT | TAG_ARRAY] arm. *)
Definition parse_composite (tag : Z) (parent : bytes) (abs : Z) : reader BsonError RawBsonRef :=
  λ rest,
    let* l := doc_len rest abs in
    let* child := slice parent abs (abs + l) in
    let* '(_, r) := bread (read_bytes l) rest in
    if tag =? TAG_DOCUMENT then
      let* d := RawDocument_from_bytes child in Ok (RawBsonRef_Document d, r)
    else
      let* a := RawArray_from_bytes child in Ok (RawBsonRef_Array a, r).

(** The [TAG_JAVASCRIPT_SCOPE] arm. *)
Definition parse_scope (parent : bytes) (abs : Z) : reader BsonError RawBsonRef :=
  λ rest,
    if len rest <? 4 then Err (BsonError_ShortInput 4 (len rest))
    else
      let* p := slice rest 0 4 in
      let* a := array_of 4 p in
      let total := u32_of_le a in
      let* cur := slice rest 4 (len rest) in
      let* '(code, cur) := read_str (abs + 4) cur in
      let* scope_off := usub (len rest) (remaining cur) in
      if len rest <? scope_off + 4 then Err (BsonError_ShortInput (scope_off + 4) (len rest))
      else
        let* p := slice rest scope_off (scope_off + 4) in
        let* a := array_of 4 p in
        let l := u32_of_le a in
        if l <? MIN_DOC_LEN
        then Err (BsonError_invalid (abs + scope_off) "scope length below minimum")
        else if len rest <? scope_off + l
        then Err (BsonError_ShortInput (scope_off + l) (len rest))
        else
          let* child := slice parent (abs + scope_off) (abs + scope_off + l) in
          let* scope := RawDocument_from_bytes child in
          let actual := scope_off + l in
          if negb (total =? actual) then Err (BsonError_LengthMismatch total actual)
          else
            let* '(_, r) := bread (read_bytes actual) rest in
            Ok (RawBsonRef_JavaScriptScope code scope, r).

(** The [match tag] of [parse_value]. *)
Definition parse_value_arm (tag : Z) (parent : bytes) (abs : Z) : reader BsonError RawBsonRef :=
  if (tag =? TAG_DOCUMENT) || (tag =? TAG_ARRAY) then parse_composite tag parent abs
  else if tag =? TAG_JAVASCRIPT_SCOPE then parse_scope parent abs
  else if tag =? TAG_DOUBLE then
    do b <- bread (read_bytes 8); do a <- rlift (array_of 8 b);
    rret (RawBsonRef_Double (u64_of_le a))
  else if tag =? TAG_STRING then do s <- read_str abs; rret (RawBsonRef_String s)
  else if tag =? TAG_BINARY then do b <- read_binary abs; rret (RawBsonRef_Binary b)
  else if tag =? TAG_UNDEFINED then rret RawBsonRef_Undefined
  else if tag =? TAG_OBJECT_ID then
    do b <- bread (read_bytes 12); do a <- rlift (array_of 12 b); rret (RawBsonRef_ObjectId a)
  else if tag =? TAG_BOOL then
    do b <- bread read_u8;
    match b with
    | x00 => rret (RawBsonRef_Bool false)
    | x01 => rret (RawBsonRef_Bool true)
    | _ => rfail (BsonError_invalid abs "invalid bool byte")
    end
  else if tag =? TAG_DATE_TIME then do v <- bread read_i64_le; rret (RawBsonRef_DateTime v)
  else if tag =? TAG_NULL then rret RawBsonRef_Null
  else if tag =? TAG_REGEX then
    do p <- read_cstr; do o <- read_cstr; rret (RawBsonRef_Regex (mkRegex p o))
  else if tag =? TAG_DB_POINTER then
    do ns <- read_str abs;
    do b <- bread (read_bytes 12); do a <- rlift (array_of 12 b);
    rret (RawBsonRef_DbPointer (mkDbPointer ns a))
  else if tag =? TAG_JAVASCRIPT then do s <- read_str abs; rret (RawBsonRef_JavaScript s)
  else if tag =? TAG_SYMBOL then do s <- read_str abs; rret (RawBsonRef_Symbol s)
  else if tag =? TAG_INT32 then do v <- bread read_i32_le; rret (RawBsonRef_Int32 v)
  else if tag =? TAG_TIMESTAMP then
    do inc <- bread read_u32_le; do sec <- bread read_u32_le;
    rret (RawBsonRef_Timestamp (mkTimestamp sec inc))
  else if tag =? TAG_INT64 then do v <- bread read_i64_le; rret (RawBsonRef_Int64 v)
  else if tag =? TAG_DECIMAL128 then
    do b <- bread (read_bytes 16); do a <- rlift (array_of 16 b);
    rret (RawBsonRef_Decimal128 a)
  else if tag =? TAG_MIN_KEY then rret RawBsonRef_MinKey
  else if tag =? TAG_MAX_KEY then rret RawBsonRef_MaxKey
  else rfail (BsonError_invalid abs "unknown element type").

Definition parse_value (tag : Z) (rest parent : bytes) (abs : Z)
  : outcome BsonError (RawBsonRef * Z) :=
  let* '(value, r) := parse_value_arm tag parent abs rest in
  let* consumed := usub (len rest) (remaining r) in
  Ok (value, consumed).

(** ** The field scanner *)

Definition Scanner_new (doc : bytes) : Scanner :=
  mkScanner doc (if len doc <? 4 then [] else dropZ 4 doc) 0.

Definition Scanner_next (s : Scanner)
  : outcome BsonError (option (str * RawBsonRef) * Scanner) :=
  let body := sc_body s in
  match get body (sc_offset s) with
  | None => Err (BsonError_ShortInput (sc_offset s + 1) (len body))
  | Some tag =>
      if u8 tag =? 0 then
        if negb (sc_offset s + 1 =? len body)
        then Err (BsonError_invalid (sc_offset s) "data after end-of-document marker")
        else Ok (None, s)
      else
        let offset := sc_offset s + 1 in
        let* tail := slice body offset (len body) in
        let* rel := ok_or (position is_nul tail)
                      (BsonError_ShortInput (len body + 1) (len body)) in
        let* raw_name := slice body offset (offset + rel) in
        let* name := map_err BsonError_Utf8 (from_utf8 raw_name) in
        let offset := offset + rel + 1 in
        let* rest := slice body offset (len body) in
        let* '(value, consumed) := parse_value (u8 tag) rest (sc_parent s) (4 + offset) in
        Ok (Some (name, value), mkScanner (sc_parent s) body (offset + consumed))
  end.

(** ** Materialization and the recursive decoders *)

(** [RawBsonRef::to_bson] over the shallow decoders of its composites. *)
Definition to_bson_with (doc_shallow : RawDocument → outcome BsonError Document)
  (arr_shallow : RawArray → outcome BsonError Array) (v : RawBsonRef) : outcome BsonError Bson :=
  match v with
  | RawBsonRef_Double v => Ok (Bson_Double v)
  | RawBsonRef_String v => Ok (Bson_String v)
  | RawBsonRef_Document d => let* d := doc_shallow d in Ok (Bson_Document d)
  | RawBsonRef_Array a => let* a := arr_shallow a in Ok (Bson_Array a)
  | RawBsonRef_Binary b => Ok (Bson_Binary b)
  | RawBsonRef_Undefined => Ok Bson_Undefined
  | RawBsonRef_ObjectId v => Ok (Bson_ObjectId v)
  | RawBsonRef_Bool v => Ok (Bson_Bool v)
  | RawBsonRef_DateTime v => Ok (Bson_DateTime v)
  | RawBsonRef_Null => Ok Bson_Null
  | RawBsonRef_Regex r => Ok (Bson_Regex r)
  | RawBsonRef_DbPointer p => Ok (Bson_DbPointer p)
  | RawBsonRef_JavaScript v => Ok (Bson_JavaScript v)
  | RawBsonRef_Symbol v => Ok (Bson_Symbol v)
  | RawBsonRef_JavaScriptScope code scope => Ok (Bson_JavaScriptScope code scope)
  | RawBsonRef_Int32 v => Ok (Bson_Int32 v)
  | RawBsonRef_Timestamp t => Ok (Bson_Timestamp t)
  | RawBsonRef_Int64 v => Ok (Bson_Int64 v)
  | RawBsonRef_Decimal128 d => Ok (Bson_Decimal128 d)
  | RawBsonRef_MinKey => Ok Bson_MinKey
  | RawBsonRef_MaxKey => Ok Bson_MaxKey
  end.

(** Everything that recurses into [decode_document] / [decode_array]. *)
Section Open.
Variable decode_document : bytes → Mode → Z → outcome BsonError Document.
Variable decode_array : bytes → Mode → Z → outcome BsonError Array.

Definition raw_to_bson_with : RawBsonRef → outcome BsonError Bson :=
  to_bson_with (λ d, decode_document d Mode_Shallow 1) (λ a, decode_array a Mode_Shallow 1).
(** [RawBsonRef::deep]. *)
Definition raw_deep_with (v : RawBsonRef) : outcome BsonError Bson :=
  match v with
  | RawBsonRef_Document d =>
      let* d := decode_document d Mode_Deep 1 in Ok (Bson_Document d)
  | RawBsonRef_Array a => let* a := decode_array a Mode_Deep 1 in Ok (Bson_Array a)
  | RawBsonRef_JavaScriptScope code scope => Ok (Bson_JavaScriptScope code scope)
  | other => raw_to_bson_with other
  end.

Definition materialize_with (value : RawBsonRef) (mode : Mode) (depth : Z)
  : outcome BsonError Bson :=
  match value with
  | RawBsonRef_Document d =>
      let* d := decode_document d mode (depth + 1) in Ok (Bson_Document d)
  | RawBsonRef_Array a =>
      let* a := decode_array a mode (depth + 1) in Ok (Bson_Array a)
  | RawBsonRef_JavaScriptScope code scope => Ok (Bson_JavaScriptScope code scope)
  | other =>
      match mode with
      | Mode_Shallow => raw_to_bson_with other
      | Mode_Deep => raw_deep_with other
      end
  end.

(** The [while let] loop of [decode_fields]. *)
Fixpoint fields_loop (fuel : nat) (mode : Mode) (depth : Z) (s : Scanner)
  : outcome BsonError (list (str * Bson)) :=
  match fuel with
  | O => Fuel
  | S fuel =>
      let* '(item, s) := Scanner_next s in
      match item with
      | None => Ok []
      | Some (name, raw) =>
          let* value := materialize_with raw mode depth in
          let* rest := fields_loop fuel mode depth s in
          Ok ((name, value) :: rest)
      end
  end.
(** The [while let] loop of [decode_array]. *)
Fixpoint values_loop (fuel : nat) (mode : Mode) (depth : Z) (s : Scanner)
  : outcome BsonError (list Bson) :=
  match fuel with
  | O => Fuel
  | S fuel =>
      let* '(item, s) := Scanner_next s in
      match item with
      | None => Ok []
      | Some (_, raw) =>
          let* value := materialize_with raw mode depth in
          let* rest := values_loop fuel mode depth s in
          Ok (value :: rest)
      end
  end.
End Open.

(** A field takes at least two bytes, so the length bounds the iterations. *)
Definition scan_fuel (b : bytes) : nat := S (length b).

(** [decode_fields] (and [decode_document], its wrapper) and [decode_array];
    [gas] bounds the recursion, which the depth limit stops first. *)
Fixpoint decode_fields (gas : nat) (b : bytes) (mode : Mode) (depth : Z) {struct gas}
  : outcome BsonError (list (str * Bson)) :=
  match gas with
  | O => Fuel
  | S gas =>
      if MAX_NESTING_DEPTH <? depth then Err (BsonError_NestedTooDeep MAX_NESTING_DEPTH)
      else fields_loop (decode_fields gas) (decode_array gas) (scan_fuel b) mode depth
             (Scanner_new b)
  end
with decode_array (gas : nat) (b : bytes) (mode : Mode) (depth : Z) {struct gas}
  : outcome BsonError (list Bson) :=
  match gas with
  | O => Fuel
  | S gas =>
      if MAX_NESTING_DEPTH <? depth then Err (BsonError_NestedTooDeep MAX_NESTING_DEPTH)
      else values_loop (decode_fields gas) (decode_array gas) (scan_fuel b) mode depth
             (Scanner_new b)
  end.

(** From depth 1 the deepest call is at depth 21. *)
Definition decode_gas : nat := 21.
Definition decode_document : bytes → Mode → Z → outcome BsonError Document :=
  decode_fields decode_gas.

Definition RawDocument_shallow (d : RawDocument) : outcome BsonError Document :=
  decode_document d Mode_Shallow 1.
Definition RawDocument_deep (d : RawDocument) : outcome BsonError Document :=
  decode_document d Mode_Deep 1.
Definition RawArray_shallow (a : RawArray) : outcome BsonError Array :=
  decode_array decode_gas a Mode_Shallow 1.
Definition RawArray_deep (a : RawArray) : outcome BsonError Array :=
  decode_array decode_gas a Mode_Deep 1.
Definition RawBsonRef_to_bson : RawBsonRef → outcome BsonError Bson :=
  to_bson_with RawDocument_shallow RawArray_shallow.
Definition RawBsonRef_deep : RawBsonRef → outcome BsonError Bson :=
  raw_deep_with decode_document (decode_array decode_gas).

(** ** [FieldsIter] and [RawDocument::get] *)

Record FieldsIter := mkFieldsIter { fi_scanner : Scanner; fi_done : bool }.
Definition RawDocument_fields (d : RawDocument) : FieldsIter :=
  mkFieldsIter (Scanner_new d) false.
(** [Iterator::next]: an item is a field or an error, and an error or the end
    of the document finishes the iterator. *)
Definition FieldsIter_next (it : FieldsIter)
  : outcome BsonError (option (sum BsonError (str * RawBsonRef)) * FieldsIter) :=
  if fi_done it then Ok (None, it)
  else
    match Scanner_next (fi_scanner it) with
    | Ok (Some field, s) => Ok (Some (inr field), mkFieldsIter s false)
    | Ok (None, s) => Ok (None, mkFieldsIter s true)
    | Err e => Ok (Some (inl e), mkFieldsIter (fi_scanner it) true)
    | Panic => Panic
    | Fuel => Fuel
    end.
Fixpoint RawDocument_get_loop (fuel : nat) (key : str) (it : FieldsIter)
  : outcome BsonError (option RawBsonRef) :=
  match fuel with
  | O => Fuel
  | S fuel =>
      let* '(item, it) := FieldsIter_next it in
      match item with
      | None => Ok None
      | Some (inl e) => Err e
      | Some (inr (name, value)) =>
          if str_eqb name key then Ok (Some value) else RawDocument_get_loop fuel key it
      end
  end.
Definition RawDocument_get (d : RawDocument) (key : str) : outcome BsonError (option RawBsonRef) :=
  RawDocument_get_loop (scan_fuel d) key (RawDocument_fields d).

(** ** Agreement with [parse_scalar] *)

Definition raw_of_scalar (s : Scalar) : RawBsonRef :=
  match s with
  | Scalar_Double v => RawBsonRef_Double v
  | Scalar_String v => RawBsonRef_String v
  | Scalar_Binary v => RawBsonRef_Binary v
  | Scalar_Undefined => RawBsonRef_Undefined
  | Scalar_ObjectId v => RawBsonRef_ObjectId v
  | Scalar_Bool v => RawBsonRef_Bool v
  | Scalar_DateTime v => RawBsonRef_DateTime v
  | Scalar_Null => RawBsonRef_Null
  | Scalar_Regex v => RawBsonRef_Regex v
  | Scalar_DbPointer v => RawBsonRef_DbPointer v
  | Scalar_JavaScript v => RawBsonRef_JavaScript v
  | Scalar_Symbol v => RawBsonRef_Symbol v
  | Scalar_Int32 v => RawBsonRef_Int32 v
  | Scalar_Timestamp v => RawBsonRef_Timestamp v
  | Scalar_Int64 v => RawBsonRef_Int64 v
  | Scalar_Decimal128 v => RawBsonRef_Decimal128 v
  | Scalar_MinKey => RawBsonRef_MinKey
  | Scalar_MaxKey => RawBsonRef_MaxKey
  end.

(** How the document walker words the errors of the scalar parser. *)
Definition scalar_error_as (abs : Z) (e : ScalarError) : BsonError :=
  match e with
  | ScalarError_ShortInput needed got => BsonError_ShortInput needed got
  | ScalarError_Utf8 e => BsonError_Utf8 e
  | ScalarError_Invalid _ reason =>
      if String.eqb reason "reserved binary subtype" then BsonError_Scalar e
      else BsonError_invalid abs reason
  | e => BsonError_Scalar e
  end.

Definition is_composite (tag : Z) : bool :=
  (tag =? TAG_DOCUMENT) || (tag =? TAG_ARRAY) || (tag =? TAG_JAVASCRIPT_SCOPE).

Section Agree.
Variable abs : Z.

(** [m] is [m'] up to the wording of errors and a map on results. *)
Definition agrees {A B} (g : B → A) (m : reader BsonError A) (m' : reader ScalarError B) : Prop :=
  ∀ r, m r = map_err (scalar_error_as abs) (let* '(b, r') := m' r in Ok (g b, r')).

Lemma agrees_bind {A B C} (g : C → B) (m : reader BsonError A) (m' : reader ScalarError A)
  (k : A → reader BsonError B) (k' : A → reader ScalarError C) :
  agrees id m m' → (∀ a, agrees g (k a) (k' a)) → agrees g (rbind m k) (rbind m' k').
Proof.
  intros Hm Hk r. unfold rbind. rewrite Hm. destruct (m' r) as [[a r']| | |]; simpl; auto.
  apply Hk.
Qed.
Lemma agrees_ret {A B} (g : B → A) b : agrees g (rret (g b)) (rret b).
Proof. done. Qed.
Lemma agrees_invalid {A B} (g : B → A) tag reason :
  String.eqb reason "reserved binary subtype" = false →
  agrees g (rfail (BsonError_invalid abs reason)) (rfail (ScalarError_Invalid tag reason)).
Proof. intros H r. unfold rfail. simpl. by rewrite H. Qed.
Lemma agrees_if {A B} (g : B → A) (c : bool) m1 m1' m2 m2' :
  agrees g m1 m1' → agrees g m2 m2' → agrees g (if c then m1 else m2) (if c then m1' else m2').
Proof. by destruct c. Qed.
Lemma agrees_lift {A} (m : outcome BsonError A) (m' : outcome ScalarError A) :
  m = map_err (scalar_error_as abs) m' → agrees id (rlift m) (rlift m').
Proof. intros -> r. unfold rlift. by destruct m'. Qed.

Lemma agrees_read {A} (m : reader ReadError A) :
  (∀ r e, m r = Err e → ∃ n g, e = ReadError_ShortInput n g) →
  agrees id (bread m) (sread m).
Proof.
  intros H r. unfold bread, sread, rmap_err. destruct (m r) as [[a r']|e| |] eqn:E; try done.
  destruct (H r e E) as (n & g & ->). done.
Qed.

Lemma short_read_bytes n r e : read_bytes n r = Err e → ∃ n g, e = ReadError_ShortInput n g.
Proof. unfold read_bytes. case_match; [|done]. intros [= <-]. eauto. Qed.
Lemma short_rbind {A B} (m : reader ReadError A) (k : A → reader ReadError B) r e :
  (∀ e, m r = Err e → ∃ n g, e = ReadError_ShortInput n g) →
  (∀ a r' e, k a r' ≠ Err e) →
  rbind m k r = Err e → ∃ n g, e = ReadError_ShortInput n g.
Proof.
  intros H1 H2. unfold rbind. destruct (m r) as [[a r']|e'| |]; simpl; try done.
  - intros H. by apply H2 in H.
  - intros [= ->]. eauto.
Qed.
Lemma index_not_Err {E A} (l : list A) i (e : E) : index l i ≠ Err e.
Proof. unfold index, expect. by case_match. Qed.
Lemma indices_not_Err n : ∀ i b e, indices n i b ≠ Err e.
Proof.
  induction n as [|n IH]; intros i b e; simpl; [done|].
  destruct (index b i) eqn:E; simpl; try done.
  - specialize (IH (i + 1) b). destruct (indices n (i + 1) b) eqn:E'; simpl; naive_solver.
  - by apply index_not_Err in E.
Qed.
Lemma short_read_le n f r e : read_le n f r = Err e → ∃ n g, e = ReadError_ShortInput n g.
Proof.
  apply short_rbind; [apply short_read_bytes|]. intros b r' e'. unfold rbind, rlift.
  pose proof (indices_not_Err n 0 b). destruct (indices n 0 b) eqn:E; simpl; naive_solver.
Qed.
Lemma short_read_u8 r e : read_u8 r = Err e → ∃ n g, e = ReadError_ShortInput n g.
Proof.
  apply short_rbind; [apply short_read_bytes|]. intros b r' e'. unfold rlift.
  pose proof (@index_not_Err ReadError _ b 0). destruct (index b 0) eqn:E; simpl; naive_solver.
Qed.
Lemma short_read_cstring r e : read_cstring r = Err e → ∃ n g, e = ReadError_ShortInput n g.
Proof. unfold read_cstring. case_match; [done|]. intros [= <-]. eauto. Qed.

Lemma agrees_utf8 b :
  agrees id (rlift (map_err BsonError_Utf8 (from_utf8 b)))
    (rlift (map_err ScalarError_Utf8 (from_utf8 b))).
Proof. apply agrees_lift. by destruct (from_utf8 b). Qed.
Lemma agrees_array n b : agrees id (rlift (array_of n b)) (rlift (array_of n b)).
Proof. apply agrees_lift. unfold array_of. by case_match. Qed.
Lemma agrees_id_ret {A} (a : A) : agrees id (rret a) (rret a).
Proof. done. Qed.
Lemma agrees_subtype b :
  agrees id (rlift (map_err BsonError_Scalar (BinarySubtype_from_u8 b)))
    (rlift (BinarySubtype_from_u8 b)).
Proof. apply agrees_lift. by destruct b. Qed.

Ltac agree1 :=
  first
    [ apply agrees_bind; [|intros]
    | apply agrees_utf8 | apply agrees_array | apply agrees_subtype | apply agrees_id_ret
    | apply agrees_ret | (apply agrees_invalid; reflexivity) | apply agrees_if
    | apply (agrees_read (read_bytes _)), short_read_bytes
    | apply (agrees_read read_u8), short_read_u8
    | apply (agrees_read read_cstring), short_read_cstring
    | apply (agrees_read read_u32_le), (short_read_le 4 u32_of_le)
    | apply (agrees_read read_i32_le), (short_read_le 4 i32_of_le)
    | apply (agrees_read read_i64_le), (short_read_le 8 i64_of_le) ].
Ltac agree := repeat agree1.

Lemma agrees_str tag : agrees id (read_str abs) (parse_string tag).
Proof.
  unfold read_str, parse_string, read_u32_as_usize.
  intros r. unfold rbind at 1 4. pose proof (agrees_read read_u32_le (short_read_le 4 u32_of_le) r) as H.
  rewrite H. destruct (sread read_u32_le r) as [[l r']| | |] eqn:E; cbn [bind map_err]; try done.
  unfold sread in E. inv_read. inv_prim.
  replace (id l <? 1) with (l =? 0) by (unfold id; unfold_ranges; lia).
  assert (agrees id (if l =? 0 then rfail (BsonError_invalid abs "zero-length string")
    else do b <- bread (read_bytes (l - 1)); do nul <- bread read_u8;
      if negb (u8 nul =? 0) then rfail (BsonError_invalid abs "string not NUL-terminated")
      else rlift (map_err BsonError_Utf8 (from_utf8 b)))
    (if l =? 0 then rfail (ScalarError_Invalid tag "zero-length string")
    else do b <- sread (read_bytes (l - 1)); do nul <- sread read_u8;
      if negb (u8 nul =? 0) then rfail (ScalarError_Invalid tag "string not NUL-terminated")
      else rlift (map_err ScalarError_Utf8 (from_utf8 b)))) as Ha by agree.
  apply Ha.
Qed.
Lemma agrees_cstr tag : agrees id read_cstr (read_cstring_str tag).
Proof. unfold read_cstr, read_cstring_str. agree. Qed.
Lemma agrees_binary tag : agrees id (read_binary abs) (parse_binary tag).
Proof.
  unfold read_binary, parse_binary, read_u32_as_usize. agree.
  destruct a1; agree.
Qed.

Lemma agrees_scalar tag parent : is_composite tag = false →
  agrees raw_of_scalar (parse_value_arm tag parent abs) (parse_scalar_arm tag).
Proof.
  unfold is_composite. intros Hc.
  apply orb_false_iff in Hc as [[H1 H2]%orb_false_iff H3]. unfold parse_value_arm, parse_scalar_arm.
  rewrite H1, H2, H3. cbn [orb].
  repeat first [ apply agrees_str | apply agrees_cstr | apply agrees_binary
               | exact (λ r, eq_refl) | agree1 ].
  destruct a; first [exact (λ r, eq_refl) | agree].
Qed.
End Agree.

(** ** Raw values and their bytes *)

(** [raw_encodes tag v w]: [w] is the encoding of the raw value [v] under [tag]. *)
Inductive raw_encodes (tag : Z) : RawBsonRef → bytes → Prop :=
| raw_encodes_scalar s :
    tag = tag_of s → scalar_ok s → scalar_fits s →
    raw_encodes tag (raw_of_scalar s) (scalar_wire s)
| raw_encodes_document d : tag = TAG_DOCUMENT → raw_ok d → raw_encodes tag (RawBsonRef_Document d) d
| raw_encodes_array a : tag = TAG_ARRAY → raw_ok a → raw_encodes tag (RawBsonRef_Array a) a
| raw_encodes_scope code scope :
    tag = TAG_JAVASCRIPT_SCOPE → valid_utf8 code = true → raw_ok scope →
    len (scope_wire code scope) <= u32_max →
    raw_encodes tag (RawBsonRef_JavaScriptScope code scope) (scope_wire code scope).

Lemma slice_prefix {E A} (l1 l2 : list A) n : n = len l1 → @slice E A (l1 ++ l2) 0 n = Ok l1.
Proof. intros ->. by apply (slice_mid [] l1 l2). Qed.
Lemma slice_suffix {E A} (l1 l2 : list A) n m : n = len l1 → m = len l1 + len l2 →
  @slice E A (l1 ++ l2) n m = Ok l2.
Proof. intros -> ->. rewrite <- (app_nil_r l2) at 1. by apply slice_mid. Qed.

Lemma raw_ok_prefix d : raw_ok d → ∃ body, d = le_encode 4 (len d) ++ body ∧ 5 <= len d <= u32_max.
Proof.
  intros (body & Hd & Hl)%raw_ok_frame. exists (body ++ [x00]).
  assert (len d = len body + 5) as -> by (subst; apply len_doc_frame).
  split; [done|]. pose proof (len_nonneg body). lia.
Qed.

(** The length a complete composite declares. *)
Lemma declared_len {E} d r : raw_ok d →
  (let* p := @slice E _ (d ++ r) 0 4 in let* a := array_of 4 p in Ok (u32_of_le a)) = Ok (len d).
Proof.
  intros (body & Hd & Hl)%raw_ok_prefix. rewrite Hd at 1. rewrite <- app_assoc.
  rewrite slice_prefix by (by rewrite len_le_encode). cbn [bind]. unfold array_of.
  rewrite len_le_encode. cbn [bind]. simpl (_ =? _). cbv iota. cbn [bind].
  rewrite u32_of_le_encode; [done|]. unfold in_u32. lia.
Qed.

Lemma doc_len_ok d r abs : raw_ok d → doc_len (d ++ r) abs = Ok (len d).
Proof.
  intros Hok. pose proof (declared_len (E := BsonError) d r Hok) as H.
  destruct (raw_ok_prefix d Hok) as (body & _ & Hl).
  unfold doc_len. rewrite len_app. pose proof (len_nonneg r). zif.
  destruct (slice (d ++ r) 0 4) as [p| | |]; try done. cbn [bind] in *.
  destruct (array_of 4 p) as [a| | |]; try done. cbn [bind] in *. injection H as ->.
  unfold MIN_DOC_LEN. by repeat zif.
Qed.

Lemma slice_child {E} (pre d r : bytes) abs : abs = len pre →
  @slice E _ (pre ++ d ++ r) abs (abs + len d) = Ok d.
Proof. intros ->. by apply slice_mid. Qed.

Lemma parse_composite_ok tag pre d r abs : raw_ok d → abs = len pre →
  parse_composite tag (pre ++ d ++ r) abs (d ++ r) =
    Ok (if tag =? TAG_DOCUMENT then RawBsonRef_Document d else RawBsonRef_Array d, r).
Proof.
  intros Hd Ha. unfold parse_composite. rewrite doc_len_ok by done. cbn [bind].
  rewrite slice_child by done. cbn [bind]. unfold bread, rmap_err.
  rewrite parses_read_bytes by done. cbn [map_err bind]. unfold RawArray_from_bytes.
  rewrite RawDocument_from_bytes_ok by done. by case_match.
Qed.

Lemma parses_read_str abs s : valid_utf8 s = true → len s + 1 <= u32_max →
  parses (read_str abs) (string_wire s) s.
Proof.
  intros H1 H2 rest. rewrite (agrees_str abs TAG_STRING). by rewrite parses_string.
Qed.

Lemma parse_scope_ok pre code scope r abs :
  valid_utf8 code = true → raw_ok scope → len (scope_wire code scope) <= u32_max →
  abs = len pre →
  parse_scope (pre ++ scope_wire code scope ++ r) abs (scope_wire code scope ++ r) =
    Ok (RawBsonRef_JavaScriptScope code scope, r).
Proof.
  intros Hc Hs Hl Ha. unfold parse_scope.
  assert (len (scope_wire code scope) = 4 + len (string_wire code) + len scope) as Hw.
  { unfold scope_wire. len_tac. }
  destruct (raw_ok_prefix scope Hs) as (sb & _ & Hsl).
  pose proof (len_nonneg r). pose proof (len_nonneg (string_wire code)).
  rewrite (len_app (scope_wire code scope)), Hw. zif.
  unfold scope_wire. rewrite <- !app_assoc.
  rewrite (slice_prefix (le_encode 4 _)) by done. cbn [bind]. unfold array_of at 1.
  rewrite len_le_encode. simpl (_ =? _). cbv iota. cbn [bind].
  rewrite u32_of_le_encode by (unfold in_u32; len_tac).
  rewrite slice_suffix by len_tac. cbn [bind].
  rewrite parses_read_str by (done || (unfold string_wire in *; len_tac)). cbn [bind].
  unfold remaining, usub. rewrite len_app. zif. cbn [bind].
  set (off := 4 + len (string_wire code) + len scope + len r - (len scope + len r)).
  assert (off = len (le_encode 4 (len (string_wire code ++ scope) + 4) ++ string_wire code)) as Ho.
  { unfold off. rewrite len_app, len_le_encode. lia. }
  assert (off = 4 + len (string_wire code)) as Ho' by (unfold off; lia). clearbody off.
  zif.
  pose proof (declared_len (E := BsonError) scope r Hs) as Hd.
  rewrite (app_assoc (le_encode 4 _) (string_wire code)).
  assert (slice ((le_encode 4 (len (string_wire code ++ scope) + 4) ++ string_wire code) ++ scope ++ r)
            off (off + 4) = @slice BsonError _ (scope ++ r) 0 4) as Hsl4.
  { rewrite !slice_Ok by len_tac. rewrite dropZ_app by done. rewrite dropZ_0 by done.
    f_equal. f_equal. lia. }
  rewrite Hsl4. destruct (slice (scope ++ r) 0 4) as [p| | |]; try done. cbn [bind] in Hd |- *.
  destruct (array_of 4 p) as [a| | |]; try done. cbn [bind] in Hd |- *. injection Hd as ->.
  unfold MIN_DOC_LEN. repeat zif.
  replace (slice (pre ++ _) (abs + off) (abs + off + len scope)) with (@Ok BsonError _ scope).
  2: { symmetry. rewrite <- (app_assoc (le_encode 4 _)), app_assoc, (app_assoc (pre ++ _)).
       apply slice_mid; len_tac. }
  cbn [bind]. rewrite RawDocument_from_bytes_ok by done. cbn [bind].
  replace (len (string_wire code ++ scope) + 4 =? off + len scope) with true by (rewrite len_app; lia).
  cbn [negb]. unfold bread, rmap_err.
  rewrite <- (app_assoc (le_encode 4 _)), (app_assoc (string_wire code)), (app_assoc (le_encode 4 _)).
  rewrite parses_read_bytes by len_tac. done.
Qed.

Lemma doc_len_Ok_inv rest abs l : doc_len rest abs = Ok l → 5 <= l <= len rest.
Proof. unfold doc_len, MIN_DOC_LEN. intros. inv_ok. zbool. lia. Qed.

Lemma slice_of_suffix {E} (pre rest s : bytes) abs n :
  abs = len pre → 0 <= n → @slice E _ (pre ++ rest) abs (abs + n) = Ok s →
  ∃ r, rest = s ++ r ∧ len s = n.
Proof.
  intros -> Hn H. pose proof (len_slice _ _ _ _ H) as Hlen.
  apply slice_Ok_inv in H as (_ & _ & H & ->). rewrite dropZ_app in * by done.
  rewrite len_app in H. exists (dropZ n rest).
  replace (len pre + n - len pre) with n in * by lia. by rewrite take_dropZ.
Qed.

Lemma parse_composite_Ok_inv tag pre rest abs v r : abs = len pre →
  parse_composite tag (pre ++ rest) abs rest = Ok (v, r) →
  ∃ d, rest = d ++ r ∧ raw_ok d ∧
       v = if tag =? TAG_DOCUMENT then RawBsonRef_Document d else RawBsonRef_Array d.
Proof.
  intros Ha. unfold parse_composite, bread. intros H. apply bind_Ok_inv in H as (l & Hl & H).
  apply bind_Ok_inv in H as (d & Hd & H). apply doc_len_Ok_inv in Hl.
  apply slice_of_suffix in Hd as (r0 & -> & Hd); [|done|lia].
  unfold rmap_err in H. rewrite parses_read_bytes in H by done. cbn [map_err bind] in H.
  unfold RawArray_from_bytes in H. exists d.
  destruct (tag =? TAG_DOCUMENT); inv_ok;
    apply RawDocument_from_bytes_Ok_inv in Hk as [-> Hk]; done.
Qed.

Lemma read_str_Ok_inv abs r s r' : read_str abs r = Ok (s, r') →
  r = string_wire s ++ r' ∧ valid_utf8 s = true ∧ len s + 1 <= u32_max.
Proof.
  rewrite (agrees_str abs TAG_STRING). intros. inv_ok. by apply parse_string_Ok_inv in Hk.
Qed.

Lemma read_prefix4 {E} (rest p a : bytes) : 4 <= len rest → @slice E _ rest 0 4 = Ok p →
  @array_of E 4 p = Ok a → ∃ t, rest = le_encode 4 (u32_of_le a) ++ t ∧ in_u32 (u32_of_le a).
Proof.
  intros Hl Hp [-> Ha]%array_of_Ok_inv. apply slice_Ok_inv in Hp as (_ & _ & _ & ->).
  exists (dropZ 4 rest). rewrite (dropZ_0 0) in * by done. unfold u32_of_le at 1.
  rewrite le_encode_decode_len by done. split; [|by apply u32_of_le_range].
  by rewrite take_dropZ.
Qed.

Lemma parse_scope_Ok_inv pre rest abs v r : abs = len pre →
  parse_scope (pre ++ rest) abs rest = Ok (v, r) →
  ∃ code scope, v = RawBsonRef_JavaScriptScope code scope ∧ rest = scope_wire code scope ++ r ∧
    valid_utf8 code = true ∧ raw_ok scope ∧ len (scope_wire code scope) <= u32_max.
Proof.
  intros Ha. unfold parse_scope, bread. intros H. inv_ok. zbool.
  edestruct (@read_prefix4 BsonError rest) as (t & Er & Ht); [done..|].
  clear Hk Hk4 Hk5. subst rest. rewrite slice_suffix in Hk0 by len_tac. inv_ok.
  apply read_str_Ok_inv in Hk2 as (-> & Hcode & _). rename l into code, l0 into cur.
  unfold remaining in Hk3. apply usub_Ok_inv in Hk3 as [_ Ho]. unfold MIN_DOC_LEN in *.
  set (tot := u32_of_le a0) in *. set (l := u32_of_le a4) in *. clearbody tot l.
  rename a2 into off.
  replace (_ - len cur) with (len (le_encode 4 tot ++ string_wire code)) in Ho by len_tac.
  rewrite (app_assoc (le_encode 4 tot)) in *. rewrite (app_assoc pre) in *.
  rewrite <- Z.add_assoc in Hk6.
  rewrite (Z.add_assoc (len pre)) in Hk6. apply slice_of_suffix in Hk6 as (r' & -> & Hlen); [|len_tac..].
  apply RawDocument_from_bytes_Ok_inv in Hk7 as [-> Hraw].
  inv_read. rewrite (app_assoc _ a5 r') in *. rewrite parses_read_bytes in Hk8 by len_tac. inv_ok.
  exists code, a5.
  assert (tot = len (string_wire code ++ a5) + 4) as -> by len_tac.
  unfold scope_wire. rewrite <- !app_assoc. repeat split; try done.
  unfold in_u32 in Ht. len_tac.
Qed.

Lemma tag_of_not_composite s : is_composite (tag_of s) = false.
Proof. by destruct s. Qed.

(** [parse_value] recognises exactly the encodings of raw values. *)
Lemma parse_value_arm_iff tag pre rest abs v r : abs = len pre →
  parse_value_arm tag (pre ++ rest) abs rest = Ok (v, r) ↔
  ∃ w, rest = w ++ r ∧ raw_encodes tag v w.
Proof.
  intros Ha. split.
  - intros H. destruct (is_composite tag) eqn:Hc.
    + unfold is_composite in Hc. unfold parse_value_arm in H.
      destruct ((tag =? TAG_DOCUMENT) || (tag =? TAG_ARRAY)) eqn:Hda.
      * apply parse_composite_Ok_inv in H as (d & -> & Hd & ->); [|done].
        exists d. split; [done|]. destruct (Z.eqb_spec tag TAG_DOCUMENT) as [->|Hn].
        -- by constructor.
        -- cbn [orb] in Hda. zbool. by constructor.
      * cbn [orb] in Hc. rewrite Hc in H. zbool.
        apply parse_scope_Ok_inv in H as (code & scope & -> & -> & ? & ? & ?); [|done].
        eexists. split; [done|]. by constructor.
    + rewrite agrees_scalar in H by done. inv_ok.
      apply parse_scalar_arm_Ok_inv in Hk as (<- & -> & ? & ?).
      eexists. split; [done|]. by constructor.
  - intros (w & -> & Hw). destruct Hw as [s -> Hok Hf|d -> Hd|a -> Hd|code scope -> Hc Hs Hl].
    + rewrite agrees_scalar by apply tag_of_not_composite. by rewrite parses_scalar.
    + apply (parse_composite_ok TAG_DOCUMENT); done.
    + apply (parse_composite_ok TAG_ARRAY); done.
    + by apply parse_scope_ok.
Qed.

Lemma parse_value_iff tag pre rest abs v n : abs = len pre →
  parse_value tag rest (pre ++ rest) abs = Ok (v, n) ↔
  ∃ w r, rest = w ++ r ∧ raw_encodes tag v w ∧ n = len w.
Proof.
  intros Ha. unfold parse_value, remaining. split.
  - intros H. apply bind_Ok_inv in H as ([v' r] & H1 & H2).
    apply bind_Ok_inv in H2 as (c & H2 & H3). injection H3 as -> ->.
    apply parse_value_arm_iff in H1 as (w & -> & Hw); [|done].
    apply usub_Ok_inv in H2 as [_ ->]. exists w, r. rewrite len_app. repeat split; auto. lia.
  - intros (w & r & -> & Hw & ->).
    assert (parse_value_arm tag (pre ++ w ++ r) abs (w ++ r) = Ok (v, r)) as ->.
    { apply parse_value_arm_iff; eauto. }
    cbn [bind]. by rewrite usub_app_r.
Qed.

(** *** It returns on every input *)

Lemma returns_array_of4 {E} rest a b s : @slice E _ rest a b = Ok s → b = a + 4 →
  returns (@array_of E 4 s).
Proof.
  intros H ->. apply len_slice in H. unfold array_of.
  replace (len s =? 4) with true by lia. done.
Qed.
Lemma returns_slice {E A} (l : list A) a b : 0 <= a → a <= b → b <= len l →
  returns (@slice E A l a b).
Proof. intros. by rewrite slice_Ok. Qed.
Lemma returns_doc_len rest abs : returns (doc_len rest abs).
Proof.
  unfold doc_len. case_match; [done|]. zbool.
  apply returns_bind; [apply returns_slice; lia|]. intros p Hp.
  apply returns_bind; [by eapply returns_array_of4|]. intros a Ha. by repeat case_match.
Qed.
Lemma returns_read_str abs : reader_returns (read_str abs).
Proof. unfold read_str, bread. returns_tac. Qed.

Lemma returns_parse_composite tag pre rest abs : abs = len pre →
  returns (parse_composite tag (pre ++ rest) abs rest).
Proof.
  intros Ha. unfold parse_composite, bread, RawArray_from_bytes.
  apply returns_bind; [apply returns_doc_len|]. intros l Hl. apply doc_len_Ok_inv in Hl.
  apply returns_bind; [apply returns_slice; len_tac|]. intros d _. returns_tac.
Qed.
Lemma returns_parse_scope pre rest abs : abs = len pre →
  returns (parse_scope (pre ++ rest) abs rest).
Proof.
  intros Ha. unfold parse_scope. case_match eqn:Hl; [done|]. zbool.
  apply returns_bind; [apply returns_slice; lia|]. intros p Hp.
  apply returns_bind; [by eapply returns_array_of4|]. intros a Hpa.
  apply returns_bind; [apply returns_slice; lia|]. intros cur Hcur.
  apply returns_bind; [apply returns_read_str|]. intros [code cur'] Hs.
  apply read_str_Ok_inv in Hs as (-> & _). apply len_slice in Hcur. rewrite len_app in Hcur.
  pose proof (len_nonneg (string_wire code)). pose proof (len_nonneg cur').
  unfold remaining. rewrite usub_Ok by lia. cbn [bind]. case_match eqn:Hl4; [done|]. zbool.
  apply returns_bind; [apply returns_slice; lia|]. intros p' Hp'.
  apply returns_bind; [by eapply returns_array_of4|]. intros a' Ha'.
  case_match eqn:Hm; [done|]. case_match eqn:Hr; [done|]. unfold MIN_DOC_LEN in Hm. zbool.
  apply returns_bind; [apply returns_slice; len_tac|]. intros d _.
  unfold bread. returns_tac.
Qed.
Lemma returns_parse_value tag pre rest abs : abs = len pre →
  returns (parse_value tag rest (pre ++ rest) abs).
Proof.
  intros Ha. unfold parse_value. apply returns_bind.
  - destruct (is_composite tag) eqn:Hc.
    + unfold is_composite in Hc. unfold parse_value_arm.
      destruct ((tag =? TAG_DOCUMENT) || (tag =? TAG_ARRAY)); [by apply returns_parse_composite|].
      cbn [orb] in Hc. rewrite Hc. by apply returns_parse_scope.
    + rewrite agrees_scalar by done. pose proof (returns_parse_scalar_arm tag rest).
      destruct (parse_scalar_arm tag rest) as [[s r]| | |]; done.
  - intros [v r] H. apply parse_value_arm_iff in H as (w & -> & _); [|done].
    unfold remaining. rewrite usub_Ok; [done|]. len_tac.
Qed.

(** ** The scanner walks a field list *)

(** The scanner over [parent] stands before [rest]. *)
Definition scanner_at (parent rest : bytes) (s : Scanner) : Prop :=
  sc_parent s = parent ∧ sc_body s = dropZ 4 parent ∧
  ∃ pre, parent = pre ++ rest ∧ len pre = 4 + sc_offset s ∧ 0 <= sc_offset s.

Definition raw_field (tag : byte) (name : str) (w : bytes) : bytes :=
  tag :: (name ++ [x00]) ++ w.
Definition name_ok (name : str) : Prop := valid_utf8 name = true ∧ has_nul name = false.

(** [rest] is a sequence of raw fields closed by the terminating NUL. *)
Inductive scans : bytes → list (str * RawBsonRef) → Prop :=
| scans_nil : scans [x00] []
| scans_cons tag name v w rest l :
    u8 tag ≠ 0 → name_ok name → raw_encodes (u8 tag) v w → scans rest l →
    scans (raw_field tag name w ++ rest) ((name, v) :: l).

Lemma scanner_at_body parent rest s : scanner_at parent rest s →
  ∃ bpre, sc_body s = bpre ++ rest ∧ len bpre = sc_offset s.
Proof.
  intros (_ & Hb & pre & -> & Hl & Ho). exists (dropZ 4 pre).
  rewrite Hb, dropZ_app_le, len_dropZ by lia. split; [done|]. lia.
Qed.

Lemma scanner_at_advance parent rest s w rest' n :
  scanner_at parent rest s → rest = w ++ rest' → n = sc_offset s + len w →
  scanner_at parent rest' (mkScanner (sc_parent s) (sc_body s) n).
Proof.
  intros (Hp & Hb & pre & -> & Hl & Ho) -> ->. repeat split; [done..|].
  exists (pre ++ w). rewrite <- app_assoc, len_app. simpl. pose proof (len_nonneg w).
  repeat split; lia.
Qed.

Lemma Scanner_new_at doc : 4 <= len doc → scanner_at doc (dropZ 4 doc) (Scanner_new doc).
Proof.
  intros. unfold Scanner_new. zif. repeat split; [done..|]. exists (takeZ 4 doc).
  rewrite take_dropZ, len_takeZ by lia. done.
Qed.

Lemma scanner_end parent s : scanner_at parent [x00] s → Scanner_next s = Ok (None, s).
Proof.
  intros H. destruct (scanner_at_body _ _ _ H) as (bpre & Hb & Hl).
  unfold Scanner_next. rewrite Hb, <- Hl, get_app_r. simpl (u8 x00 =? 0). cbv iota.
  rewrite len_app. rewrite Z.eqb_refl. done.
Qed.

(** One step at a non-terminator byte, with the reads named. *)
Lemma Scanner_next_cons parent tag t s : scanner_at parent (tag :: t) s → u8 tag ≠ 0 →
  Scanner_next s =
    (let* rel := ok_or (position is_nul t)
                   (BsonError_ShortInput (len (sc_body s) + 1) (len (sc_body s))) in
     let* name := map_err BsonError_Utf8 (from_utf8 (takeZ rel t)) in
     let offset := sc_offset s + 1 + rel + 1 in
     let* '(value, consumed) :=
       parse_value (u8 tag) (dropZ (rel + 1) t) parent (4 + offset) in
     Ok (Some (name, value), mkScanner (sc_parent s) (sc_body s) (offset + consumed))).
Proof.
  intros H Ht. destruct (scanner_at_body _ _ _ H) as (bpre & Hb & Hl).
  unfold Scanner_next. rewrite Hb, <- Hl, get_app_r.
  replace (u8 tag =? 0) with false by lia. rewrite (cons_middle tag bpre t), app_assoc.
  rewrite slice_suffix by len_tac. cbn [bind].
  destruct (position is_nul t) as [rel|] eqn:Hrel; cbn [ok_or bind]; [|done].
  apply position_range in Hrel. rewrite slice_Ok by len_tac.
  replace (len bpre + 1 + rel - (len bpre + 1)) with rel by lia.
  rewrite dropZ_app by len_tac. cbn [bind].
  destruct (from_utf8 _); cbn [map_err bind]; try done.
  rewrite slice_Ok by len_tac. cbn [bind]. destruct H as (-> & _).
  replace (len bpre + 1 + rel + 1) with (len (bpre ++ [tag]) + (rel + 1)) by len_tac.
  rewrite <- dropZ_dropZ by len_tac. rewrite dropZ_app by done. rewrite takeZ_all.
  2: { rewrite len_dropZ; len_tac. }
  done.
Qed.

Lemma scanner_field parent tag name v w rest s :
  scanner_at parent (raw_field tag name w ++ rest) s →
  u8 tag ≠ 0 → name_ok name → raw_encodes (u8 tag) v w →
  ∃ s', Scanner_next s = Ok (Some (name, v), s') ∧ scanner_at parent rest s'.
Proof.
  intros H Ht [Hu Hn] Hw. pose proof H as (_ & _ & pre & Ep & Hl & Ho).
  assert (raw_field tag name w ++ rest = tag :: (name ++ [x00]) ++ w ++ rest) as Er.
  { unfold raw_field. simpl. by rewrite <- (app_assoc _ w). }
  rewrite Er in Ep, H. rewrite (Scanner_next_cons parent tag _ _ H Ht).
  rewrite <- app_assoc. cbn [app]. rewrite position_app by (done || by apply has_nul_false).
  cbn [ok_or bind]. rewrite takeZ_app by done. rewrite from_utf8_valid by done. cbn [map_err bind].
  replace (dropZ (len name + 1) (name ++ x00 :: w ++ rest)) with (w ++ rest).
  2: { rewrite (cons_middle x00 name), app_assoc. rewrite dropZ_app; [done|len_tac]. }
  set (off := 4 + (sc_offset s + 1 + len name + 1)).
  assert (parse_value (u8 tag) (w ++ rest) parent off = Ok (v, len w)) as ->.
  { replace parent with ((pre ++ tag :: name ++ [x00]) ++ w ++ rest) by
      (rewrite Ep, <- !app_assoc; simpl; by rewrite <- !app_assoc).
    apply parse_value_iff; [unfold off; len_tac|]. eauto. }
  cbn [bind]. eexists. split; [done|].
  eapply scanner_at_advance; [exact H|rewrite <- Er; done|]. unfold raw_field. len_tac.
Qed.

Lemma Scanner_next_inv parent rest s item s' : scanner_at parent rest s →
  Scanner_next s = Ok (item, s') →
  (item = None ∧ rest = [x00]) ∨
  (∃ tag name v w rest', item = Some (name, v) ∧ rest = raw_field tag name w ++ rest' ∧
     u8 tag ≠ 0 ∧ name_ok name ∧ raw_encodes (u8 tag) v w ∧ scanner_at parent rest' s').
Proof.
  intros Hat H. destruct (scanner_at_body _ _ _ Hat) as (bpre & Hb & Hl).
  destruct rest as [|tag t].
  { unfold Scanner_next in H. rewrite app_nil_r in Hb. subst bpre.
    destruct (get (sc_body s) (sc_offset s)) eqn:E; [|done]. apply get_Some_lt in E. lia. }
  destruct (Z.eqb_spec (u8 tag) 0) as [E|Ht].
  - unfold Scanner_next in H. rewrite Hb, <- Hl, get_app_r, E in H. simpl (0 =? 0) in H. cbv iota in H.
    inv_ok. zbool. left. split; [done|]. rewrite len_app, len_cons in *.
    assert (t = []) as -> by (apply len_nil_inv; lia). f_equal. apply is_nul_x00. unfold is_nul. lia.
  - right. rewrite (Scanner_next_cons parent tag t) in H by done. cbv zeta in H. inv_ok.
    apply position_Some in Hk as (name & x & t' & -> & <- & Hx%is_nul_x00 & Hnn). subst x.
    rewrite takeZ_app in Hk1 by done. apply from_utf8_Ok_inv in Hk1 as [-> Hu].
    rewrite (cons_middle x00 name), app_assoc, dropZ_app in Hk0 by len_tac.
    pose proof Hat as (_ & _ & pre & Ep & Hpre & Ho).
    assert (parent = (pre ++ tag :: name ++ [x00]) ++ t') as Ep'.
    { rewrite Ep, <- app_assoc. simpl. by rewrite <- app_assoc. }
    rewrite Ep' in Hk0. apply parse_value_iff in Hk0 as (w & rest' & -> & Hw & ->); [|len_tac].
    exists tag, name, r, w, rest'. unfold raw_field.
    assert (tag :: name ++ x00 :: w ++ rest' = (tag :: (name ++ [x00]) ++ w) ++ rest') as E.
    { simpl. by rewrite <- !app_assoc. }
    split_and!; [done|exact E|done|split; [done|by apply has_nul_false]|done|].
    eapply scanner_at_advance; [exact Hat|exact E|]. len_tac.
Qed.

Lemma returns_Scanner_next parent rest s : scanner_at parent rest s → returns (Scanner_next s).
Proof.
  intros Hat. destruct (scanner_at_body _ _ _ Hat) as (bpre & Hb & Hl).
  destruct rest as [|tag t].
  { unfold Scanner_next. destruct (get _ _) eqn:E; [|done]. apply get_Some_lt in E.
    rewrite app_nil_r in Hb. subst. lia. }
  destruct (Z.eqb_spec (u8 tag) 0) as [E|Ht].
  - unfold Scanner_next. rewrite Hb, <- Hl, get_app_r, E. simpl (0 =? 0). cbv iota. by case_match.
  - rewrite (Scanner_next_cons parent tag t) by done. apply returns_bind; [apply returns_ok_or|].
    intros rel Hrel%ok_or_Ok_inv. apply returns_bind; [apply returns_map_err, returns_from_utf8|].
    intros name _. apply returns_bind; [|by intros [? ?] _].
    pose proof Hat as (_ & _ & pre & -> & Hpre & Ho). apply position_range in Hrel.
    rewrite <- (take_dropZ (rel + 1) t) at 2.
    rewrite (cons_middle tag pre), (app_assoc pre), (app_assoc (pre ++ _)).
    apply returns_parse_value. len_tac. rewrite len_takeZ; lia.
Qed.

Section Loops.
Variable D : bytes → Mode → Z → outcome BsonError Document.
Variable A : bytes → Mode → Z → outcome BsonError Array.

(** Materialize the members of a scanned list in order. *)
Fixpoint collect (f : RawBsonRef → outcome BsonError Bson) (l : list (str * RawBsonRef))
  : outcome BsonError (list (str * Bson)) :=
  match l with
  | [] => Ok []
  | (name, raw) :: t =>
      let* value := f raw in let* rest := collect f t in Ok ((name, value) :: rest)
  end.

Lemma scans_length rest l : scans rest l → (length l < length rest)%nat.
Proof.
  induction 1; [simpl; lia|]. unfold raw_field. simpl. rewrite !length_app. lia.
Qed.

Lemma fields_loop_scans parent rest l mode depth :
  scans rest l → ∀ s fuel, scanner_at parent rest s → (length l < fuel)%nat →
  fields_loop D A fuel mode depth s = collect (λ raw, materialize_with D A raw mode depth) l.
Proof.
  induction 1 as [|tag name v w rest l Ht Hn Hw Hs IH]; intros s fuel Hat Hf;
    (destruct fuel as [|fuel]; [simpl in Hf; lia|]); cbn [fields_loop collect].
  - by rewrite (scanner_end _ _ Hat).
  - destruct (scanner_field _ _ _ _ _ _ _ Hat Ht Hn Hw) as (s' & -> & Hat'). cbn [bind].
    apply bind_ext. intros x _. rewrite IH by (done || (simpl in Hf; lia)). done.
Qed.
Lemma values_loop_fields mode depth fuel : ∀ s,
  values_loop D A fuel mode depth s =
    let* l := fields_loop D A fuel mode depth s in Ok (snd <$> l).
Proof.
  induction fuel as [|fuel IH]; intros s; cbn [fields_loop values_loop]; [done|].
  destruct (Scanner_next s) as [[[[n raw]|] s']| | |]; cbn [bind]; try done.
  destruct (materialize_with D A raw mode depth); cbn [bind]; try done.
  rewrite IH. by destruct (fields_loop D A fuel mode depth s').
Qed.

Lemma fields_loop_Ok_scans parent mode depth fuel : ∀ rest s d,
  scanner_at parent rest s → fields_loop D A fuel mode depth s = Ok d →
  ∃ l, scans rest l ∧ collect (λ raw, materialize_with D A raw mode depth) l = Ok d.
Proof.
  induction fuel as [|fuel IH]; intros rest s d Hat H; cbn [fields_loop] in H; [done|].
  apply bind_Ok_inv in H as ([item s'] & H1 & H2).
  destruct (Scanner_next_inv _ _ _ _ _ Hat H1)
    as [[-> ->]|(tag & name & v & w & rest' & -> & -> & Ht & Hn & Hw & Hat')].
  - exists []. inv_ok. split; [constructor|done].
  - apply bind_Ok_inv in H2 as (x & Hx & H2). apply bind_Ok_inv in H2 as (t & Hd & H2).
    inv_ok. destruct (IH _ _ _ Hat' Hd) as (l & Hl & Hc).
    exists ((name, v) :: l). split; [by constructor|]. cbn [collect]. by rewrite Hx, Hc.
Qed.

Lemma returns_fields_loop parent mode depth fuel : ∀ rest s,
  scanner_at parent rest s → (length rest < fuel)%nat →
  (∀ raw, returns (materialize_with D A raw mode depth)) →
  returns (fields_loop D A fuel mode depth s).
Proof.
  induction fuel as [|fuel IH]; intros rest s Hat Hf Hm; cbn [fields_loop]; [lia|].
  apply returns_bind; [by eapply returns_Scanner_next|]. intros [item s'] H.
  destruct (Scanner_next_inv _ _ _ _ _ Hat H)
    as [[-> ->]|(tag & name & v & w & rest' & -> & -> & _ & _ & _ & Hat')]; [done|].
  apply returns_bind; [done|]. intros x _.
  apply returns_bind; [|done]. apply (IH _ _ Hat'); [|done].
  unfold raw_field in Hf. simpl in Hf. rewrite !length_app in Hf. lia.
Qed.
End Loops.

(** ** Well-formed values and their nesting *)

(** What the Rust types and raw wrappers guarantee, plus NUL-free names. *)
Fixpoint value_ok (v : Bson) : Prop :=
  match v with
  | Bson_Document fs => foldr (λ f P, name_ok f.1 ∧ value_ok f.2 ∧ P) True fs
  | Bson_Array vs => foldr (λ x P, value_ok x ∧ P) True vs
  | Bson_JavaScriptScope code scope => valid_utf8 code = true ∧ raw_ok scope
  | other => match Bson_as_scalar other with Some s => scalar_ok s ∧ scalar_fits s | None => True end
  end.
Definition fields_ok (fs : list (str * Bson)) : Prop :=
  Forall (λ f, name_ok f.1 ∧ value_ok f.2) fs.

Lemma value_ok_document fs : value_ok (Bson_Document fs) ↔ fields_ok fs.
Proof.
  unfold fields_ok. cbn [value_ok]. induction fs as [|f fs IH]; simpl.
  - split; [by constructor|done].
  - rewrite Forall_cons, <- IH. tauto.
Qed.
Lemma value_ok_array vs : value_ok (Bson_Array vs) ↔ Forall value_ok vs.
Proof.
  cbn [value_ok]. induction vs as [|v vs IH]; simpl.
  - split; [by constructor|done].
  - rewrite Forall_cons, <- IH. done.
Qed.

(** The number of nested composites along the deepest path. *)
Fixpoint nesting (v : Bson) : Z :=
  match v with
  | Bson_Document fs => 1 + foldr (λ f m, Z.max (nesting f.2) m) 0 fs
  | Bson_Array vs => 1 + foldr (λ x m, Z.max (nesting x) m) 0 vs
  | _ => 0
  end.
Definition document_nesting (d : Document) : Z := nesting (Bson_Document d).

(** The raw reference the scanner yields for an encoded value. *)
Definition raw_of (v : Bson) : RawBsonRef :=
  match v with
  | Bson_Document d => RawBsonRef_Document (document_wire d)
  | Bson_Array a => RawBsonRef_Array (array_wire a)
  | Bson_JavaScriptScope code scope => RawBsonRef_JavaScriptScope code scope
  | other => match Bson_as_scalar other with Some s => raw_of_scalar s | None => RawBsonRef_Null end
  end.

Lemma raw_ok_doc_frame body : len (doc_frame body) <= u32_max → raw_ok (doc_frame body).
Proof. rewrite len_doc_frame. intros. apply raw_ok_frame. eauto. Qed.

Lemma raw_of_encodes v : value_ok v → len (value_wire v) <= u32_max →
  raw_encodes (Bson_tag v) (raw_of v) (value_wire v).
Proof.
  destruct v; intros Hok Hl;
    first [ apply (raw_encodes_scalar _ _ eq_refl); apply Hok
          | constructor; [done|apply raw_ok_doc_frame, Hl]
          | destruct Hok as [? ?]; by constructor ].
Qed.

Lemma tag_byte v : u8 (of_u8 (Bson_tag v)) = Bson_tag v ∧ Bson_tag v ≠ 0.
Proof. by destruct v. Qed.

Lemma scans_field name v rest l : name_ok name → value_ok v → len (value_wire v) <= u32_max →
  scans rest l → scans (field_wire_with value_wire name v ++ rest) ((name, raw_of v) :: l).
Proof.
  intros Hn Hv Hl Hs. destruct (tag_byte v) as [Et Hz].
  apply (scans_cons (of_u8 (Bson_tag v))); rewrite ?Et; [done..| |done].
  by apply raw_of_encodes.
Qed.

Lemma scans_fields fs : fields_ok fs → len (fields_wire fs) <= u32_max →
  scans (fields_wire fs ++ [x00]) ((λ f, (f.1, raw_of f.2)) <$> fs).
Proof.
  unfold fields_wire. induction 1 as [|[n v] fs [Hn Hv] _ IH]; intros Hl;
    cbn [fields_wire_with fmap list_fmap] in *; [constructor|].
  rewrite <- app_assoc. unfold field_wire_with in Hl. simpl in *. len_tac.
  apply scans_field; [done..|lia|]. apply IH. lia.
Qed.
Lemma name_ok_dec n : name_ok (dec_bytes n).
Proof.
  split; [|apply has_nul_dec_bytes]. apply valid_utf8_ascii.
  eapply Forall_impl; [apply dec_bytes_digits|]. simpl. lia.
Qed.
Lemma scans_values vs : Forall value_ok vs → ∀ i, len (values_wire i vs) <= u32_max →
  ∃ l, scans (values_wire i vs ++ [x00]) l ∧ snd <$> l = raw_of <$> vs.
Proof.
  unfold values_wire. induction 1 as [|v vs Hv _ IH]; intros i Hl;
    cbn [values_wire_with fmap list_fmap] in *; [exists []; by repeat constructor|].
  unfold field_wire_with at 1 in Hl. simpl in Hl. len_tac.
  destruct (IH (i + 1)) as (l & Hs & El); [lia|].
  exists ((dec_bytes i, raw_of v) :: l). rewrite <- app_assoc. split.
  - apply scans_field; [apply name_ok_dec|done|lia|done].
  - simpl. by f_equal.
Qed.
