(* ===== verification/BsonRoundtrip.v ===== *)
(** * Decoding against encoding: totality, round trips and the depth guard of
    [wirebson/src/decode.rs] and [encode.rs]. *)
From stdpp Require Import base list numbers strings.
From Stdlib Require Import ZArith Lia.
From S2P Require Import Prelude Utf8 Io Consts BsonScalar BsonValue BsonEncode BsonDecode.
Local Open Scope Z_scope.

(** ** The decoders return *)

Lemma returns_to_bson_scalar s f g : returns (to_bson_with f g (raw_of_scalar s)).
Proof. by destruct s. Qed.

Lemma short_scanner_err D A b fuel mode depth : len b < 4 →
  ∃ e, fields_loop D A (S fuel) mode depth (Scanner_new b) = Err e.
Proof.
  intros H. unfold Scanner_new. zif. cbn [fields_loop]. unfold Scanner_next. simpl. eauto.
Qed.

(** Decoding at [depth] with gas for the levels left below the limit. *)
Definition gas_ok (gas : nat) (depth : Z) : Prop :=
  1 <= depth <= MAX_NESTING_DEPTH + 1 ∧ MAX_NESTING_DEPTH + 2 - depth <= Z.of_nat gas.

Lemma gas_ok_S gas depth : gas_ok (S gas) depth → depth <= MAX_NESTING_DEPTH →
  gas_ok gas (depth + 1).
Proof. unfold gas_ok. lia. Qed.
Lemma gas_ok_pos gas depth : gas_ok gas depth → ∃ g, gas = S g.
Proof. unfold gas_ok, MAX_NESTING_DEPTH. destruct gas; [lia|eauto]. Qed.
Lemma gas_ok_top : gas_ok decode_gas 1.
Proof. unfold gas_ok, decode_gas, MAX_NESTING_DEPTH. lia. Qed.

(** Beyond the gas of depth 1 the unreachable composite arms still return. *)
Lemma materialize_scalar D A mode depth v :
  (∀ d, v ≠ RawBsonRef_Document d) → (∀ a, v ≠ RawBsonRef_Array a) →
  materialize_with D A v mode depth = to_bson_with (λ _, Fuel) (λ _, Fuel) v.
Proof. intros Hd Ha. destruct v; destruct mode; naive_solver. Qed.

Lemma returns_scan D A b mode depth :
  (∀ raw, returns (materialize_with D A raw mode depth)) →
  returns (fields_loop D A (scan_fuel b) mode depth (Scanner_new b)).
Proof.
  intros Hm. destruct (decide (len b < 4)) as [Hs|Hl].
  - destruct (short_scanner_err D A b (length b) mode depth Hs) as [e He].
    unfold scan_fuel. by rewrite He.
  - eapply returns_fields_loop; [apply Scanner_new_at; lia| |done].
    unfold scan_fuel, dropZ. rewrite length_drop. lia.
Qed.

Lemma returns_decode gas : ∀ b mode depth, gas_ok gas depth →
  returns (decode_fields gas b mode depth) ∧ returns (decode_array gas b mode depth).
Proof.
  induction gas as [|gas IH]; intros b mode depth Hg;
    [destruct (gas_ok_pos _ _ Hg); done|].
  cbn [decode_fields decode_array]. destruct (MAX_NESTING_DEPTH <? depth) eqn:E; [done|]. zbool.
  assert (∀ raw, returns (materialize_with (decode_fields gas) (decode_array gas) raw mode depth)) as Hm.
  { intros raw. pose proof (gas_ok_S _ _ Hg E) as Hg'. destruct raw; destruct mode; simpl; try done;
      (apply returns_bind; [apply IH, Hg'|done]). }
  split; [by apply returns_scan|]. rewrite values_loop_fields.
  apply returns_bind; [by apply returns_scan|done].
Qed.

(** ** Decoding an encoded value *)

Lemma collect_fields (m : RawBsonRef → outcome BsonError Bson) (c : Bson → bool) e fs :
  Forall (λ f, m (raw_of f.2) = if c f.2 then Ok f.2 else Err e) fs →
  collect m ((λ f : str * Bson, (f.1, raw_of f.2)) <$> fs) =
    if forallb (λ f, c f.2) fs then Ok fs else Err e.
Proof.
  induction 1 as [|[n v] fs Hv _ IH]; [done|]. rewrite fmap_cons.
  cbn [collect forallb fst snd] in *. rewrite Hv.
  destruct (c v); cbn [bind andb]; [|done]. rewrite IH. by destruct (forallb _ fs).
Qed.
Lemma collect_values (m : RawBsonRef → outcome BsonError Bson) (c : Bson → bool) e vs :
  Forall (λ v, m (raw_of v) = if c v then Ok v else Err e) vs →
  ∀ l, snd <$> l = raw_of <$> vs →
  (let* l := collect m l in Ok (snd <$> l)) = if forallb c vs then Ok vs else Err e.
Proof.
  induction 1 as [|v vs Hv _ IH]; intros l El; destruct l as [|[n raw] l]; try done.
  rewrite !fmap_cons in El. injection El as -> El. cbn [collect forallb]. rewrite Hv.
  destruct (c v); cbn [bind andb]; [|done]. specialize (IH l El).
  destruct (collect m l); cbn [bind] in *; destruct (forallb c vs); try done.
  injection IH as <-. done.
Qed.

(** [depth + nesting] against the limit, member by member. *)
Lemma nesting_members {X} (f : X → Z) depth l : depth <= MAX_NESTING_DEPTH →
  forallb (λ x, depth + f x <=? MAX_NESTING_DEPTH) l =
  (depth + foldr (λ x m, Z.max (f x) m) 0 l <=? MAX_NESTING_DEPTH).
Proof.
  intros Hd. induction l as [|x l IH]; simpl; [symmetry; lia|]. rewrite IH. lia.
Qed.

Lemma dropZ4_frame body : dropZ 4 (doc_frame body) = body ++ [x00].
Proof. unfold doc_frame. by apply dropZ_app. Qed.
Lemma scanner_frame body :
  scanner_at (doc_frame body) (body ++ [x00]) (Scanner_new (doc_frame body)).
Proof.
  rewrite <- dropZ4_frame. apply Scanner_new_at. rewrite len_doc_frame. len_tac.
Qed.

Lemma loop_frame D A body mode depth l : scans (body ++ [x00]) l →
  fields_loop D A (scan_fuel (doc_frame body)) mode depth (Scanner_new (doc_frame body)) =
  collect (λ raw, materialize_with D A raw mode depth) l.
Proof.
  intros Hs. eapply fields_loop_scans; [done|apply scanner_frame|].
  apply scans_length in Hs. unfold scan_fuel, doc_frame. rewrite !length_app in *. lia.
Qed.

Definition too_deep {A} : outcome BsonError A := Err (BsonError_NestedTooDeep MAX_NESTING_DEPTH).

Lemma materialize_document D A d mode depth :
  materialize_with D A (RawBsonRef_Document d) mode depth =
    let* d := D d mode (depth + 1) in Ok (Bson_Document d).
Proof. done. Qed.
Lemma materialize_array D A a mode depth :
  materialize_with D A (RawBsonRef_Array a) mode depth =
    let* a := A a mode (depth + 1) in Ok (Bson_Array a).
Proof. done. Qed.

(** What a decoder does on the frame of well-formed members. *)
Lemma decode_fields_wire gas fs mode depth : gas_ok gas depth →
  fields_ok fs → len (document_wire fs) <= u32_max →
  (∀ gas', gas_ok gas' (depth + 1) → depth <= MAX_NESTING_DEPTH →
     Forall (λ f, materialize_with (decode_fields gas') (decode_array gas') (raw_of f.2) mode depth =
       if depth + nesting f.2 <=? MAX_NESTING_DEPTH then Ok f.2 else too_deep) fs) →
  decode_fields gas (document_wire fs) mode depth =
    if depth - 1 + document_nesting fs <=? MAX_NESTING_DEPTH then Ok fs else too_deep.
Proof.
  intros Hg Hok Hl IH. destruct (gas_ok_pos _ _ Hg) as [g ->]. cbn [decode_fields].
  unfold document_nesting. cbn [nesting].
  replace (depth - 1 + (1 + _)) with (depth + foldr (λ f m, Z.max (nesting f.2) m) 0 fs) by lia.
  destruct (MAX_NESTING_DEPTH <? depth) eqn:E; zbool.
  { assert (0 <= foldr (λ (f : str * Bson) m, Z.max (nesting f.2) m) 0 fs) by
      (clear; induction fs; simpl; lia). by zif. }
  rewrite <- (nesting_members (λ f : str * Bson, nesting f.2)) by done.
  unfold document_wire in *. rewrite len_doc_frame in Hl.
  erewrite loop_frame by (apply scans_fields; [done|lia]).
  apply (collect_fields _ (λ v, depth + nesting v <=? MAX_NESTING_DEPTH)).
  apply IH; [|done]. by apply gas_ok_S.
Qed.
Lemma decode_array_wire gas vs mode depth : gas_ok gas depth →
  Forall value_ok vs → len (array_wire vs) <= u32_max →
  (∀ gas', gas_ok gas' (depth + 1) → depth <= MAX_NESTING_DEPTH →
     Forall (λ v, materialize_with (decode_fields gas') (decode_array gas') (raw_of v) mode depth =
       if depth + nesting v <=? MAX_NESTING_DEPTH then Ok v else too_deep) vs) →
  decode_array gas (array_wire vs) mode depth =
    if depth - 1 + nesting (Bson_Array vs) <=? MAX_NESTING_DEPTH then Ok vs else too_deep.
Proof.
  intros Hg Hok Hl IH. destruct (gas_ok_pos _ _ Hg) as [g ->]. cbn [decode_array nesting].
  replace (depth - 1 + (1 + _)) with (depth + foldr (λ v m, Z.max (nesting v) m) 0 vs) by lia.
  destruct (MAX_NESTING_DEPTH <? depth) eqn:E; zbool.
  { assert (0 <= foldr (λ v m, Z.max (nesting v) m) 0 vs) by
      (clear; induction vs; simpl; lia). by zif. }
  rewrite <- (nesting_members nesting) by done. rewrite values_loop_fields.
  unfold array_wire in *. rewrite len_doc_frame in Hl.
  destruct (scans_values vs Hok 0) as (l & Hs & El); [lia|].
  rewrite (loop_frame _ _ _ _ _ _ Hs).
  apply (collect_values _ (λ v, depth + nesting v <=? MAX_NESTING_DEPTH)); [|done].
  apply IH; [|done]. by apply gas_ok_S.
Qed.

Lemma field_wire_len fs f : f ∈ fs → len (value_wire f.2) <= len (fields_wire fs).
Proof.
  unfold fields_wire. induction 1 as [[n v] fs|f [n v] fs _ IH]; cbn [fields_wire_with];
    unfold field_wire_with; simpl; len_tac.
Qed.
Lemma value_wire_len vs v : v ∈ vs → ∀ i, len (value_wire v) <= len (values_wire i vs).
Proof.
  unfold values_wire. induction 1 as [v vs|v x vs _ IH]; intros i; cbn [values_wire_with];
    unfold field_wire_with at 1; simpl; len_tac. specialize (IH (i + 1)). lia.
Qed.

Lemma materialize_wire v : value_ok v → len (value_wire v) <= u32_max →
  ∀ gas mode depth, gas_ok gas (depth + 1) → 1 <= depth <= MAX_NESTING_DEPTH →
  materialize_with (decode_fields gas) (decode_array gas) (raw_of v) mode depth =
    if depth + nesting v <=? MAX_NESTING_DEPTH then Ok v else too_deep.
Proof.
  induction v as [fs IH|vs IH|v Hd Ha] using Bson_nested_ind; intros Hok Hl gas mode depth Hg Hdep.
  - cbn [raw_of]. rewrite materialize_document. apply value_ok_document in Hok.
    rewrite decode_fields_wire; [|done..|].
    + replace (depth + 1 - 1) with depth by lia. unfold document_nesting. by case_match.
    + intros gas' Hg' Hdep'. unfold fields_ok in Hok. rewrite Forall_forall in *.
      intros f Hf. apply IH; try done.
      * by apply Hok.
      * cbn [value_wire] in Hl. rewrite len_doc_frame in Hl.
        pose proof (field_wire_len _ _ Hf). unfold fields_wire in *. lia.
      * lia.
  - cbn [raw_of]. rewrite materialize_array. apply value_ok_array in Hok.
    rewrite decode_array_wire; [|done..|].
    + replace (depth + 1 - 1) with depth by lia. by case_match.
    + intros gas' Hg' Hdep'. rewrite Forall_forall in *. intros x Hx. apply IH; try done.
      * by apply Hok.
      * cbn [value_wire] in Hl. rewrite len_doc_frame in Hl.
        pose proof (value_wire_len _ _ Hx 0). unfold values_wire in *. lia.
      * lia.
  - assert (nesting v = 0) as ->.
    { destruct v; try done; [by destruct (Hd fields)|by destruct (Ha values)]. }
    zif. destruct v; destruct mode; try done;
      try (by destruct (Hd fields)); try (by destruct (Ha values)).
Qed.

Lemma decode_document_wire d mode : fields_ok d → len (document_wire d) <= u32_max →
  decode_document (document_wire d) mode 1 =
    if document_nesting d <=? MAX_NESTING_DEPTH then Ok d else too_deep.
Proof.
  intros Hok Hl. unfold decode_document.
  rewrite decode_fields_wire; [done|apply gas_ok_top|done..|].
  intros gas' Hg' Hd. apply Forall_forall. intros f Hf. apply materialize_wire; try done.
  - unfold fields_ok in Hok. rewrite Forall_forall in Hok. by apply Hok.
  - pose proof (field_wire_len _ _ Hf). unfold document_wire in Hl. rewrite len_doc_frame in Hl. lia.
Qed.

(** ** What a successful decode yields *)

(** Re-encoding may lengthen array keys; each element has at least two bytes
    and a decimal key at most twenty, so the growth factor is at most 11. *)
Definition growth : Z := 11.

Definition decoded (depth : Z) (v : Bson) (w : bytes) : Prop :=
  value_ok v ∧ depth + nesting v <= MAX_NESTING_DEPTH ∧ len (value_wire v) <= growth * len w.

Lemma collect_decoded m depth l rest fs : scans rest l → depth <= MAX_NESTING_DEPTH →
  (∀ tag raw w v, raw_encodes tag raw w → m raw = Ok v → decoded depth v w) →
  collect m l = Ok fs →
  fields_ok fs ∧ (∀ f, f ∈ fs → depth + nesting f.2 <= MAX_NESTING_DEPTH) ∧
  len (fields_wire fs) <= growth * (len rest - 1) ∧
  (∀ i, len (values_wire i (snd <$> fs)) <= growth * (len rest - 1)).
Proof.
  intros Hs Hd Hm. revert fs. unfold fields_wire, values_wire.
  induction Hs as [|tag name v w rest l Ht Hn Hw Hs IH]; intros fs H; cbn [collect] in H.
  - inv_ok. split; [by constructor|]. split; [by intros f ?%not_elem_of_nil|]. done.
  - apply bind_Ok_inv in H as (x & Hx & H). apply bind_Ok_inv in H as (t & Ht' & H). inv_ok.
    destruct (IH t Ht') as (I1 & I2 & I3 & I4).
    destruct (Hm _ _ _ _ Hw Hx) as (V1 & V2 & V3). unfold growth in *.
    assert (len (raw_field tag name w ++ rest) = 2 + len name + len w + len rest) as El.
    { unfold raw_field. len_tac. }
    rewrite El. split_and!.
    + constructor; done.
    + intros f [->|Hf]%elem_of_cons; [done|by apply I2].
    + cbn [fields_wire_with]. unfold field_wire_with at 1. simpl. len_tac.
    + intros i. rewrite fmap_cons. cbn [values_wire_with snd]. unfold field_wire_with at 1.
      pose proof (dec_bytes_len i). specialize (I4 (i + 1)). len_tac.
Qed.

Lemma nesting_members_le {X} (f : X → Z) depth l : depth <= MAX_NESTING_DEPTH →
  (∀ x, x ∈ l → depth + f x <= MAX_NESTING_DEPTH) →
  depth + foldr (λ x m, Z.max (f x) m) 0 l <= MAX_NESTING_DEPTH.
Proof.
  intros Hd H. apply Z.leb_le. rewrite <- nesting_members by done.
  apply forallb_forall. intros x Hx. apply Z.leb_le, H. by apply list_elem_of_In.
Qed.

Lemma loop_decoded gas b mode depth fs : depth <= MAX_NESTING_DEPTH →
  (∀ tag raw w v, raw_encodes tag raw w →
     materialize_with (decode_fields gas) (decode_array gas) raw mode depth = Ok v →
     decoded depth v w) →
  fields_loop (decode_fields gas) (decode_array gas) (scan_fuel b) mode depth (Scanner_new b) = Ok fs →
  decoded (depth - 1) (Bson_Document fs) b ∧ decoded (depth - 1) (Bson_Array (snd <$> fs)) b.
Proof.
  intros Hd Hm H. destruct (decide (len b < 4)) as [Hs|Hl].
  { destruct (short_scanner_err (decode_fields gas) (decode_array gas) b (length b) mode depth Hs) as [e He].
    unfold scan_fuel in H. congruence. }
  destruct (fields_loop_Ok_scans _ _ _ _ _ _ _ _ _ (Scanner_new_at b ltac:(lia)) H) as (l & Hsc & Hc).
  destruct (collect_decoded _ _ _ _ _ Hsc Hd Hm Hc) as (I1 & I2 & I3 & I4).
  rewrite len_dropZ in I3, I4 by lia. specialize (I4 0). unfold decoded, growth in *. cbn [value_wire nesting].
  rewrite !len_doc_frame. split; split_and!.
  - by apply value_ok_document.
  - pose proof (nesting_members_le (λ f : str * Bson, nesting f.2) depth fs Hd I2) as Hn. cbv beta in Hn. lia.
  - unfold fields_wire in I3. lia.
  - apply value_ok_array, Forall_fmap. eapply Forall_impl; [apply I1|]. by intros f [_ ?].
  - assert (∀ v, v ∈ snd <$> fs → depth + nesting v <= MAX_NESTING_DEPTH) as I2'.
    { intros v (f & -> & Hf)%list_elem_of_fmap. by apply I2. }
    pose proof (nesting_members_le nesting depth _ Hd I2'). lia.
  - unfold values_wire in I4. lia.
Qed.

Lemma scalar_decoded depth s v D A mode : depth <= MAX_NESTING_DEPTH → scalar_ok s → scalar_fits s →
  materialize_with D A (raw_of_scalar s) mode depth = Ok v → decoded depth v (scalar_wire s).
Proof.
  intros Hd Hok Hf H. assert (v = Bson_from_scalar s) as ->.
  { destruct s, mode; simpl in H; by inv_ok. }
  assert (nesting (Bson_from_scalar s) = 0 ∧ value_wire (Bson_from_scalar s) = scalar_wire s
          ∧ value_ok (Bson_from_scalar s)) as (E1 & E2 & E3) by (by destruct s).
  unfold decoded, growth. rewrite E1, E2. split_and!; [done|lia|len_tac].
Qed.

Lemma decode_decoded gas : ∀ b mode depth, 1 <= depth →
  (∀ fs, decode_fields gas b mode depth = Ok fs → decoded (depth - 1) (Bson_Document fs) b) ∧
  (∀ vs, decode_array gas b mode depth = Ok vs → decoded (depth - 1) (Bson_Array vs) b).
Proof.
  induction gas as [|gas IH]; intros b mode depth Hd; [done|].
  cbn [decode_fields decode_array]. destruct (MAX_NESTING_DEPTH <? depth) eqn:E; [done|]. zbool.
  assert (∀ tag raw w v, raw_encodes tag raw w →
     materialize_with (decode_fields gas) (decode_array gas) raw mode depth = Ok v →
     decoded depth v w) as Hm.
  { intros tag raw w v Hw H. destruct Hw as [s _ Hok Hf|d _ Hr|a _ Hr|code scope _ Hc Hs Hl].
    - by eapply scalar_decoded.
    - rewrite materialize_document in H. inv_ok. apply IH in Hk; [|lia].
      by replace (depth + 1 - 1) with depth in Hk by lia.
    - rewrite materialize_array in H. inv_ok. apply IH in Hk; [|lia].
      by replace (depth + 1 - 1) with depth in Hk by lia.
    - simpl in H. inv_ok. unfold decoded, growth. cbn [value_ok nesting value_wire].
      split_and!; [done..|lia|len_tac]. }
  split; intros r H.
  - by apply (loop_decoded gas b mode depth r).
  - rewrite values_loop_fields in H. inv_ok. by apply (loop_decoded gas b mode depth a).
Qed.

(** Well-formed values of bounded size are encodable. *)
Lemma value_ok_encodable v : value_ok v → len (value_wire v) <= i32_max → encodable v = true.
Proof.
  induction v as [fs IH|vs IH|v Hd Ha] using Bson_nested_ind; intros Hok Hl.
  - apply value_ok_document in Hok. cbn [encodable]. apply andb_true_iff. split; [|lia].
    apply forallb_forall. intros f Hf%list_elem_of_In. unfold fields_ok in Hok.
    rewrite Forall_forall in IH, Hok. destruct (Hok f Hf) as [[_ Hn] Hv]. rewrite Hn. simpl.
    apply IH; [done..|]. pose proof (field_wire_len _ _ Hf).
    cbn [value_wire] in Hl. rewrite len_doc_frame in Hl. unfold fields_wire in *. lia.
  - apply value_ok_array in Hok. cbn [encodable]. apply andb_true_iff. split; [|lia].
    apply forallb_forall. intros x Hx%list_elem_of_In. rewrite Forall_forall in IH, Hok.
    apply IH; [done|by apply Hok|]. pose proof (value_wire_len _ _ Hx 0).
    cbn [value_wire] in Hl. rewrite len_doc_frame in Hl. unfold values_wire in *. lia.
  - destruct v; try (by destruct (Hd fields)); try (by destruct (Ha values));
      try (cbn [encodable Bson_as_scalar]; destruct Hok as [H1 H2];
           by rewrite (scalar_wire_encodable _ H1 H2 Hl)).
    destruct Hok as [Hc Hs]. destruct (raw_ok_prefix _ Hs) as (_ & _ & Hlen).
    cbn [encodable]. unfold MIN_DOC_LEN. lia.
Qed.

(** ** Shallow and deep *)

Lemma materialize_mode D A raw depth :
  (∀ b depth, D b Mode_Shallow depth = D b Mode_Deep depth) →
  (∀ b depth, A b Mode_Shallow depth = A b Mode_Deep depth) →
  materialize_with D A raw Mode_Shallow depth = materialize_with D A raw Mode_Deep depth.
Proof. intros HD HA. destruct raw; try done; simpl; by rewrite ?HD, ?HA. Qed.

Lemma decode_mode gas : ∀ b depth,
  decode_fields gas b Mode_Shallow depth = decode_fields gas b Mode_Deep depth ∧
  decode_array gas b Mode_Shallow depth = decode_array gas b Mode_Deep depth.
Proof.
  induction gas as [|gas IH]; intros b depth; [done|]. cbn [decode_fields decode_array].
  destruct (MAX_NESTING_DEPTH <? depth); [done|]. rewrite !values_loop_fields.
  assert (∀ fuel s, fields_loop (decode_fields gas) (decode_array gas) fuel Mode_Shallow depth s =
                    fields_loop (decode_fields gas) (decode_array gas) fuel Mode_Deep depth s) as E.
  { induction fuel as [|fuel IHf]; intros s; cbn [fields_loop]; [done|].
    apply bind_ext. intros [[[n raw]|] s'] _; [|done].
    rewrite (materialize_mode _ _ raw depth) by apply IH. apply bind_ext. intros v _.
    by rewrite IHf. }
  by rewrite E.
Qed.

(** ** Decoding at a smaller depth *)

Lemma fields_loop_mono D A D' A' mode depth depth' :
  (∀ b x, D b mode (depth + 1) = Ok x → D' b mode (depth' + 1) = Ok x) →
  (∀ b x, A b mode (depth + 1) = Ok x → A' b mode (depth' + 1) = Ok x) →
  ∀ fuel s fs, fields_loop D A fuel mode depth s = Ok fs →
    fields_loop D' A' fuel mode depth' s = Ok fs.
Proof.
  intros HD HA. assert (∀ raw v, materialize_with D A raw mode depth = Ok v →
    materialize_with D' A' raw mode depth' = Ok v) as Hm.
  { intros raw v H. destruct raw;
      try (rewrite materialize_scalar in H by done; rewrite materialize_scalar by done; exact H).
    - rewrite materialize_document in *. inv_ok. by rewrite (HD _ _ Hk).
    - rewrite materialize_array in *. inv_ok. by rewrite (HA _ _ Hk). }
  induction fuel as [|fuel IH]; intros s fs; cbn [fields_loop]; [done|].
  destruct (Scanner_next s) as [[[[n raw]|] s']| | |]; cbn [bind]; try done.
  intros H. apply bind_Ok_inv in H as (v & Hv & H). apply bind_Ok_inv in H as (t & Ht & H).
  rewrite (Hm _ _ Hv). cbn [bind]. by rewrite (IH _ _ Ht).
Qed.

Lemma decode_mono gas : ∀ gas' b mode depth depth',
  (gas <= gas')%nat → depth' <= depth →
  (∀ x, decode_fields gas b mode depth = Ok x → decode_fields gas' b mode depth' = Ok x) ∧
  (∀ x, decode_array gas b mode depth = Ok x → decode_array gas' b mode depth' = Ok x).
Proof.
  induction gas as [|gas IH]; intros gas' b mode depth depth' Hg Hd; [done|].
  destruct gas' as [|gas']; [lia|]. cbn [decode_fields decode_array].
  destruct (MAX_NESTING_DEPTH <? depth) eqn:E; [done|]. zbool. zif.
  assert (∀ fs, fields_loop (decode_fields gas) (decode_array gas) (scan_fuel b) mode depth (Scanner_new b) = Ok fs →
    fields_loop (decode_fields gas') (decode_array gas') (scan_fuel b) mode depth' (Scanner_new b) = Ok fs) as Hl.
  { apply fields_loop_mono; intros b' x; apply IH; lia. }
  split; [exact Hl|]. intros x. rewrite !values_loop_fields. intros H. inv_ok.
  by rewrite (Hl _ Hk).
Qed.

(** ** Field access on the raw bytes *)

Fixpoint raw_lookup (l : list (str * RawBsonRef)) (key : str) : option RawBsonRef :=
  match l with
  | [] => None
  | (n, v) :: t => if str_eqb n key then Some v else raw_lookup t key
  end.

Lemma get_loop_scans parent rest l key : scans rest l → ∀ s fuel,
  scanner_at parent rest s → (length l < fuel)%nat →
  RawDocument_get_loop fuel key (mkFieldsIter s false) = Ok (raw_lookup l key).
Proof.
  induction 1 as [|tag name v w rest l Ht Hn Hw Hs IH]; intros s fuel Hat Hf;
    (destruct fuel as [|fuel]; [simpl in Hf; lia|]);
    cbn [RawDocument_get_loop raw_lookup]; unfold FieldsIter_next; cbn [fi_done fi_scanner].
  - by rewrite (scanner_end _ _ Hat).
  - destruct (scanner_field _ _ _ _ _ _ _ Hat Ht Hn Hw) as (s' & -> & Hat'). cbn [bind].
    destruct (str_eqb name key); [done|]. apply IH; [done|]. simpl in Hf. lia.
Qed.

Lemma collect_lookup m l d key : collect m l = Ok d →
  match Document_get d key with
  | Some v => ∃ raw, raw_lookup l key = Some raw ∧ m raw = Ok v
  | None => raw_lookup l key = None
  end.
Proof.
  revert d. induction l as [|[n raw] l IH]; intros d H; cbn [collect] in H; [by inv_ok|].
  apply bind_Ok_inv in H as (v & Hv & H). apply bind_Ok_inv in H as (t & Ht & H). inv_ok.
  simpl. destruct (str_eqb n key); [eauto|]. by apply IH.
Qed.

Lemma decode_fields_S gas b mode depth : depth <= MAX_NESTING_DEPTH →
  decode_fields (S gas) b mode depth =
    fields_loop (decode_fields gas) (decode_array gas) (scan_fuel b) mode depth (Scanner_new b).
Proof. intros. cbn [decode_fields]. by zif. Qed.

Lemma deep_scans b d : RawDocument_deep b = Ok d →
  4 <= len b ∧ ∃ l, scans (dropZ 4 b) l ∧
    collect (λ raw, materialize_with (decode_fields 20) (decode_array 20) raw Mode_Deep 1) l = Ok d.
Proof.
  unfold RawDocument_deep, decode_document, decode_gas. intros H.
  rewrite (decode_fields_S 20) in H by done.
  destruct (decide (len b < 4)) as [Hs|Hl].
  { destruct (short_scanner_err (decode_fields 20) (decode_array 20) b (length b) Mode_Deep 1 Hs) as [e He].
    unfold scan_fuel in H. congruence. }
  split; [lia|]. eapply fields_loop_Ok_scans; [|done]. apply Scanner_new_at. lia.
Qed.

Lemma RawDocument_get_scans b l key : 4 <= len b → scans (dropZ 4 b) l →
  RawDocument_get b key = Ok (raw_lookup l key).
Proof.
  intros Hl Hs. eapply get_loop_scans; [done|by apply Scanner_new_at|].
  apply scans_length in Hs. unfold scan_fuel, dropZ in *. rewrite length_drop in Hs. lia.
Qed.

Lemma RawDocument_command_scans b l : 4 <= len b → scans (dropZ 4 b) l →
  RawDocument_command b = Ok (default [] (fst <$> head l)).
Proof.
  intros Hl Hs. unfold RawDocument_command. zif.
  destruct Hs as [|tag name v w rest l Ht [Hu Hn] Hw Hs]; [done|].
  unfold raw_field. cbn [app]. replace (u8 tag =? 0) with false by lia.
  rewrite <- !app_assoc. cbn [app]. rewrite position_app by (done || by apply has_nul_false).
  rewrite takeZ_app by done. by rewrite from_utf8_valid.
Qed.

Lemma collect_names m l d : collect m l = Ok d → fst <$> d = fst <$> l.
Proof.
  revert d. induction l as [|[n raw] l IH]; intros d H; cbn [collect] in H; [by inv_ok|].
  apply bind_Ok_inv in H as (v & Hv & H). apply bind_Ok_inv in H as (t & Ht & H). inv_ok.
  rewrite !fmap_cons. simpl. f_equal. by apply IH.
Qed.

Lemma materialize_deep raw v :
  materialize_with (decode_fields 20) (decode_array 20) raw Mode_Deep 1 = Ok v →
  RawBsonRef_deep raw = Ok v ∧ RawBsonRef_to_bson raw = Ok v.
Proof.
  intros H. assert (RawBsonRef_to_bson raw = RawBsonRef_deep raw) as ->.
  { unfold RawBsonRef_to_bson, RawBsonRef_deep, RawDocument_shallow, RawArray_shallow, decode_document.
    destruct raw; cbn [to_bson_with raw_deep_with]; try reflexivity.
    - by rewrite (proj1 (decode_mode _ _ _)).
    - by rewrite (proj2 (decode_mode _ _ _)). }
  assert (RawBsonRef_deep raw = Ok v); [|done].
  unfold RawBsonRef_deep, decode_document, decode_gas.
  destruct raw; try exact H; cbn [raw_deep_with].
  - rewrite materialize_document in H. apply bind_Ok_inv in H as (x & Hx & H).
    by rewrite (proj1 (decode_mono 20 21 d Mode_Deep (1 + 1) 1 ltac:(lia) ltac:(lia)) _ Hx).
  - rewrite materialize_array in H. apply bind_Ok_inv in H as (x & Hx & H).
    by rewrite (proj2 (decode_mono 20 21 a Mode_Deep (1 + 1) 1 ltac:(lia) ltac:(lia)) _ Hx).
Qed.

(** A lookup on the raw bytes finds the raw form of what the decoded document
    holds first under the key. *)
Lemma raw_get_decoded b d key : RawDocument_deep b = Ok d →
  match Document_get d key with
  | Some v => ∃ raw, RawDocument_get b key = Ok (Some raw) ∧
                     RawBsonRef_deep raw = Ok v ∧ RawBsonRef_to_bson raw = Ok v
  | None => RawDocument_get b key = Ok None
  end.
Proof.
  intros (Hl & l & Hs & Hc)%deep_scans. rewrite (RawDocument_get_scans b l key Hl Hs).
  pose proof (collect_lookup _ _ _ key Hc) as Hk. destruct (Document_get d key) as [v|].
  - destruct Hk as (raw & -> & Hm). exists raw. split; [done|]. by apply materialize_deep.
  - by rewrite Hk.
Qed.
Lemma raw_command_decoded b d : RawDocument_deep b = Ok d →
  RawDocument_command b = Ok (default [] (Document_command d)).
Proof.
  intros (Hl & l & Hs & Hc)%deep_scans. rewrite (RawDocument_command_scans b l Hl Hs).
  unfold Document_command. apply collect_names in Hc.
  destruct d as [|f d], l as [|g l]; rewrite ?fmap_cons in Hc; try discriminate Hc; [done|].
  injection Hc as Hf _. simpl. by rewrite Hf.
Qed.

(** Which raw values are strings. *)
Lemma raw_deep_string raw v : RawBsonRef_deep raw = Ok v →
  match raw with
  | RawBsonRef_String s => v = Bson_String s
  | _ => match v with Bson_String _ => False | _ => True end
  end.
Proof.
  unfold RawBsonRef_deep. generalize decode_document (decode_array decode_gas). intros D A.
  destruct raw; cbn [raw_deep_with raw_to_bson_with to_bson_with]; intros H; inv_ok; exact I || done.
Qed.

Lemma returns_FieldsIter_next parent rest s : scanner_at parent rest s →
  returns (FieldsIter_next (mkFieldsIter s false)).
Proof.
  intros Hat. pose proof (returns_Scanner_next _ _ _ Hat).
  unfold FieldsIter_next. simpl. by destruct (Scanner_next s) as [[[?|] ?]| | |].
Qed.
Lemma returns_get_loop parent key fuel : ∀ rest s,
  scanner_at parent rest s → (length rest < fuel)%nat →
  returns (RawDocument_get_loop fuel key (mkFieldsIter s false)).
Proof.
  induction fuel as [|fuel IH]; intros rest s Hat Hf; cbn [RawDocument_get_loop]; [lia|].
  apply returns_bind; [by eapply returns_FieldsIter_next|]. intros [item it] H.
  unfold FieldsIter_next in H. simpl in H. destruct (Scanner_next s) as [[o s']| | |] eqn:E; inv_ok.
  - destruct (Scanner_next_inv _ _ _ _ _ Hat E)
      as [[-> ->]|(tag & name & v & w & rest' & -> & -> & _ & _ & _ & Hat')]; inv_ok; [done|].
    case_match; [done|]. apply (IH _ _ Hat').
    unfold raw_field in Hf. simpl in Hf. rewrite !length_app in Hf. lia.
  - done.
Qed.

Lemma returns_RawDocument_get b key : returns (RawDocument_get b key).
Proof.
  unfold RawDocument_get, RawDocument_fields. destruct (decide (len b < 4)) as [Hs|Hl].
  - unfold Scanner_new, scan_fuel. zif. by simpl.
  - eapply returns_get_loop; [apply Scanner_new_at; lia|].
    unfold scan_fuel, dropZ. rewrite length_drop. lia.
Qed.

Lemma deep_decoded b d : RawDocument_deep b = Ok d → decoded (1 - 1) (Bson_Document d) b.
Proof. exact (proj1 (decode_decoded decode_gas b Mode_Deep 1 ltac:(lia)) d). Qed.
Lemma deep_returns b : returns (RawDocument_deep b).
Proof. exact (proj1 (returns_decode decode_gas b Mode_Deep 1 gas_ok_top)). Qed.
Lemma shallow_returns b : returns (RawDocument_shallow b).
Proof. exact (proj1 (returns_decode decode_gas b Mode_Shallow 1 gas_ok_top)). Qed.
Lemma shallow_decoded b d : RawDocument_shallow b = Ok d → decoded (1 - 1) (Bson_Document d) b.
Proof. exact (proj1 (decode_decoded decode_gas b Mode_Shallow 1 ltac:(lia)) d). Qed.
Lemma deep_wire d : fields_ok d → len (document_wire d) <= u32_max →
  RawDocument_deep (document_wire d) =
    if document_nesting d <=? MAX_NESTING_DEPTH then Ok d else too_deep.
Proof. exact (decode_document_wire d Mode_Deep). Qed.

Lemma returns_RawDocument_command b : returns (RawDocument_command b).
Proof.
  unfold RawDocument_command. repeat case_match; try done. apply returns_map_err, returns_from_utf8.
Qed.
Lemma returns_RawArray_shallow b : returns (RawArray_shallow b).
Proof. exact (proj2 (returns_decode decode_gas b Mode_Shallow 1 gas_ok_top)). Qed.
#[export] Hint Resolve returns_RawDocument_command returns_RawArray_shallow returns_RawDocument_get : wire.

(** ** Properties *)

(** C1. Round trip and depth guard: a well-formed document that encodes
    decodes back to itself from its encoding, in both modes, exactly when its
    composites nest at most [MAX_NESTING_DEPTH] deep; any deeper document is
    rejected with [NestedTooDeep]. *)
Theorem bson_encode_decode d r :
  fields_ok d → Document_encode d = Ok r →
  RawDocument_deep r =
    (if document_nesting d <=? MAX_NESTING_DEPTH then Ok d
     else Err (BsonError_NestedTooDeep MAX_NESTING_DEPTH)) ∧
  RawDocument_shallow r = RawDocument_deep r.
Proof.
  intros Hok H. pose proof (Document_encode_writes d) as Hw. unfold writes in Hw.
  destruct (encodable (Bson_Document d)) eqn:He; [|destruct Hw; congruence].
  assert (r = document_wire d) as -> by (rewrite Hw in H; by injection H).
  cbn [encodable] in He. apply andb_true_iff in He as [_ Hl]. zbool.
  unfold RawDocument_deep, RawDocument_shallow.
  rewrite !decode_document_wire; [done|done| |done|]; unfold_ranges;
    unfold document_wire, fields_wire; cbn [value_wire] in Hl; lia.
Qed.

Lemma bson_encode_decode_witness :
  let d := [(lit "a", Bson_Array [Bson_Int32 1; Bson_Document [(lit "b", Bson_String (lit "x"))]])] in
  Document_encode d = Ok (document_wire d) ∧ RawDocument_deep (document_wire d) = Ok d.
Proof.
  intros d. assert (Document_encode d = Ok (document_wire d)) as E by (vm_compute; reflexivity).
  split; [exact E|].
  assert (fields_ok d) as Hok by (repeat constructor; vm_compute; (reflexivity || (intros [=]))).
  exact (proj1 (bson_encode_decode d (document_wire d) Hok E)).
Defined.

(** What decodes re-encodes, to its layout, and decodes again, unless longer
    array keys would push it past the [i32] length. *)
Lemma deep_reencodes b d : growth * len b <= i32_max → RawDocument_deep b = Ok d →
  Document_encode d = Ok (document_wire d) ∧ RawDocument_deep (document_wire d) = Ok d.
Proof.
  intros Hb (Hok & Hn & Hl)%deep_decoded.
  assert (len (document_wire d) <= i32_max) as Hi.
  { cbn [value_wire] in Hl. unfold document_wire, fields_wire. lia. }
  pose proof (Document_encode_writes d) as Hw.
  rewrite (value_ok_encodable _ Hok Hi) in Hw. split; [done|].
  apply value_ok_document in Hok. rewrite deep_wire; [|done|unfold_ranges; lia].
  unfold document_nesting. by zif.
Qed.

(** C13. Decoding and field access terminate without a panic on every byte
    string, validated or not: each loop is bounded by the input's length and
    the recursion by the depth limit. *)
Theorem bson_decode_total b key v :
  returns (RawDocument_from_bytes b) ∧ returns (RawDocument_command b) ∧
  returns (RawDocument_deep b) ∧ returns (RawDocument_shallow b) ∧
  returns (RawArray_deep b) ∧ returns (RawArray_shallow b) ∧
  returns (RawDocument_get b key) ∧ returns (RawBsonRef_deep v) ∧ returns (RawBsonRef_to_bson v).
Proof.
  assert (∀ b m, returns (decode_fields decode_gas b m 1) ∧ returns (decode_array decode_gas b m 1)) as Hd.
  { intros. apply returns_decode, gas_ok_top. }
  split; [apply returns_RawDocument_from_bytes|].
  split; [apply returns_RawDocument_command|].
  split; [exact (proj1 (Hd b Mode_Deep))|]. split; [exact (proj1 (Hd b Mode_Shallow))|].
  split; [exact (proj2 (Hd b Mode_Deep))|]. split; [exact (proj2 (Hd b Mode_Shallow))|].
  split; [apply returns_RawDocument_get|].
  split; [unfold RawBsonRef_deep|unfold RawBsonRef_to_bson]; (destruct v; try exact I);
    (apply returns_bind; [|intros; exact I]).
  - exact (proj1 (Hd d Mode_Deep)).
  - exact (proj2 (Hd a Mode_Deep)).
  - exact (proj1 (Hd d Mode_Shallow)).
  - exact (proj2 (Hd a Mode_Shallow)).
Qed.

(** The two decode modes coincide on every input, also on malformed ones:
    shallow decoding materializes nested composites just as deep decoding
    does. *)
Lemma shallow_is_deep b :
  RawDocument_shallow b = RawDocument_deep b ∧ RawArray_shallow b = RawArray_deep b.
Proof. apply decode_mode. Qed.

(** The document walker's value parser and the shared scalar parser agree
    on every tag the latter handles: the same value, the same byte count, and
    the same failures up to the wording of the error. *)
Lemma parse_value_agrees tag rest parent abs :
  is_composite tag = false →
  parse_value tag rest parent abs =
    map_err (scalar_error_as abs)
      (let* '(s, n) := parse_scalar tag rest in Ok (raw_of_scalar s, n)).
Proof.
  intros Hc. unfold parse_value, parse_scalar. rewrite agrees_scalar by done.
  destruct (parse_scalar_arm tag rest) as [[s r]| | |]; try done. cbn [map_err bind].
  unfold usub. by destruct (len rest <? remaining r).
Qed.

(** C20. Lazy access agrees with full decoding: when a raw document decodes,
    its command is the first field's name (empty for an empty document), and
    looking up a key yields the raw form of exactly the value the decoded
    document holds first under that key. *)
Theorem raw_access b d key :
  RawDocument_deep b = Ok d →
  RawDocument_command b = Ok (default [] (Document_command d)) ∧
  match Document_get d key with
  | Some v => ∃ raw, RawDocument_get b key = Ok (Some raw) ∧
                     RawBsonRef_deep raw = Ok v ∧ RawBsonRef_to_bson raw = Ok v
  | None => RawDocument_get b key = Ok None
  end.
Proof.
  intros Hd. split; [by apply raw_command_decoded|by apply raw_get_decoded].
Qed.

Lemma raw_access_witness :
  let b := document_wire [(lit "ping", Bson_Int32 1); (lit "ok", Bson_Bool true)] in
  RawDocument_command b = Ok (lit "ping") ∧
  ∃ raw, RawDocument_get b (lit "ok") = Ok (Some raw) ∧ RawBsonRef_deep raw = Ok (Bson_Bool true).
Proof.
  intros b.
  assert (RawDocument_deep b = Ok [(lit "ping", Bson_Int32 1); (lit "ok", Bson_Bool true)]) as E
    by (vm_compute; reflexivity).
  destruct (raw_access b _ (lit "ok") E) as [H1 (raw & H2 & H3 & _)]. split; [exact H1|].
  exists raw. split; [exact H2|exact H3].
Defined.
