(* ===== verification/BsonGrammar.v ===== *)
(** * The language the decoder accepts

    A grammar of BSON documents as mutually inductive relations between bytes and
    values, after the layout the codec implements, and the theorem that
    [wirebson/src/decode.rs] decides it: validated bytes decode to a document
    exactly when the grammar derives that document from them and its composites
    nest within the limit.  Unlike the encoder's layout the grammar leaves the
    keys of array elements open, as the decoder does. *)
From stdpp Require Import base list numbers strings.
From Stdlib Require Import ZArith Lia.
From S2P Require Import Prelude Utf8 Io Consts BsonScalar BsonValue BsonEncode BsonDecode BsonRoundtrip.
Local Open Scope Z_scope.

(** ** The grammar *)

(** [bson_value tag v w]: under [tag] the bytes [w] denote [v];
    [bson_elements fs w]: [w] is a sequence of elements denoting [fs];
    [bson_document fs w]: [w] is the length, the elements and the closing NUL. *)
Inductive bson_value : Z → Bson → bytes → Prop :=
| bson_scalar s : scalar_ok s → scalar_fits s →
    bson_value (tag_of s) (Bson_from_scalar s) (scalar_wire s)
| bson_scope code scope : valid_utf8 code = true → raw_ok scope →
    len (scope_wire code scope) <= u32_max →
    bson_value TAG_JAVASCRIPT_SCOPE (Bson_JavaScriptScope code scope) (scope_wire code scope)
| bson_embedded fs w : bson_document fs w → bson_value TAG_DOCUMENT (Bson_Document fs) w
| bson_array fs w : bson_document fs w → bson_value TAG_ARRAY (Bson_Array (snd <$> fs)) w
with bson_elements : Document → bytes → Prop :=
| bson_end : bson_elements [] []
| bson_element tag name v w fs rest :
    u8 tag ≠ 0 → name_ok name → bson_value (u8 tag) v w → bson_elements fs rest →
    bson_elements ((name, v) :: fs) (raw_field tag name w ++ rest)
with bson_document : Document → bytes → Prop :=
| bson_frame fs body : bson_elements fs body → len body + 5 <= u32_max →
    bson_document fs (doc_frame body).

Scheme bson_value_mind := Minimality for bson_value Sort Prop
  with bson_elements_mind := Minimality for bson_elements Sort Prop
  with bson_document_mind := Minimality for bson_document Sort Prop.
Combined Scheme bson_grammar_ind from bson_value_mind, bson_elements_mind, bson_document_mind.

(** ** The decoder finds the derivation *)

(** Within the depth left the decoders return what the grammar derives, and beyond
    it they fail on the depth alone. *)
Definition guarded {A} (depth : Z) (v : Bson) (x : A) : outcome BsonError A :=
  if depth + nesting v <=? MAX_NESTING_DEPTH then Ok x else too_deep.

Definition value_decodes (tag : Z) (v : Bson) (w : bytes) : Prop :=
  ∃ raw, raw_encodes tag raw w ∧ ∀ gas mode depth, gas_ok gas (depth + 1) → 1 <= depth <= MAX_NESTING_DEPTH →
    materialize_with (decode_fields gas) (decode_array gas) raw mode depth = guarded depth v v.
Definition elements_decode (fs : Document) (w : bytes) : Prop :=
  ∃ l, scans (w ++ [x00]) l ∧ ∀ gas mode depth, gas_ok gas (depth + 1) → 1 <= depth <= MAX_NESTING_DEPTH →
    collect (λ raw, materialize_with (decode_fields gas) (decode_array gas) raw mode depth) l =
    guarded (depth - 1) (Bson_Document fs) fs.
Definition document_decodes (fs : Document) (w : bytes) : Prop :=
  raw_ok w ∧ ∀ gas mode depth, gas_ok gas depth →
    decode_fields gas w mode depth = guarded (depth - 1) (Bson_Document fs) fs
    ∧ decode_array gas w mode depth = guarded (depth - 1) (Bson_Document fs) (snd <$> fs).

Lemma guarded_nesting {A} depth v v' (x : A) : nesting v = nesting v' → guarded depth v x = guarded depth v' x.
Proof. unfold guarded. by intros ->. Qed.
Lemma guarded_map {A B} depth v (x : A) (f : A → B) :
  (let* y := guarded depth v x in Ok (f y)) = guarded depth v (f x).
Proof. unfold guarded. by case_match. Qed.
Lemma guarded_deep {A} depth v (x : A) : MAX_NESTING_DEPTH < depth → 1 <= nesting v →
  guarded (depth - 1) v x = too_deep.
Proof. intros. unfold guarded. by zif. Qed.
Lemma nesting_composite fs : 1 <= nesting (Bson_Document fs).
Proof. cbn [nesting]. induction fs; simpl; lia. Qed.
Lemma nesting_array_fields (fs : Document) : nesting (Bson_Array (snd <$> fs)) = nesting (Bson_Document fs).
Proof. cbn [nesting]. f_equal. induction fs as [|f fs IH]; [done|]. rewrite fmap_cons. simpl. by rewrite IH. Qed.

Lemma scalar_value_decodes s : scalar_ok s → scalar_fits s →
  value_decodes (tag_of s) (Bson_from_scalar s) (scalar_wire s).
Proof.
  intros Ho Hf. exists (raw_of_scalar s). split; [by constructor|]. intros gas mode depth _ Hd. unfold guarded.
  assert (nesting (Bson_from_scalar s) = 0) as -> by (by destruct s). zif. by destruct s, mode.
Qed.

Lemma elements_decode_cons tag name v w fs rest : u8 tag ≠ 0 → name_ok name →
  value_decodes (u8 tag) v w → elements_decode fs rest →
  elements_decode ((name, v) :: fs) (raw_field tag name w ++ rest).
Proof.
  intros Ht Hn (raw & Hr & Hv) (l & Hs & Hl). exists ((name, raw) :: l). split.
  { rewrite <- app_assoc. by constructor. }
  intros gas mode depth Hg Hd. cbn [collect]. rewrite Hv, Hl by done. unfold guarded. cbn [nesting foldr snd].
  set (m := foldr _ 0 fs).
  destruct (Z.leb_spec (depth + nesting v) MAX_NESTING_DEPTH); cbn [bind too_deep].
  - destruct (Z.leb_spec (depth - 1 + (1 + m)) MAX_NESTING_DEPTH); cbn [bind too_deep]; by zif.
  - by zif.
Qed.

Lemma frame_decodes fs body : elements_decode fs body → len body + 5 <= u32_max →
  document_decodes fs (doc_frame body).
Proof.
  intros (l & Hs & Hl) Hlen. split; [apply raw_ok_frame; eauto|]. intros gas mode depth Hg.
  destruct (gas_ok_pos _ _ Hg) as [g ->]. cbn [decode_fields decode_array].
  destruct (MAX_NESTING_DEPTH <? depth) eqn:E; zbool.
  - by rewrite !guarded_deep by (done || apply nesting_composite).
  - pose proof (gas_ok_S _ _ Hg E) as Hg'. destruct Hg as [Hg _].
    by rewrite values_loop_fields, (loop_frame _ _ _ _ _ _ Hs), Hl, guarded_map by (done || lia).
Qed.

Lemma grammar_decodes :
  (∀ tag v w, bson_value tag v w → value_decodes tag v w)
  ∧ (∀ fs w, bson_elements fs w → elements_decode fs w)
  ∧ (∀ fs w, bson_document fs w → document_decodes fs w).
Proof.
  apply bson_grammar_ind.
  - apply scalar_value_decodes.
  - intros code scope Hc Hs Hl. exists (RawBsonRef_JavaScriptScope code scope). split; [by constructor|].
    intros gas mode depth _ Hd. unfold guarded. cbn [nesting]. by zif.
  - intros fs w _ [Hr Hw]. exists (RawBsonRef_Document w). split; [by constructor|].
    intros gas mode depth Hg Hd. rewrite materialize_document, (proj1 (Hw _ _ _ Hg)), guarded_map.
    by replace (depth + 1 - 1) with depth by lia.
  - intros fs w _ [Hr Hw]. exists (RawBsonRef_Array w). split; [by constructor|].
    intros gas mode depth Hg Hd. rewrite materialize_array, (proj2 (Hw _ _ _ Hg)), guarded_map.
    replace (depth + 1 - 1) with depth by lia. apply guarded_nesting. by rewrite nesting_array_fields.
  - exists []. split; [constructor|]. intros gas mode depth _ Hd. unfold guarded. cbn [nesting foldr]. by zif.
  - intros. by apply elements_decode_cons.
  - intros. by apply frame_decodes.
Qed.

(** ** What decodes is derived *)

Lemma collect_elements m rest l : scans rest l →
  (∀ tag raw w v, raw_encodes tag raw w → m raw = Ok v → bson_value tag v w) → ∀ fs, collect m l = Ok fs →
  ∃ body, rest = body ++ [x00] ∧ bson_elements fs body.
Proof.
  intros Hs Hm. induction Hs as [|tag name v w rest l Ht Hn Hw Hs IH]; intros fs H; cbn [collect] in H.
  - inv_ok. exists []. split; [done|constructor].
  - apply bind_Ok_inv in H as (x & Hx & H). apply bind_Ok_inv in H as (t & Ht' & H). inv_ok.
    destruct (IH t Ht') as (body & -> & He). exists (raw_field tag name w ++ body).
    rewrite app_assoc. split; [done|]. constructor; eauto.
Qed.

Lemma decode_derives gas : ∀ b mode depth, raw_ok b →
  (∀ fs, decode_fields gas b mode depth = Ok fs → bson_document fs b)
  ∧ (∀ vs, decode_array gas b mode depth = Ok vs → ∃ fs, vs = snd <$> fs ∧ bson_document fs b).
Proof.
  induction gas as [|gas IH]; intros b mode depth Hb; [done|]. cbn [decode_fields decode_array].
  destruct (MAX_NESTING_DEPTH <? depth); [done|]. rewrite values_loop_fields.
  assert (∀ fs, fields_loop (decode_fields gas) (decode_array gas) (scan_fuel b) mode depth (Scanner_new b) = Ok fs →
            bson_document fs b) as Hf.
  { intros fs H. apply raw_ok_frame in Hb as (body & -> & Hl).
    destruct (fields_loop_Ok_scans _ _ _ _ _ _ _ _ _ (scanner_frame body) H) as (l & Hs & Hc).
    assert (∃ body', body ++ [x00] = body' ++ [x00] ∧ bson_elements fs body') as (body' & E & He).
    { eapply collect_elements; [exact Hs| |exact Hc]. intros tag raw w v Hw Hm.
      destruct Hw as [s -> Hok Hfit|d -> Hr|a -> Hr|code scope -> Hc' Hs' Hl'].
      - assert (v = Bson_from_scalar s) as -> by (destruct s, mode; simpl in Hm; by inv_ok). by constructor.
      - rewrite materialize_document in Hm. inv_ok. constructor. by eapply IH.
      - rewrite materialize_array in Hm. inv_ok. apply IH in Hk as (fs' & -> & Hd); [|done]. by constructor.
      - simpl in Hm. inv_ok. by constructor. }
    apply app_inv_tail in E as <-. by constructor. }
  split; [done|]. intros vs H. inv_ok. eauto.
Qed.

(** ** The grammar is unambiguous *)

(** What a raw value denotes. *)
Definition raw_denotes (raw : RawBsonRef) (v : Bson) : Prop :=
  match raw with
  | RawBsonRef_Document d => ∃ fs, v = Bson_Document fs ∧ bson_document fs d
  | RawBsonRef_Array a => ∃ fs, v = Bson_Array (snd <$> fs) ∧ bson_document fs a
  | other => to_bson_with (λ _, Fuel) (λ _, Fuel) other = Ok v
  end.
Lemma bson_document_raw_ok fs w : bson_document fs w → raw_ok w.
Proof. intros H. by apply grammar_decodes in H as [? _]. Qed.
Lemma bson_value_raw tag v w : bson_value tag v w → ∃ raw, raw_encodes tag raw w ∧ raw_denotes raw v.
Proof.
  intros [s Ho Hf|code scope Hc Hs Hl|fs d Hd|fs a Ha].
  - exists (raw_of_scalar s). split; [by constructor|]. by destruct s.
  - exists (RawBsonRef_JavaScriptScope code scope). by split; [constructor|].
  - exists (RawBsonRef_Document d). split; [constructor; [done|by eapply bson_document_raw_ok]|]. simpl. eauto.
  - exists (RawBsonRef_Array a). split; [constructor; [done|by eapply bson_document_raw_ok]|]. simpl. eauto.
Qed.

Lemma raw_encodes_prefix tag raw raw' w w' r r' : raw_encodes tag raw w → raw_encodes tag raw' w' →
  w ++ r = w' ++ r' → raw = raw' ∧ w = w' ∧ r = r'.
Proof.
  intros H H' E. assert (parse_value tag (w ++ r) ([] ++ w ++ r) 0 = Ok (raw, len w)) as P
    by (apply parse_value_iff; eauto).
  assert (parse_value tag (w' ++ r') ([] ++ w' ++ r') 0 = Ok (raw', len w')) as P' by (apply parse_value_iff; eauto).
  rewrite E, P' in P. injection P as -> Hl. split; [done|]. apply app_inj_1; [|done]. unfold len in Hl. lia.
Qed.
Lemma name_prefix name name' t t' : has_nul name = false → has_nul name' = false →
  (name ++ [x00]) ++ t = (name' ++ [x00]) ++ t' → name = name' ∧ t = t'.
Proof.
  intros Hn Hn' E. rewrite <- !app_assoc in E. cbn [app] in E.
  pose proof (position_app is_nul name x00 t) as P. pose proof (position_app is_nul name' x00 t') as P'.
  rewrite E, P' in P by (done || by apply has_nul_false). assert (len name' = len name) as Hl.
  { assert (Some (len name') = Some (len name)) as [=]; [|done]. apply P; [|done]. by apply has_nul_false. }
  apply app_inj_1 in E as [-> [= ->]]; [done|]. unfold len in Hl. lia.
Qed.

Lemma grammar_unambiguous :
  (∀ tag v w, bson_value tag v w → ∀ v', bson_value tag v' w → v' = v)
  ∧ (∀ fs w, bson_elements fs w → ∀ fs', bson_elements fs' w → fs' = fs)
  ∧ (∀ fs w, bson_document fs w → ∀ fs', bson_document fs' w → fs' = fs).
Proof.
  assert (∀ tag raw v w, raw_encodes tag raw w → bson_value tag v w → raw_denotes raw v) as R.
  { intros tag raw v w Hr (raw' & Hr' & Hd)%bson_value_raw.
    by destruct (raw_encodes_prefix _ _ _ _ _ [] [] Hr Hr' eq_refl) as [-> _]. }
  apply bson_grammar_ind.
  - intros s Ho Hf v' Hv'. apply (R _ (raw_of_scalar s)) in Hv'; [|by constructor]. destruct s; by injection Hv'.
  - intros code scope Hc Hs Hl v' Hv'.
    apply (R _ (RawBsonRef_JavaScriptScope code scope)) in Hv'; [|by constructor]. by injection Hv'.
  - intros fs w Hd IH v' Hv'. apply (R _ (RawBsonRef_Document w)) in Hv' as (fs' & -> & Hd');
      [|constructor; [done|by eapply bson_document_raw_ok]]. by rewrite (IH _ Hd').
  - intros fs w Hd IH v' Hv'. apply (R _ (RawBsonRef_Array w)) in Hv' as (fs' & -> & Hd');
      [|constructor; [done|by eapply bson_document_raw_ok]]. by rewrite (IH _ Hd').
  - intros fs' H. by inversion H.
  - intros tag name v w fs rest Ht [_ Hn] Hv IHv He IHe fs' H.
    remember (raw_field tag name w ++ rest) as b eqn:E2.
    destruct H as [|tag' name' v' w' fs1 rest' Ht' [_ Hn'] Hv' He']; [done|].
    unfold raw_field in E2. cbn [app] in E2. injection E2 as -> E2.
    rewrite <- !(app_assoc (_ ++ [x00])) in E2. apply name_prefix in E2 as [-> E2]; [|done..].
    pose proof (bson_value_raw _ _ _ Hv) as (raw & Hr & _). pose proof (bson_value_raw _ _ _ Hv') as (raw' & Hr' & _).
    destruct (raw_encodes_prefix _ _ _ _ _ _ _ Hr' Hr E2) as (_ & -> & ->).
    by rewrite (IHv _ Hv'), (IHe _ He').
  - intros fs body He IH Hl fs' H. remember (doc_frame body) as b eqn:E2. destruct H as [fs1 body' He' Hl'].
    apply (f_equal (dropZ 4)) in E2. rewrite !dropZ4_frame in E2. apply app_inv_tail in E2 as ->. by apply IH.
Qed.

(** ** Properties *)

(** [RawDocument::from_bytes] followed by [deep]. *)
Definition decode_bytes (b : bytes) : outcome BsonError Document :=
  let* r := RawDocument_from_bytes b in RawDocument_deep r.

(** C21. The decoder decides BSON.  Validated and decoded bytes give a document
    exactly when the grammar derives it from them and its composites nest at most
    [MAX_NESTING_DEPTH] deep; bytes from which the grammar derives a deeper
    document fail with [NestedTooDeep]; all other bytes fail with an error; and
    the grammar is unambiguous. *)
Theorem decoder_is_grammar b :
  (∀ d, decode_bytes b = Ok d ↔ bson_document d b ∧ document_nesting d <= MAX_NESTING_DEPTH)
  ∧ (∀ d, bson_document d b → MAX_NESTING_DEPTH < document_nesting d →
       decode_bytes b = Err (BsonError_NestedTooDeep MAX_NESTING_DEPTH))
  ∧ ((∀ d, ¬ bson_document d b) → ∃ e, decode_bytes b = Err e)
  ∧ (∀ d d', bson_document d b → bson_document d' b → d = d').
Proof.
  assert (∀ d, bson_document d b → decode_bytes b = guarded 0 (Bson_Document d) d) as Hc.
  { intros d Hd. apply grammar_decodes in Hd as [Hr Hd]. unfold decode_bytes.
    rewrite RawDocument_from_bytes_ok by done. cbn [bind]. apply (Hd decode_gas Mode_Deep 1 gas_ok_top). }
  assert (∀ d, decode_bytes b = Ok d → bson_document d b) as Hs.
  { intros d H. unfold decode_bytes in H. inv_ok. apply RawDocument_from_bytes_Ok_inv in Hk as [-> Hr].
    by eapply (decode_derives decode_gas b Mode_Deep 1). }
  unfold document_nesting. split_and!.
  - intros d. split.
    + intros H. pose proof (Hs _ H) as Hd. split; [done|]. rewrite (Hc _ Hd) in H. unfold guarded in H.
      destruct (Z.leb_spec (0 + nesting (Bson_Document d)) MAX_NESTING_DEPTH); [lia|done].
    + intros [Hd Hn]. rewrite (Hc _ Hd). unfold guarded. by zif.
  - intros d Hd Hn. rewrite (Hc _ Hd). unfold guarded. by zif.
  - intros Hn. assert (returns (decode_bytes b)) as Hr.
    { apply returns_bind; [apply returns_RawDocument_from_bytes|]. intros; apply deep_returns. }
    destruct (decode_bytes b) as [d|e| |] eqn:E; try done; [|eauto]. by destruct (Hn d), (Hs d).
  - intros d d' Hd Hd'. by apply (proj2 (proj2 grammar_unambiguous) _ _ Hd').
Qed.
