(* ===== verification/LogText.v ===== *)
(** * The text of log lines: the leaf renderings of [wirebson/src/encode.rs]

    Quoting, decimal and hexadecimal numbers, base64 and dates.  The functions
    return [String], so the error type is empty; they run in [outcome] because
    they index tables and compute on [i64]. *)
From stdpp Require Import base list numbers strings.
From Stdlib Require Import ZArith Lia.
From S2P Require Import Prelude Utf8 StrOps Io Consts BsonScalar F64.
Local Open Scope Z_scope.

(** A call with no error path. *)
Abbreviation total := (outcome Empty_set).

(** ** Numbers *)

(** [to_string] of a signed integer. *)
Definition int_bytes (z : Z) : str :=
  if z <? 0 then lit "-" ++ dec_bytes (- z) else dec_bytes z.
(** [{z:0w}]: padded with zeros after the sign. *)
Definition pad0 (w z : Z) : str :=
  let sign := if z <? 0 then lit "-" else [] in
  let digits := dec_bytes (Z.abs z) in
  sign ++ replicate (Z.to_nat (w - len sign - len digits)) x30 ++ digits.

(** [format_f64]. *)
Definition format_f64 (v : f64) : str :=
  let s := f64_display v in
  if existsb (λ b, u8 b =? 46) s then s else s ++ lit ".0".

(** [hex]. *)
Definition hex (b : bytes) : str := flat_map lower_hex b.

(** ** [quote]: the [Debug] rendering of a string *)

Fixpoint chars_loop (fuel : nat) (s : str) : list char :=
  match fuel with
  | O => []
  | S fuel =>
      match next_char s with
      | None => []
      | Some (c, rest) => c :: chars_loop fuel rest
      end
  end.
(** [s.chars()]. *)
Definition str_chars (s : str) : list char := chars_loop (length s) s.

(** The scalar value a character's UTF-8 bytes encode. *)
Definition char_code (c : char) : Z :=
  match c with
  | [a] => u8 a
  | [a; b] => (u8 a mod 32) * 64 + u8 b mod 64
  | [a; b; d] => (u8 a mod 16) * 4096 + (u8 b mod 64) * 64 + u8 d mod 64
  | [a; b; d; e] =>
      (u8 a mod 8) * 262144 + (u8 b mod 64) * 4096 + (u8 d mod 64) * 64 + u8 e mod 64
  | _ => 0
  end.

Fixpoint hex_digits (fuel : nat) (n : Z) (acc : bytes) : bytes :=
  match fuel with
  | O => acc
  | S f =>
      let acc := lower_hex_digit (n mod 16) :: acc in
      if n <? 16 then acc else hex_digits f (n / 16) acc
  end.
(** [char::escape_unicode]; a scalar value has at most six hexadecimal digits. *)
Definition escape_unicode (code : Z) : str := x5c :: lit "u{" ++ hex_digits 6 code [] ++ lit "}".

Section Quote.
(** Whether a character outside ASCII is printed as it is: the standard library's
    tables of printable and of grapheme-extending characters. *)
Variable unicode_plain : Z → bool.

Definition char_plain (code : Z) : bool :=
  if code <? 128 then (32 <=? code) && (code <? 127) else unicode_plain code.
(** [char::escape_debug_ext] as [Debug for str] calls it. *)
Definition escape_debug (c : char) : str :=
  let code := char_code c in
  if code =? 0 then x5c :: lit "0"
  else if code =? 9 then x5c :: lit "t"
  else if code =? 13 then x5c :: lit "r"
  else if code =? 10 then x5c :: lit "n"
  else if code =? 92 then [x5c; x5c]
  else if code =? 34 then [x5c; x22]
  else if char_plain code then c
  else escape_unicode code.
(** [quote]. *)
Definition quote (s : str) : str := x22 :: flat_map escape_debug (str_chars s) ++ [x22].
End Quote.
Arguments quote : simpl never.

Example quote_values :
  quote (λ _, true) [x61; x22; x0a; xc3; xa9; x1b]
    = [x22; x61; x5c; x22; x5c; x6e; xc3; xa9] ++ x5c :: lit "u{1b}" ++ [x22].
Proof. reflexivity. Qed.

(** ** [base64] *)

Definition ALPHABET : bytes :=
  lit "ABCDEFGHIJKLMNOPQRSTUVWXYZabcdefghijklmnopqrstuvwxyz0123456789+/".

(** [data.chunks(3)]. *)
Fixpoint chunks3 (data : bytes) : list bytes :=
  match data with
  | a :: b :: c :: t => [a; b; c] :: chunks3 t
  | [] => []
  | last => [last]
  end.
(** The body of the loop. *)
Definition base64_chunk (s : str) (chunk : bytes) : total str :=
  let* c0 := index chunk 0 in
  let b0 := u8 c0 in
  let b1 := u8 (default x00 (get chunk 1)) in
  let b2 := u8 (default x00 (get chunk 2)) in
  let n := Z.lor (Z.lor (Z.shiftl b0 16) (Z.shiftl b1 8)) b2 in
  let* e0 := index ALPHABET (Z.land (Z.shiftr n 18) 63) in
  let* e1 := index ALPHABET (Z.land (Z.shiftr n 12) 63) in
  let* e2 := if 1 <? len chunk then index ALPHABET (Z.land (Z.shiftr n 6) 63) else Ok x3d in
  let* e3 := if 2 <? len chunk then index ALPHABET (Z.land n 63) else Ok x3d in
  Ok (s ++ [e0; e1; e2; e3]).
Fixpoint base64_loop (chunks : list bytes) (s : str) : total str :=
  match chunks with
  | [] => Ok s
  | chunk :: t => let* s := base64_chunk s chunk in base64_loop t s
  end.
Definition base64 (data : bytes) : total str := base64_loop (chunks3 data) [].

(** ** Dates *)

(** Arithmetic on [i64], overflow-checked. *)
Definition i64_chk (z : Z) : total Z :=
  if (i64_min <=? z) && (z <=? i64_max) then Ok z else Panic.

(** [civil_from_days]; [/] truncates. *)
Definition civil_from_days (days : Z) : total (Z * Z * Z) :=
  let* z := i64_chk (days + 719468) in
  let* n := if 0 <=? z then Ok z else i64_chk (z - 146096) in
  let era := Z.quot n 146097 in
  let* eras := i64_chk (era * 146097) in
  let* doe := i64_chk (z - eras) in
  let* yoe := i64_chk (doe - Z.quot doe 1460 + Z.quot doe 36524 - Z.quot doe 146096) in
  let yoe := Z.quot yoe 365 in
  let* y := i64_chk (yoe + era * 400) in
  let* doy := i64_chk (doe - (365 * yoe + Z.quot yoe 4 - Z.quot yoe 100)) in
  let mp := Z.quot (5 * doy + 2) 153 in
  let d := doy - Z.quot (153 * mp + 2) 5 + 1 in
  let m := if mp <? 10 then mp + 3 else mp - 9 in
  Ok (if m <=? 2 then y + 1 else y, m, d).

(** [format_datetime]; [div_euclid] and [rem_euclid] by a positive number round
    down, as [Z]'s division does. *)
Definition format_datetime (ms : Z) : total str :=
  let secs := ms / 1000 in
  let millis := ms mod 1000 in
  let days := secs / 86400 in
  let sod := secs mod 86400 in
  let* '(year, month, day) := civil_from_days days in
  let hh := Z.quot sod 3600 in
  let mm := Z.rem (Z.quot sod 60) 60 in
  let ss := Z.rem sod 60 in
  let date := pad0 4 year ++ lit "-" ++ pad0 2 month ++ lit "-" ++ pad0 2 day ++ lit "T" in
  let time := pad0 2 hh ++ lit ":" ++ pad0 2 mm ++ lit ":" ++ pad0 2 ss in
  Ok (date ++ time ++ (if millis =? 0 then [] else lit "." ++ pad0 3 millis) ++ lit "Z").

Example format_datetime_values :
  format_datetime 0 = Ok (lit "1970-01-01T00:00:00Z")
  ∧ format_datetime 951782399999 = Ok (lit "2000-02-28T23:59:59.999Z")
  ∧ format_datetime 951868799000 = Ok (lit "2000-02-29T23:59:59Z")
  ∧ format_datetime (-1) = Ok (lit "1969-12-31T23:59:59.999Z")
  ∧ format_datetime (-62198755200000) = Ok (lit "-001-01-01T00:00:00Z").
Proof. vm_compute. repeat split. Qed.

(** ** The proleptic Gregorian calendar, as the reference for dates *)

Definition leap (y : Z) : bool :=
  (y mod 4 =? 0) && (negb (y mod 100 =? 0) || (y mod 400 =? 0)).
Definition year_len (y : Z) : Z := if leap y then 366 else 365.
Definition month_len (y m : Z) : Z :=
  if m =? 2 then (if leap y then 29 else 28)
  else if (m =? 4) || (m =? 6) || (m =? 9) || (m =? 11) then 30 else 31.
(** Days from the epoch to the first of January of [y]. *)
Definition leaps_through (y : Z) : Z := y / 4 - y / 100 + y / 400.
Definition year_start (y : Z) : Z := 365 * (y - 1970) + leaps_through (y - 1) - 477.
(** Days from the first of January of [y] to the first of the month. *)
Definition month_start (y m : Z) : Z :=
  foldr Z.add 0 (map (λ i, month_len y (Z.of_nat i)) (seq 1 (Z.to_nat (m - 1)))).
Definition valid_date (y m d : Z) : Prop := 1 <= m <= 12 ∧ 1 <= d <= month_len y m.
Definition day_number (y m d : Z) : Z := year_start y + month_start y m + (d - 1).

Section Calendar.
#[local] Ltac Zify.zify_post_hook ::= Z.div_mod_to_equations.

(** [year_start] is determined by the epoch and the lengths of the years. *)
Lemma year_start_epoch : year_start 1970 = 0.
Proof. reflexivity. Qed.
Lemma year_start_succ y : year_start (y + 1) = year_start y + year_len y.
Proof.
  unfold year_start, leaps_through, year_len, leap. replace (y + 1 - 1) with y by lia.
  destruct (y mod 4 =? 0) eqn:E4, (y mod 100 =? 0) eqn:E100, (y mod 400 =? 0) eqn:E400;
    cbn [negb andb orb]; lia.
Qed.
Lemma month_start_12 y : month_start y 12 + month_len y 12 = year_len y.
Proof. unfold month_start, year_len. simpl. unfold month_len. simpl. destruct (leap y); lia. Qed.

(** The year within a 400-year era. *)
Lemma yoe_spec doe : 0 <= doe <= 146096 →
  let yoe := (doe - doe / 1460 + doe / 36524 - doe / 146096) / 365 in
  0 <= yoe <= 399 ∧ 365 * yoe + yoe / 4 - yoe / 100 <= doe
  ∧ doe < 365 * (yoe + 1) + (yoe + 1) / 4 - (yoe + 1) / 100 + (yoe + 1) / 400.
Proof.
  intros H yoe. subst yoe.
  assert (doe / 146096 = 0 ∨ doe = 146096) as [H1|H1] by lia; [rewrite H1|by subst].
  assert (0 <= doe / 36524 <= 4) by lia. split_and!; lia.
Qed.

(** Months counted from March: day [doy] of a year that starts in March. *)
Lemma month_from_march y doy : 0 <= doy → doy < 365 + (if leap (y + 1) then 1 else 0) →
  let mp := (5 * doy + 2) / 153 in
  let d := doy - (153 * mp + 2) / 5 + 1 in
  let m := if mp <? 10 then mp + 3 else mp - 9 in
  let y' := if m <=? 2 then y + 1 else y in
  valid_date y' m d ∧ day_number y' m d = year_start (y + 1) - 306 + doy.
Proof.
  intros H0 H1 mp d m y'. assert (0 <= mp <= 11) as Hmp by (destruct (leap (y + 1)); lia).
  assert (153 * mp <= 5 * doy + 2 < 153 * (mp + 1)) as Hb by lia.
  pose proof (year_start_succ y) as Hs. unfold year_len in Hs.
  assert (mp = 0 ∨ mp = 1 ∨ mp = 2 ∨ mp = 3 ∨ mp = 4 ∨ mp = 5 ∨ mp = 6 ∨ mp = 7 ∨ mp = 8
    ∨ mp = 9 ∨ mp = 10 ∨ mp = 11) as Hc by lia.
  unfold valid_date, day_number, y', m, d. clearbody mp. clear y' m d.
  destruct_or! Hc; subst mp; unfold month_start, month_len; simpl;
    destruct (leap y), (leap (y + 1)); lia.
Qed.

Lemma i64_chk_Ok z : in_i64 z → i64_chk z = Ok z.
Proof. unfold i64_chk. unfold_ranges. intros. by zif. Qed.

(** The truncating division of the shifted day count rounds down. *)
Lemma era_rounds_down z : - 2 ^ 62 <= z <= i64_max →
  ∃ n, (if 0 <=? z then Ok z else i64_chk (z - 146096)) = Ok n
    ∧ Z.quot n 146097 = z / 146097.
Proof.
  intros H. destruct (Z.leb_spec 0 z).
  - exists z. split; [done|]. by rewrite Z.quot_div_nonneg by lia.
  - exists (z - 146096). split; [by rewrite i64_chk_Ok by (unfold_ranges; lia)|].
    rewrite <- (Z.opp_involutive (z - 146096)), Z.quot_opp_l by lia.
    rewrite Z.quot_div_nonneg by lia. lia.
Qed.

(** Every day number whose arithmetic stays within [i64] is the date the
    reference calendar gives. *)
Lemma civil_from_days_spec days : - 2 ^ 61 <= days <= 2 ^ 62 →
  ∃ y m d, civil_from_days days = Ok (y, m, d) ∧ valid_date y m d ∧ day_number y m d = days.
Proof.
  intros H. unfold civil_from_days. set (z := days + 719468).
  rewrite (i64_chk_Ok z) by (unfold_ranges; lia). cbn [bind].
  set (era := z / 146097). set (doe := z mod 146097).
  destruct (era_rounds_down z) as (n & -> & Hera); [unfold_ranges; lia|]. fold era in Hera.
  cbn [bind]. rewrite Hera.
  assert (0 <= doe <= 146096) as Hdoe by lia.
  assert (z = era * 146097 + doe) as Hz by lia.
  rewrite i64_chk_Ok by (unfold_ranges; lia). cbn [bind].
  replace (z - era * 146097) with doe by lia. clearbody doe era.
  rewrite i64_chk_Ok by (unfold_ranges; lia). cbn [bind].
  rewrite !(Z.quot_div_nonneg doe) by lia.
  pose proof (yoe_spec doe Hdoe) as Hy. cbv zeta in Hy.
  set (g := doe - doe / 1460 + doe / 36524 - doe / 146096) in *.
  assert (0 <= g) by (unfold g; lia).
  rewrite i64_chk_Ok by (unfold g; unfold_ranges; lia). cbn [bind].
  rewrite (Z.quot_div_nonneg g) by lia. set (yoe := g / 365) in *. clearbody yoe.
  rewrite i64_chk_Ok by (unfold_ranges; lia). cbn [bind].
  rewrite !(Z.quot_div_nonneg yoe) by lia.
  set (doy := doe - (365 * yoe + yoe / 4 - yoe / 100)).
  assert (0 <= doy) as Hd0 by (unfold doy; lia).
  assert (doy < 365 + (if leap (yoe + era * 400 + 1) then 1 else 0)) as Hd1.
  { unfold doy, leap.
    destruct ((yoe + era * 400 + 1) mod 4 =? 0) eqn:E4,
      ((yoe + era * 400 + 1) mod 100 =? 0) eqn:E100,
      ((yoe + era * 400 + 1) mod 400 =? 0) eqn:E400; cbn [negb andb orb]; lia. }
  rewrite i64_chk_Ok by (unfold_ranges; lia). cbn [bind].
  rewrite (Z.quot_div_nonneg (5 * doy + 2)) by lia.
  rewrite (Z.quot_div_nonneg (153 * _ + 2)) by lia.
  destruct (month_from_march (yoe + era * 400) doy Hd0 Hd1) as [Hv Hn].
  do 3 eexists. split; [reflexivity|]. split; [exact Hv|]. rewrite Hn.
  unfold year_start, leaps_through, doy, z in *. lia.
Qed.

Lemma format_datetime_returns ms : in_i64 ms → ∃ s, format_datetime ms = Ok s.
Proof.
  intros H. destruct (civil_from_days_spec (ms / 1000 / 86400)) as (y & mo & d & E & _);
    [unfold_ranges; lia|]. unfold format_datetime. rewrite E. eauto.
Qed.

(** C32. Dates in logs.  Every [i64] of milliseconds renders without overflow, as
    the date of the proleptic Gregorian calendar and the time of day that
    together are that instant, with the milliseconds only when there are any. *)
Theorem log_datetime ms : in_i64 ms →
  ∃ y mo d hh mi ss, valid_date y mo d
    ∧ 0 <= hh < 24 ∧ 0 <= mi < 60 ∧ 0 <= ss < 60
    ∧ ms = 1000 * (86400 * day_number y mo d + 3600 * hh + 60 * mi + ss) + ms mod 1000
    ∧ format_datetime ms =
        Ok (pad0 4 y ++ lit "-" ++ pad0 2 mo ++ lit "-" ++ pad0 2 d ++ lit "T"
            ++ pad0 2 hh ++ lit ":" ++ pad0 2 mi ++ lit ":" ++ pad0 2 ss
            ++ (if ms mod 1000 =? 0 then [] else lit "." ++ pad0 3 (ms mod 1000)) ++ lit "Z").
Proof.
  intros H. set (secs := ms / 1000).
  destruct (civil_from_days_spec (secs / 86400)) as (y & mo & d & E & Hv & Hn);
    [unfold_ranges; lia|].
  set (sod := secs mod 86400). assert (0 <= sod < 86400) as Hsod by lia.
  exists y, mo, d, (sod / 3600), (sod / 60 mod 60), (sod mod 60).
  split; [done|]. split; [lia|]. split; [lia|]. split; [lia|]. split; [rewrite Hn; lia|].
  unfold format_datetime. fold secs sod. rewrite E. cbn [bind].
  rewrite !(Z.quot_div_nonneg sod), !Z.rem_mod_nonneg by lia.
  f_equal. by rewrite <- !app_assoc.
Qed.
End Calendar.
Lemma log_datetime_witness : ∃ y mo d hh mi ss, valid_date y mo d
  ∧ 0 <= hh < 24 ∧ 0 <= mi < 60 ∧ 0 <= ss < 60
  ∧ -1 = 1000 * (86400 * day_number y mo d + 3600 * hh + 60 * mi + ss) + -1 mod 1000
  ∧ format_datetime (-1) =
      Ok (pad0 4 y ++ lit "-" ++ pad0 2 mo ++ lit "-" ++ pad0 2 d ++ lit "T"
          ++ pad0 2 hh ++ lit ":" ++ pad0 2 mi ++ lit ":" ++ pad0 2 ss
          ++ (if -1 mod 1000 =? 0 then [] else lit "." ++ pad0 3 (-1 mod 1000)) ++ lit "Z").
Proof. exact (log_datetime (-1) ltac:(done)). Defined.

(** ** Base64 against RFC 4648 *)

(** The value of a digit of the standard alphabet. *)
Definition sextet (b : byte) : option Z :=
  let c := u8 b in
  if (65 <=? c) && (c <=? 90) then Some (c - 65)
  else if (97 <=? c) && (c <=? 122) then Some (c - 97 + 26)
  else if (48 <=? c) && (c <=? 57) then Some (c - 48 + 52)
  else if c =? 43 then Some 62
  else if c =? 47 then Some 63
  else None.
(** Groups of four digits are three bytes; the last group may be padded. *)
Fixpoint base64_decode (s : str) : option bytes :=
  match s with
  | [] => Some []
  | a :: b :: c :: d :: t =>
      match sextet a, sextet b, sextet c, sextet d with
      | Some a, Some b, Some c, Some d =>
          let n := a * 262144 + b * 4096 + c * 64 + d in
          app [of_u8 (n / 65536); of_u8 (n / 256); of_u8 n] <$> base64_decode t
      | Some a, Some b, Some c, None =>
          if bool_decide (d = x3d ∧ t = []) then
            let n := a * 262144 + b * 4096 + c * 64 in
            Some [of_u8 (n / 65536); of_u8 (n / 256)]
          else None
      | Some a, Some b, None, None =>
          if bool_decide (c = x3d ∧ d = x3d ∧ t = []) then
            Some [of_u8 ((a * 262144 + b * 4096) / 65536)]
          else None
      | _, _, _, _ => None
      end
  | _ => None
  end.

Lemma alphabet_digits : Forall (λ i,
  match get ALPHABET (Z.of_nat i) with
  | Some e => sextet e = Some (Z.of_nat i)
  | None => False
  end) (seq 0 64).
Proof. repeat (constructor; [reflexivity|]). constructor. Qed.

(** The table lookups never fail, and the digit denotes the six bits. *)
Lemma alphabet_lookup x : ∃ e,
  @index Empty_set _ ALPHABET (Z.land x 63) = Ok e ∧ sextet e = Some (x mod 64).
Proof.
  change 63 with (Z.ones 6). rewrite Z.land_ones by lia. change (2 ^ 6) with 64.
  pose proof (Z.mod_pos_bound x 64 ltac:(lia)) as H.
  pose proof (proj1 (Forall_forall _ _) alphabet_digits (Z.to_nat (x mod 64))) as Hd.
  cbv beta in Hd. rewrite Z2Nat.id in Hd by lia. unfold index.
  destruct (get ALPHABET (x mod 64)) as [e|]; [exists e; split; [done|]|exfalso];
    apply Hd, elem_of_seq; lia.
Qed.

Lemma shiftl_lor a b k : 0 <= k → 0 <= b < 2 ^ k → Z.lor (Z.shiftl a k) b = a * 2 ^ k + b.
Proof.
  intros Hk Hb. assert (Z.land (Z.shiftl a k) b = 0) as H0.
  { apply Z.bits_inj'. intros n Hn. rewrite Z.land_spec, Z.bits_0.
    destruct (decide (n < k)).
    - by rewrite Z.shiftl_spec_low.
    - destruct (decide (b = 0)) as [->|]; [by rewrite Z.bits_0, andb_false_r|].
      rewrite (Z.bits_above_log2 b n), andb_false_r; [done|lia|].
      apply Z.log2_lt_pow2; [lia|].
      apply Z.lt_le_trans with (2 ^ k); [lia|]. apply Z.pow_le_mono_r; lia. }
  rewrite <- Z.lxor_lor, <- Z.add_nocarry_lxor by done. by rewrite Z.shiftl_mul_pow2.
Qed.
Lemma pack_bytes a b c :
  Z.lor (Z.lor (Z.shiftl (u8 a) 16) (Z.shiftl (u8 b) 8)) (u8 c)
    = u8 a * 65536 + u8 b * 256 + u8 c.
Proof.
  pose proof (u8_range a). pose proof (u8_range b). pose proof (u8_range c).
  replace (Z.shiftl (u8 a) 16) with (Z.shiftl (Z.shiftl (u8 a) 8) 8)
    by (by rewrite Z.shiftl_shiftl).
  rewrite <- Z.shiftl_lor, shiftl_lor by lia. rewrite shiftl_lor by lia. lia.
Qed.

Section Base64.
#[local] Ltac Zify.zify_post_hook ::= Z.div_mod_to_equations.

Lemma of_u8_eq z b : z mod 256 = u8 b → of_u8 z = b.
Proof. intros H. apply u8_inj. by rewrite u8_of_u8. Qed.

(** One group: four characters that decode to the chunk, whatever complete
    groups follow a full chunk. *)
Lemma base64_chunk_spec s chunk : 1 <= len chunk <= 3 → ∃ q, len q = 4 ∧
  base64_chunk s chunk = Ok (s ++ q) ∧
  ∀ t, (len chunk = 3 ∨ t = []) →
    base64_decode (q ++ t) = app chunk <$> base64_decode t.
Proof.
  intros Hl. unfold base64_chunk.
  set (b1 := default x00 (get chunk 1)). set (b2 := default x00 (get chunk 2)).
  destruct (get_lt chunk 0) as [a Ha]; [lia|]. unfold index at 1. rewrite Ha. cbn [expect bind].
  rewrite pack_bytes, !Z.shiftr_div_pow2 by lia.
  set (n := u8 a * 65536 + u8 b1 * 256 + u8 b2).
  pose proof (u8_range a) as Ra. pose proof (u8_range b1) as R1. pose proof (u8_range b2) as R2.
  destruct (alphabet_lookup (n / 2 ^ 18)) as (e0 & -> & H0).
  destruct (alphabet_lookup (n / 2 ^ 12)) as (e1 & -> & H1).
  destruct (alphabet_lookup (n / 2 ^ 6)) as (e2 & -> & H2).
  destruct (alphabet_lookup n) as (e3 & -> & H3).
  change (2 ^ 18) with 262144 in *. change (2 ^ 12) with 4096 in *. change (2 ^ 6) with 64 in *.
  destruct chunk as [|a' [|b [|c [|x r]]]]; try (len_tac; fail); injection Ha as ->;
    compute in b1, b2; subst b1 b2; cbn [bind len length Z.of_nat Z.ltb Z.compare Pos.of_succ_nat
      Pos.succ Pos.compare Pos.compare_cont]; eexists; (split; [|split; [reflexivity|]]); try done;
    intros t Ht; [destruct Ht as [Ht| ->]; [done|]|destruct Ht as [Ht| ->]; [done|]|];
    cbn -[Z.div Z.modulo Z.mul Z.add u8 of_u8]; rewrite H0, H1, ?H2, ?H3;
    change (sextet x3d) with (@None Z); cbv iota;
    rewrite ?bool_decide_eq_true_2 by done; change (u8 x00) with 0 in n.
  - do 2 f_equal. apply of_u8_eq. subst n. lia.
  - do 2 f_equal; [|f_equal]; apply of_u8_eq; subst n; lia.
  - rewrite (of_u8_eq (_ / 65536) a), (of_u8_eq (_ / 256) b), (of_u8_eq _ c)
      by (subst n; lia). done.
Qed.

Lemma base64_loop_spec data : ∀ s, ∃ r, base64_loop (chunks3 data) s = Ok (s ++ r)
  ∧ base64_decode r = Some data ∧ len r = 4 * ((len data + 2) / 3).
Proof.
  induction data as [data IH] using (induction_ltof1 _ (@length byte)). unfold ltof in IH.
  intros s. destruct data as [|a [|b [|c t]]]; cbn [chunks3 base64_loop].
  - exists []. by rewrite app_nil_r.
  - destruct (base64_chunk_spec s [a]) as (q & Hq & -> & Hd); [done|]. exists q.
    specialize (Hd [] (or_intror eq_refl)). by rewrite app_nil_r in Hd.
  - destruct (base64_chunk_spec s [a; b]) as (q & Hq & -> & Hd); [done|]. exists q.
    specialize (Hd [] (or_intror eq_refl)). by rewrite app_nil_r in Hd.
  - destruct (base64_chunk_spec s [a; b; c]) as (q & Hq & -> & Hd); [done|]. cbn [bind].
    destruct (IH t ltac:(simpl; lia) (s ++ q)) as (r & -> & Hr & Hlen).
    exists (q ++ r). rewrite app_assoc, Hd, Hr by (by left). split; [done|]. split; [done|].
    rewrite len_app, Hq, Hlen, !len_cons. lia.
Qed.
End Base64.

(** ** Rendered text has no control characters *)

(** Neither a control character nor DEL. *)
Definition printing (b : byte) : Prop := 32 <= u8 b ∧ u8 b ≠ 127.
Definition clean (s : str) : Prop := Forall printing s.
#[export] Instance printing_dec b : Decision (printing b).
Proof. unfold printing. apply _. Defined.

Lemma clean_app s t : clean (s ++ t) ↔ clean s ∧ clean t.
Proof. apply Forall_app. Qed.
Lemma clean_cons b s : clean (b :: s) ↔ printing b ∧ clean s.
Proof. apply Forall_cons. Qed.
Lemma clean_nil : clean [].
Proof. constructor. Qed.
Lemma clean_digits s : Forall (λ b, 48 <= u8 b <= 57) s → clean s.
Proof.
  intros H. eapply Forall_impl; [exact H|]. intros b Hb. unfold printing. simpl in Hb. lia.
Qed.
Lemma clean_dec n : clean (dec_bytes n).
Proof. apply clean_digits, dec_bytes_digits. Qed.
Lemma clean_zeros n : clean (replicate n x30).
Proof. apply Forall_replicate. by compute. Qed.
Lemma clean_takeZ n s : clean s → clean (takeZ n s).
Proof. apply Forall_take. Qed.
Lemma clean_dropZ n s : clean s → clean (dropZ n s).
Proof. apply Forall_drop. Qed.
#[export] Hint Resolve clean_nil clean_dec clean_zeros clean_takeZ clean_dropZ : clean.

(** Split a concatenation, evaluate literals, use the database for the rest. *)
Ltac clean_tac :=
  repeat match goal with
  | |- clean (_ ++ _) => apply clean_app; split
  | |- clean (lit _) => apply (bool_decide_unpack _); by vm_compute
  | |- clean (if _ then _ else _) => case_match
  | |- clean (_ :: _) => apply clean_cons; split
  | |- printing _ => first [ apply (bool_decide_unpack _); by vm_compute | done ]
  | |- clean _ => solve [eauto with clean]
  end.

Lemma clean_int z : clean (int_bytes z).
Proof. unfold int_bytes. clean_tac. Qed.
Lemma clean_pad0 w z : clean (pad0 w z).
Proof. unfold pad0. clean_tac. Qed.
Lemma clean_dec_str buf e : clean buf → clean (digits_to_dec_str buf e).
Proof. intros. unfold digits_to_dec_str. clean_tac. Qed.
#[export] Hint Resolve clean_int clean_pad0 clean_dec_str : clean.

Lemma clean_f64 v : clean (format_f64 v).
Proof.
  assert (clean (f64_display v)) as H.
  { unfold f64_display. destruct (format_shortest (flt2dec_decode v)) as [d k]. clean_tac. }
  unfold format_f64. clean_tac.
Qed.

Lemma lower_hex_digit_printing n : 0 <= n < 16 → printing (lower_hex_digit n).
Proof.
  intros. unfold lower_hex_digit, printing. rewrite u8_of_u8.
  case_match; zbool; rewrite Z.mod_small; lia.
Qed.
Lemma clean_hex b : clean (hex b).
Proof.
  induction b as [|x b IH]; [constructor|]. cbn [hex flat_map]. apply clean_app.
  split; [|done]. pose proof (u8_range x). unfold lower_hex.
  apply clean_cons; split; [|apply clean_cons; split; [|apply clean_nil]];
    apply lower_hex_digit_printing;
    [split; [apply Z.div_pos|apply Z.div_lt_upper_bound]; lia|apply Z.mod_pos_bound; lia].
Qed.
Lemma clean_hex_digits fuel : ∀ n acc, clean acc → clean (hex_digits fuel n acc).
Proof.
  induction fuel as [|fuel IH]; intros n acc H; cbn [hex_digits]; [done|].
  assert (clean (lower_hex_digit (n mod 16) :: acc)).
  { apply clean_cons. split; [|done]. apply lower_hex_digit_printing, Z.mod_pos_bound. lia. }
  case_match; auto.
Qed.
#[export] Hint Resolve clean_f64 clean_hex clean_hex_digits : clean.

Lemma alphabet_clean i e : @index Empty_set _ ALPHABET i = Ok e → printing e.
Proof.
  unfold index, expect. destruct (get ALPHABET i) as [x|] eqn:E; [intros [= ->]|done].
  unfold get in E. case_match; [done|]. assert (clean ALPHABET) as Ha by (unfold ALPHABET; clean_tac).
  exact (Forall_lookup_1 _ _ _ _ Ha E).
Qed.
Lemma clean_base64_loop chunks : ∀ s r, clean s → base64_loop chunks s = Ok r → clean r.
Proof.
  induction chunks as [|c chunks IH]; intros s r Hs H; cbn [base64_loop] in H; [by inv_ok|].
  apply bind_Ok_inv in H as (s' & Hc & H). apply (IH s' r); [|done].
  unfold base64_chunk in Hc. inv_ok;
    repeat match goal with H : index ALPHABET _ = Ok _ |- _ => apply alphabet_clean in H end;
    clean_tac.
Qed.
Lemma clean_base64 data s : base64 data = Ok s → clean s.
Proof. apply clean_base64_loop. constructor. Qed.
#[export] Hint Resolve clean_base64 : clean.

Lemma clean_datetime ms s : format_datetime ms = Ok s → clean s.
Proof.
  unfold format_datetime. intros H. apply bind_Ok_inv in H as ([[y m] d] & _ & H). inv_ok.
  clean_tac.
Qed.
#[export] Hint Resolve clean_datetime : clean.

(** ** Quoting *)

(** A character of a valid string is one ASCII byte or bytes above ASCII. *)
Definition char_bytes (c : char) : Prop :=
  (∃ b, c = [b] ∧ u8 b < 128) ∨ Forall (λ b, 128 <= u8 b) c.

Lemma next_char_valid s off c rest :
  utf8_error s off = None → next_char s = Some (c, rest) →
  char_bytes c ∧ (length rest < length s)%nat ∧ ∃ off', utf8_error rest off' = None.
Proof.
  destruct s as [|b0 t]; [done|]. intros H. cbn [next_char]. intros [= <- <-].
  cbn [utf8_error] in H. unfold is_cont, second_ok3, second_ok4, between in H.
  repeat (case_match; try done); zbool; try lia;
    try (rewrite !orb_true_iff, !andb_true_iff, !Z.leb_le in *; lia);
    unfold takeZ, dropZ;
    change (Z.to_nat 1) with 1%nat; change (Z.to_nat 2) with 2%nat;
    change (Z.to_nat 3) with 3%nat; change (Z.to_nat 4) with 4%nat;
    cbn [take drop]; rewrite ?take_0, ?drop_0; (split; [|split; [simpl; lia|eauto]]).
  - left. eauto.
  - right. repeat constructor; lia.
  - right. repeat constructor; lia.
  - right. repeat constructor; lia.
Qed.

Lemma str_chars_valid s : valid_utf8 s = true → Forall char_bytes (str_chars s).
Proof.
  unfold valid_utf8, str_chars. intros H.
  assert (∃ off, utf8_error s off = None) as [off He] by (exists 0; by destruct (utf8_error s 0)).
  clear H. revert s off He. assert (∀ fuel s off, utf8_error s off = None →
    Forall char_bytes (chars_loop fuel s)) as G; [|eauto].
  induction fuel as [|fuel IH]; intros s off He; cbn [chars_loop]; [constructor|].
  destruct (next_char s) as [[c rest]|] eqn:E; [|constructor].
  destruct (next_char_valid s off c rest He E) as (Hc & _ & off' & Hr). constructor; eauto.
Qed.

Section QuoteClean.
Variable unicode_plain : Z → bool.

Lemma clean_escape_debug c : char_bytes c → clean (escape_debug unicode_plain c).
Proof.
  intros Hc. unfold escape_debug, escape_unicode.
  repeat case_match; try clean_tac.
  destruct Hc as [(b & -> & Hb)|Hc].
  - cbn [char_code] in *. unfold char_plain in *. apply clean_cons.
    split; [|apply clean_nil]. case_match; zbool; [|lia]. unfold printing. lia.
  - eapply Forall_impl; [exact Hc|]. intros b Hb. simpl in Hb. unfold printing. lia.
Qed.
Lemma clean_quote s : valid_utf8 s = true → clean (quote unicode_plain s).
Proof.
  intros H. unfold quote. apply clean_cons. split; [clean_tac|]. apply clean_app.
  split; [|clean_tac]. pose proof (str_chars_valid s H) as Hc.
  induction Hc as [|c l Hc _ IH]; [apply clean_nil|]. cbn [flat_map].
  apply clean_app. split; [by apply clean_escape_debug|done].
Qed.
End QuoteClean.
#[export] Hint Resolve clean_quote : clean.
