(* ===== verification/LogQuote.v ===== *)
(** * Quoted text reads back

    [quote] in [wirebson/src/encode.rs] is the [Debug] rendering of a string.
    Reading a quoted text back gives the string, whichever non-ASCII characters
    the standard library prints as they are: log lines are unambiguous. *)
From stdpp Require Import base list numbers strings.
From Stdlib Require Import ZArith Lia.
From S2P Require Import Prelude Utf8 StrOps Io Consts BsonScalar F64 LogText.
Local Open Scope Z_scope.

(** ** Characters *)

(** A scalar value in UTF-8. *)
Definition utf8_encode (code : Z) : char :=
  if code <? 128 then [of_u8 code]
  else if code <? 2048 then [of_u8 (192 + code / 64); of_u8 (128 + code mod 64)]
  else if code <? 65536 then
    [of_u8 (224 + code / 4096); of_u8 (128 + code / 64 mod 64); of_u8 (128 + code mod 64)]
  else
    [of_u8 (240 + code / 262144); of_u8 (128 + code / 4096 mod 64);
     of_u8 (128 + code / 64 mod 64); of_u8 (128 + code mod 64)].

(** The well-formed sequences of the Unicode standard. *)
Definition valid_char (c : char) : bool :=
  match c with
  | [b] => between 0 127 b
  | [b0; b1] => between 194 223 b0 && is_cont b1
  | [b0; b1; b2] => second_ok3 b0 b1 && is_cont b2
  | [b0; b1; b2; b3] => second_ok4 b0 b1 && is_cont b2 && is_cont b3
  | _ => false
  end.

#[local] Ltac u8_ranges := repeat match goal with
  | b : byte |- _ => lazymatch goal with
                     | _ : 0 <= u8 b < 256 |- _ => fail
                     | _ => pose proof (u8_range b)
                     end
  end.
#[local] Ltac utf8_cases := unfold second_ok3, second_ok4, is_cont, between in *;
  repeat match goal with
  | H : (_ && _) = true |- _ => apply andb_true_iff in H as [? ?]
  | H : (_ || _) = true |- _ => apply orb_true_iff in H as [?|?]
  end; zbool; u8_ranges.

Section Scalars.
#[local] Ltac Zify.zify_post_hook ::= Z.div_mod_to_equations.

Lemma char_code_range c : valid_char c = true → 0 <= char_code c < 16 ^ 6.
Proof.
  intros Hc. destruct c as [|b0 [|b1 [|b2 [|b3 [|]]]]]; try done; cbn [valid_char] in Hc;
    utf8_cases; cbn [char_code]; lia.
Qed.

Lemma utf8_encode_code c : valid_char c = true → utf8_encode (char_code c) = c.
Proof.
  intros Hc. destruct c as [|b0 [|b1 [|b2 [|b3 [|]]]]]; try done; cbn [valid_char] in Hc;
    utf8_cases; cbn [char_code]; unfold utf8_encode; repeat zif;
    repeat (f_equal; try (apply of_u8_eq; lia)).
Qed.
End Scalars.

(** The first character of a valid string. *)
Lemma utf8_first s off : s ≠ [] → utf8_error s off = None → ∃ c rest off',
  next_char s = Some (c, rest) ∧ s = c ++ rest ∧ valid_char c = true ∧ utf8_error rest off' = None.
Proof.
  assert (∀ c rest, valid_char c = true → next_char (c ++ rest) = Some (c, rest)) as Hn.
  { intros c rest Hc. destruct c as [|b0 [|b1 [|b2 [|b3 [|]]]]]; try done; cbn [valid_char] in Hc;
      utf8_cases; unfold next_char; cbn [app]; repeat zif; reflexivity. }
  intros Hne He.
  assert (∃ c rest off', s = c ++ rest ∧ valid_char c = true ∧ utf8_error rest off' = None)
    as (c & rest & off' & -> & Hc & Hr).
  { destruct s as [|b0 t0]; [done|]. cbn [utf8_error] in He. repeat case_match; try done.
    - exists [b0]. eauto.
    - eexists [b0; _], _, _. split; [done|]. split; [|exact He]. cbn [valid_char]. by apply andb_true_iff.
    - eexists [b0; _; _], _, _. split; [done|]. split; [|exact He]. cbn [valid_char]. by apply andb_true_iff.
    - eexists [b0; _; _; _], _, _. split; [done|]. split; [|exact He]. cbn [valid_char].
      by rewrite !andb_true_iff. }
  exists c, rest, off'. split; [by apply Hn|done].
Qed.

(** A valid string is the concatenation of valid characters, which [chars] finds. *)
Lemma utf8_chars fuel : ∀ s off, (length s <= fuel)%nat → utf8_error s off = None →
  concat (chars_loop fuel s) = s ∧ Forall (λ c, valid_char c = true) (chars_loop fuel s).
Proof.
  induction fuel as [|fuel IH]; intros s off Hf He; [by destruct s; [|simpl in Hf; lia]|].
  destruct (decide (s = [])) as [->|Hne]; [by simpl|].
  destruct (utf8_first s off Hne He) as (c & rest & off' & Hn & Hs & Hc & Hr).
  cbn [chars_loop]. rewrite Hn.
  assert (1 <= length c)%nat as Hl by (destruct c; [done|simpl; lia]).
  destruct (IH rest off') as [E F]; [rewrite Hs, length_app in Hf; lia|done|].
  split; [cbn [concat]; by rewrite E|by constructor].
Qed.

(** ** Reading quoted text *)

(** The single-letter escapes. *)
Definition simple_escape (e : byte) : option byte :=
  if u8 e =? 48 then Some x00 else if u8 e =? 116 then Some x09
  else if u8 e =? 114 then Some x0d else if u8 e =? 110 then Some x0a
  else if u8 e =? 92 then Some x5c else if u8 e =? 34 then Some x22
  else None.
(** The text up to the closing quote, which ends it; [hex] is the value read so
    far inside a braced escape. *)
Fixpoint unescape (hex : option Z) (s : bytes) : option bytes :=
  match s with
  | [] => None
  | b :: t =>
      match hex with
      | Some n =>
          if u8 b =? 125 then app (utf8_encode n) <$> unescape None t
          else match hex_digit b with Some d => unescape (Some (n * 16 + d)) t | None => None end
      | None =>
          if u8 b =? 34 then match t with [] => Some [] | _ => None end
          else if u8 b =? 92 then
            match t with
            | e :: t' =>
                if u8 e =? 117 then
                  match t' with
                  | brace :: t'' => if u8 brace =? 123 then unescape (Some 0) t'' else None
                  | [] => None
                  end
                else match simple_escape e with
                     | Some c => cons c <$> unescape None t'
                     | None => None
                     end
            | [] => None
            end
          else cons b <$> unescape None t
      end
  end.
Definition unquote (s : str) : option str :=
  match s with
  | b :: t => if u8 b =? 34 then unescape None t else None
  | [] => None
  end.

Lemma hex_digit_lower n : 0 <= n < 16 →
  hex_digit (lower_hex_digit n) = Some n ∧ u8 (lower_hex_digit n) ≠ 125.
Proof.
  intros Hn. assert (n ∈ seqZ 0 16) as Hin by (apply elem_of_seqZ; lia).
  clear Hn. revert n Hin. apply Forall_forall. cbn. repeat (constructor; [by vm_compute|]). constructor.
Qed.

Lemma hex_digits_app fuel : ∀ n acc x, hex_digits fuel n acc ++ x = hex_digits fuel n (acc ++ x).
Proof. induction fuel as [|f IH]; intros n acc x; [done|]. cbn [hex_digits]. by case_match; rewrite ?IH. Qed.

(** The digits of a braced escape. *)
Lemma unescape_hex fuel : ∀ n acc, 0 <= n < 16 ^ Z.of_nat fuel → (0 < fuel)%nat →
  unescape (Some 0) (hex_digits fuel n acc) = unescape (Some n) acc.
Proof.
  induction fuel as [|f IH]; intros n acc Hn Hf; [lia|]. cbn [hex_digits].
  pose proof (Z.mod_pos_bound n 16 ltac:(lia)) as Hm. pose proof (Z.div_mod n 16 ltac:(lia)) as Hd.
  destruct (hex_digit_lower (n mod 16) Hm) as [Hx Hne]. destruct (Z.ltb_spec n 16) as [Hlt|Hge].
  - cbn [unescape]. zif. rewrite Hx. do 2 f_equal. rewrite Z.mod_small; lia.
  - rewrite Nat2Z.inj_succ, Z.pow_succ_r in Hn by lia.
    rewrite IH; [|split; [apply Z.div_pos; lia|apply Z.div_lt_upper_bound; lia]|].
    + cbn [unescape]. zif. rewrite Hx. do 2 f_equal. lia.
    + destruct f; [|lia]. change (16 ^ Z.of_nat 0) with 1 in Hn. lia.
Qed.

Section Quote.
Variable unicode_plain : Z → bool.

(** A character that is none of the special ones reads as its bytes. *)
Lemma unescape_plain c rest : valid_char c = true → char_code c ≠ 34 → char_code c ≠ 92 →
  unescape None (c ++ rest) = app c <$> unescape None rest.
Proof.
  intros Hc H1 H2. destruct c as [|b0 [|b1 [|b2 [|b3 [|]]]]]; try done; cbn [valid_char] in Hc;
    cbn [char_code] in H1, H2; utf8_cases; cbn [app unescape]; repeat zif;
    by destruct (unescape None rest).
Qed.

Lemma unescape_char c rest : valid_char c = true →
  unescape None (escape_debug unicode_plain c ++ rest) = app c <$> unescape None rest.
Proof.
  intros Hc. pose proof (char_code_range c Hc) as Hr. pose proof (utf8_encode_code c Hc) as He.
  unfold escape_debug.
  repeat match goal with |- context [if char_code c =? ?k then _ else _] =>
    destruct (Z.eqb_spec (char_code c) k) as [Hk|?];
      [rewrite Hk in He; rewrite <- He; cbn; by destruct (unescape None rest)|]
  end.
  case_match; [by apply unescape_plain|]. unfold escape_unicode. rewrite <- app_comm_cons, <- !app_assoc.
  rewrite hex_digits_app. set (x := hex_digits 6 _ _).
  change (unescape None (x5c :: lit "u{" ++ x)) with (unescape (Some 0) x). subst x.
  rewrite (unescape_hex 6) by (simpl; lia). cbn. by rewrite He.
Qed.

Lemma unescape_chars cs rest : Forall (λ c, valid_char c = true) cs →
  unescape None (flat_map (escape_debug unicode_plain) cs ++ rest)
  = app (concat cs) <$> unescape None rest.
Proof.
  induction 1 as [|c cs Hc _ IH]; cbn [flat_map concat app]; [by destruct (unescape None rest)|].
  rewrite <- app_assoc, unescape_char, IH by done. destruct (unescape None rest); [|done].
  simpl. by rewrite app_assoc.
Qed.

Lemma unquote_quote s : valid_utf8 s = true → unquote (quote unicode_plain s) = Some s.
Proof.
  unfold valid_utf8. destruct (utf8_error s 0) eqn:He; [done|]. intros _.
  destruct (utf8_chars (length s) s 0 (le_n _) He) as [Hcat Hall].
  unfold quote, unquote, str_chars. change (u8 x22 =? 34) with true. cbv iota.
  rewrite unescape_chars, Hcat by exact Hall.
  change (unescape None [x22]) with (Some (@nil byte)). simpl. by rewrite app_nil_r.
Qed.
End Quote.

(** C31. Text in log lines reads back.  Quoting a string and unquoting it gives
    the string, whatever characters it has and whichever of them are printed as
    they are, so different strings are logged differently; and the base64 of
    binary data is RFC 4648's: on any bytes the encoder returns four characters
    for every three bytes begun, which decode to the bytes. *)
Theorem log_text_reads_back unicode_plain s data : valid_utf8 s = true →
  unquote (quote unicode_plain s) = Some s
  ∧ ∃ e, base64 data = Ok e ∧ base64_decode e = Some data ∧ len e = 4 * ((len data + 2) / 3).
Proof. intros Hs. split; [by apply unquote_quote|apply base64_loop_spec]. Qed.
Lemma log_text_reads_back_witness :
  unquote (quote (λ _, false) [x61; x22; x0a; xc3; xa9; x1b; xf0; x9f; x98; x80])
  = Some [x61; x22; x0a; xc3; xa9; x1b; xf0; x9f; x98; x80].
Proof.
  apply (log_text_reads_back (λ _, false) [x61; x22; x0a; xc3; xa9; x1b; xf0; x9f; x98; x80] []).
  vm_compute. reflexivity.
Defined.
