(* ===== verification/LogDouble.v ===== *)
(** * Doubles in log lines read back

    [format_f64] in [wirebson/src/encode.rs] prints a double with the standard
    library's shortest rendering.  The search for the shortest digits ends within
    its fuel, the digits lie in the rounding interval of the double, and none at a
    coarser position do; a decimal lies in that interval exactly when it rounds to
    the double, so the printed text reads back as the double and is the coarsest
    that does. *)
From stdpp Require Import base list numbers strings.
From Stdlib Require Import ZArith Lia.
From S2P Require Import Prelude Utf8 StrOps Io Consts BsonScalar F64 LogText.
Local Open Scope Z_scope.

(** ** The search *)

(** At position [10 ^ k] the value is [dec_mant d * unit / scale]. *)
Definition unit_at (e k : Z) : Z := 2 ^ Z.max 0 e * 10 ^ Z.max 0 (- k).
Definition scale_at (e k : Z) : Z := 2 ^ Z.max 0 (- e) * 10 ^ Z.max 0 k.
Lemma unit_at_pos e k : 0 < unit_at e k.
Proof. unfold unit_at. apply Z.mul_pos_pos; apply Z.pow_pos_nonneg; lia. Qed.
Lemma scale_at_pos e k : 0 < scale_at e k.
Proof. unfold scale_at. apply Z.mul_pos_pos; apply Z.pow_pos_nonneg; lia. Qed.

(** The decimal [n * 10 ^ k] lies in the rounding interval. *)
Definition within (d : Decoded) (a b : Z) : bool := (a <? b) || (dec_inclusive d && (a =? b)).
Definition in_interval (d : Decoded) (n k : Z) : Prop :=
  let unit := unit_at (dec_exp d) k in
  let scale := scale_at (dec_exp d) k in
  within d (dec_mant d * unit - n * scale) (dec_minus d * unit) = true
  ∧ within d (n * scale - dec_mant d * unit) (dec_plus d * unit) = true.

Lemma within_spec d a b : within d a b = true ↔ a < b ∨ (dec_inclusive d = true ∧ a = b).
Proof. unfold within. destruct (dec_inclusive d); rewrite orb_true_iff, Z.ltb_lt; simpl; [rewrite Z.eqb_eq|]; naive_solver. Qed.

(** The step of the search, in these terms. *)
Lemma shortest_from_unfold fuel d k :
  shortest_from fuel d k =
  let unit := unit_at (dec_exp d) k in
  let scale := scale_at (dec_exp d) k in
  let q := dec_mant d * unit / scale in
  let r := dec_mant d * unit mod scale in
  let down := within d r (dec_minus d * unit) in
  let up := within d (scale - r) (dec_plus d * unit) in
  if down || up then (if up && (negb down || (scale <=? 2 * r)) then q + 1 else q, k)
  else match fuel with O => (q, k) | S fuel => shortest_from fuel d (k - 1) end.
Proof. by destruct fuel. Qed.

Section Step.
Context (d : Decoded) (k : Z) (Hminus : 1 <= dec_minus d) (Hplus : 1 <= dec_plus d).
Let unit := unit_at (dec_exp d) k.
Let scale := scale_at (dec_exp d) k.
Let q := dec_mant d * unit / scale.
Let r := dec_mant d * unit mod scale.

Lemma step_division : dec_mant d * unit = q * scale + r ∧ 0 <= r < scale ∧ 0 < unit ∧ 0 < scale.
Proof.
  assert (0 < unit) by apply unit_at_pos. assert (0 < scale) by apply scale_at_pos.
  pose proof (Z.div_mod (dec_mant d * unit) scale). pose proof (Z.mod_pos_bound (dec_mant d * unit) scale).
  unfold q, r. lia.
Qed.
Lemma down_in_interval : within d r (dec_minus d * unit) = true → in_interval d q k.
Proof.
  destruct step_division as (E & Hr & Hu & Hs). intros H. unfold in_interval. fold unit scale.
  replace (dec_mant d * unit - q * scale) with r by lia. split; [done|]. apply within_spec. left. nia.
Qed.
Lemma up_in_interval : within d (scale - r) (dec_plus d * unit) = true → in_interval d (q + 1) k.
Proof.
  destruct step_division as (E & Hr & Hu & Hs). intros H. unfold in_interval. fold unit scale.
  replace ((q + 1) * scale - dec_mant d * unit) with (scale - r) by lia. split; [|done].
  apply within_spec. left. nia.
Qed.
Lemma neither_in_interval n : within d r (dec_minus d * unit) = false →
  within d (scale - r) (dec_plus d * unit) = false → ¬ in_interval d n k.
Proof.
  destruct step_division as (E & Hr & Hu & Hs). intros Hd Hp [H1 H2].
  fold unit scale in H1, H2. rewrite within_spec in H1, H2.
  assert (¬ (r < dec_minus d * unit ∨ (dec_inclusive d = true ∧ r = dec_minus d * unit))) as Hd'.
  { rewrite <- within_spec. by rewrite Hd. }
  assert (¬ (scale - r < dec_plus d * unit ∨ (dec_inclusive d = true ∧ scale - r = dec_plus d * unit))) as Hp'.
  { rewrite <- within_spec. by rewrite Hp. }
  destruct (Z.le_gt_cases n q).
  - assert (n * scale <= q * scale) by nia. apply Hd'.
    destruct H1 as [H1|[Hi H1]]; [left; lia|]. destruct (Z.eq_dec r (dec_minus d * unit)); [by right|left; lia].
  - assert ((q + 1) * scale <= n * scale) by nia. apply Hp'.
    destruct H2 as [H2|[Hi H2]]; [left; lia|].
    destruct (Z.eq_dec (scale - r) (dec_plus d * unit)); [by right|left; lia].
Qed.
(** A position no coarser than half the gap below ends the search. *)
Lemma fine_ends : scale <= unit → within d r (dec_minus d * unit) = true.
Proof. destruct step_division as (E & Hr & Hu & Hs). intros H. apply within_spec. left. nia. Qed.
End Step.

Lemma shortest_from_spec fuel d : 1 <= dec_minus d → 1 <= dec_plus d → ∀ k,
  scale_at (dec_exp d) (k - Z.of_nat fuel) <= unit_at (dec_exp d) (k - Z.of_nat fuel) →
  let '(n, k') := shortest_from fuel d k in
  in_interval d n k' ∧ k' <= k ∧ ∀ j m, k' < j <= k → ¬ in_interval d m j.
Proof.
  intros Hm Hp. induction fuel as [|fuel IH]; intros k Hf; rewrite shortest_from_unfold; cbv zeta.
  - replace (k - Z.of_nat 0) with k in Hf by lia. rewrite (fine_ends d k Hm Hf). cbn [orb].
    destruct (_ && _) eqn:E.
    + apply andb_true_iff in E as [E _]. split; [by apply up_in_interval|]. split; [lia|]. intros; lia.
    + split; [apply down_in_interval; [done..|by apply fine_ends]|]. split; [lia|]. intros; lia.
  - destruct (within d _ (dec_minus d * _)) eqn:Ed; [|destruct (within d _ (dec_plus d * _)) eqn:Eu].
    + cbn [orb]. destruct (_ && _) eqn:E.
      * apply andb_true_iff in E as [E _]. split; [by apply up_in_interval|]. split; [lia|]. intros; lia.
      * split; [by apply down_in_interval|]. split; [lia|]. intros; lia.
    + cbn [orb andb negb]. split; [by apply up_in_interval|]. split; [lia|]. intros; lia.
    + cbn [orb]. specialize (IH (k - 1)). replace (k - 1 - Z.of_nat fuel) with (k - Z.of_nat (S fuel)) in IH by lia.
      specialize (IH Hf). destruct (shortest_from fuel d (k - 1)) as [n k']. destruct IH as (Hi & Hk & Hc).
      split; [done|]. split; [lia|]. intros j m Hj. destruct (Z.eq_dec j k) as [->|].
      * by apply neither_in_interval.
      * apply Hc. lia.
Qed.

(** ** Enough fuel *)

Lemma scale_at_le e e' k : e <= e' → scale_at e' k <= scale_at e k.
Proof.
  intros He. apply Z.mul_le_mono_nonneg_r; [apply Z.pow_nonneg; lia|]. apply Z.pow_le_mono_r; lia.
Qed.
Lemma unit_at_le e e' k : e <= e' → unit_at e k <= unit_at e' k.
Proof.
  intros He. apply Z.mul_le_mono_nonneg_r; [apply Z.pow_nonneg; lia|]. apply Z.pow_le_mono_r; lia.
Qed.
Lemma position_ratio e k : unit_at e k * scale_at e (k + 1) = 10 * scale_at e k * unit_at e (k + 1).
Proof.
  unfold unit_at, scale_at. destruct (Z.le_gt_cases 0 k).
  - rewrite (Z.max_r 0 (k + 1)), (Z.max_r 0 k), (Z.max_l 0 (- k)), (Z.max_l 0 (- (k + 1))) by lia.
    rewrite Z.pow_add_r by lia. lia.
  - rewrite (Z.max_l 0 (k + 1)), (Z.max_l 0 k), (Z.max_r 0 (- k)), (Z.max_r 0 (- (k + 1))) by lia.
    replace (- k) with (- (k + 1) + 1) by lia. rewrite Z.pow_add_r by lia. lia.
Qed.
(** Powers of two move between unit and scale. *)
Lemma position_shift e j k : 0 <= j → 2 ^ j * unit_at e k * scale_at (e + j) k = unit_at (e + j) k * scale_at e k.
Proof.
  intros Hj. unfold unit_at, scale_at.
  assert (2 ^ j * 2 ^ Z.max 0 e * 2 ^ Z.max 0 (- (e + j)) = 2 ^ Z.max 0 (e + j) * 2 ^ Z.max 0 (- e)) as E.
  { rewrite <- !Z.pow_add_r by lia. f_equal. lia. }
  nia.
Qed.

(** [log10 2] lies between 643/2136 and 146/485. *)
Lemma log10_2_above : 10 ^ 643 <= 2 ^ 2136.
Proof. vm_compute. discriminate. Qed.
Lemma log10_2_below : 2 ^ 485 <= 10 ^ 146.
Proof. vm_compute. discriminate. Qed.

Lemma pow_le_by_powers a b p q x y : 1 < a → 1 < b → 0 < q → 0 <= p → 0 <= x → 0 <= y →
  a ^ p <= b ^ q → x * q <= y * p → a ^ x <= b ^ y.
Proof.
  intros Ha Hb Hq Hp Hx Hy H Hxy. apply (Z.pow_le_mono_l_iff _ _ q); [apply Z.pow_nonneg; lia..|lia|].
  rewrite <- !Z.pow_mul_r by lia. transitivity (a ^ (p * y)).
  - apply Z.pow_le_mono_r; lia.
  - rewrite Z.pow_mul_r, (Z.mul_comm y q), Z.pow_mul_r by lia. apply Z.pow_le_mono_l.
    split; [apply Z.pow_nonneg; lia|done].
Qed.
Lemma pow_lt_by_powers a b p q x y : 1 < a → 1 < b → 0 < q → 0 < p → 0 <= x → 0 <= y →
  a ^ q <= b ^ p → x * p < y * q → a ^ x < b ^ y.
Proof.
  intros Ha Hb Hq Hp Hx Hy H Hxy. apply (Z.pow_lt_mono_l_iff _ _ q); [apply Z.pow_nonneg; lia..|lia|].
  rewrite <- !Z.pow_mul_r by lia. apply (Z.le_lt_trans _ (b ^ (p * x))).
  - rewrite (Z.pow_mul_r b), (Z.mul_comm x q), (Z.pow_mul_r a) by lia. apply Z.pow_le_mono_l.
    split; [apply Z.pow_nonneg; lia|done].
  - apply Z.pow_lt_mono_r; lia.
Qed.

(** [10 ^ k <= 2 ^ e], and [2 ^ e < 10 ^ k], by comparing [k] with [e * log10 2]. *)
Definition log_le (e k : Z) : bool :=
  if 0 <=? e then k * 2136 <=? e * 643 else k * 485 <=? e * 146.
Definition log_lt (e k : Z) : bool :=
  if 0 <=? e then e * 146 <? k * 485 else e * 643 <? k * 2136.
Lemma log_le_spec e k : log_le e k = true → scale_at e k <= unit_at e k.
Proof.
  unfold log_le, scale_at, unit_at. intros H. destruct (Z.leb_spec 0 e) as [He|He]; apply Z.leb_le in H.
  - rewrite (Z.max_l 0 (- e)), (Z.max_r 0 e) by lia. destruct (Z.le_gt_cases k 0) as [Hk|Hk].
    + rewrite (Z.max_l 0 k) by lia. pose proof (Z.pow_pos_nonneg 2 e). pose proof (Z.pow_pos_nonneg 10 (Z.max 0 (- k))).
      rewrite !Z.pow_0_r. nia.
    + rewrite (Z.max_r 0 k), (Z.max_l 0 (- k)), !Z.pow_0_r, Z.mul_1_l, Z.mul_1_r by lia.
      apply (pow_le_by_powers 10 2 643 2136); [lia..|apply log10_2_above|lia].
  - rewrite (Z.max_r 0 (- e)), (Z.max_l 0 e), (Z.max_l 0 k), (Z.max_r 0 (- k)), !Z.pow_0_r, Z.mul_1_l, Z.mul_1_r by lia.
    apply (pow_le_by_powers 2 10 485 146); [lia..|apply log10_2_below|lia].
Qed.
Lemma log_lt_spec e k : log_lt e k = true → unit_at e k < scale_at e k.
Proof.
  unfold log_lt, scale_at, unit_at. intros H. destruct (Z.leb_spec 0 e) as [He|He]; apply Z.ltb_lt in H.
  - rewrite (Z.max_l 0 (- e)), (Z.max_r 0 e), (Z.max_r 0 k), (Z.max_l 0 (- k)), !Z.pow_0_r, Z.mul_1_l, Z.mul_1_r by lia.
    apply (pow_lt_by_powers 2 10 146 485); [lia..|apply log10_2_below|lia].
  - rewrite (Z.max_r 0 (- e)), (Z.max_l 0 e) by lia. destruct (Z.le_gt_cases 0 k) as [Hk|Hk].
    + rewrite (Z.max_l 0 (- k)), !Z.pow_0_r by lia.
      assert (1 < 2 ^ (- e)) by (apply Z.pow_gt_1; lia). pose proof (Z.pow_pos_nonneg 10 (Z.max 0 k)). nia.
    + rewrite (Z.max_l 0 k), (Z.max_r 0 (- k)), !Z.pow_0_r, Z.mul_1_l, Z.mul_1_r by lia.
      apply (pow_lt_by_powers 10 2 2136 643); [lia..|apply log10_2_above|lia].
Qed.

Definition estimate_ok (n : Z) : bool :=
  let est := Z.shiftr (n * 1292913986) 32 in log_le (n - 54) (est - 19) && log_lt (n + 1) (est + 2).
Lemma estimates_ok n : -1074 <= n <= 1024 → estimate_ok n = true.
Proof.
  intros Hn. assert (forallb estimate_ok (seqZ (-1074) 2099) = true) as H by (vm_compute; reflexivity).
  rewrite forallb_forall in H. apply H. apply list_elem_of_In, elem_of_seqZ. lia.
Qed.

Record decoded_ok (d : Decoded) : Prop := mkDecodedOk {
  dec_mant_range : 2 <= dec_mant d <= 2 ^ 54;
  dec_minus_1 : dec_minus d = 1;
  dec_plus_range : 1 <= dec_plus d <= 2;
  dec_bits_range : -1074 <= Z.log2 (dec_mant d - 1) + 1 + dec_exp d <= 1024
}.

Lemma f64_fraction_range f : 0 <= f64_fraction f < 2 ^ 52.
Proof. apply Z.mod_pos_bound. lia. Qed.
Lemma f64_exponent_range f : 0 <= f64_exponent f < 2048.
Proof. apply Z.mod_pos_bound. lia. Qed.
Lemma f64_mant_range f : 0 <= f64_mant f < 2 ^ 53 ∧ (f64_exponent f ≠ 0 → 2 ^ 52 <= f64_mant f).
Proof.
  pose proof (f64_fraction_range f). unfold f64_mant. destruct (Z.eqb_spec (f64_exponent f) 0); lia.
Qed.

Lemma log2_pred_range m b : 2 <= m <= 2 ^ b → 0 <= b → 0 <= Z.log2 (m - 1) <= b - 1.
Proof.
  intros Hm Hb. split; [apply Z.log2_nonneg|].
  assert (Z.log2 (m - 1) < b); [apply Z.log2_lt_pow2; lia|lia].
Qed.

Lemma decode_ok f : f64_is_finite f = true → f64_mant f ≠ 0 → decoded_ok (flt2dec_decode f).
Proof.
  intros Hf Hm. apply negb_true_iff, Z.eqb_neq in Hf.
  pose proof (f64_exponent_range f) as He. pose proof (f64_mant_range f) as [Hr Hn].
  unfold flt2dec_decode, f64_exp2. destruct (negb _ && _) eqn:E.
  - apply andb_true_iff in E as [E1%negb_true_iff%Z.eqb_neq E2%Z.eqb_eq]. rewrite E2.
    split; cbn [dec_mant dec_minus dec_plus dec_exp]; [lia|done|lia|].
    change (Z.log2 (4 * 2 ^ 52 - 1)) with 53. lia.
  - split; cbn [dec_mant dec_minus dec_plus dec_exp]; [lia|done|lia|].
    pose proof (log2_pred_range (2 * f64_mant f) 54). lia.
Qed.

Section Search.
Context (d : Decoded) (Hd : decoded_ok d).
Let bits : Z := Z.log2 (dec_mant d - 1) + 1.
Let est : Z := estimate_scaling_factor (dec_mant d) (dec_exp d).

Lemma mant_bits : 1 <= bits <= 54 ∧ dec_mant d <= 2 ^ bits.
Proof.
  destruct Hd as [Hm _ _ _]. pose proof (log2_pred_range (dec_mant d) 54 Hm). unfold bits. split; [lia|].
  pose proof (Z.log2_spec (dec_mant d - 1)). unfold Z.succ in *. lia.
Qed.
(** The search ends at a position it reaches. *)
Lemma search_fine : scale_at (dec_exp d) (est - 19) <= unit_at (dec_exp d) (est - 19).
Proof.
  pose proof mant_bits as [Hb _]. destruct Hd as [_ _ _ Hn]. fold bits in Hn.
  pose proof (estimates_ok (bits + dec_exp d) Hn) as E. apply andb_true_iff in E as [E _].
  apply log_le_spec in E. change (Z.shiftr _ 32) with est in E.
  assert (bits + dec_exp d - 54 <= dec_exp d) as He by lia.
  pose proof (scale_at_le _ _ (est - 19) He). pose proof (unit_at_le _ _ (est - 19) He). lia.
Qed.
(** The interval ends below the position above the first. *)
Lemma search_start : (dec_mant d + dec_plus d) * unit_at (dec_exp d) (est + 2) < scale_at (dec_exp d) (est + 2).
Proof.
  pose proof mant_bits as [Hb Hm]. destruct Hd as [Hm2 _ Hp Hn]. fold bits in Hn.
  pose proof (estimates_ok (bits + dec_exp d) Hn) as E. apply andb_true_iff in E as [_ E].
  apply log_lt_spec in E. change (Z.shiftr _ 32) with est in E.
  pose proof (position_shift (dec_exp d) (bits + 1) (est + 2) ltac:(lia)) as Hs.
  replace (dec_exp d + (bits + 1)) with (bits + dec_exp d + 1) in Hs by lia.
  set (u := unit_at (bits + dec_exp d + 1) (est + 2)) in *. set (s := scale_at (bits + dec_exp d + 1) (est + 2)) in *.
  assert (0 < u) by apply unit_at_pos. assert (0 < s) by apply scale_at_pos.
  assert (dec_mant d + dec_plus d <= 2 ^ (bits + 1)) as Hle.
  { rewrite Z.pow_add_r by lia. change (2 ^ 1) with 2. lia. }
  pose proof (unit_at_pos (dec_exp d) (est + 2)). pose proof (scale_at_pos (dec_exp d) (est + 2)).
  apply (Z.le_lt_trans _ (2 ^ (bits + 1) * unit_at (dec_exp d) (est + 2))); [nia|].
  apply (Z.mul_lt_mono_pos_r s); [done|]. rewrite Hs. nia.
Qed.

Lemma search_above (i : nat) :
  (dec_mant d + dec_plus d) * unit_at (dec_exp d) (est + 2 + Z.of_nat i)
  < scale_at (dec_exp d) (est + 2 + Z.of_nat i).
Proof.
  induction i as [|i IH]; [rewrite Z.add_0_r; apply search_start|].
  replace (est + 2 + Z.of_nat (S i)) with (est + 2 + Z.of_nat i + 1) by lia.
  pose proof (position_ratio (dec_exp d) (est + 2 + Z.of_nat i)) as Hr.
  pose proof (unit_at_pos (dec_exp d) (est + 2 + Z.of_nat i)).
  pose proof (unit_at_pos (dec_exp d) (est + 2 + Z.of_nat i + 1)).
  pose proof (scale_at_pos (dec_exp d) (est + 2 + Z.of_nat i)) as Hs.
  pose proof (scale_at_pos (dec_exp d) (est + 2 + Z.of_nat i + 1)).
  destruct Hd as [Hm _ Hp _].
  apply (Z.mul_lt_mono_pos_r _ _ _ Hs). nia.
Qed.
Lemma coarse_not_in_interval j n : est + 2 <= j → ¬ in_interval d n j.
Proof.
  intros Hj [H1 H2]. rewrite within_spec in H1, H2. pose proof (search_above (Z.to_nat (j - (est + 2)))) as Hs.
  replace (est + 2 + Z.of_nat (Z.to_nat (j - (est + 2)))) with j in Hs by lia.
  destruct Hd as [Hm Hmin Hp _]. rewrite Hmin in H1.
  pose proof (unit_at_pos (dec_exp d) j). pose proof (scale_at_pos (dec_exp d) j).
  destruct (Z.le_gt_cases n 0); nia.
Qed.

(** The digits of an interval position, by the position above. *)
Lemma digits_bound n k : in_interval d n k →
  (k < est + 1 → ∀ m, ¬ in_interval d m (k + 1)) → k <= est + 1 → 0 < n < 10 ^ 20.
Proof.
  intros [H1 H2] Hc Hk. rewrite within_spec in H1, H2. destruct Hd as [Hm Hmin Hp _]. rewrite Hmin in H1.
  pose proof (unit_at_pos (dec_exp d) k) as Hu. pose proof (scale_at_pos (dec_exp d) k) as Hs.
  pose proof (unit_at_pos (dec_exp d) (k + 1)) as Hu1. pose proof (scale_at_pos (dec_exp d) (k + 1)) as Hs1.
  pose proof (position_ratio (dec_exp d) k) as Hr.
  assert (unit_at (dec_exp d) (k + 1) <= scale_at (dec_exp d) (k + 1)) as Hx.
  { destruct (Z.eq_dec k (est + 1)) as [->|].
    - pose proof search_start as Hst. replace (est + 1 + 1) with (est + 2) in * by lia. nia.
    - apply Z.lt_le_incl, Z.nle_gt. intros Hf. apply (Hc ltac:(lia) (dec_mant d * unit_at (dec_exp d) (k + 1) / scale_at (dec_exp d) (k + 1))).
      apply down_in_interval; [lia..|]. apply fine_ends; [lia|done]. }
  assert (unit_at (dec_exp d) k <= 10 * scale_at (dec_exp d) k) by nia.
  split; [nia|]. change (10 ^ 20) with 100000000000000000000. change (2 ^ 54) with 18014398509481984 in Hm. nia.
Qed.

(** [format_shortest] returns digits in the rounding interval, at the coarsest
    position that has any; there are at most twenty of them. *)
Lemma format_shortest_spec :
  let '(n, k) := format_shortest d in
  in_interval d n k ∧ 0 < n < 10 ^ 20 ∧ ∀ j m, k < j → ¬ in_interval d m j.
Proof.
  pose proof (shortest_from_spec 20 d) as H. destruct Hd as [_ Hmin Hp _].
  specialize (H ltac:(lia) ltac:(lia) (est + 1)). replace (est + 1 - Z.of_nat 20) with (est - 19) in H by lia.
  specialize (H search_fine). unfold format_shortest. fold est.
  destruct (shortest_from 20 d (est + 1)) as [n k]. destruct H as (Hi & Hk & Hc).
  split; [done|]. split.
  - apply (digits_bound n k Hi); [|done]. intros Hlt m. apply Hc. lia.
  - intros j m Hj. destruct (Z.le_gt_cases (est + 2) j); [by apply coarse_not_in_interval|]. apply Hc. lia.
Qed.
End Search.

(** ** The nearest double *)

(** The magnitude in units of [2 ^ -1074]. *)
Definition f64_exp_units (f : f64) : Z := Z.max 1 (f64_exponent f) - 1.
Definition f64_magnitude (f : f64) : Z := f64_mant f * 2 ^ f64_exp_units f.
Lemma f64_units_magnitude f :
  f64_units f = if f64_is_sign_negative f then - f64_magnitude f else f64_magnitude f.
Proof.
  unfold f64_units, f64_magnitude, f64_exp_units, f64_exp2.
  by replace (Z.max 1 (f64_exponent f) - 1075 + 1074) with (Z.max 1 (f64_exponent f) - 1) by lia.
Qed.
Lemma f64_exp_units_nonneg f : 0 <= f64_exp_units f.
Proof. unfold f64_exp_units. lia. Qed.

(** How far [n * 10 ^ k] is from a double's magnitude, in units of
    [2 ^ -1074 * 10 ^ min 0 k]; it rounds to the nearest, ties to even.  An
    infinity stands at the power of two above the largest double, as it does in
    IEEE 754's rounding. *)
Definition distance (n k : Z) (g : f64) : Z :=
  Z.abs (n * 10 ^ Z.max 0 k * f64_scale - f64_magnitude g * 10 ^ Z.max 0 (- k)).
Definition rounds_to (n k : Z) (f : f64) : Prop :=
  ∀ g, f64_is_nan g = false →
    distance n k f <= distance n k g
    ∧ (distance n k f = distance n k g → f64_magnitude g = f64_magnitude f ∨ Z.even (f64_mant f) = true).

Lemma multiples_apart a b i j : 0 <= i <= j → a * 2 ^ i < b * 2 ^ j → a * 2 ^ i + 2 ^ i <= b * 2 ^ j.
Proof.
  intros Hi. replace j with (i + (j - i)) by lia. rewrite Z.pow_add_r by lia.
  pose proof (Z.pow_pos_nonneg 2 i ltac:(lia) ltac:(lia)).
  replace (b * (2 ^ i * 2 ^ (j - i))) with (b * 2 ^ (j - i) * 2 ^ i) by lia.
  generalize (b * 2 ^ (j - i)). intros c H1%Z.mul_lt_mono_pos_r; [nia|done].
Qed.
Lemma multiples_apart' a b i j : 0 <= i <= j → b * 2 ^ j < a * 2 ^ i → b * 2 ^ j + 2 ^ i <= a * 2 ^ i.
Proof.
  intros Hi. replace j with (i + (j - i)) by lia. rewrite Z.pow_add_r by lia.
  pose proof (Z.pow_pos_nonneg 2 i ltac:(lia) ltac:(lia)).
  replace (b * (2 ^ i * 2 ^ (j - i))) with (b * 2 ^ (j - i) * 2 ^ i) by lia.
  generalize (b * 2 ^ (j - i)). intros c H1%Z.mul_lt_mono_pos_r; [nia|done].
Qed.

Lemma pow2_double i j : 0 <= i < j → 0 < 2 ^ i ∧ 2 * 2 ^ i <= 2 ^ j.
Proof.
  intros Hi. split; [apply Z.pow_pos_nonneg; lia|]. rewrite <- Z.pow_succ_r by lia. apply Z.pow_le_mono_r; lia.
Qed.

(** The double above is a unit in the last place away, the one below as well or,
    at a power of two, half of one. *)
Lemma gap_above f g : f64_magnitude f < f64_magnitude g →
  f64_magnitude f + 2 ^ f64_exp_units f <= f64_magnitude g.
Proof.
  unfold f64_magnitude. pose proof (f64_exp_units_nonneg f) as Hf. pose proof (f64_exp_units_nonneg g) as Hg.
  destruct (Z.le_gt_cases (f64_exp_units f) (f64_exp_units g)) as [He|He]; intros H; [by apply multiples_apart|].
  exfalso. pose proof (f64_mant_range f) as [_ Hn]. pose proof (f64_mant_range g) as [Hr _].
  assert (2 ^ 52 <= f64_mant f) as Hm by (apply Hn; unfold f64_exp_units in *; lia).
  destruct (pow2_double (f64_exp_units g) (f64_exp_units f)) as [Hp Hd]; [lia|].
  change (2 ^ 53) with (2 * 2 ^ 52) in Hr. nia.
Qed.
Lemma gap_below f g : f64_magnitude g < f64_magnitude f →
  2 * f64_magnitude g + 2 ^ f64_exp_units f <= 2 * f64_magnitude f
  ∧ (f64_exponent f = 0 ∨ f64_mant f ≠ 2 ^ 52 →
     f64_magnitude g + 2 ^ f64_exp_units f <= f64_magnitude f).
Proof.
  unfold f64_magnitude. pose proof (f64_exp_units_nonneg f) as Hf. pose proof (f64_exp_units_nonneg g) as Hg.
  destruct (Z.le_gt_cases (f64_exp_units f) (f64_exp_units g)) as [He|He]; intros H.
  { pose proof (multiples_apart' (f64_mant f) (f64_mant g) (f64_exp_units f) (f64_exp_units g)).
    pose proof (Z.pow_pos_nonneg 2 (f64_exp_units f)). split; [lia|]. intros _. lia. }
  pose proof (f64_mant_range f) as [_ Hn]. pose proof (f64_mant_range g) as [Hr _].
  assert (f64_exponent f ≠ 0) as Hx by (unfold f64_exp_units in *; lia). specialize (Hn Hx).
  destruct (pow2_double (f64_exp_units g) (f64_exp_units f)) as [Hp Hd]; [lia|].
  assert (2 * (f64_mant g * 2 ^ f64_exp_units g) <= (2 ^ 53 - 1) * 2 ^ f64_exp_units f) as Hg2 by nia.
  change (2 ^ 53) with (2 * 2 ^ 52) in Hg2. split; [nia|]. intros [?|?]; [done|]. nia.
Qed.

(** The units of a position, brought to those of [f64_magnitude]. *)
Lemma position_units e k : -1076 <= e → ∃ c, 0 < c
  ∧ c * unit_at e k = 2 ^ (e + 1076) * 10 ^ Z.max 0 (- k)
  ∧ c * scale_at e k = 4 * (10 ^ Z.max 0 k * f64_scale).
Proof.
  intros He. exists (2 ^ (1076 - Z.max 0 (- e))). unfold unit_at, scale_at, f64_scale.
  split; [apply Z.pow_pos_nonneg; lia|]. rewrite !Z.mul_assoc, <- !Z.pow_add_r by lia. split.
  - do 2 f_equal. lia.
  - replace (1076 - Z.max 0 (- e) + Z.max 0 (- e)) with (2 + 1074) by lia.
    rewrite Z.pow_add_r by lia. lia.
Qed.

(** [minus] and [plus] are half the distances to the neighbours. *)
Record decoded_from (d : Decoded) (f : f64) : Prop := mkDecodedFrom {
  from_exp : -1076 <= dec_exp d;
  from_value : dec_mant d * 2 ^ (dec_exp d + 1076) = 4 * f64_magnitude f;
  from_inclusive : dec_inclusive d = (f64_exponent f =? 0) || Z.even (f64_mant f);
  from_above g : f64_magnitude f < f64_magnitude g →
    4 * f64_magnitude f + 2 * (dec_plus d * 2 ^ (dec_exp d + 1076)) <= 4 * f64_magnitude g;
  from_below g : f64_magnitude g < f64_magnitude f →
    4 * f64_magnitude g + 2 * (dec_minus d * 2 ^ (dec_exp d + 1076)) <= 4 * f64_magnitude f
}.
Lemma decode_from f : decoded_from (flt2dec_decode f) f.
Proof.
  unfold flt2dec_decode. destruct (negb _ && _) eqn:E; split;
    cbn [dec_mant dec_minus dec_plus dec_exp dec_inclusive]; try done; try (unfold f64_exp2; lia).
  2: { apply andb_true_iff in E as [E%negb_true_iff _]. by rewrite E. }
  1-3: replace (f64_exp2 f - 2 + 1076) with (f64_exp_units f) by (unfold f64_exp2, f64_exp_units; lia).
  4-6: replace (f64_exp2 f - 1 + 1076) with (1 + f64_exp_units f) by (unfold f64_exp2, f64_exp_units; lia);
    rewrite (Z.pow_add_r 2 1) by (unfold f64_exp_units; lia); change (2 ^ 1) with 2.
  - unfold f64_magnitude. lia.
  - intros g H%gap_above. lia.
  - intros g [H _]%gap_below. lia.
  - unfold f64_magnitude. lia.
  - intros g H%gap_above. lia.
  - intros g [_ H]%gap_below. apply andb_false_iff in E as [E|E].
    + apply negb_false_iff, Z.eqb_eq in E. lia.
    + apply Z.eqb_neq in E. lia.
Qed.

Lemma within_scaled d c a b : 0 < c →
  within d a b = true ↔ c * a <= c * b ∧ (c * a = c * b → dec_inclusive d = true).
Proof.
  intros Hc. rewrite within_spec. split.
  - intros [H|[Hi ->]]; split; nia || done.
  - intros [H1 H2]. destruct (Z.eq_dec a b) as [->|]; [right; auto|left; nia].
Qed.

(** The rounding interval, in quarters of the units of [distance]. *)
Lemma interval_scaled f n k :
  let d := flt2dec_decode f in
  let T := 10 ^ Z.max 0 (- k) in
  let P := 2 ^ (dec_exp d + 1076) in
  let N := n * 10 ^ Z.max 0 k * f64_scale in
  in_interval d n k
  ↔ (4 * (f64_magnitude f * T) - 4 * N <= dec_minus d * P * T
     ∧ (4 * (f64_magnitude f * T) - 4 * N = dec_minus d * P * T → (f64_exponent f =? 0) || Z.even (f64_mant f) = true))
    ∧ (4 * N - 4 * (f64_magnitude f * T) <= dec_plus d * P * T
     ∧ (4 * N - 4 * (f64_magnitude f * T) = dec_plus d * P * T → (f64_exponent f =? 0) || Z.even (f64_mant f) = true)).
Proof.
  intros d T P N. destruct (decode_from f) as [He Hv Hi _ _]. fold d P in He, Hv, Hi.
  destruct (position_units (dec_exp d) k He) as (c & Hc & Hu & Hs). fold P T in Hu.
  unfold in_interval. rewrite !(within_scaled d c), <- Hi, !Z.mul_sub_distr_l by done.
  assert (∀ x, c * (x * unit_at (dec_exp d) k) = x * P * T) as Ex.
  { intros x. replace (c * (x * unit_at (dec_exp d) k)) with (x * (c * unit_at (dec_exp d) k)) by lia. rewrite Hu. lia. }
  assert (c * (n * scale_at (dec_exp d) k) = 4 * N) as ->.
  { replace (c * (n * scale_at (dec_exp d) k)) with (n * (c * scale_at (dec_exp d) k)) by lia. rewrite Hs. unfold N. lia. }
  rewrite !Ex, Hv, Z.mul_assoc. done.
Qed.

Lemma pow10_pos k : 0 < 10 ^ Z.max 0 k.
Proof. apply Z.pow_pos_nonneg; lia. Qed.

(** Half way between two subnormals there is no short decimal. *)
Lemma subnormal_no_tie n k o : 0 < n < 10 ^ 20 → Z.odd o = true →
  2 * (n * 10 ^ Z.max 0 k * f64_scale) ≠ o * 10 ^ Z.max 0 (- k).
Proof.
  unfold f64_scale. intros Hn Ho E. destruct (Z.le_gt_cases 0 k) as [Hk|Hk].
  - rewrite (Z.max_l 0 (- k)), Z.pow_0_r, Z.mul_1_r in E by lia.
    rewrite <- E, Z.odd_mul in Ho. discriminate.
  - rewrite (Z.max_l 0 k), Z.pow_0_r, Z.mul_1_r, (Z.max_r 0 (- k)) in E by lia.
    set (j := - k) in *. assert (0 < j) as Hj by lia. clearbody j. clear k Hk.
    assert (10 ^ j = 2 ^ j * 5 ^ j) as Ej by (by rewrite <- Z.pow_mul_l).
    assert (0 < 5 ^ j) as H5 by (apply Z.pow_pos_nonneg; lia).
    assert (0 < 2 ^ j) as H2 by (apply Z.pow_pos_nonneg; lia).
    destruct (Z.lt_ge_cases j 1075) as [Hs|Hl].
    + assert (2 ^ 1074 = 2 ^ j * 2 ^ (1074 - j)) as Ep by (rewrite <- Z.pow_add_r by lia; f_equal; lia).
      rewrite Ep, Ej in E.
      assert (2 * (n * 2 ^ (1074 - j)) = o * 5 ^ j) as E' by nia.
      assert (Z.odd (o * 5 ^ j) = true) as Hodd.
      { rewrite Z.odd_mul, Ho, Z.odd_pow by lia. reflexivity. }
      rewrite <- E', Z.odd_mul in Hodd. discriminate.
    + assert (0 < o) as Hpos by (destruct (Z.lt_trichotomy o 0) as [?|[->|?]]; [nia|done|done]).
      assert (10 ^ 1075 <= 10 ^ j) as Hm by (apply Z.pow_le_mono_r; lia).
      assert (10 ^ 1075 = 2 * 2 ^ 1074 * 5 ^ 1075) as Ec by (vm_compute; reflexivity).
      assert (10 ^ 20 <= 5 ^ 1075) as Hb by (vm_compute; discriminate).
      set (A := 2 ^ 1074) in *. set (B := 5 ^ 1075) in *. assert (0 < A) by (subst A; apply Z.pow_pos_nonneg; lia).
      clearbody A B. nia.
Qed.

(** What lies in the rounding interval of a double rounds to it. *)
Lemma interval_rounds f n k : 0 < n < 10 ^ 20 → in_interval (flt2dec_decode f) n k → rounds_to n k f.
Proof.
  intros Hn [[L1 Q1] [L2 Q2]]%interval_scaled g _. destruct (decode_from f) as [_ _ _ Ha Hb].
  assert (∀ m, Z.odd m = true → f64_exponent f = 0 →
    2 * (n * 10 ^ Z.max 0 k * f64_scale) ≠ m * 10 ^ Z.max 0 (- k)) as Htie by (intros; by apply subnormal_no_tie).
  assert (f64_exponent f = 0 → f64_magnitude f = f64_mant f
    ∧ dec_minus (flt2dec_decode f) * 2 ^ (dec_exp (flt2dec_decode f) + 1076) = 2
    ∧ dec_plus (flt2dec_decode f) * 2 ^ (dec_exp (flt2dec_decode f) + 1076) = 2) as Hsub.
  { intros E. unfold flt2dec_decode, f64_magnitude, f64_exp2, f64_exp_units. rewrite E. cbn [negb andb].
    split; [apply Z.mul_1_r|]. split; reflexivity. }
  unfold distance. pose proof (pow10_pos (- k)) as HT.
  set (d := flt2dec_decode f) in *. set (T := 10 ^ Z.max 0 (- k)) in *. set (P := 2 ^ (dec_exp d + 1076)) in *.
  set (N := n * 10 ^ Z.max 0 k * f64_scale) in *. clearbody T P N.
  assert (∀ s, Z.odd s = true → f64_exponent f = 0 → 2 * N ≠ (2 * f64_magnitude f + s) * T) as Hodd.
  { intros s Hs E. apply Htie; [|done]. by rewrite Z.odd_add, Z.odd_mul, Hs. }
  clear Htie.
  assert (4 * N - 4 * (f64_magnitude f * T) = dec_plus d * P * T → Z.even (f64_mant f) = true) as Q2'.
  { intros E. destruct (Z.eqb_spec (f64_exponent f) 0) as [Hz|]; [|by apply Q2].
    exfalso. destruct (Hsub Hz) as (_ & _ & Ep). rewrite Ep in E. apply (Hodd 1 eq_refl Hz). lia. }
  assert (4 * (f64_magnitude f * T) - 4 * N = dec_minus d * P * T → Z.even (f64_mant f) = true) as Q1'.
  { intros E. destruct (Z.eqb_spec (f64_exponent f) 0) as [Hz|]; [|by apply Q1].
    exfalso. destruct (Hsub Hz) as (_ & Ep & _). rewrite Ep in E. apply (Hodd (-1) eq_refl Hz). lia. }
  destruct (Z.lt_total (f64_magnitude f) (f64_magnitude g)) as [Hl|[Hl|Hl]].
  - specialize (Ha g Hl). assert (f64_magnitude f * T < f64_magnitude g * T) by nia.
    assert (4 * (f64_magnitude f * T) + 2 * (dec_plus d * P * T) <= 4 * (f64_magnitude g * T)) by nia.
    split; [lia|]. intros Hd. right. apply Q2'. lia.
  - rewrite Hl. split; [lia|]. by left.
  - specialize (Hb g Hl). assert (f64_magnitude g * T < f64_magnitude f * T) by nia.
    assert (4 * (f64_magnitude g * T) + 2 * (dec_minus d * P * T) <= 4 * (f64_magnitude f * T)) by nia.
    split; [lia|]. intros Hd. right. apply Q1'. lia.
Qed.

(** ** The neighbours *)

Section Neighbours.
#[local] Ltac Zify.zify_post_hook ::= Z.div_mod_to_equations.
Lemma f64_fields_of e m : 0 <= e < 2048 → 0 <= m < 2 ^ 52 →
  f64_exponent (e * 2 ^ 52 + m) = e ∧ f64_fraction (e * 2 ^ 52 + m) = m.
Proof.
  intros He Hm. unfold f64_exponent, f64_fraction. rewrite Z.shiftr_div_pow2 by lia.
  change (2 ^ 52) with 4503599627370496 in *. split; lia.
Qed.
End Neighbours.

Lemma f64_magnitude_of e m : 0 <= e < 2048 → 0 <= m < 2 ^ 52 →
  f64_magnitude (e * 2 ^ 52 + m) = (if e =? 0 then m else m + 2 ^ 52) * 2 ^ (Z.max 1 e - 1).
Proof.
  intros He Hm. destruct (f64_fields_of e m He Hm) as [E F].
  unfold f64_magnitude, f64_exp_units, f64_mant. by rewrite E, F.
Qed.
Lemma f64_not_nan_of e m : 0 <= e < 2048 → 0 <= m < 2 ^ 52 → e ≠ 2047 ∨ m = 0 →
  f64_is_nan (e * 2 ^ 52 + m) = false.
Proof.
  intros He Hm Hn. destruct (f64_fields_of e m He Hm) as [E F]. unfold f64_is_nan. rewrite E, F.
  destruct (Z.eqb_spec e 2047), (Z.eqb_spec m 0); simpl; lia || done.
Qed.

Lemma next_above f : f64_is_finite f = true →
  ∃ g, f64_is_nan g = false ∧ f64_magnitude g = f64_magnitude f + 2 ^ f64_exp_units f.
Proof.
  intros Hf%negb_true_iff%Z.eqb_neq. pose proof (f64_exponent_range f) as He. pose proof (f64_fraction_range f) as Hm.
  unfold f64_magnitude at 2. unfold f64_mant, f64_exp_units.
  set (e := f64_exponent f) in *. set (m := f64_fraction f) in *. clearbody e m.
  destruct (Z.eq_dec m (2 ^ 52 - 1)) as [->|].
  - exists ((e + 1) * 2 ^ 52 + 0). rewrite f64_not_nan_of, f64_magnitude_of by lia. split; [done|].
    destruct (Z.eqb_spec (e + 1) 0); [lia|]. destruct (Z.eqb_spec e 0) as [->|]; [done|].
    replace (Z.max 1 (e + 1) - 1) with (Z.succ (Z.max 1 e - 1)) by lia. rewrite Z.pow_succ_r by lia. lia.
  - exists (e * 2 ^ 52 + (m + 1)). rewrite f64_not_nan_of, f64_magnitude_of by lia. split; [done|].
    destruct (e =? 0); lia.
Qed.
Lemma next_below f : f64_is_finite f = true → f64_mant f ≠ 0 →
  ∃ g, f64_is_nan g = false
    ∧ if (1 <? f64_exponent f) && (f64_mant f =? 2 ^ 52)
      then 2 * f64_magnitude g + 2 ^ f64_exp_units f = 2 * f64_magnitude f
      else f64_magnitude g + 2 ^ f64_exp_units f = f64_magnitude f.
Proof.
  intros Hf%negb_true_iff%Z.eqb_neq. pose proof (f64_exponent_range f) as He. pose proof (f64_fraction_range f) as Hm.
  unfold f64_magnitude at 2 4. unfold f64_mant, f64_exp_units.
  set (e := f64_exponent f) in *. set (m := f64_fraction f) in *. clearbody e m.
  destruct (Z.eq_dec m 0) as [->|].
  - destruct (Z.eqb_spec e 0) as [->|]; intros H0; [done|].
    exists ((e - 1) * 2 ^ 52 + (2 ^ 52 - 1)). rewrite f64_not_nan_of, f64_magnitude_of by lia. split; [done|].
    rewrite (Z.add_0_l (2 ^ 52)), Z.eqb_refl, andb_true_r.
    destruct (Z.ltb_spec 1 e); destruct (Z.eqb_spec (e - 1) 0); try lia.
    + replace (Z.max 1 e - 1) with (Z.succ (Z.max 1 (e - 1) - 1)) by lia. rewrite Z.pow_succ_r by lia. lia.
    + replace e with 1 by lia. done.
  - intros H0. exists (e * 2 ^ 52 + (m - 1)). rewrite f64_not_nan_of, f64_magnitude_of by lia. split; [done|].
    assert ((1 <? e) && ((if e =? 0 then m else m + 2 ^ 52) =? 2 ^ 52) = false) as ->.
    { destruct (Z.ltb_spec 1 e); [|done]. destruct (Z.eqb_spec e 0); [lia|]. simpl. apply Z.eqb_neq. lia. }
    destruct (e =? 0); lia.
Qed.

(** The least normal double is decoded as other powers of two are, with half the
    distance that its lower neighbour, a subnormal, really has. *)
Definition f64_min_normal (f : f64) : bool := (f64_exponent f =? 1) && (f64_fraction f =? 0).

Lemma decode_neighbours f : f64_is_finite f = true → f64_mant f ≠ 0 →
  let d := flt2dec_decode f in
  (∃ g, f64_is_nan g = false
     ∧ 4 * f64_magnitude f + 2 * (dec_plus d * 2 ^ (dec_exp d + 1076)) = 4 * f64_magnitude g)
  ∧ (f64_min_normal f = false → ∃ g, f64_is_nan g = false
     ∧ 4 * f64_magnitude g + 2 * (dec_minus d * 2 ^ (dec_exp d + 1076)) = 4 * f64_magnitude f).
Proof.
  intros Hf Hm d. destruct (next_above f Hf) as (a & Ha & Ea). destruct (next_below f Hf Hm) as (b & Hb & Eb).
  assert (d = flt2dec_decode f) as Ed by done. clearbody d. unfold flt2dec_decode in Ed.
  destruct (negb _ && _) eqn:E; subst d; cbn [dec_plus dec_minus dec_exp].
  - replace (f64_exp2 f - 2 + 1076) with (f64_exp_units f) by (unfold f64_exp2, f64_exp_units; lia).
    split; [exists a; split; [done|lia]|]. intros Hn. exists b. split; [done|].
    apply andb_true_iff in E as [E1%negb_true_iff%Z.eqb_neq E2]. rewrite E2, andb_true_r in Eb.
    destruct (Z.ltb_spec 1 (f64_exponent f)); [lia|]. exfalso. pose proof (f64_exponent_range f).
    unfold f64_min_normal in Hn. apply Z.eqb_eq in E2. unfold f64_mant in E2.
    destruct (Z.eqb_spec (f64_exponent f) 0), (Z.eqb_spec (f64_exponent f) 1), (Z.eqb_spec (f64_fraction f) 0); try lia; done.
  - replace (f64_exp2 f - 1 + 1076) with (1 + f64_exp_units f) by (unfold f64_exp2, f64_exp_units; lia).
    rewrite (Z.pow_add_r 2 1) by (unfold f64_exp_units; lia). change (2 ^ 1) with 2.
    split; [exists a; split; [done|lia]|]. intros _. exists b. split; [done|].
    destruct ((1 <? f64_exponent f) && (f64_mant f =? 2 ^ 52)) eqn:E'; [|lia]. exfalso.
    apply andb_true_iff in E' as [?%Z.ltb_lt E'']. rewrite E'', andb_true_r in E.
    apply negb_false_iff, Z.eqb_eq in E. lia.
Qed.

(** Conversely, what rounds to a double lies in its interval. *)
Lemma rounds_interval f n k : f64_is_finite f = true → f64_mant f ≠ 0 → f64_min_normal f = false →
  rounds_to n k f → in_interval (flt2dec_decode f) n k.
Proof.
  intros Hf Hm Hn Hr. apply interval_scaled.
  destruct (decode_neighbours f Hf Hm) as [(a & Ha & Ea) Hb]. destruct (Hb Hn) as (b & Hb' & Eb). clear Hb.
  destruct (decode_ok f Hf Hm) as [_ Hminus Hplus _]. pose proof (pow10_pos (- k)) as HT.
  destruct (Hr a Ha) as [La Qa]. destruct (Hr b Hb') as [Lb Qb]. unfold distance in *.
  set (d := flt2dec_decode f) in *. destruct (decode_from f) as [He _ _ _ _]. fold d in He.
  assert (0 < 2 ^ (dec_exp d + 1076)) as HP by (apply Z.pow_pos_nonneg; lia).
  set (T := 10 ^ Z.max 0 (- k)) in *. set (P := 2 ^ (dec_exp d + 1076)) in *.
  set (N := n * 10 ^ Z.max 0 k * f64_scale) in *. clearbody T P N.
  assert (4 * (f64_magnitude f * T) + 2 * (dec_plus d * P * T) = 4 * (f64_magnitude a * T)) by nia.
  assert (4 * (f64_magnitude b * T) + 2 * (dec_minus d * P * T) = 4 * (f64_magnitude f * T)) by nia.
  assert (0 < dec_plus d * P * T) by (repeat apply Z.mul_pos_pos; lia).
  assert (0 < dec_minus d * P * T) by (repeat apply Z.mul_pos_pos; lia).
  assert (f64_magnitude a ≠ f64_magnitude f) by (intros E; rewrite E in *; lia).
  assert (f64_magnitude b ≠ f64_magnitude f) by (intros E; rewrite E in *; lia).
  split; (split; [lia|]); intros E.
  - apply orb_true_iff. right. destruct Qb as [?|?]; [lia|done|done].
  - apply orb_true_iff. right. destruct Qa as [?|?]; [lia|done|done].
Qed.

(** ** Reading the text *)

(** A decimal: an optional minus sign and digits with at most one point, as sign,
    digits and the power of ten of the last one. *)
Fixpoint digits_value (s : bytes) (acc : Z) : option Z :=
  match s with
  | [] => Some acc
  | b :: t => match dec_digit b with Some d => digits_value t (acc * 10 + d) | None => None end
  end.
Definition read_unsigned (s : str) : option (Z * Z) :=
  match split_on x2e s with
  | [whole] => (λ n, (n, 0)) <$> digits_value whole 0
  | [whole; frac] => (λ n, (n, - len frac)) <$> digits_value (whole ++ frac) 0
  | _ => None
  end.
Definition read_decimal (s : str) : option (bool * Z * Z) :=
  match strip_prefix (lit "-") s with
  | Some t => (λ '(n, k), (true, n, k)) <$> read_unsigned t
  | None => (λ '(n, k), (false, n, k)) <$> read_unsigned s
  end.
Example read_decimal_values :
  read_decimal (lit "-12.50") = Some (true, 1250, -2) ∧ read_decimal (lit "7") = Some (false, 7, 0)
  ∧ read_decimal (lit "1.2.3") = None ∧ read_decimal (lit "inf") = None.
Proof. vm_compute. repeat split. Qed.

Lemma digits_value_app s t : ∀ acc v, digits_value s acc = Some v →
  digits_value (s ++ t) acc = digits_value t v.
Proof.
  induction s as [|b s IH]; simpl; intros acc v H; [by simplify_eq|]. destruct (dec_digit b); [by apply IH|done].
Qed.
Lemma digits_value_dec fuel : ∀ n acc, 0 <= n < 10 ^ Z.of_nat fuel → (0 < fuel)%nat →
  digits_value (dec_digits fuel n acc) 0 = digits_value acc n.
Proof.
  induction fuel as [|fuel IH]; intros n acc Hn Hp; [lia|]. cbn [dec_digits].
  pose proof (Z.mod_pos_bound n 10 ltac:(lia)). pose proof (Z.div_mod n 10 ltac:(lia)).
  rewrite Nat2Z.inj_succ, Z.pow_succ_r in Hn by lia.
  destruct (Z.ltb_spec n 10).
  - cbn [digits_value]. rewrite dec_digit_of by lia. rewrite Z.mod_small by lia. done.
  - rewrite IH; [|split; [apply Z.div_pos; lia|apply Z.div_lt_upper_bound; lia]|].
    + cbn [digits_value]. rewrite dec_digit_of by lia. f_equal. lia.
    + destruct fuel; [simpl in Hn; lia|lia].
Qed.
Lemma digits_value_dec_bytes n : 0 <= n < 10 ^ 20 → digits_value (dec_bytes n) 0 = Some n.
Proof. intros Hn. unfold dec_bytes. by rewrite digits_value_dec by (done || lia). Qed.
Lemma digits_value_zeros i : ∀ acc, digits_value (replicate i x30) acc = Some (acc * 10 ^ Z.of_nat i).
Proof.
  induction i as [|i IH]; intros acc; [simpl; f_equal; lia|]. cbn [replicate digits_value].
  change (dec_digit x30) with (Some 0). cbv match. rewrite IH, Nat2Z.inj_succ, Z.pow_succ_r by lia. f_equal. lia.
Qed.

Definition is_point (b : byte) : bool := u8 b =? 46.
Lemma no_point s : existsb is_point s = false ↔ lacks x2e s.
Proof.
  unfold lacks. rewrite <- not_true_iff_false, existsb_exists. split; intros H Hin; apply H.
  - exists x2e. split; [by apply list_elem_of_In|done].
  - destruct Hin as (b & Hb & E%Z.eqb_eq). apply list_elem_of_In in Hb.
    replace x2e with b; [done|]. apply u8_inj. by rewrite E.
Qed.
Lemma lacks_digits b s : u8 b < 48 → Forall (λ c, 48 <= u8 c <= 57) s → lacks b s.
Proof. intros Hb Hs Hin. rewrite Forall_forall in Hs. apply Hs in Hin. simpl in Hin. lia. Qed.
Lemma lacks_zeros b i : u8 b < 48 → lacks b (replicate i x30).
Proof. intros Hb Hin. apply elem_of_replicate in Hin as [-> _]. change (u8 x30) with 48 in Hb. lia. Qed.

Lemma read_point whole frac : lacks x2e whole → lacks x2e frac →
  read_unsigned (whole ++ lit "." ++ frac) = (λ n, (n, - len frac)) <$> digits_value (whole ++ frac) 0.
Proof.
  intros Hw Hf. unfold read_unsigned. change (lit "." ++ frac) with (x2e :: frac).
  by rewrite split_on_app, split_on_lacks by done.
Qed.

(** [if !s.contains('.') { s.push_str(".0") }]. *)
Definition ensure_point (s : str) : str := if existsb is_point s then s else s ++ lit ".0".
Lemma ensure_point_has s t : ensure_point (s ++ lit "." ++ t) = s ++ lit "." ++ t.
Proof.
  unfold ensure_point. rewrite existsb_app. change (existsb is_point (lit "." ++ t)) with true.
  by rewrite orb_true_r.
Qed.
Lemma ensure_point_lacks s : lacks x2e s → ensure_point s = s ++ lit "." ++ lit "0".
Proof. intros H%no_point. unfold ensure_point. by rewrite H. Qed.

Lemma distance_whole n k g : 0 <= k → distance (n * 10 ^ (k + 1)) (- 1) g = 10 * distance n k g.
Proof.
  intros Hk. unfold distance. rewrite (Z.max_r 0 k), (Z.max_l 0 (- k)) by lia.
  change (Z.max 0 (-1)) with 0. change (Z.max 0 (- -1)) with 1. rewrite Z.pow_add_r by lia.
  change (10 ^ 0) with 1. change (10 ^ 1) with 10. lia.
Qed.
Lemma rounds_to_whole n k f : 0 <= k → rounds_to n k f → rounds_to (n * 10 ^ (k + 1)) (- 1) f.
Proof.
  intros Hk H g Hg. destruct (H g Hg) as [H1 H2]. rewrite !distance_whole by done.
  split; [lia|]. intros E. apply H2. lia.
Qed.

(** The digits and the position read back; a whole number has a zero after the point. *)
Lemma read_dec_str n k : 0 <= n < 10 ^ 20 → k < 0 →
  read_unsigned (ensure_point (digits_to_dec_str (dec_bytes n) (len (dec_bytes n) + k))) = Some (n, k).
Proof.
  intros Hn Hk. pose proof (digits_value_dec_bytes n Hn) as Hv. pose proof (dec_bytes_digits n) as Hd.
  set (buf := dec_bytes n) in *. clearbody buf. unfold digits_to_dec_str.
  destruct (Z.leb_spec (len buf + k) 0) as [He|He].
  - change (lit "0." ++ ?t) with (lit "0" ++ lit "." ++ t). rewrite ensure_point_has, read_point;
      [|by apply lacks_digits with (s := lit "0"); [|repeat constructor]|
       apply lacks_app; split; [by apply lacks_zeros|by apply lacks_digits]].
    change (digits_value (lit "0" ++ ?t) 0) with (digits_value t 0).
    rewrite (digits_value_app _ _ 0 0); [|by rewrite digits_value_zeros].
    rewrite Hv. simpl. f_equal. f_equal. rewrite len_app. unfold len in *. rewrite length_replicate. lia.
  - zif. rewrite ensure_point_has, read_point, take_dropZ, Hv;
      [|apply lacks_digits, Forall_take; done|apply lacks_digits, Forall_drop; done].
    simpl. f_equal. f_equal. rewrite len_dropZ by lia. lia.
Qed.
Lemma read_dec_str_whole n k : 0 <= n < 10 ^ 20 → 0 <= k →
  read_unsigned (ensure_point (digits_to_dec_str (dec_bytes n) (len (dec_bytes n) + k)))
  = Some (n * 10 ^ (k + 1), - 1).
Proof.
  intros Hn Hk. pose proof (digits_value_dec_bytes n Hn) as Hv. pose proof (dec_bytes_digits n) as Hd.
  pose proof (dec_bytes_nonempty n) as Hne. pose proof (len_nil_inv (dec_bytes n)).
  set (buf := dec_bytes n) in *. clearbody buf. pose proof (len_nonneg buf). unfold digits_to_dec_str.
  destruct (Z.leb_spec (len buf + k) 0) as [He|He]; [exfalso; apply Hne; auto with zarith|]. zif.
  replace (len buf + k - len buf) with k by lia.
  assert (lacks x2e (buf ++ replicate (Z.to_nat k) x30)) as Hl.
  { apply lacks_app. split; [by apply lacks_digits|by apply lacks_zeros]. }
  rewrite ensure_point_lacks, read_point by (done || by apply lacks_digits; repeat constructor).
  rewrite (digits_value_app _ (lit "0") 0 (n * 10 ^ k)).
  - cbn. f_equal. f_equal. rewrite Z.pow_add_r by lia. lia.
  - rewrite (digits_value_app _ _ _ n Hv), digits_value_zeros. f_equal. f_equal. f_equal. lia.
Qed.

(** ** [format_f64] *)

(** What is printed after the sign. *)
Definition f64_body (f : f64) : str :=
  if f64_mant f =? 0 then lit "0"
  else let '(n, k) := format_shortest (flt2dec_decode f) in
       digits_to_dec_str (dec_bytes n) (len (dec_bytes n) + k).
Lemma format_f64_finite f : f64_is_finite f = true →
  format_f64 f = (if f64_is_sign_negative f then lit "-" else []) ++ ensure_point (f64_body f).
Proof.
  intros Hf%negb_true_iff. unfold format_f64, f64_display, f64_is_nan, f64_is_infinite. rewrite Hf. cbn [andb].
  fold (f64_body f). change (λ b, u8 b =? 46) with is_point. rewrite existsb_app. unfold ensure_point.
  destruct (f64_is_sign_negative f); cbn [existsb orb app]; [|done].
  change (existsb is_point (lit "-")) with false. cbn [orb]. destruct (existsb is_point (f64_body f)); [done|].
  by rewrite app_assoc.
Qed.

Lemma read_decimal_sign neg s n k : read_unsigned s = Some (n, k) → strip_prefix (lit "-") s = None →
  read_decimal ((if neg : bool then lit "-" else []) ++ s) = Some (neg, n, k).
Proof.
  intros Hs Hp. unfold read_decimal. destruct neg; [by rewrite strip_prefix_app, Hs|]. cbn [app].
  by rewrite Hp, Hs.
Qed.
(** A text that reads as unsigned has no sign. *)
Lemma read_unsigned_no_sign s r : read_unsigned s = Some r → strip_prefix (lit "-") s = None.
Proof.
  intros Hr. destruct (strip_prefix _ s) as [t|] eqn:E; [|done]. apply strip_prefix_Some in E as ->. exfalso.
  revert Hr. change (lit "-" ++ t) with (x2d :: t). unfold read_unsigned. cbn [split_on].
  rewrite bool_decide_false by done. by destruct (split_on x2e t) as [|a [|b [|]]].
Qed.

(** A text with one decimal point and digits on both sides of it. *)
Definition digits (s : str) : Prop := s ≠ [] ∧ Forall (λ b, 48 <= u8 b <= 57) s.
Definition pointed (s : str) : Prop := ∃ whole frac, s = whole ++ lit "." ++ frac ∧ digits whole ∧ digits frac.
Lemma zeros_digits n : Forall (λ b, 48 <= u8 b <= 57) (replicate n x30).
Proof. apply Forall_replicate. vm_compute. split; discriminate. Qed.
Lemma len_pos_nonempty (s : str) : 0 < len s → s ≠ [].
Proof. intros H ->. by vm_compute in H. Qed.
Lemma dec_str_pointed n k : 0 <= n →
  pointed (ensure_point (digits_to_dec_str (dec_bytes n) (len (dec_bytes n) + k))).
Proof.
  intros Hn. pose proof (dec_bytes_digits n) as Hd. pose proof (dec_bytes_nonempty n) as Hne.
  set (buf := dec_bytes n) in *. clearbody buf. unfold digits_to_dec_str.
  assert (digits (lit "0")) as H0 by (split; [done|apply (zeros_digits 1)]).
  destruct (Z.leb_spec (len buf + k) 0) as [He|He].
  - change (lit "0." ++ ?t) with (lit "0" ++ lit "." ++ t). rewrite ensure_point_has. eexists _, _.
    split; [reflexivity|]. split; [done|].
    split; [by intros [_ ?]%app_eq_nil|]. apply Forall_app. split; [apply zeros_digits|done].
  - destruct (Z.ltb_spec (len buf + k) (len buf)) as [Hk|Hk].
    + rewrite ensure_point_has. eexists _, _. split; [reflexivity|].
      split; (split; [apply len_pos_nonempty|]); try (by apply Forall_take); try (by apply Forall_drop).
      * rewrite len_takeZ by lia. lia.
      * rewrite len_dropZ by lia. lia.
    + assert (Forall (λ b, 48 <= u8 b <= 57) (buf ++ replicate (Z.to_nat (len buf + k - len buf)) x30)) as Hall
        by (apply Forall_app; split; [done|apply zeros_digits]).
      rewrite ensure_point_lacks by (by apply lacks_digits). eexists _, _. split; [reflexivity|].
      split; [|done]. split; [by intros [? _]%app_eq_nil|done].
Qed.

