(* ===== verification/LogFormat.v ===== *)
(** * The log rendering of documents: [log_document], [log_array] and the
    recursive writers of [wirebson/src/encode.rs].

    The writers append to a string that is threaded through them.  [indent] is
    the level of the multi-line form, [-1] in the compact one; [depth] is the
    nesting level at which documents are cut off. *)
From stdpp Require Import base list numbers strings.
From Stdlib Require Import ZArith Lia.
From S2P Require Import Prelude Utf8 StrOps Io Consts BsonScalar F64 BsonValue BsonEncode.
From S2P Require Import BsonDecode BsonRoundtrip LogText.
Local Open Scope Z_scope.

Definition newline : byte := x0a.

(** [push_indent]. *)
Definition push_indent (out : str) (level : Z) : str :=
  out ++ concat (replicate (Z.to_nat level) (lit "  ")).

(** [subtype_name]. *)
Definition subtype_name (s : BinarySubtype) : str :=
  match s with
  | BinarySubtype_Generic => lit "generic"
  | BinarySubtype_Function => lit "function"
  | BinarySubtype_BinaryOld => lit "binary-old"
  | BinarySubtype_UuidOld => lit "uuid-old"
  | BinarySubtype_Uuid => lit "uuid"
  | BinarySubtype_Md5 => lit "md5"
  | BinarySubtype_Encrypted => lit "encrypted"
  | BinarySubtype_UserDefined _ => lit "user"
  end.

Section Writers.
Variable unicode_plain : Z → bool.
#[local] Abbreviation quote := (quote unicode_plain).

(** ** Containers, given the rendering of a value *)

Section Open.
Variable write_value : str → Bson → Z → Z → total str.

(** The two [for] loops of [write_document]. *)
Definition fields_compact (indent depth n : Z)
  : Z → list (str * Bson) → str → total str :=
  fix go i fields out {struct fields} :=
    match fields with
    | [] => Ok out
    | (name, value) :: t =>
        let out := out ++ quote name ++ lit ": " in
        let* out := write_value out value indent (depth + 1) in
        go (i + 1) t (if negb (i + 1 =? n) then out ++ lit ", " else out)
    end.
Definition fields_indented (i depth : Z) : list (str * Bson) → str → total str :=
  fix go fields out {struct fields} :=
    match fields with
    | [] => Ok out
    | (name, value) :: t =>
        let out := push_indent out (i + 1) ++ quote name ++ lit ": " in
        let* out := write_value out value (i + 1) (depth + 1) in
        go t (out ++ lit "," ++ [newline])
    end.
Definition write_document_with (out : str) (doc : list (str * Bson)) (indent depth : Z)
  : total str :=
  if Document_is_empty doc then Ok (out ++ lit "{}")
  else if MAX_NESTING_DEPTH <? depth then Ok (out ++ lit "{...}")
  else if indent <? 0 then
    let* out := fields_compact indent depth (len doc) 0 doc (out ++ lit "{") in
    Ok (out ++ lit "}")
  else
    let* out := fields_indented indent depth doc (out ++ lit "{" ++ [newline]) in
    Ok (push_indent out indent ++ lit "}").

(** The two [for] loops of [write_array]. *)
Definition values_compact (indent depth n : Z) : Z → list Bson → str → total str :=
  fix go i values out {struct values} :=
    match values with
    | [] => Ok out
    | value :: t =>
        let* out := write_value out value indent (depth + 1) in
        go (i + 1) t (if negb (i + 1 =? n) then out ++ lit ", " else out)
    end.
Definition values_indented (i depth : Z) : list Bson → str → total str :=
  fix go values out {struct values} :=
    match values with
    | [] => Ok out
    | value :: t =>
        let* out := write_value (push_indent out (i + 1)) value (i + 1) (depth + 1) in
        go t (out ++ lit "," ++ [newline])
    end.
Definition write_array_with (out : str) (arr : list Bson) (indent depth : Z) : total str :=
  if Array_is_empty arr then Ok (out ++ lit "[]")
  else if MAX_NESTING_DEPTH <? depth then Ok (out ++ lit "[...]")
  else if indent <? 0 then
    let* out := values_compact indent depth (len arr) 0 arr (out ++ lit "[") in
    Ok (out ++ lit "]")
  else
    let* out := values_indented indent depth arr (out ++ lit "[" ++ [newline]) in
    Ok (push_indent out indent ++ lit "]").
End Open.

(** ** [write_value] *)

(** The arms that do not recurse. *)
Definition write_leaf (out : str) (value : Bson) : total str :=
  match value with
  | Bson_Double v =>
      Ok (out ++ (if f64_is_nan v then lit "NaN"
                  else if f64_is_infinite v
                  then (if f64_is_sign_negative v then lit "-Inf" else lit "+Inf")
                  else format_f64 v))
  | Bson_String s => Ok (out ++ quote s)
  | Bson_Binary b =>
      let* data := base64 (binary_bytes b) in
      Ok (out ++ lit "Binary(" ++ subtype_name (subtype b) ++ lit ":" ++ data ++ lit ")")
  | Bson_Undefined => Ok (out ++ lit "undefined")
  | Bson_ObjectId id => Ok (out ++ lit "ObjectId('" ++ hex id ++ lit "')")
  | Bson_Bool v => Ok (out ++ (if v then lit "true" else lit "false"))
  | Bson_DateTime ms => let* s := format_datetime ms in Ok (out ++ s)
  | Bson_Null => Ok (out ++ lit "null")
  | Bson_Regex r => Ok (out ++ lit "/" ++ pattern r ++ lit "/" ++ options r)
  | Bson_DbPointer p =>
      Ok (out ++ lit "DbPointer(" ++ quote (namespace p) ++ lit ", ObjectId('"
          ++ hex (pointer_id p) ++ lit "'))")
  | Bson_JavaScript code => Ok (out ++ lit "JavaScript(" ++ quote code ++ lit ")")
  | Bson_Symbol s => Ok (out ++ lit "Symbol(" ++ quote s ++ lit ")")
  | Bson_JavaScriptScope code scope =>
      Ok (out ++ lit "JavaScriptScope({code: " ++ quote code ++ lit ", scope: RawDocument<"
          ++ dec_bytes (len scope) ++ lit ">})")
  | Bson_Int32 v => Ok (out ++ int_bytes v)
  | Bson_Timestamp t =>
      Ok (out ++ lit "Timestamp({s: " ++ dec_bytes (seconds t) ++ lit ", i: "
          ++ dec_bytes (increment t) ++ lit "})")
  | Bson_Int64 v => Ok (out ++ lit "int64(" ++ int_bytes v ++ lit ")")
  | Bson_Decimal128 d =>
      let* low := slice d 0 8 in
      let* low := array_of 8 low in
      let* high := slice d 8 (len d) in
      let* high := array_of 8 high in
      Ok (out ++ lit "Decimal128(H:" ++ dec_bytes (u64_of_le high) ++ lit ",L:"
          ++ dec_bytes (u64_of_le low) ++ lit ")")
  | Bson_MinKey => Ok (out ++ lit "MinKey")
  | Bson_MaxKey => Ok (out ++ lit "MaxKey")
  | Bson_Document _ | Bson_Array _ => Ok out
  end.

Fixpoint write_value (out : str) (value : Bson) (indent depth : Z) {struct value} : total str :=
  match value with
  | Bson_Document doc => write_document_with write_value out doc indent depth
  | Bson_Array arr => write_array_with write_value out arr indent depth
  | leaf => write_leaf out leaf
  end.
Definition write_document : str → list (str * Bson) → Z → Z → total str :=
  write_document_with write_value.
Definition write_array : str → list Bson → Z → Z → total str := write_array_with write_value.

(** [log_document] and [log_array]. *)
Definition log_document (doc : Document) (indent : bool) : total str :=
  write_document [] doc (if indent then 0 else -1) 1.
Definition log_array (arr : Array) (indent : bool) : total str :=
  write_array [] arr (if indent then 0 else -1) 1.

(** ** [Display] *)

(** The messages of [ScalarError] and [wirebson::Error]. *)
Definition short_input_text (needed got : Z) : str :=
  lit "unexpected end of input: needed " ++ dec_bytes needed ++ lit " byte(s), got "
  ++ dec_bytes got.
Definition ScalarError_to_string (e : ScalarError) : str :=
  match e with
  | ScalarError_ShortInput needed got => short_input_text needed got
  | ScalarError_Invalid tag reason =>
      lit "invalid input for tag 0x" ++ lower_hex (of_u8 tag) ++ lit ": " ++ lit reason
  | ScalarError_Utf8 _ => lit "invalid utf-8"
  | ScalarError_OutOfRange => lit "value out of range for the requested type"
  | ScalarError_NotConvertible => lit "cannot convert this scalar kind to the requested type"
  end.
Definition BsonError_to_string (e : BsonError) : str :=
  match e with
  | BsonError_ShortInput needed got => short_input_text needed got
  | BsonError_InvalidInput offset reason =>
      lit "invalid input at offset " ++ dec_bytes offset ++ lit ": " ++ lit reason
  | BsonError_LengthMismatch declared actual =>
      lit "length mismatch: declared " ++ dec_bytes declared ++ lit ", actual "
      ++ dec_bytes actual
  | BsonError_Utf8 _ => lit "invalid utf-8"
  | BsonError_NestedTooDeep max => lit "nesting too deep (max " ++ dec_bytes max ++ lit ")"
  | BsonError_Scalar e => ScalarError_to_string e
  end.

Definition Document_fmt (doc : Document) : total str := log_document doc false.
Definition Array_fmt (arr : Array) : total str := log_array arr false.
(** [alternate] is the [{:#}] form. *)
Definition RawDocument_fmt (b : RawDocument) (alternate : bool) : total str :=
  match RawDocument_shallow b with
  | Ok doc => log_document doc alternate
  | Err e => Ok (lit "<invalid document: " ++ BsonError_to_string e ++ lit ">")
  | Panic => Panic
  | Fuel => Fuel
  end.
End Writers.

Example log_document_values :
  log_document (λ _, true)
    [(lit "a", Bson_Array [Bson_Int32 (-1); Bson_Document []]);
     (lit "b", Bson_Double 4607182418800017408)] false
  = Ok (x7b :: x22 :: lit "a" ++ x22 :: lit ": [-1, {}], " ++ x22 :: lit "b" ++ x22 :: lit ": 1.0}")
  ∧ log_document (λ _, true) [(lit "a", Bson_Array [Bson_Null])] true
  = Ok (x7b :: newline :: lit "  " ++ x22 :: lit "a" ++ x22 :: lit ": [" ++ newline
        :: lit "    null," ++ newline :: lit "  ]," ++ newline :: lit "}").
Proof. vm_compute. split; reflexivity. Qed.

(** ** The depth cut-off *)

(** Everything below [n] levels of composites replaced by a placeholder. *)
Fixpoint cut (n : nat) (v : Bson) : Bson :=
  match v, n with
  | Bson_Document [], _ | Bson_Array [], _ => v
  | Bson_Document _, O => Bson_Document [([], Bson_Null)]
  | Bson_Document fs, S n => Bson_Document (map (λ f, (f.1, cut n f.2)) fs)
  | Bson_Array _, O => Bson_Array [Bson_Null]
  | Bson_Array vs, S n => Bson_Array (map (cut n) vs)
  | _, _ => v
  end.

Section CutOff.
Variable unicode_plain : Z → bool.
#[local] Abbreviation write_value := (write_value unicode_plain).

Section Loops.
Variables (g : Bson → Bson) (indent depth : Z).
Hypothesis same : ∀ v out, write_value out (g v) indent (depth + 1)
  = write_value out v indent (depth + 1).

Lemma fields_compact_map n fs : ∀ i out,
  fields_compact unicode_plain write_value indent depth n i (map (λ f, (f.1, g f.2)) fs) out
  = fields_compact unicode_plain write_value indent depth n i fs out.
Proof.
  induction fs as [|[name v] fs IH]; intros i out; simpl; [done|].
  rewrite same. apply bind_ext. intros o _. apply IH.
Qed.
Lemma values_compact_map n vs : ∀ i out,
  values_compact write_value indent depth n i (map g vs) out
  = values_compact write_value indent depth n i vs out.
Proof.
  induction vs as [|v vs IH]; intros i out; simpl; [done|].
  rewrite same. apply bind_ext. intros o _. apply IH.
Qed.
End Loops.

Section IndentedLoops.
Variables (g : Bson → Bson) (i depth : Z).
Hypothesis same : ∀ v out, write_value out (g v) (i + 1) (depth + 1)
  = write_value out v (i + 1) (depth + 1).

Lemma fields_indented_map fs : ∀ out,
  fields_indented unicode_plain write_value i depth (map (λ f, (f.1, g f.2)) fs) out
  = fields_indented unicode_plain write_value i depth fs out.
Proof.
  induction fs as [|[name v] fs IH]; intros out; simpl; [done|].
  rewrite same. apply bind_ext. intros o _. apply IH.
Qed.
Lemma values_indented_map vs : ∀ out,
  values_indented write_value i depth (map g vs) out
  = values_indented write_value i depth vs out.
Proof.
  induction vs as [|v vs IH]; intros out; simpl; [done|].
  rewrite same. apply bind_ext. intros o _. apply IH.
Qed.
End IndentedLoops.

Lemma len_map {A B} (h : A → B) l : len (map h l) = len l.
Proof. unfold len. by rewrite length_map. Qed.

Section Containers.
Variables (g : Bson → Bson) (depth : Z).
Hypothesis same : ∀ v out i, write_value out (g v) i (depth + 1)
  = write_value out v i (depth + 1).

Lemma write_document_map fs out indent :
  write_value out (Bson_Document (map (λ f, (f.1, g f.2)) fs)) indent depth
  = write_value out (Bson_Document fs) indent depth.
Proof.
  change (write_document unicode_plain out (map (λ f, (f.1, g f.2)) fs) indent depth
    = write_document unicode_plain out fs indent depth).
  unfold write_document, write_document_with.
  replace (Document_is_empty (map _ fs)) with (Document_is_empty fs) by (by destruct fs).
  rewrite fields_compact_map, fields_indented_map, len_map by eauto. done.
Qed.
Lemma write_array_map vs out indent :
  write_value out (Bson_Array (map g vs)) indent depth
  = write_value out (Bson_Array vs) indent depth.
Proof.
  change (write_array unicode_plain out (map g vs) indent depth
    = write_array unicode_plain out vs indent depth).
  unfold write_array, write_array_with.
  replace (Array_is_empty (map g vs)) with (Array_is_empty vs) by (by destruct vs).
  rewrite values_compact_map, values_indented_map, len_map by eauto. done.
Qed.
End Containers.

Lemma write_value_cut n : ∀ v out indent depth, MAX_NESTING_DEPTH < Z.of_nat n + depth →
  write_value out (cut n v) indent depth = write_value out v indent depth.
Proof.
  induction n as [|n IH]; intros v out indent depth Hd;
    destruct v as [ | |[|f fs]|[|v vs]| | | | | | | | | | | | | | | | | ]; try done.
  - cbn. unfold write_document_with. simpl Document_is_empty.
    by replace (MAX_NESTING_DEPTH <? depth) with true by lia.
  - cbn. unfold write_array_with. simpl Array_is_empty.
    by replace (MAX_NESTING_DEPTH <? depth) with true by lia.
  - apply (write_document_map (cut n)). intros. apply IH. lia.
  - apply (write_array_map (cut n)). intros. apply IH. lia.
Qed.

(** Nesting in logs is cut off: documents that agree on their first twenty
    levels render alike, whatever is below them, in both forms. *)
Lemma log_depth_cutoff d1 d2 indent :
  cut 20 (Bson_Document d1) = cut 20 (Bson_Document d2) →
  log_document unicode_plain d1 indent = log_document unicode_plain d2 indent.
Proof.
  intros H. unfold log_document, write_document.
  change (write_value [] (Bson_Document d1) (if indent then 0 else -1) 1
    = write_value [] (Bson_Document d2) (if indent then 0 else -1) 1).
  rewrite <- (write_value_cut 20 (Bson_Document d1)) by done. rewrite H.
  by apply write_value_cut.
Qed.
End CutOff.

(** [n] levels of documents around [v]. *)
Fixpoint nested (n : nat) (v : Bson) : Bson :=
  match n with O => v | S n => Bson_Document [(lit "a", nested n v)] end.
Example log_depth_cutoff_run :
  log_document (λ _, true) [(lit "a", nested 20 (Bson_Int32 1))] true
  = log_document (λ _, true) [(lit "a", nested 20 (Bson_Array [Bson_Null]))] true.
Proof. apply log_depth_cutoff. reflexivity. Qed.

(** ** Rendering returns, and the compact form is one clean line *)

(** Every regular expression in [v], which the writer copies unquoted, is free of
    control characters. *)
Fixpoint regex_clean (v : Bson) : Prop :=
  match v with
  | Bson_Document fs => foldr (λ f P, regex_clean f.2 ∧ P) True fs
  | Bson_Array vs => foldr (λ x P, regex_clean x ∧ P) True vs
  | Bson_Regex r => clean (pattern r) ∧ clean (options r)
  | _ => True
  end.

Section Renders.
Variable unicode_plain : Z → bool.
#[local] Abbreviation write_value := (write_value unicode_plain).

(** A writer appends a text that does not depend on what was written before, and
    is clean in the compact form. *)
Definition appends (w : str → total str) (P : Prop) : Prop :=
  ∃ r, (∀ out, w out = Ok (out ++ r)) ∧ (P → clean r).
Definition renders (v : Bson) : Prop :=
  ∀ indent depth, appends (λ out, write_value out v indent depth) (indent < 0 ∧ regex_clean v).

Lemma appends_lit s (P : Prop) : (P → clean s) → appends (λ out, Ok (out ++ s)) P.
Proof. intros H. by exists s. Qed.
Lemma appends_bind w1 w2 P :
  appends w1 P → appends w2 P → appends (λ out, bind (w1 out) w2) P.
Proof.
  intros (r1 & H1 & C1) (r2 & H2 & C2). exists (r1 ++ r2). split.
  - intros out. rewrite H1. cbn [bind]. by rewrite H2, app_assoc.
  - intros HP. apply clean_app. auto.
Qed.
Lemma appends_after s w (P : Prop) : appends w P → (P → clean s) →
  appends (λ out, w (out ++ s)) P.
Proof.
  intros (r & H & C) Hs. exists (s ++ r). split.
  - intros out. by rewrite H, app_assoc.
  - intros HP. apply clean_app. auto.
Qed.
Lemma appends_impl w (P Q : Prop) : appends w P → (Q → P) → appends w Q.
Proof. intros (r & H & C) HQ. exists r. auto. Qed.
Lemma appends_ext w1 w2 P : appends w1 P → (∀ out, w1 out = w2 out) → appends w2 P.
Proof. intros (r & H & C) E. exists r. split; [|done]. intros. by rewrite <- E. Qed.

Lemma appends_refl P : appends (λ out, Ok out) P.
Proof. exists []. split; [intros; by rewrite app_nil_r|]. intros. apply clean_nil. Qed.

(** The loop over fields or values: an item, a separator, the remaining items. *)
Lemma appends_cons w sep rest P : appends w P → clean sep → appends rest P →
  ∀ more : bool,
  appends (λ out, let* out := w out in rest (if more then out ++ sep else out)) P.
Proof.
  intros Hw Hs Hr more. apply appends_bind; [done|]. destruct more; [|done].
  by apply appends_after.
Qed.

Section Loops.
Variables (indent depth n : Z).

Lemma fields_compact_appends fs :
  Forall (λ f, valid_utf8 f.1 = true ∧ renders f.2) fs → ∀ i,
  appends (fields_compact unicode_plain write_value indent depth n i fs)
    (indent < 0 ∧ regex_clean (Bson_Document fs)).
Proof.
  induction 1 as [|[name v] fs [Hn Hv] _ IH]; intros i; [apply appends_refl|]. simpl in Hn.
  apply (appends_after (quote unicode_plain name ++ lit ": ")
    (λ out, let* out := write_value out v indent (depth + 1) in
      fields_compact unicode_plain write_value indent depth n (i + 1) fs
        (if negb (i + 1 =? n) then out ++ lit ", " else out))); [|intros; clean_tac].
  apply appends_cons; [|clean_tac|]; eapply appends_impl; [apply Hv| |apply IH|];
    intros [? []]; done.
Qed.
Lemma values_compact_appends vs : Forall renders vs → ∀ i,
  appends (values_compact write_value indent depth n i vs)
    (indent < 0 ∧ regex_clean (Bson_Array vs)).
Proof.
  induction 1 as [|v vs Hv _ IH]; intros i; [apply appends_refl|].
  apply (appends_cons (λ out, write_value out v indent (depth + 1)) (lit ", ")
    (values_compact write_value indent depth n (i + 1) vs)); [|clean_tac|];
    eapply appends_impl; [apply Hv| |apply IH|]; intros [? []]; done.
Qed.

Lemma fields_indented_appends fs :
  Forall (λ f, valid_utf8 f.1 = true ∧ renders f.2) fs →
  appends (fields_indented unicode_plain write_value indent depth fs) False.
Proof.
  induction 1 as [|[name v] fs [_ Hv] _ IH]; [apply appends_refl|].
  eapply appends_ext; [apply (appends_after
    (concat (replicate (Z.to_nat (indent + 1)) (lit "  ")) ++ quote unicode_plain name ++ lit ": ")
    (λ out, let* out := write_value out v (indent + 1) (depth + 1) in
      fields_indented unicode_plain write_value indent depth fs
        (out ++ lit "," ++ [newline])) False)|]; [|done|].
  - apply appends_bind; [by eapply appends_impl; [apply Hv|]|]. by apply appends_after.
  - intros out. simpl. unfold push_indent. by rewrite <- !app_assoc.
Qed.
Lemma values_indented_appends vs : Forall renders vs →
  appends (values_indented write_value indent depth vs) False.
Proof.
  induction 1 as [|v vs Hv _ IH]; [apply appends_refl|].
  apply (appends_after (concat (replicate (Z.to_nat (indent + 1)) (lit "  ")))
    (λ out, let* out := write_value out v (indent + 1) (depth + 1) in
      values_indented write_value indent depth vs (out ++ lit "," ++ [newline])) False);
    [|done].
  apply appends_bind; [by eapply appends_impl; [apply Hv|]|]. by apply appends_after.
Qed.
End Loops.

Lemma appends_value v indent depth (P : Prop) :
  appends (λ out, write_leaf unicode_plain out v) P →
  (∀ fs, v ≠ Bson_Document fs) → (∀ vs, v ≠ Bson_Array vs) →
  appends (λ out, write_value out v indent depth) P.
Proof. intros H Hd Ha. destruct v; try exact H; naive_solver. Qed.

(** A leaf whose text is computed first. *)
Lemma appends_text {A} (m : total A) a (k : A → str) (P : Prop) :
  m = Ok a → (P → clean (k a)) → appends (λ out, let* x := m in Ok (out ++ k x)) P.
Proof. intros -> H. by exists (k a). Qed.

Lemma write_leaf_appends v : value_ok v →
  appends (λ out, write_leaf unicode_plain out v) (regex_clean v).
Proof.
  intros Hok. destruct v; cbn [value_ok Bson_as_scalar scalar_ok] in Hok;
    cbn [write_leaf regex_clean];
    try (apply appends_lit; intros; destruct_and?; clean_tac; fail); try apply appends_refl.
  - destruct (base64_loop_spec (binary_bytes b) []) as (s & Hs & _ & _).
    apply (appends_text (base64 (binary_bytes b)) s
      (λ s, lit "Binary(" ++ subtype_name (subtype b) ++ lit ":" ++ s ++ lit ")")); [done|].
    intros _. assert (clean (subtype_name (subtype b))) by (destruct (subtype b); cbn [subtype_name]; clean_tac).
    clean_tac.
  - destruct Hok as [Hok _]. destruct (format_datetime_returns v Hok) as [s Hs].
    apply (appends_text _ s (λ s, s)); [done|]. intros _. clean_tac.
  - destruct Hok as [Hd _]. rewrite !slice_Ok by lia. cbn [bind].
    unfold array_of. rewrite !len_takeZ; rewrite ?len_dropZ by lia; try lia.
    rewrite Hd. cbn -[takeZ dropZ lit dec_bytes]. apply appends_lit. intros _. clean_tac.
Qed.

Lemma document_renders fs : Forall (λ f, valid_utf8 f.1 = true ∧ renders f.2) fs →
  renders (Bson_Document fs).
Proof.
  intros H indent depth.
  change (appends (λ out, write_document unicode_plain out fs indent depth)
    (indent < 0 ∧ regex_clean (Bson_Document fs))).
  unfold write_document, write_document_with.
  destruct (Document_is_empty fs); [apply appends_lit; intros; clean_tac|].
  destruct (_ <? depth); [apply appends_lit; intros; clean_tac|].
  destruct (Z.ltb_spec indent 0).
  - apply appends_bind; [|apply appends_lit; intros; clean_tac].
    apply appends_after; [by apply fields_compact_appends|intros; clean_tac].
  - eapply appends_impl with False; [|lia]. apply appends_bind.
    + by apply appends_after; [apply fields_indented_appends|].
    + by apply (appends_after _ (λ out, Ok (out ++ lit "}"))); [apply appends_lit|].
Qed.
Lemma array_renders vs : Forall renders vs → renders (Bson_Array vs).
Proof.
  intros H indent depth.
  change (appends (λ out, write_array unicode_plain out vs indent depth)
    (indent < 0 ∧ regex_clean (Bson_Array vs))).
  unfold write_array, write_array_with.
  destruct (Array_is_empty vs); [apply appends_lit; intros; clean_tac|].
  destruct (_ <? depth); [apply appends_lit; intros; clean_tac|].
  destruct (Z.ltb_spec indent 0).
  - apply appends_bind; [|apply appends_lit; intros; clean_tac].
    apply appends_after; [by apply values_compact_appends|intros; clean_tac].
  - eapply appends_impl with False; [|lia]. apply appends_bind.
    + by apply appends_after; [apply values_indented_appends|].
    + by apply (appends_after _ (λ out, Ok (out ++ lit "]"))); [apply appends_lit|].
Qed.

Lemma value_renders v : value_ok v → renders v.
Proof.
  induction v as [fs IH|vs IH|v Hd Ha] using Bson_nested_ind; intros Hok.
  - apply value_ok_document in Hok. apply document_renders.
    eapply Forall_impl; [apply Forall_and; split; [exact IH|exact Hok]|].
    intros f [Hf [[Hn _] Hv]]. auto.
  - apply value_ok_array in Hok. apply array_renders.
    eapply Forall_impl; [apply Forall_and; split; [exact IH|exact Hok]|].
    intros v [Hf Hv]. auto.
  - intros indent depth. apply appends_value; [|done|done].
    eapply appends_impl; [by apply write_leaf_appends|]. by intros [_ ?].
Qed.
End Renders.

Lemma shallow_value_ok b d : RawDocument_shallow b = Ok d → value_ok (Bson_Document d).
Proof. intros H. apply (shallow_decoded b d H). Qed.

(** Displaying any bytes returns. *)
Lemma RawDocument_fmt_spec unicode_plain b alternate : ∃ s,
  RawDocument_fmt unicode_plain b alternate = Ok s
  ∧ ∀ d, RawDocument_shallow b = Ok d → alternate = false →
      regex_clean (Bson_Document d) → clean s.
Proof.
  pose proof (shallow_returns b) as Hr. pose proof (shallow_value_ok b) as Hok.
  unfold RawDocument_fmt. destruct (RawDocument_shallow b) as [d|e| |]; [| |destruct Hr..].
  - destruct (value_renders unicode_plain _ (Hok d eq_refl) (if alternate then 0 else -1) 1)
      as (r & Hw & Hc).
    exists r. split; [exact (Hw [])|]. intros d' [= <-] -> Hx. apply Hc. by split.
  - eexists. split; [done|]. discriminate.
Qed.
Lemma RawDocument_fmt_returns unicode_plain b alternate :
  ∃ s, RawDocument_fmt unicode_plain b alternate = Ok s.
Proof. destruct (RawDocument_fmt_spec unicode_plain b alternate) as (s & H & _). eauto. Qed.

(** C29. Logging whatever arrives is safe.  Displaying any bytes as a document
    returns, in both forms, decodable or not; and the compact form of a document
    that decodes has no control character, so it stays on one line, unless one
    of the document's regular expressions has one: those are copied unquoted. *)
Theorem log_received unicode_plain b alternate : ∃ s,
  RawDocument_fmt unicode_plain b alternate = Ok s
  ∧ ∀ d, RawDocument_shallow b = Ok d → alternate = false →
      regex_clean (Bson_Document d) → clean s.
Proof. apply RawDocument_fmt_spec. Qed.

(** A line break in a regular expression reaches the log as it is. *)
Example log_regex_unquoted :
  log_document (λ _, true) [(lit "r", Bson_Regex (mkRegex [x61; newline; x62] []))] false
  = Ok (x7b :: x22 :: lit "r" ++ x22 :: lit ": /a" ++ newline :: lit "b/}").
Proof. reflexivity. Qed.
