(* ===== verification/Header.v ===== *)
(** * Errors, opcodes and the message header: [mongowire/src/error.rs] and
    [mongowire/src/messages/header.rs]. *)
From stdpp Require Import base list numbers strings.
From Stdlib Require Import ZArith Lia.
From S2P Require Import Prelude Utf8 Io Consts BsonScalar BsonValue.
Local Open Scope Z_scope.

(** ** Errors *)

(** The [std::io::Error]s the crate builds or receives. *)
Inductive IoError :=
| IoError_InvalidData (e : ReadError)
| IoError_UnexpectedEof (reason : string)
| IoError_Other (reason : string).

Inductive ProtocolError :=
| ProtocolError_InvalidHeader (reason : string)
| ProtocolError_MessageTooLarge (size max : Z)
| ProtocolError_UnsupportedOpcode (raw : Z)
| ProtocolError_InvalidOpMsg (reason : string)
| ProtocolError_InvalidBody (reason : string)
| ProtocolError_ChecksumMismatch (expected computed : Z)
| ProtocolError_UnsupportedCompressor (id : Z)
| ProtocolError_Compression (reason : string)
| ProtocolError_DecompressedSizeMismatch (expected actual : Z)
| ProtocolError_Bson (e : BsonError)
| ProtocolError_Scalar (e : ScalarError)
| ProtocolError_Io (e : IoError).

(** The crate's [Error]. *)
Inductive WireError :=
| WireError_Protocol (e : ProtocolError)
| WireError_Command (code : Z) (code_name message : str).

Definition WireError_command (code : Z) (code_name message : str) : WireError :=
  WireError_Command code code_name message.

(** [impl From<ReadError> for ProtocolError]. *)
Definition ProtocolError_from_read (e : ReadError) : ProtocolError :=
  ProtocolError_Io (IoError_InvalidData e).

(** [Error::to_error_response_doc]; the double [0.0] is the zero pattern. *)
Definition to_error_response_doc (e : WireError) : option Document :=
  match e with
  | WireError_Command code code_name message =>
      let doc := Document_new in
      let doc := Document_add doc (lit "ok") (Bson_Double 0) in
      let doc := Document_add doc (lit "errmsg") (Bson_String message) in
      let doc := Document_add doc (lit "code") (Bson_Int32 code) in
      let doc := Document_add doc (lit "codeName") (Bson_String code_name) in
      let doc := Document_add doc (lit "$db") (Bson_String (lit "admin")) in
      Some doc
  | WireError_Protocol _ => None
  end.

(** ** Opcodes *)

Inductive Opcode :=
| Opcode_Reply
| Opcode_Update
| Opcode_Insert
| Opcode_Reserved
| Opcode_Query
| Opcode_GetMore
| Opcode_Delete
| Opcode_KillCursors
| Opcode_Compressed
| Opcode_Msg.
#[export] Instance Opcode_eq_dec : EqDecision Opcode.
Proof. solve_decision. Defined.

Definition Opcode_to_i32 (o : Opcode) : Z :=
  match o with
  | Opcode_Reply => OP_REPLY
  | Opcode_Update => OP_UPDATE
  | Opcode_Insert => OP_INSERT
  | Opcode_Reserved => OP_RESERVED
  | Opcode_Query => OP_QUERY
  | Opcode_GetMore => OP_GET_MORE
  | Opcode_Delete => OP_DELETE
  | Opcode_KillCursors => OP_KILL_CURSORS
  | Opcode_Compressed => OP_COMPRESSED
  | Opcode_Msg => OP_MSG
  end.

Definition Opcode_from_i32 (v : Z) : option Opcode :=
  if v =? OP_REPLY then Some Opcode_Reply
  else if v =? OP_UPDATE then Some Opcode_Update
  else if v =? OP_INSERT then Some Opcode_Insert
  else if v =? OP_RESERVED then Some Opcode_Reserved
  else if v =? OP_QUERY then Some Opcode_Query
  else if v =? OP_GET_MORE then Some Opcode_GetMore
  else if v =? OP_DELETE then Some Opcode_Delete
  else if v =? OP_KILL_CURSORS then Some Opcode_KillCursors
  else if v =? OP_COMPRESSED then Some Opcode_Compressed
  else if v =? OP_MSG then Some Opcode_Msg
  else None.

(** ** The header *)

Record Header := mkHeader {
  message_length : Z; request_id : Z; response_to : Z; op_code : Opcode
}.

Definition Header_new (request_id response_to : Z) (op_code : Opcode) : Header :=
  mkHeader 0 request_id response_to op_code.

(** [r.read_i32_le().unwrap_or(0)]: a failed read leaves the cursor. *)
Definition read_i32_or_0 {E} : reader E Z := λ r,
  match read_i32_le r with
  | Ok (v, r') => Ok (v, r')
  | Err _ => Ok (0, r)
  | Panic => Panic
  | Fuel => Fuel
  end.

Definition Header_parse (buf : bytes) (max_len : Z) : outcome ProtocolError Header :=
  if len buf <? MSG_HEADER_LEN then Err (ProtocolError_InvalidHeader "short header")
  else
    let r := takeZ MSG_HEADER_LEN buf in
    let* '(ml, r) := read_i32_or_0 r in
    if ml <? MSG_HEADER_LEN then Err (ProtocolError_InvalidHeader "length below header size")
    else if max_len <? ml then Err (ProtocolError_MessageTooLarge ml max_len)
    else if MAX_MSG_LEN <? ml then Err (ProtocolError_MessageTooLarge ml MAX_MSG_LEN)
    else
      let* '(rid, r) := read_i32_or_0 r in
      let* '(rto, r) := read_i32_or_0 r in
      let* '(raw_opcode, r) := read_i32_or_0 r in
      let* op := ok_or (Opcode_from_i32 raw_opcode) (ProtocolError_UnsupportedOpcode raw_opcode) in
      Ok (mkHeader ml rid rto op).

Definition Header_encode (h : Header) (out : bytes) : bytes :=
  out ++ le_encode 4 (message_length h) ++ le_encode 4 (request_id h)
      ++ le_encode 4 (response_to h) ++ le_encode 4 (Opcode_to_i32 (op_code h)).

(** ** Lemmas *)

Definition header_wire (h : Header) : bytes := Header_encode h [].

Lemma Header_encode_wire h out : Header_encode h out = out ++ header_wire h.
Proof. done. Qed.
Lemma len_header_wire h : len (header_wire h) = MSG_HEADER_LEN.
Proof. unfold header_wire, Header_encode, MSG_HEADER_LEN. len_tac. Qed.

Lemma Opcode_from_to o : Opcode_from_i32 (Opcode_to_i32 o) = Some o.
Proof. by destruct o. Qed.
Lemma Opcode_to_from v o : Opcode_from_i32 v = Some o → Opcode_to_i32 o = v.
Proof. unfold Opcode_from_i32. intros H. repeat case_match; zbool; inv_ok; done. Qed.
Lemma Opcode_to_i32_range o : in_i32 (Opcode_to_i32 o).
Proof. destruct o; unfold_ranges; simpl; unfold OP_REPLY; done. Qed.

(** A header the parser accepts under [max_len]. *)
Definition header_ok (max_len : Z) (h : Header) : Prop :=
  MSG_HEADER_LEN <= message_length h <= max_len ∧ message_length h <= MAX_MSG_LEN ∧
  in_i32 (request_id h) ∧ in_i32 (response_to h).

Lemma read_i32_or_0_wire {E} z r : in_i32 z → @read_i32_or_0 E (le_encode 4 z ++ r) = Ok (z, r).
Proof. intros H. unfold read_i32_or_0. by rewrite parses_read_i32. Qed.

Lemma header_parse_wire max_len h rest : header_ok max_len h →
  Header_parse (header_wire h ++ rest) max_len = Ok h.
Proof.
  intros (H1 & H2 & H3 & H4). unfold Header_parse.
  rewrite len_app, len_header_wire. pose proof (len_nonneg rest). zif.
  rewrite takeZ_app by (by rewrite len_header_wire).
  unfold header_wire, Header_encode. cbn [app].
  unfold MAX_MSG_LEN, MSG_HEADER_LEN in *.
  rewrite read_i32_or_0_wire by (unfold_ranges; lia). cbn [bind]. repeat zif.
  rewrite read_i32_or_0_wire by done. cbn [bind].
  rewrite read_i32_or_0_wire by done. cbn [bind].
  rewrite <- (app_nil_r (le_encode 4 (Opcode_to_i32 _))).
  rewrite read_i32_or_0_wire by apply Opcode_to_i32_range. cbn [bind].
  rewrite Opcode_from_to. by destruct h.
Qed.

(** On sixteen bytes the four reads succeed. *)
Lemma split_header b : len b = 16 →
  ∃ a1 a2 a3 a4, in_i32 a1 ∧ in_i32 a2 ∧ in_i32 a3 ∧ in_i32 a4 ∧
    b = le_encode 4 a1 ++ le_encode 4 a2 ++ le_encode 4 a3 ++ le_encode 4 a4.
Proof.
  intros Hl.
  assert (∀ (l : bytes) n, len l = 4 + n → 0 <= n →
    ∃ a t, in_i32 a ∧ l = le_encode 4 a ++ t ∧ len t = n) as Hs.
  { intros l n Hn Hp. exists (i32_of_le (takeZ 4 l)), (dropZ 4 l).
    rewrite i32_encode_of_le, take_dropZ, len_dropZ by (rewrite ?len_takeZ; lia).
    split_and!; [|done|lia]. apply i32_of_le_range. rewrite len_takeZ; lia. }
  destruct (Hs b 12) as (a1 & t1 & ? & -> & ?); [lia..|].
  destruct (Hs t1 8) as (a2 & t2 & ? & -> & ?); [lia..|].
  destruct (Hs t2 4) as (a3 & t3 & ? & -> & ?); [lia..|].
  destruct (Hs t3 0) as (a4 & t4 & ? & -> & Ht); [lia..|].
  apply len_nil_inv in Ht as ->. rewrite app_nil_r. exists a1, a2, a3, a4. by split_and!.
Qed.

Lemma header_parse_eq max_len b a1 a2 a3 a4 rest :
  in_i32 a1 → in_i32 a2 → in_i32 a3 → in_i32 a4 →
  b = (le_encode 4 a1 ++ le_encode 4 a2 ++ le_encode 4 a3 ++ le_encode 4 a4) ++ rest →
  Header_parse b max_len =
    if a1 <? MSG_HEADER_LEN then Err (ProtocolError_InvalidHeader "length below header size")
    else if max_len <? a1 then Err (ProtocolError_MessageTooLarge a1 max_len)
    else if MAX_MSG_LEN <? a1 then Err (ProtocolError_MessageTooLarge a1 MAX_MSG_LEN)
    else match Opcode_from_i32 a4 with
         | Some op => Ok (mkHeader a1 a2 a3 op)
         | None => Err (ProtocolError_UnsupportedOpcode a4)
         end.
Proof.
  intros H1 H2 H3 H4 ->. unfold Header_parse, MSG_HEADER_LEN. rewrite len_app.
  pose proof (len_nonneg rest). rewrite !len_app, !len_le_encode.
  change (Z.of_nat 4) with 4. zif.
  rewrite takeZ_app by len_tac. rewrite read_i32_or_0_wire by done. cbn [bind].
  repeat case_match; try done; rewrite !read_i32_or_0_wire by done; cbn [bind];
    rewrite !read_i32_or_0_wire by done; cbn [bind];
    rewrite <- (app_nil_r (le_encode 4 a4)), !read_i32_or_0_wire by done; cbn [bind];
    by destruct (Opcode_from_i32 a4); simplify_eq.
Qed.

Lemma Header_parse_Ok_inv buf max_len h : Header_parse buf max_len = Ok h →
  header_ok max_len h ∧ ∃ rest, buf = header_wire h ++ rest.
Proof.
  intros H. assert (MSG_HEADER_LEN <= len buf) as Hl.
  { unfold Header_parse in H. destruct (len buf <? _) eqn:E; [done|]. by zbool. }
  unfold MSG_HEADER_LEN in Hl.
  destruct (split_header (takeZ 16 buf)) as (a1 & a2 & a3 & a4 & ? & ? & ? & ? & E);
    [rewrite len_takeZ; lia|].
  rewrite (header_parse_eq _ _ a1 a2 a3 a4 (dropZ 16 buf)) in H by (done || by rewrite <- E, take_dropZ).
  inv_ok. destruct (Opcode_from_i32 a4) eqn:Eo; [|done]. inv_ok. zbool.
  split; [split_and!; simpl; done || lia|]. exists (dropZ 16 buf). unfold header_wire, Header_encode.
  cbn [app message_length request_id response_to op_code].
  rewrite (Opcode_to_from _ _ Eo), <- E. by rewrite take_dropZ.
Qed.

Lemma returns_Header_parse buf max_len : returns (Header_parse buf max_len).
Proof.
  destruct (decide (len buf < MSG_HEADER_LEN)) as [Hs|Hl].
  - unfold Header_parse. by zif.
  - unfold MSG_HEADER_LEN in Hl.
    destruct (split_header (takeZ 16 buf)) as (a1 & a2 & a3 & a4 & ? & ? & ? & ? & E);
      [rewrite len_takeZ; lia|].
    rewrite (header_parse_eq _ _ a1 a2 a3 a4 (dropZ 16 buf)) by (done || by rewrite <- E, take_dropZ).
    by repeat case_match.
Qed.
#[export] Hint Resolve returns_Header_parse : wire.
