(* ===== verification/Message.v ===== *)
(** * The [Message] trait: [mongowire/src/messages/mod.rs]

    [Message] has the trait's items.  [MessageLaws] is what the framing layer
    relies on: on well-formed values the encoder appends one layout of the
    announced length, which parses back; a successful parse yields a
    well-formed value whose layout has the length of the input; and parsing
    always returns.  Every body type has an instance. *)
From stdpp Require Import base list numbers strings.
From Stdlib Require Import ZArith Lia.
From S2P Require Import Prelude Io Header.
Local Open Scope Z_scope.

Class Message (M : Type) := {
  OPCODE : Opcode;
  body_len : M → Z;
  encode_body : M → bytes → outcome ProtocolError bytes;
  parse_body : bytes → outcome ProtocolError M;
}.

Class MessageLaws (M : Type) `{Message M} := {
  msg_ok : M → Prop;
  msg_wire : M → bytes;
  encode_body_wire m out : msg_ok m → encode_body m out = Ok (out ++ msg_wire m);
  body_len_wire m : msg_ok m → body_len m = len (msg_wire m);
  parse_body_wire m : msg_ok m → parse_body (msg_wire m) = Ok m;
  parse_body_ok b m : parse_body b = Ok m → msg_ok m ∧ len (msg_wire m) = len b;
  returns_parse_body b : returns (parse_body (M := M) b);
}.
#[export] Hint Resolve returns_parse_body : wire.

Section Derived.
Context {M : Type} `{MessageLaws M}.

(** A parsed body re-encodes to bytes of the same length, announces that
    length, and parses to itself again. *)
Lemma parse_encode_parse b m out : parse_body b = Ok m →
  ∃ w, encode_body m out = Ok (out ++ w) ∧ len w = len b ∧ body_len m = len b ∧
       parse_body w = Ok m.
Proof.
  intros [Hok Hl]%parse_body_ok. exists (msg_wire m).
  rewrite encode_body_wire, body_len_wire, parse_body_wire by done. done.
Qed.
End Derived.
