(* ===== verification/OpMsg.v ===== *)
(** * OP_MSG: [mongowire/src/messages/op_msg.rs] *)
From stdpp Require Import base list numbers strings gmap.
From Stdlib Require Import ZArith Lia.
From S2P Require Import Prelude Utf8 Io Consts BsonScalar BsonValue BsonEncode BsonDecode.
From S2P Require Import BsonRoundtrip Header Message.
Local Open Scope Z_scope.

(** ** Flags: a [bitflags] struct is its [u32] *)

Abbreviation MsgFlags := Z.
Definition MsgFlags_all : Z := Z.lor (Z.lor CHECKSUM_PRESENT MORE_TO_COME) EXHAUST_ALLOWED.
(** [contains], [from_bits_truncate] and the difference of [bitflags!]. *)
Definition flags_contains (flags f : Z) : bool := Z.land flags f =? f.
Definition from_bits_truncate (all raw : Z) : Z := Z.land raw all.
Definition flags_difference (a b : Z) : Z := Z.ldiff a b.

Definition REQUIRED_BITS : Z := 65535.
(** [MsgFlags::parse]. *)
Definition MsgFlags_parse (raw : Z) : outcome ProtocolError MsgFlags :=
  if negb (Z.ldiff (Z.land raw REQUIRED_BITS) MsgFlags_all =? 0)
  then Err (ProtocolError_InvalidOpMsg "unknown required flag bits")
  else Ok (from_bits_truncate MsgFlags_all raw).

(** ** Sections *)

Record DocumentSequence := mkSequence { identifier : str; documents : list RawDocument }.
Record Sections := mkSections { sec_body : RawDocument; sequences : list DocumentSequence }.

(** Drain [body.fields()], keeping the names; the first error ends it. *)
Fixpoint field_names_loop (fuel : nat) (it : FieldsIter) : outcome BsonError (gset str) :=
  match fuel with
  | O => Fuel
  | S fuel =>
      let* '(item, it) := FieldsIter_next it in
      match item with
      | None => Ok ∅
      | Some (inl e) => Err e
      | Some (inr (name, _)) =>
          let* rest := field_names_loop fuel it in Ok ({[name]} ∪ rest)
      end
  end.
Definition body_fields (body : RawDocument) : outcome BsonError (gset str) :=
  field_names_loop (scan_fuel body) (RawDocument_fields body).

(** The [for seq in &sequences] validation loop. *)
Fixpoint check_sequences (fields : gset str) (l : list DocumentSequence)
  : outcome ProtocolError () :=
  match l with
  | [] => Ok ()
  | seq :: t =>
      match identifier seq with
      | [] => Err (ProtocolError_InvalidOpMsg "kind 1 section has no identifier")
      | _ =>
          if has_nul (identifier seq)
          then Err (ProtocolError_InvalidOpMsg "kind 1 identifier contains NUL")
          else if bool_decide (identifier seq ∈ fields)
          then Err (ProtocolError_InvalidOpMsg "kind 1 identifier duplicates a body field")
          else check_sequences fields t
      end
  end.

(** [Sections::new]. *)
Definition Sections_new (body : RawDocument) (seqs : list DocumentSequence)
  : outcome ProtocolError Sections :=
  match seqs with
  | [] => Ok (mkSections body seqs)
  | _ =>
      let* fields := map_err ProtocolError_Bson (body_fields body) in
      let* _ := check_sequences fields seqs in
      Ok (mkSections body seqs)
  end.

(** The summed lengths of a document list. *)
Definition docs_len (docs : list RawDocument) : Z := foldr (λ d n, len d + n) 0 docs.
(** [Sections::size]. *)
Definition Sections_size (s : Sections) : Z :=
  foldl (λ n seq, n + (1 + 4 + len (identifier seq) + 1) + docs_len (documents seq))
    (1 + len (sec_body s)) (sequences s).

(** ** Slicing documents *)

(** [end.checked_sub(offset).ok_or(...)]. *)
Definition section_room (fin offset : Z) : outcome ProtocolError Z :=
  ok_or (if fin <? offset then None else Some (fin - offset))
    (ProtocolError_InvalidOpMsg "section cursor overran its end").

(** [body[a..b].try_into().expect(..)] as a little-endian integer. *)
Definition le_at (f : bytes → Z) (b : bytes) (off : Z) : outcome ProtocolError Z :=
  let* p := slice b off (off + 4) in let* a := array_of 4 p in Ok (f a).

Definition take_document (body : bytes) (offset fin : Z)
  : outcome ProtocolError (RawDocument * Z) :=
  let* rest := section_room fin offset in
  if rest <? 4 then Err (ProtocolError_InvalidOpMsg "truncated document")
  else
    let* l := le_at i32_of_le body offset in
    if (l <? MIN_DOC_LEN) || (rest <? l)
    then Err (ProtocolError_InvalidOpMsg "invalid document length")
    else
      let* p := slice body offset (offset + l) in
      let* doc := map_err ProtocolError_Bson (RawDocument_from_bytes p) in
      Ok (doc, offset + l).

(** ** The message *)

Record OpMsg := mkOpMsg { flags : MsgFlags; sections : Sections; checksum : option Z }.

(** [OpMsg::new] and [OpMsg::document]. *)
Definition OpMsg_new (fl : MsgFlags) (body : RawDocument) (seqs : list DocumentSequence)
  : outcome ProtocolError OpMsg :=
  let* s := Sections_new body seqs in
  Ok (mkOpMsg (flags_difference fl CHECKSUM_PRESENT) s None).
Definition OpMsg_document (m : OpMsg) : RawDocument := sec_body (sections m).

Definition OpMsg_body_len (m : OpMsg) : Z :=
  4 + Sections_size (sections m) + (if checksum m then 4 else 0).


(** One kind-1 section of [encode_body]. *)
Definition encode_sequence (out : bytes) (seq : DocumentSequence) : bytes :=
  let out := put_u8 out 1 in
  let size := 4 + len (identifier seq) + 1 + docs_len (documents seq) in
  let out := put_u32_le out size in
  let out := put_bytes out (identifier seq) in
  let out := put_u8 out 0 in
  foldl put_bytes out (documents seq).

Definition OpMsg_encode_body (m : OpMsg) (out : bytes) : outcome ProtocolError bytes :=
  let* _ := debug_assert
    (Bool.eqb (is_some (checksum m)) (flags_contains (flags m) CHECKSUM_PRESENT)) in
  let out := put_u32_le out (flags m) in
  let out := put_u8 out 0 in
  let out := put_bytes out (sec_body (sections m)) in
  let out := foldl encode_sequence out (sequences (sections m)) in
  Ok (match checksum m with Some c => put_u32_le out c | None => out end).

(** *** [parse_body] *)

(** The [while sec_rest != 0] document loop; returns the final offset. *)
Fixpoint documents_loop (fuel : nat) (body : bytes) (offset sec_end sec_rest : Z)
  (docs : list RawDocument) : outcome ProtocolError (list RawDocument * Z) :=
  match fuel with
  | O => Fuel
  | S fuel =>
      if negb (sec_rest =? 0) then
        let* '(doc, next) := take_document body offset sec_end in
        let* step := usub next offset in
        let* sec_rest := usub sec_rest step in
        documents_loop fuel body next sec_end sec_rest (docs ++ [doc])
      else Ok (docs, offset)
  end.

(** The kind-1 arm, from just after the kind byte. *)
Definition parse_sequence (body : bytes) (fin offset : Z)
  : outcome ProtocolError (DocumentSequence * Z) :=
  let* room := section_room fin offset in
  if room <? 4 then Err (ProtocolError_InvalidOpMsg "truncated section size")
  else
    let* raw_size := le_at u32_of_le body offset in
    let sec_size := raw_size - 4 in
    if sec_size <? 5 then Err (ProtocolError_InvalidOpMsg "section size too small")
    else
      let* avail := usub fin offset in
      let* avail := usub avail 4 in
      if avail <? sec_size then Err (ProtocolError_InvalidOpMsg "section exceeds the message")
      else
        let offset := offset + 4 in
        let sec_end := offset + sec_size in
        let* payload := slice body offset sec_end in
        let* ident_len := ok_or (position is_nul payload)
          (ProtocolError_InvalidOpMsg "truncated section identifier") in
        let* raw_ident := slice body offset (offset + ident_len) in
        let* ident := map_err
          (λ _, ProtocolError_InvalidOpMsg "invalid UTF-8 in section identifier")
          (from_utf8 raw_ident) in
        let offset := offset + ident_len + 1 in
        let* sec_rest := usub sec_end offset in
        let* '(docs, offset) :=
          documents_loop (S (length body)) body offset sec_end sec_rest [] in
        Ok (mkSequence ident docs, offset).

(** The loop's local state. *)
Record ParseState := mkParse {
  ps_offset : Z; ps_body : option RawDocument; ps_sequences : list DocumentSequence
}.

(** One iteration of the section [loop], before the boundary test. *)
Definition parse_section (body : bytes) (fin : Z) (st : ParseState)
  : outcome ProtocolError ParseState :=
  match get body (ps_offset st) with
  | None => Err (ProtocolError_InvalidOpMsg "truncated section kind")
  | Some kind =>
      let offset := ps_offset st + 1 in
      if u8 kind =? 0 then
        if is_some (ps_body st)
        then Err (ProtocolError_InvalidOpMsg "multiple kind 0 sections")
        else
          match ps_sequences st with
          | _ :: _ => Err (ProtocolError_InvalidOpMsg "kind 0 section must be the first section")
          | [] =>
              let* '(doc, next) := take_document body offset fin in
              Ok (mkParse next (Some doc) (ps_sequences st))
          end
      else if u8 kind =? 1 then
        let* '(seq, next) := parse_sequence body fin offset in
        Ok (mkParse next (ps_body st) (ps_sequences st ++ [seq]))
      else Err (ProtocolError_InvalidOpMsg "unknown section kind")
  end.

Fixpoint sections_loop (fuel : nat) (body : bytes) (fin : Z) (st : ParseState)
  : outcome ProtocolError ParseState :=
  match fuel with
  | O => Fuel
  | S fuel =>
      let* st := parse_section body fin st in
      if ps_offset st =? fin then Ok st else sections_loop fuel body fin st
  end.

Definition OpMsg_parse_body (body : bytes) : outcome ProtocolError OpMsg :=
  if len body <? 5 then Err (ProtocolError_InvalidOpMsg "body too short for OP_MSG")
  else
    let* raw := le_at u32_of_le body 0 in
    let* fl := MsgFlags_parse raw in
    let checksummed := flags_contains fl CHECKSUM_PRESENT in
    let trailer := (if checksummed then 1 else 0) * 4 in
    if len body <? 6 + trailer
    then Err (ProtocolError_InvalidOpMsg "body too short for OP_MSG")
    else
      let* fin := usub (len body) trailer in
      let* st := sections_loop (S (length body)) body fin (mkParse 4 None []) in
      let* ck := (if checksummed then let* c := le_at u32_of_le body fin in Ok (Some c)
                  else Ok None) in
      let* body_doc := ok_or (ps_body st) (ProtocolError_InvalidOpMsg "no kind 0 section") in
      let* secs := Sections_new body_doc (ps_sequences st) in
      let* room := usub fin 4 in
      let* _ := debug_assert (Sections_size secs =? room) in
      Ok (mkOpMsg fl secs ck).

(** ** Layout *)

(** A document a message can carry: framed, with an [i32] length. *)
Definition doc_ok (d : RawDocument) : Prop := raw_ok d ∧ len d <= i32_max.

Definition sequence_size (seq : DocumentSequence) : Z :=
  4 + len (identifier seq) + 1 + docs_len (documents seq).
Definition sequence_payload (seq : DocumentSequence) : bytes :=
  le_encode 4 (sequence_size seq) ++ (identifier seq ++ [x00]) ++ concat (documents seq).
Definition sequence_wire (seq : DocumentSequence) : bytes := x01 :: sequence_payload seq.
Definition sequences_wire (l : list DocumentSequence) : bytes := concat (sequence_wire <$> l).
Definition checksum_wire (c : option Z) : bytes :=
  match c with Some c => le_encode 4 c | None => [] end.
Definition opmsg_wire (m : OpMsg) : bytes :=
  le_encode 4 (flags m) ++ (x00 :: sec_body (sections m)) ++
  sequences_wire (sequences (sections m)) ++ checksum_wire (checksum m).

Definition sequence_ok (seq : DocumentSequence) : Prop :=
  name_ok (identifier seq) ∧ Forall doc_ok (documents seq) ∧
  9 <= sequence_size seq <= u32_max.

Lemma docs_len_concat docs : docs_len docs = len (concat docs).
Proof. induction docs as [|d docs IH]; simpl; [done|]. rewrite len_app, IH. done. Qed.
Lemma foldl_put_bytes docs : ∀ out, foldl put_bytes out docs = out ++ concat docs.
Proof.
  induction docs as [|d docs IH]; intros out; simpl; [by rewrite app_nil_r|].
  rewrite IH. unfold put_bytes. by rewrite <- app_assoc.
Qed.
Lemma len_sequence_wire seq : len (sequence_wire seq) = 1 + sequence_size seq.
Proof.
  unfold sequence_wire, sequence_payload, sequence_size. rewrite docs_len_concat. len_tac.
Qed.
Lemma encode_sequence_wire seq out : encode_sequence out seq = out ++ sequence_wire seq.
Proof.
  unfold encode_sequence. cbv zeta. rewrite foldl_put_bytes.
  unfold sequence_wire, sequence_payload, put_u8, put_bytes, put_u32_le, put_bytes.
  rewrite <- !app_assoc. done.
Qed.
Lemma encode_sequences_wire l : ∀ out, foldl encode_sequence out l = out ++ sequences_wire l.
Proof.
  induction l as [|seq l IH]; intros out; simpl; [by rewrite app_nil_r|].
  rewrite IH, encode_sequence_wire, <- app_assoc. done.
Qed.
Lemma Sections_size_wire s :
  Sections_size s = 1 + len (sec_body s) + len (sequences_wire (sequences s)).
Proof.
  unfold Sections_size. generalize (1 + len (sec_body s)).
  induction (sequences s) as [|seq l IH]; intros n; simpl; [unfold sequences_wire; simpl; len_tac|].
  rewrite IH. unfold sequences_wire. rewrite fmap_cons. cbn [concat]. rewrite len_app, len_sequence_wire.
  unfold sequence_size. lia.
Qed.

(** ** Slicing *)

Lemma le_at_mid f (pre post w : bytes) off : off = len pre → len w = 4 →
  le_at f (pre ++ w ++ post) off = Ok (f w).
Proof.
  intros -> Hw. unfold le_at. rewrite slice_mid by lia. cbn [bind]. unfold array_of.
  by rewrite Hw.
Qed.
Lemma le_at_Ok_inv f pre rest off z : off = len pre → le_at f (pre ++ rest) off = Ok z →
  ∃ w t, rest = w ++ t ∧ len w = 4 ∧ z = f w.
Proof.
  intros Ho H. unfold le_at in H. apply bind_Ok_inv in H as (p & Hp & H).
  apply bind_Ok_inv in H as (a & Ha & H). apply array_of_Ok_inv in Ha as [-> Ha]. inv_ok.
  apply slice_of_suffix in Hp as (t & -> & _); [|done|lia]. eauto.
Qed.
Lemma returns_le_at f b off : 0 <= off → off + 4 <= len b → returns (le_at f b off).
Proof.
  intros. unfold le_at. apply returns_bind; [apply returns_slice; lia|]. intros p Hp.
  apply returns_bind; [by eapply returns_array_of4|done].
Qed.

Lemma section_room_ok fin offset : offset <= fin → section_room fin offset = Ok (fin - offset).
Proof. intros. unfold section_room. by zif. Qed.
Lemma section_room_Ok_inv fin offset r : section_room fin offset = Ok r →
  offset <= fin ∧ r = fin - offset.
Proof. unfold section_room. intros. inv_ok. case_match; [done|]. inv_ok. by zbool. Qed.

Lemma take_document_ok pre d post offset fin : doc_ok d → offset = len pre →
  offset + len d <= fin →
  take_document (pre ++ d ++ post) offset fin = Ok (d, offset + len d).
Proof.
  intros [Hr Hi] Ho Hf. destruct (raw_ok_prefix d Hr) as (b & Ed & Hl).
  unfold take_document. rewrite section_room_ok by lia. cbn [bind]. zif.
  assert (le_at i32_of_le (pre ++ d ++ post) offset = Ok (len d)) as ->.
  { rewrite Ed at 1. rewrite <- app_assoc. rewrite le_at_mid by (done || apply len_le_encode).
    rewrite i32_of_le_encode; [done|]. unfold_ranges. lia. }
  cbn [bind]. unfold MIN_DOC_LEN. zif. rewrite slice_child by done. cbn [bind].
  by rewrite RawDocument_from_bytes_ok.
Qed.
Lemma take_document_Ok_inv pre rest offset fin d next : offset = len pre →
  take_document (pre ++ rest) offset fin = Ok (d, next) →
  ∃ post, rest = d ++ post ∧ doc_ok d ∧ next = offset + len d ∧ next <= fin.
Proof.
  intros Ho H. unfold take_document, MIN_DOC_LEN in H.
  apply bind_Ok_inv in H as (room & Hroom & H). apply section_room_Ok_inv in Hroom as [? ->].
  destruct (_ <? 4); [done|]. apply bind_Ok_inv in H as (l & Hl & H).
  destruct ((l <? 5) || _) eqn:E; [done|]. zbool.
  apply bind_Ok_inv in H as (p & Hp & H). apply slice_of_suffix in Hp as (post & -> & Hlen); [|done|lia].
  apply bind_Ok_inv in H as (d' & Hd & H). inv_ok.
  apply RawDocument_from_bytes_Ok_inv in Hd as [-> Hraw].
  apply le_at_Ok_inv in Hl as (w & t & _ & Hw & Hz); [|done].
  exists post. pose proof (i32_of_le_range w Hw). unfold_ranges.
  split_and!; [done|split; unfold_ranges; [done|lia]|lia|lia].
Qed.
Lemma returns_take_document body offset fin : 0 <= offset → fin <= len body →
  returns (take_document body offset fin).
Proof.
  intros Ho Hf. unfold take_document, MIN_DOC_LEN. apply returns_bind; [apply returns_ok_or|].
  intros room [? ->]%section_room_Ok_inv. case_match eqn:E; [done|]. zbool.
  apply returns_bind; [apply returns_le_at; lia|]. intros l _. case_match eqn:E'; [done|]. zbool.
  apply returns_bind; [apply returns_slice; lia|]. intros p _.
  apply returns_bind; [apply returns_map_err, returns_RawDocument_from_bytes|done].
Qed.

Lemma doc_ok_len d : doc_ok d → 5 <= len d.
Proof. intros [Hr _]. destruct (raw_ok_prefix d Hr) as (_ & _ & Hl). lia. Qed.

Lemma documents_loop_ok docs : Forall doc_ok docs → ∀ fuel pre post acc sec_end sec_rest,
  (length docs < fuel)%nat → sec_rest = docs_len docs → sec_end = len pre + docs_len docs →
  documents_loop fuel (pre ++ concat docs ++ post) (len pre) sec_end sec_rest acc =
    Ok (acc ++ docs, sec_end).
Proof.
  induction 1 as [|d docs Hd _ IH]; intros fuel pre post acc sec_end sec_rest Hf -> ->;
    (destruct fuel as [|fuel]; [simpl in Hf; lia|]); cbn [documents_loop docs_len foldr concat].
  - simpl. rewrite Z.add_0_r, app_nil_r. done.
  - fold (docs_len docs). pose proof (doc_ok_len d Hd).
    assert (0 <= docs_len docs) by (rewrite docs_len_concat; apply len_nonneg).
    replace (negb (len d + docs_len docs =? 0)) with true by lia.
    rewrite <- app_assoc. rewrite take_document_ok by (done || lia). cbn [bind].
    rewrite !usub_Ok by lia. cbn [bind]. rewrite usub_Ok by lia. cbn [bind].
    rewrite (app_assoc pre), <- len_app. rewrite IH by (simpl in Hf; rewrite ?len_app; lia).
    by rewrite <- app_assoc.
Qed.
Lemma documents_loop_Ok_inv fuel : ∀ pre rest acc sec_end sec_rest docs next,
  sec_end = len pre + sec_rest → 0 <= sec_rest →
  documents_loop fuel (pre ++ rest) (len pre) sec_end sec_rest acc = Ok (docs, next) →
  ∃ ds post, docs = acc ++ ds ∧ rest = concat ds ++ post ∧ Forall doc_ok ds ∧
    docs_len ds = sec_rest ∧ next = sec_end.
Proof.
  induction fuel as [|fuel IH]; intros pre rest acc sec_end sec_rest docs next He Hp H;
    cbn [documents_loop] in H; [done|].
  destruct (negb (sec_rest =? 0)) eqn:E; zbool.
  - apply bind_Ok_inv in H as ([d nx] & Hd & H).
    apply take_document_Ok_inv in Hd as (post & -> & Hok & -> & Hle); [|done].
    apply bind_Ok_inv in H as (st & Hst & H). apply usub_Ok_inv in Hst as [_ ->].
    apply bind_Ok_inv in H as (sr & Hsr & H). apply usub_Ok_inv in Hsr as [? ->].
    rewrite (app_assoc pre), <- len_app in H.
    apply IH in H as (ds & post' & -> & -> & Hds & Hlen & ->); [|len_tac..].
    exists (d :: ds), post'. rewrite <- app_assoc. cbn [concat docs_len foldr].
    fold (docs_len ds). rewrite <- app_assoc. rewrite len_app in Hlen. split_and!; [done..|by constructor|lia|done].
  - inv_ok. exists [], rest. rewrite app_nil_r. split_and!; [done..|by constructor|done|lia].
Qed.
Lemma returns_documents_loop fuel : ∀ body offset sec_end sec_rest acc,
  0 <= offset → sec_end <= len body → 0 <= sec_rest → sec_end = offset + sec_rest →
  sec_rest < Z.of_nat fuel →
  returns (documents_loop fuel body offset sec_end sec_rest acc).
Proof.
  induction fuel as [|fuel IH]; intros body offset sec_end sec_rest acc Ho Hl Hp He Hf;
    [lia|]. cbn [documents_loop]. case_match eqn:E; [|done]. zbool.
  apply returns_bind; [by apply returns_take_document|]. intros [d nx] Hd.
  destruct (split_at offset body) as (pre & rest & -> & Hpre); [lia|].
  apply take_document_Ok_inv in Hd as (post & -> & Hok & -> & Hle); [|lia].
  pose proof (doc_ok_len _ Hok). rewrite !usub_Ok by lia. cbn [bind]. rewrite usub_Ok by lia.
  cbn [bind]. apply IH; lia.
Qed.

(** ** Sections *)

Lemma parse_sequence_ok seq pre post offset fin : sequence_ok seq → offset = len pre →
  offset + sequence_size seq <= fin →
  parse_sequence (pre ++ sequence_payload seq ++ post) fin offset =
    Ok (seq, offset + sequence_size seq).
Proof.
  intros ([Hu Hn] & Hd & Hs) Ho Hf. unfold parse_sequence.
  destruct seq as [ident docs]. unfold sequence_size in *. cbn [identifier documents] in *.
  set (size := 4 + len ident + 1 + docs_len docs) in *.
  assert (0 <= docs_len docs) by (rewrite docs_len_concat; apply len_nonneg).
  pose proof (len_nonneg ident). rewrite section_room_ok by lia. cbn [bind]. zif.
  unfold sequence_payload, sequence_size. cbn [identifier documents]. fold size.
  rewrite <- !app_assoc. rewrite le_at_mid by (done || apply len_le_encode). cbn [bind].
  rewrite u32_of_le_encode by (unfold in_u32; lia). zif. rewrite !usub_Ok by lia. cbn [bind].
  rewrite usub_Ok by lia. cbn [bind]. zif.
  rewrite (app_assoc pre (le_encode 4 size)).
  set (pre4 := pre ++ le_encode 4 size). assert (offset + 4 = len pre4) as E4 by (unfold pre4; len_tac).
  rewrite E4. set (payload := ident ++ [x00] ++ concat docs).
  assert (len payload = size - 4) as Hpl.
  { unfold payload. rewrite !len_app, <- docs_len_concat. unfold size. len_tac. }
  replace (slice (pre4 ++ ident ++ [x00] ++ concat docs ++ post) (len pre4) (len pre4 + (size - 4)))
    with (@Ok ProtocolError _ payload).
  2: { symmetry. replace (ident ++ [x00] ++ concat docs ++ post) with (payload ++ post) by
         (unfold payload; by rewrite <- !app_assoc). apply slice_mid; [done|lia]. }
  cbn [bind]. unfold payload. cbn [app].
  rewrite position_app by (done || by apply has_nul_false). cbn [ok_or bind].
  rewrite (slice_mid pre4 ident) by done. cbn [bind]. rewrite from_utf8_valid by done. cbn [map_err bind].
  rewrite usub_Ok by lia. cbn [bind].
  replace (pre4 ++ ident ++ x00 :: concat docs ++ post)
    with ((pre4 ++ ident ++ [x00]) ++ concat docs ++ post) by (by rewrite <- !app_assoc).
  replace (len pre4 + len ident + 1) with (len (pre4 ++ ident ++ [x00])) by len_tac.
  rewrite documents_loop_ok; [| done | | |].
  - cbn [bind app]. replace (len pre4 + (size - 4)) with (offset + size) by lia. done.
  - assert (length docs <= length (concat docs))%nat; [|rewrite !length_app; simpl; lia].
    clear -Hd. induction Hd as [|d docs Hd _ IH]; simpl; [lia|]. rewrite length_app.
    pose proof (doc_ok_len d Hd). unfold len in *. lia.
  - rewrite !len_app. unfold size. len_tac.
  - rewrite !len_app. unfold size. len_tac.
Qed.

Lemma parse_sequence_Ok_inv pre rest offset fin seq next : offset = len pre →
  fin <= len (pre ++ rest) →
  parse_sequence (pre ++ rest) fin offset = Ok (seq, next) →
  ∃ post, rest = sequence_payload seq ++ post ∧ sequence_ok seq ∧
    next = offset + sequence_size seq ∧ next <= fin.
Proof.
  intros Ho Hf H. unfold parse_sequence in H.
  apply bind_Ok_inv in H as (room & Hroom & H). apply section_room_Ok_inv in Hroom as [? ->].
  destruct (_ <? 4); [done|]. apply bind_Ok_inv in H as (raw & Hraw & H).
  apply le_at_Ok_inv in Hraw as (w & t & -> & Hw & ->); [|done].
  pose proof (u32_of_le_range w Hw) as Hu. set (size := u32_of_le w) in *.
  assert (w = le_encode 4 size) as Ew.
  { unfold size, u32_of_le. by rewrite le_encode_decode_len. }
  destruct (size - 4 <? 5) eqn:E5; [done|]. zbool.
  apply bind_Ok_inv in H as (av & Hav & H). apply usub_Ok_inv in Hav as [? ->].
  apply bind_Ok_inv in H as (av & Hav & H). apply usub_Ok_inv in Hav as [? ->].
  destruct (_ <? size - 4) eqn:Ex; [done|]. zbool. cbv zeta in H.
  rewrite (app_assoc pre) in H. assert (offset + 4 = len (pre ++ w)) as E4 by len_tac.
  rewrite E4 in H. apply bind_Ok_inv in H as (payload & Hp & H).
  apply slice_of_suffix in Hp as (post & -> & Hpl); [|done|lia].
  apply bind_Ok_inv in H as (il & Hil & H). apply ok_or_Ok_inv in Hil.
  apply position_Some in Hil as (ident & x & dbytes & -> & <- & Hx%is_nul_x00 & Hnn). subst x.
  rewrite <- (app_assoc ident) in H. rewrite (slice_mid (pre ++ w) ident) in H by done.
  cbn [bind] in H. apply bind_Ok_inv in H as (id' & Hid & H).
  apply map_err_Ok_inv, from_utf8_Ok_inv in Hid as [-> Hutf].
  apply bind_Ok_inv in H as (sr & Hsr & H). apply usub_Ok_inv in Hsr as [? ->].
  apply bind_Ok_inv in H as ([docs off] & Hd & H). inv_ok.
  replace ((pre ++ w) ++ ident ++ (x00 :: dbytes) ++ post)
    with (((pre ++ w) ++ ident ++ [x00]) ++ dbytes ++ post) in Hd
    by (rewrite <- !app_assoc; done).
  rewrite len_app, len_cons in Hpl.
  replace (len (pre ++ w) + len ident + 1) with (len ((pre ++ w) ++ ident ++ [x00])) in Hd by len_tac.
  apply documents_loop_Ok_inv in Hd as (ds & post' & -> & Ed & Hds & Hlen & ->).
  2: { rewrite !len_app. len_tac. }
  2: { rewrite !len_app. len_tac. }
  rewrite !len_app in Hlen. rewrite len_cons, len_nil in Hlen.
  assert (dbytes = concat ds) as ->.
  { apply (app_inj_1 _ _ _ _) in Ed as [-> _]; [done|].
    rewrite docs_len_concat in Hlen. unfold len in *. lia. }
  assert (sequence_size (mkSequence ident ds) = size) as Es.
  { unfold sequence_size. cbn [identifier documents]. rewrite docs_len_concat. lia. }
  injection H as <- <-. exists post. cbn [app]. unfold sequence_payload, sequence_ok. rewrite Es. cbn [identifier documents app].
  split_and!; try done; try (unfold_ranges; lia).
  - rewrite Ew at 1. rewrite <- !app_assoc. done.
  - split; [done|by apply has_nul_false].
Qed.

Lemma returns_parse_sequence body fin offset : 0 <= offset → fin <= len body →
  returns (parse_sequence body fin offset).
Proof.
  intros Ho Hf. unfold parse_sequence. apply returns_bind; [apply returns_ok_or|].
  intros room [? ->]%section_room_Ok_inv. case_match eqn:E; [done|]. zbool.
  apply returns_bind; [apply returns_le_at; lia|]. intros raw _. case_match eqn:E5; [done|]. zbool.
  rewrite usub_Ok by lia. cbn [bind]. rewrite usub_Ok by lia. cbn [bind].
  case_match eqn:Ex; [done|]. zbool. apply returns_bind; [apply returns_slice; lia|].
  intros payload Hp. apply returns_bind; [apply returns_ok_or|]. intros il Hil%ok_or_Ok_inv.
  apply position_range in Hil. rewrite (len_slice _ _ _ _ Hp) in Hil.
  apply returns_bind; [apply returns_slice; lia|]. intros ri _.
  apply returns_bind; [apply returns_map_err, returns_from_utf8|]. intros id _.
  rewrite usub_Ok by lia. cbn [bind]. apply returns_bind; [|by intros [? ?] _].
  apply returns_documents_loop; try lia. unfold len in *. lia.
Qed.

(** The loop over the remaining kind-1 sections. *)
Lemma sections_loop_sequences l : Forall sequence_ok l → l ≠ [] →
  ∀ fuel pre post fin bd sq, (length l <= fuel)%nat →
  fin = len pre + len (sequences_wire l) →
  sections_loop fuel (pre ++ sequences_wire l ++ post) fin (mkParse (len pre) bd sq) =
    Ok (mkParse fin bd (sq ++ l)).
Proof.
  induction 1 as [|seq l Hs Hl IH]; intros Hne fuel pre post fin bd sq Hf ->; [done|].
  destruct fuel as [|fuel]; [simpl in Hf; lia|]. cbn [sections_loop].
  unfold sequences_wire in *. rewrite fmap_cons. cbn [concat]. rewrite <- app_assoc.
  unfold parse_section. cbn [ps_offset ps_body ps_sequences].
  unfold sequence_wire at 1. cbn [app]. rewrite get_app_r. simpl (u8 x01 =? _). cbv iota.
  pose proof (len_sequence_wire seq).
  assert (∀ X fin, len pre + len (sequence_wire seq) <= fin →
    parse_sequence (pre ++ sequence_wire seq ++ X) fin (len pre + 1) =
    Ok (seq, len pre + 1 + sequence_size seq)) as Hp.
  { intros X fin Hfin. change (pre ++ sequence_wire seq ++ X) with (pre ++ [x01] ++ sequence_payload seq ++ X).
    rewrite (app_assoc pre). apply parse_sequence_ok; [done|len_tac|lia]. }
  rewrite Hp by len_tac. clear Hp. cbn [bind ps_offset]. rewrite !len_app.
  destruct l as [|seq' l].
  - simpl concat. rewrite len_nil. replace (_ =? _) with true by lia.
    do 2 f_equal. lia.
  - pose proof (len_nonneg (concat (sequence_wire <$> (seq' :: l)))).
    assert (1 <= len (concat (sequence_wire <$> (seq' :: l)))).
    { rewrite fmap_cons. cbn [concat]. rewrite len_app, len_sequence_wire.
      apply Forall_inv in Hl as (_ & _ & ?). len_tac. }
    replace (_ =? _) with false by lia.
    rewrite (app_assoc pre).
    replace (len pre + 1 + sequence_size seq) with (len (pre ++ sequence_wire seq)) by len_tac.
    rewrite IH; [|done|simpl in *; lia|len_tac]. by rewrite <- app_assoc.
Qed.

Lemma sections_loop_ok d l fuel pre post fin : doc_ok d → Forall sequence_ok l →
  (length l < fuel)%nat → fin = len pre + 1 + len d + len (sequences_wire l) →
  sections_loop fuel (pre ++ (x00 :: d) ++ sequences_wire l ++ post) fin (mkParse (len pre) None []) =
    Ok (mkParse fin (Some d) l).
Proof.
  intros Hd Hl Hf ->. destruct fuel as [|fuel]; [lia|]. cbn [sections_loop].
  unfold parse_section. cbn [ps_offset ps_body ps_sequences app]. rewrite get_app_r.
  simpl (u8 x00 =? 0). cbv iota. cbn [is_some].
  rewrite (cons_middle x00 pre), (app_assoc pre).
  pose proof (len_nonneg (sequences_wire l)). rewrite take_document_ok by (done || len_tac).
  cbn [bind ps_offset]. destruct l as [|seq l].
  - unfold sequences_wire. simpl concat. rewrite len_nil. replace (_ =? _) with true by lia.
    do 2 f_equal. lia.
  - assert (1 <= len (sequences_wire (seq :: l))).
    { unfold sequences_wire. rewrite fmap_cons. cbn [concat]. rewrite len_app, len_sequence_wire.
      apply Forall_inv in Hl as (_ & _ & ?). len_tac. }
    replace (_ =? _) with false by lia. rewrite (app_assoc (pre ++ [x00])).
    replace (len pre + 1 + len d) with (len ((pre ++ [x00]) ++ d)) by len_tac.
    apply sections_loop_sequences; [done|done|simpl in *; lia|len_tac].
Qed.

(** What a successful loop has consumed: kind-1 sections only, or a kind-0
    section first when none was seen yet. *)
Lemma sections_loop_Ok_inv fuel : ∀ pre rest fin bd sq st,
  fin <= len (pre ++ rest) →
  sections_loop fuel (pre ++ rest) fin (mkParse (len pre) bd sq) = Ok st →
  ∃ l post, Forall sequence_ok l ∧ ps_offset st = fin ∧
    ((ps_body st = bd ∧ ps_sequences st = sq ++ l ∧
      rest = sequences_wire l ++ post ∧ fin = len pre + len (sequences_wire l)) ∨
     (∃ d, bd = None ∧ sq = [] ∧ ps_body st = Some d ∧ ps_sequences st = l ∧ doc_ok d ∧
      rest = (x00 :: d) ++ sequences_wire l ++ post ∧
      fin = len pre + 1 + len d + len (sequences_wire l))).
Proof.
  induction fuel as [|fuel IH]; intros pre rest fin bd sq st Hf H; cbn [sections_loop] in H; [done|].
  apply bind_Ok_inv in H as (st1 & H1 & H). unfold parse_section in H1.
  cbn [ps_offset ps_body ps_sequences] in H1.
  destruct rest as [|kind rest]; [rewrite app_nil_r in H1|rewrite get_app_r in H1].
  { destruct (get pre (len pre)) eqn:E; [apply get_Some_lt in E; lia|done]. }
  rewrite (cons_middle kind pre), (app_assoc pre) in H1.
  destruct (u8 kind =? 0) eqn:E0; [|destruct (u8 kind =? 1) eqn:E1; [|done]]; zbool.
  - assert (kind = x00) as -> by (apply is_nul_x00; unfold is_nul; lia).
    destruct bd; [done|]. cbn [is_some] in H1. destruct sq; [|done].
    apply bind_Ok_inv in H1 as ([d nx] & Hd & H1). injection H1 as <-.
    apply take_document_Ok_inv in Hd as (post & -> & Hok & -> & Hle); [|len_tac].
    cbn [ps_offset] in H. destruct (_ =? fin) eqn:Ee; zbool.
    + injection H as <-. exists [], post. split; [constructor|]. split; [done|]. right.
      exists d. unfold sequences_wire. simpl. rewrite len_nil. split_and!; try done. lia.
    + replace (pre ++ x00 :: d ++ post) with ((pre ++ x00 :: d) ++ post) in H, Hf by (by rewrite <- app_assoc).
      replace (len pre + 1 + len d) with (len (pre ++ x00 :: d)) in H by len_tac.
      apply IH in H as (l & post' & Hl & Ho & [(Hb & Hs & -> & Hfin)|(? & ? & _)]); [|done|done].
      exists l, post'. split; [done|]. split; [done|]. right. exists d.
      split_and!; try done. len_tac.
  - assert (kind = x01) as -> by (apply u8_inj; rewrite E1; done).
    apply bind_Ok_inv in H1 as ([seq nx] & Hd & H1). injection H1 as <-.
    apply parse_sequence_Ok_inv in Hd as (post & -> & Hok & -> & Hle);
      [|len_tac|rewrite <- app_assoc; done].
    cbn [ps_offset] in H. pose proof (len_sequence_wire seq) as Hlw.
    replace (pre ++ x01 :: sequence_payload seq ++ post) with ((pre ++ sequence_wire seq) ++ post)
      in H, Hf by (by rewrite <- app_assoc).
    destruct (_ =? fin) eqn:Ee; zbool.
    + injection H as <-. exists [seq], post. split; [by apply Forall_singleton|]. split; [done|]. left.
      unfold sequences_wire. cbn [fmap list_fmap concat]. rewrite app_nil_r. split_and!; try done. lia.
    + replace (len pre + 1 + sequence_size seq) with (len (pre ++ sequence_wire seq)) in H by len_tac.
      apply IH in H as (l & post' & Hl & Ho & [(Hb & Hs & -> & Hfin)|(d & _ & Hnil & _)]);
        [|by destruct sq|done].
      exists (seq :: l), post'. split; [by constructor|]. split; [done|]. left.
      unfold sequences_wire in *. rewrite fmap_cons. cbn [concat].
      rewrite <- !app_assoc. rewrite <- app_assoc in Hs. split_and!; try done. len_tac.
Qed.

Lemma parse_section_progress body fin st st' : 0 <= ps_offset st → fin <= len body →
  parse_section body fin st = Ok st' → ps_offset st < ps_offset st' <= fin.
Proof.
  intros Ho Hf H. unfold parse_section in H. destruct (get body _) as [kind|] eqn:Eg; [|done].
  apply get_Some_lt in Eg. destruct (split_at (ps_offset st + 1) body) as (pre & rest & -> & Hp); [lia|].
  repeat case_match; try done; apply bind_Ok_inv in H as ([x nx] & Hx & H); injection H as <-; simpl.
  - apply take_document_Ok_inv in Hx as (post & -> & Hok & -> & Hle); [|lia].
    pose proof (doc_ok_len _ Hok). lia.
  - apply parse_sequence_Ok_inv in Hx as (post & -> & Hok & -> & Hle); [|lia|done].
    destruct Hok as (_ & _ & ?). lia.
Qed.
Lemma returns_sections_loop body fin fuel : fin <= len body → ∀ st,
  0 <= ps_offset st <= len body → len body - ps_offset st < Z.of_nat fuel →
  returns (sections_loop fuel body fin st).
Proof.
  intros Hf. induction fuel as [|fuel IH]; intros st Ho Hfuel; cbn [sections_loop]; [lia|].
  apply returns_bind.
  - unfold parse_section. repeat case_match; try done.
    + apply returns_bind; [apply returns_take_document; [lia|done]|by intros [? ?] _].
    + apply returns_bind; [apply returns_parse_sequence; [lia|done]|by intros [? ?] _].
  - intros st' Hst. apply parse_section_progress in Hst; [|lia|done]. case_match; [done|].
    apply IH; lia.
Qed.

(** ** Validation of the sections *)

Lemma field_names_loop_scans parent rest l : scans rest l → ∀ s fuel,
  scanner_at parent rest s → (length l < fuel)%nat →
  field_names_loop fuel (mkFieldsIter s false) = Ok (list_to_set (fst <$> l)).
Proof.
  induction 1 as [|tag name v w rest l Ht Hn Hw Hs IH]; intros s fuel Hat Hf;
    (destruct fuel as [|fuel]; [simpl in Hf; lia|]);
    cbn [field_names_loop]; unfold FieldsIter_next; cbn [fi_done fi_scanner].
  - by rewrite (scanner_end _ _ Hat).
  - destruct (scanner_field _ _ _ _ _ _ _ Hat Ht Hn Hw) as (s' & -> & Hat'). cbn [bind].
    rewrite IH; [done|done|]. simpl in Hf. lia.
Qed.
Lemma body_fields_scans b l : 4 <= len b → scans (dropZ 4 b) l →
  body_fields b = Ok (list_to_set (fst <$> l)).
Proof.
  intros Hl Hs. eapply field_names_loop_scans; [done|by apply Scanner_new_at|].
  apply scans_length in Hs. unfold scan_fuel, dropZ in *. rewrite length_drop in Hs. lia.
Qed.
Lemma returns_field_names_loop parent fuel : ∀ rest s,
  scanner_at parent rest s → (length rest < fuel)%nat →
  returns (field_names_loop fuel (mkFieldsIter s false)).
Proof.
  induction fuel as [|fuel IH]; intros rest s Hat Hf; cbn [field_names_loop]; [lia|].
  apply returns_bind; [by eapply returns_FieldsIter_next|]. intros [item it] H.
  unfold FieldsIter_next in H. simpl in H. destruct (Scanner_next s) as [[o s']| | |] eqn:E; inv_ok.
  - destruct (Scanner_next_inv _ _ _ _ _ Hat E)
      as [[-> ->]|(tag & name & v & w & rest' & -> & -> & _ & _ & _ & Hat')]; inv_ok; [done|].
    apply returns_bind; [|done]. apply (IH _ _ Hat').
    unfold raw_field in Hf. simpl in Hf. rewrite !length_app in Hf. lia.
  - done.
Qed.
Lemma returns_body_fields b : returns (body_fields b).
Proof.
  unfold body_fields, RawDocument_fields. destruct (decide (len b < 4)) as [Hs|Hl].
  - unfold Scanner_new, scan_fuel. zif. by simpl.
  - eapply returns_field_names_loop; [apply Scanner_new_at; lia|].
    unfold scan_fuel, dropZ. rewrite length_drop. lia.
Qed.

(** The identifier rules against a set of body field names. *)
Definition identifier_ok (fields : gset str) (id : str) : Prop :=
  id ≠ [] ∧ has_nul id = false ∧ id ∉ fields.
Lemma check_sequences_iff fields l :
  check_sequences fields l = Ok () ↔ Forall (λ seq, identifier_ok fields (identifier seq)) l.
Proof.
  unfold identifier_ok. induction l as [|[id docs] l IH]; simpl; [by split; constructor|].
  rewrite Forall_cons, <- IH. simpl. destruct id as [|b id]; [naive_solver|].
  destruct (has_nul (b :: id)); [naive_solver|]. case_bool_decide; naive_solver.
Qed.
Lemma returns_check_sequences fields l : returns (check_sequences fields l).
Proof. induction l as [|seq l IH]; simpl; [done|]. by repeat case_match. Qed.
Lemma Sections_new_Ok_inv body seqs s : Sections_new body seqs = Ok s → s = mkSections body seqs.
Proof. unfold Sections_new. intros H. destruct seqs; [by inv_ok|]. by inv_ok. Qed.
Lemma returns_Sections_new body seqs : returns (Sections_new body seqs).
Proof.
  unfold Sections_new. destruct seqs; [done|].
  apply returns_bind; [apply returns_map_err, returns_body_fields|]. intros f _.
  apply returns_bind; [apply returns_check_sequences|done].
Qed.

(** ** The laws of OP_MSG *)

Definition flags_ok (fl : Z) : Prop := Z.land fl MsgFlags_all = fl.
Definition sections_ok (s : Sections) : Prop :=
  doc_ok (sec_body s) ∧ Forall sequence_ok (sequences s) ∧
  Sections_new (sec_body s) (sequences s) = Ok s.
Definition opmsg_ok (m : OpMsg) : Prop :=
  flags_ok (flags m) ∧ sections_ok (sections m) ∧
  is_some (checksum m) = flags_contains (flags m) CHECKSUM_PRESENT ∧
  match checksum m with Some c => in_u32 c | None => True end.

Lemma flags_ok_u32 fl : flags_ok fl → in_u32 fl.
Proof.
  unfold flags_ok. intros <-. pose proof (land_mask_range fl MsgFlags_all 32) as H.
  assert (0 <= Z.land fl MsgFlags_all < 2 ^ 32) as Hr by (apply H; done). unfold_ranges. lia.
Qed.
Lemma MsgFlags_parse_ok fl : flags_ok fl → MsgFlags_parse fl = Ok fl.
Proof.
  unfold flags_ok, MsgFlags_parse, from_bits_truncate. intros E.
  replace (Z.ldiff (Z.land fl REQUIRED_BITS) MsgFlags_all) with 0; [by rewrite E|].
  apply Z.bits_inj'. intros n Hn. rewrite Z.ldiff_spec, Z.land_spec, Z.bits_0.
  rewrite <- E, Z.land_spec. by destruct (Z.testbit fl n), (Z.testbit MsgFlags_all n), (Z.testbit REQUIRED_BITS n).
Qed.
Lemma MsgFlags_parse_Ok_inv raw fl : MsgFlags_parse raw = Ok fl →
  fl = Z.land raw MsgFlags_all ∧ Z.ldiff (Z.land raw REQUIRED_BITS) MsgFlags_all = 0.
Proof. unfold MsgFlags_parse. intros. inv_ok. by zbool. Qed.
Lemma returns_MsgFlags_parse raw : returns (MsgFlags_parse raw).
Proof. unfold MsgFlags_parse. by case_match. Qed.

Lemma opmsg_encode_wire m out : opmsg_ok m → OpMsg_encode_body m out = Ok (out ++ opmsg_wire m).
Proof.
  intros (_ & _ & Hc & _). unfold OpMsg_encode_body. rewrite Hc, eqb_reflx. cbn [debug_assert bind].
  rewrite encode_sequences_wire. unfold opmsg_wire, put_u32_le, put_u8, put_bytes.
  destruct (checksum m); cbn [checksum_wire]; rewrite <- !app_assoc; cbn [app];
    by rewrite ?app_nil_r.
Qed.
Lemma opmsg_body_len_wire m : opmsg_ok m → OpMsg_body_len m = len (opmsg_wire m).
Proof.
  intros _. unfold OpMsg_body_len, opmsg_wire. rewrite Sections_size_wire.
  destruct (checksum m); cbn [checksum_wire]; len_tac.
Qed.

Lemma opmsg_wire_split m : opmsg_wire m =
  le_encode 4 (flags m) ++ (x00 :: sec_body (sections m)) ++
  sequences_wire (sequences (sections m)) ++ checksum_wire (checksum m).
Proof. done. Qed.

Lemma sequences_length l : (length l <= length (sequences_wire l))%nat.
Proof.
  unfold sequences_wire. induction l as [|seq l IH]; [simpl; lia|].
  rewrite fmap_cons. cbn [concat]. rewrite length_app. unfold sequence_wire at 1. simpl length. lia.
Qed.

(** Parsing from any raw flag word whose known part is [flags m]. *)
Lemma opmsg_parse_raw raw m : in_u32 raw → MsgFlags_parse raw = Ok (flags m) →
  opmsg_ok m →
  OpMsg_parse_body (le_encode 4 raw ++ (x00 :: sec_body (sections m)) ++
    sequences_wire (sequences (sections m)) ++ checksum_wire (checksum m)) = Ok m.
Proof.
  intros Hr Hp (Hf & (Hd & Hs & Hn) & Hc & Hck). destruct m as [fl [d l] ck].
  cbn [flags sections checksum sec_body sequences] in *.
  pose proof (doc_ok_len d Hd). pose proof (len_nonneg (sequences_wire l)).
  pose proof (sequences_length l). set (sw := sequences_wire l) in *.
  set (body := le_encode 4 raw ++ (x00 :: d) ++ sw ++ checksum_wire ck).
  assert (len (checksum_wire ck) = (if is_some ck then 1 else 0) * 4) as Hcl by (destruct ck; done).
  assert (len body = 5 + len d + len sw + (if is_some ck then 1 else 0) * 4) as Hb.
  { unfold body. rewrite !len_app, Hcl. len_tac. }
  unfold OpMsg_parse_body.
  assert (le_at u32_of_le body 0 = Ok raw) as ->.
  { unfold body. rewrite <- (u32_of_le_encode raw) at 2 by done.
    apply (le_at_mid u32_of_le []); [done|apply len_le_encode]. }
  cbn [bind]. rewrite Hp. cbn [bind]. rewrite <- Hc.
  assert (0 <= (if is_some ck then 1 else 0) * 4) by (destruct ck; simpl; lia).
  set (tr := (if is_some ck then 1 else 0) * 4) in *. repeat zif.
  rewrite usub_Ok by lia. cbn [bind].
  assert (sections_loop (S (length body)) body (len body - tr) (mkParse 4 None []) =
          Ok (mkParse (len body - tr) (Some d) l)) as ->.
  { change 4 with (len (le_encode 4 raw)). apply sections_loop_ok; [done..| |].
    - unfold body. rewrite !length_app. lia.
    - rewrite Hb, len_le_encode. fold sw. lia. }
  cbn [bind ps_body ps_sequences ok_or].
  assert ((if is_some ck then let* c := le_at u32_of_le body (len body - tr) in Ok (Some c)
           else Ok None) = @Ok ProtocolError _ ck) as ->.
  { destruct ck as [c|]; [|done]. cbn [is_some]. unfold body. cbn [checksum_wire].
    rewrite (app_assoc _ sw), (app_assoc (le_encode 4 raw)).
    rewrite <- (app_nil_r (le_encode 4 c)), le_at_mid by (apply len_le_encode || (cbn in tr; len_tac)).
    cbn [bind]. by rewrite u32_of_le_encode. }
  cbn [bind]. rewrite Hn. cbn [bind]. rewrite usub_Ok by lia. cbn [bind].
  rewrite Sections_size_wire. cbn [sec_body sequences]. fold sw.
  replace (_ =? _) with true by lia. done.
Qed.

Lemma opmsg_parse_wire m : opmsg_ok m → OpMsg_parse_body (opmsg_wire m) = Ok m.
Proof.
  intros Hok. pose proof (proj1 Hok) as Hf. rewrite opmsg_wire_split.
  apply opmsg_parse_raw; [by apply flags_ok_u32|by apply MsgFlags_parse_ok|done].
Qed.

(** A successful section loop from the start, ending in a complete body. *)
Lemma sections_loop_complete body raw t fin st d :
  body = le_encode 4 raw ++ t → fin <= len body →
  sections_loop (S (length body)) body fin (mkParse 4 None []) = Ok st → ps_body st = Some d →
  doc_ok d ∧ Forall sequence_ok (ps_sequences st) ∧
  fin = 5 + len d + len (sequences_wire (ps_sequences st)) ∧
  ∃ post, body = le_encode 4 raw ++ (x00 :: d) ++ sequences_wire (ps_sequences st) ++ post.
Proof.
  intros -> Hf H Hd. change 4 with (len (le_encode 4 raw)) in H.
  apply sections_loop_Ok_inv in H as (l & post & Hl & Ho & [(Hb & _)|(d' & _ & _ & Hb & -> & Hok & -> & ->)]);
    [congruence| |done].
  rewrite Hd in Hb. injection Hb as <-. rewrite len_le_encode. split_and!; [done..|lia|eauto].
Qed.

Lemma opmsg_parse_Ok_inv b m : OpMsg_parse_body b = Ok m →
  opmsg_ok m ∧ ∃ raw, in_u32 raw ∧ MsgFlags_parse raw = Ok (flags m) ∧
    b = le_encode 4 raw ++ (x00 :: sec_body (sections m)) ++
        sequences_wire (sequences (sections m)) ++ checksum_wire (checksum m).
Proof.
  intros H. unfold OpMsg_parse_body in H. destruct (len b <? 5) eqn:E5; [done|].
  apply bind_Ok_inv in H as (raw & Hraw & H).
  apply (le_at_Ok_inv _ [] b) in Hraw as (w & t & Eb & Hw & ->); [|done].
  pose proof (u32_of_le_range w Hw) as Hu. set (raw := u32_of_le w) in *.
  assert (w = le_encode 4 raw) as Ew by (unfold raw, u32_of_le; by rewrite le_encode_decode_len).
  rewrite Ew in Eb. apply bind_Ok_inv in H as (fl & Hfl & H). cbv zeta in H.
  destruct (len b <? 6 + _) eqn:E6; [done|]. zbool.
  apply bind_Ok_inv in H as (fin & Hfin & H). apply usub_Ok_inv in Hfin as [_ ->].
  set (tr := (if flags_contains fl CHECKSUM_PRESENT then 1 else 0) * 4) in *.
  assert (0 <= tr) by (unfold tr; case_match; lia).
  apply bind_Ok_inv in H as (st & Hst & H). apply bind_Ok_inv in H as (ck & Hck & H).
  apply bind_Ok_inv in H as (d & Hd & H). apply ok_or_Ok_inv in Hd.
  apply bind_Ok_inv in H as (s & Hs & H). apply bind_Ok_inv in H as (room & _ & H).
  apply bind_Ok_inv in H as (u & _ & H). injection H as <-. cbn [flags sections checksum].
  pose proof (Sections_new_Ok_inv _ _ _ Hs) as ->. cbn [sec_body sequences].
  destruct (sections_loop_complete b raw t (len b - tr) st d) as (Hdok & Hsok & Hlen & post & Eb'); [done|lia|done..|].
  assert (post = checksum_wire ck ∧ is_some ck = flags_contains fl CHECKSUM_PRESENT ∧
          match ck with Some c => in_u32 c | None => True end) as (-> & Hc & Hcu).
  { apply (f_equal len) in Eb' as El. rewrite !len_app, len_le_encode, len_cons in El.
    assert (len post = tr) as Hpl by len_tac.
    destruct (flags_contains fl CHECKSUM_PRESENT); cbn in tr; subst tr.
    - apply bind_Ok_inv in Hck as (c & Hc & Hck). injection Hck as <-.
      rewrite Eb' in Hc at 1. rewrite (app_assoc _ (sequences_wire _)), (app_assoc (le_encode 4 raw)) in Hc.
      apply le_at_Ok_inv in Hc as (w' & t' & -> & Hw' & ->); [|len_tac].
      assert (t' = []) as -> by (apply len_nil_inv; len_tac). rewrite app_nil_r.
      cbn [checksum_wire is_some]. unfold u32_of_le at 1.
      rewrite le_encode_decode_len by done. split_and!; [done..|by apply u32_of_le_range].
    - injection Hck as <-. by apply len_nil_inv in Hpl as ->. }
  split; [|by exists raw].
  split_and!; [|split_and!; done|done|done].
  apply MsgFlags_parse_Ok_inv in Hfl as [-> _]. unfold flags_ok. apply land_idem.
Qed.

Lemma returns_opmsg_parse b : returns (OpMsg_parse_body b).
Proof.
  unfold OpMsg_parse_body. case_match eqn:E5; [done|]. zbool.
  apply returns_bind; [apply returns_le_at; lia|]. intros raw Hraw.
  apply (le_at_Ok_inv _ [] b) in Hraw as (w & t & Eb & Hw & ->); [|done].
  assert (w = le_encode 4 (u32_of_le w)) as Ew by (unfold u32_of_le; by rewrite le_encode_decode_len).
  rewrite Ew in Eb.
  apply returns_bind; [apply returns_MsgFlags_parse|]. intros fl _. cbv zeta.
  set (tr := (if flags_contains fl CHECKSUM_PRESENT then 1 else 0) * 4).
  assert (0 <= tr) by (unfold tr; case_match; lia). case_match eqn:E6; [done|]. zbool.
  rewrite usub_Ok by lia. cbn [bind]. apply returns_bind.
  { apply returns_sections_loop; cbn [ps_offset]; unfold len in *; lia. }
  intros st Hst. apply returns_bind.
  { destruct (flags_contains fl CHECKSUM_PRESENT); cbn in tr; [|done].
    apply returns_bind; [apply returns_le_at; unfold tr in *; lia|done]. }
  intros ck _. apply returns_bind; [apply returns_ok_or|]. intros d Hd%ok_or_Ok_inv.
  destruct (sections_loop_complete b (u32_of_le w) t (len b - tr) st d) as (_ & _ & Hlen & _); [exact Eb|lia|done..|].
  apply returns_bind; [apply returns_Sections_new|]. intros s ->%Sections_new_Ok_inv.
  rewrite usub_Ok by lia. cbn [bind]. rewrite Sections_size_wire. cbn [sec_body sequences].
  unfold debug_assert. replace (_ =? _) with true by lia. done.
Qed.

#[export] Instance OpMsg_Message : Message OpMsg := {
  OPCODE := Opcode_Msg;
  body_len := OpMsg_body_len;
  encode_body := OpMsg_encode_body;
  parse_body := OpMsg_parse_body;
}.
#[export] Program Instance OpMsg_Laws : MessageLaws OpMsg := {
  msg_ok := opmsg_ok;
  msg_wire := opmsg_wire;
  encode_body_wire := opmsg_encode_wire;
  body_len_wire := opmsg_body_len_wire;
  parse_body_wire := opmsg_parse_wire;
  returns_parse_body := returns_opmsg_parse;
}.
Next Obligation.
  intros b m (Hok & raw & _ & _ & ->)%opmsg_parse_Ok_inv. split; [done|].
  unfold opmsg_wire. by rewrite !(len_app (le_encode 4 _)), !len_le_encode.
Qed.

Lemma deep_body_fields b d : RawDocument_deep b = Ok d →
  body_fields b = Ok (list_to_set (Document_field_names d)).
Proof.
  intros (Hl & l & Hs & Hc)%deep_scans. rewrite (body_fields_scans b l Hl Hs).
  unfold Document_field_names. by rewrite (collect_names _ _ _ Hc).
Qed.

Lemma Sections_new_iff b d seqs : RawDocument_deep b = Ok d →
  Sections_new b seqs = Ok (mkSections b seqs) ↔
  Forall (λ seq, identifier seq ≠ [] ∧ has_nul (identifier seq) = false ∧
                 Document_get d (identifier seq) = None) seqs.
Proof.
  intros Hd. transitivity (Forall (λ seq, identifier_ok (list_to_set (Document_field_names d)) (identifier seq)) seqs).
  - rewrite <- check_sequences_iff. unfold Sections_new. destruct seqs as [|seq seqs]; [done|].
    rewrite (deep_body_fields b d Hd). cbn [map_err bind].
    destruct (check_sequences _ _) as [[]| | |]; simpl; done.
  - apply Forall_iff. intros seq. unfold identifier_ok.
    rewrite Document_get_fmap_names. by rewrite elem_of_list_to_set.
Qed.

Lemma flags_difference_ok fl : flags_ok fl →
  flags_ok (flags_difference fl CHECKSUM_PRESENT) ∧
  flags_contains (flags_difference fl CHECKSUM_PRESENT) CHECKSUM_PRESENT = false.
Proof.
  unfold flags_ok, flags_difference, flags_contains. intros E. split.
  - apply Z.bits_inj'. intros n Hn. rewrite Z.land_spec, Z.ldiff_spec, <- E, Z.land_spec.
    by destruct (Z.testbit fl n), (Z.testbit MsgFlags_all n), (Z.testbit CHECKSUM_PRESENT n).
  - rewrite Z.land_comm, Z.ldiff_land, Z.land_assoc, (Z.land_comm CHECKSUM_PRESENT fl),
      <- Z.land_assoc, Z.land_lnot_diag, Z.land_0_r. done.
Qed.

Lemma OpMsg_new_ok fl body seqs m : OpMsg_new fl body seqs = Ok m → flags_ok fl → doc_ok body →
  Forall sequence_ok seqs → opmsg_ok m.
Proof.
  intros H Hf Hd Hs. unfold OpMsg_new in H. apply bind_Ok_inv in H as (s & Hn & H). injection H as <-.
  pose proof (Sections_new_Ok_inv _ _ _ Hn) as ->. apply flags_difference_ok in Hf as [Hf Hc].
  split_and!; [done|by split_and!|cbn [checksum flags is_some]; by rewrite Hc|done].
Qed.

(** ** Properties *)

(** C22. OP_MSG parsing is byte-exact: an accepted body is a flag word
    followed by a tail, and re-encoding the parsed message reproduces that
    tail behind the flag word with only its unknown optional bits (16-31)
    cleared; no unknown required bit was set; the announced length is the
    input's; and the re-encoding parses to the same message. *)
Theorem opmsg_parse_exact b m out : OpMsg_parse_body b = Ok m →
  ∃ raw tail, b = le_encode 4 raw ++ tail ∧ flags m = Z.land raw MsgFlags_all ∧
    Z.ldiff (Z.land raw REQUIRED_BITS) MsgFlags_all = 0 ∧
    OpMsg_encode_body m out = Ok (out ++ le_encode 4 (flags m) ++ tail) ∧
    OpMsg_body_len m = len b ∧ OpMsg_parse_body (le_encode 4 (flags m) ++ tail) = Ok m.
Proof.
  intros (Hok & raw & Hr & Hp & ->)%opmsg_parse_Ok_inv. eexists raw, _. split; [done|].
  apply MsgFlags_parse_Ok_inv in Hp as [Hf Hz]. split_and!; [done..|by apply opmsg_encode_wire| |].
  - rewrite opmsg_body_len_wire by done. unfold opmsg_wire.
    by rewrite !(len_app (le_encode 4 _)), !len_le_encode.
  - by apply opmsg_parse_wire.
Qed.

Lemma opmsg_parse_exact_witness :
  let b := [x00; x00; x02; x00; x00; x05; x00; x00; x00; x00] in
  ∃ m, OpMsg_parse_body b = Ok m ∧ flags m = 0 ∧ OpMsg_body_len m = len b.
Proof.
  intros b. exists (mkOpMsg 0 (mkSections [x05; x00; x00; x00; x00] []) None).
  assert (OpMsg_parse_body b = Ok (mkOpMsg 0 (mkSections [x05; x00; x00; x00; x00] []) None)) as E
    by (vm_compute; reflexivity).
  destruct (opmsg_parse_exact b _ [] E) as (raw & tail & _ & _ & _ & _ & Hl & _).
  split; [exact E|split; [reflexivity|exact Hl]].
Defined.

(** Building, encoding and parsing an OP_MSG: a message [OpMsg::new]
    accepts, over known flags, framed documents and sequences of a parseable
    size, encodes without a panic and its encoding parses back to it. *)
Lemma opmsg_new_roundtrip fl body seqs m out : OpMsg_new fl body seqs = Ok m →
  flags_ok fl → doc_ok body → Forall sequence_ok seqs →
  ∃ w, OpMsg_encode_body m out = Ok (out ++ w) ∧ OpMsg_parse_body w = Ok m ∧
       len w = OpMsg_body_len m ∧ checksum m = None.
Proof.
  intros H Hf Hd Hs. pose proof (OpMsg_new_ok _ _ _ _ H Hf Hd Hs) as Hok. exists (opmsg_wire m).
  rewrite opmsg_encode_wire, opmsg_parse_wire, opmsg_body_len_wire by done.
  split_and!; try done. unfold OpMsg_new in H. by inv_ok.
Qed.

(** [OpMsg::new] and [encode_body] accept an empty sequence with an
    identifier shorter than four bytes, but [parse_body] rejects that very
    encoding as too small. *)
Lemma opmsg_short_sequence_rejected :
  let m := mkOpMsg 0 (mkSections (doc_frame []) [mkSequence (lit "abc") []]) None in
  OpMsg_new 0 (doc_frame []) [mkSequence (lit "abc") []] = Ok m ∧
  ∃ w, OpMsg_encode_body m [] = Ok w ∧
       OpMsg_parse_body w = Err (ProtocolError_InvalidOpMsg "section size too small").
Proof.
  intros m. split; [vm_compute; reflexivity|]. exists (opmsg_wire m).
  split; vm_compute; reflexivity.
Qed.
