(* ===== verification/OpLegacy.v ===== *)
(** * OP_QUERY and OP_REPLY: [mongowire/src/messages/op_query.rs] and
    [mongowire/src/messages/op_reply.rs]

    The two files carry the same [take_document]; it is modelled once. *)
From stdpp Require Import base list numbers strings.
From Stdlib Require Import ZArith Lia.
From S2P Require Import Prelude Utf8 Io Consts BsonScalar BsonValue BsonEncode BsonDecode.
From S2P Require Import Header Message OpMsg.
Local Open Scope Z_scope.

(** [?] on a protocol read. *)
Definition pread {A} (m : reader ReadError A) : reader ProtocolError A :=
  rmap_err ProtocolError_from_read m.

(** [take_document(&body, &mut r)]: [r] is the cursor over the tail of [body]. *)
Definition take_document_at (body : bytes) : reader ProtocolError RawDocument := λ r,
  let* start := usub (len body) (remaining r) in
  let* l := map_err (λ _, ProtocolError_InvalidBody "truncated document") (peek_i32_le r) in
  if (l <? MIN_DOC_LEN) || (remaining r <? l)
  then Err (ProtocolError_InvalidBody "invalid document length")
  else
    let* p := slice body start (start + l) in
    let* doc := map_err ProtocolError_Bson (RawDocument_from_bytes p) in
    let* '(_, r) := map_err (λ _, ProtocolError_InvalidBody "truncated document")
                      (read_bytes l r) in
    Ok (doc, r).

Definition is_empty (r : bytes) : bool := match r with [] => true | _ => false end.
(** [if !r.is_empty() { return Err(..) }]. *)
Definition expect_end (reason : string) : reader ProtocolError () := λ r,
  if negb (is_empty r) then Err (ProtocolError_InvalidBody reason) else Ok ((), r).

(** ** OP_QUERY *)

Abbreviation QueryFlags := Z.
Definition QueryFlags_all : Z :=
  Z.lor (Z.lor (Z.lor (Z.lor (Z.lor (Z.lor TAILABLE_CURSOR SLAVE_OK) OPLOG_REPLAY)
    NO_CURSOR_TIMEOUT) AWAIT_DATA) EXHAUST) PARTIAL.

Record OpQuery := mkOpQuery {
  query_flags : QueryFlags;
  full_collection_name : str;
  number_to_skip : Z;
  number_to_return : Z;
  query : RawDocument;
  return_fields_selector : option RawDocument;
}.

Definition opt_len (o : option RawDocument) : Z := match o with Some d => len d | None => 0 end.
Definition OpQuery_body_len (q : OpQuery) : Z :=
  12 + len (full_collection_name q) + 1 + len (query q) + opt_len (return_fields_selector q).

Definition OpQuery_encode_body (q : OpQuery) (out : bytes) : outcome ProtocolError bytes :=
  let* _ := debug_assert (negb (has_nul (full_collection_name q))) in
  let out := put_i32_le out (query_flags q) in
  let out := put_bytes out (full_collection_name q) in
  let out := put_u8 out 0 in
  let out := put_i32_le out (number_to_skip q) in
  let out := put_i32_le out (number_to_return q) in
  let out := put_bytes out (query q) in
  Ok (match return_fields_selector q with Some d => put_bytes out d | None => out end).

Definition parse_query_cursor (body : bytes) : reader ProtocolError OpQuery :=
  do raw <- pread read_i32_le;
  do name <- pread read_cstring;
  do _ <- (match name with
           | [] => rfail (ProtocolError_InvalidBody "empty fullCollectionName")
           | _ => rret ()
           end);
  do coll <- rlift (map_err
    (λ _, ProtocolError_InvalidBody "invalid UTF-8 in fullCollectionName") (from_utf8 name));
  do skip <- pread read_i32_le;
  do ret <- pread read_i32_le;
  do q <- take_document_at body;
  do selector <- (λ r, if is_empty r then Ok (None, r)
                       else let* '(d, r) := take_document_at body r in Ok (Some d, r));
  do _ <- expect_end "trailing bytes after returnFieldsSelector";
  rret (mkOpQuery (from_bits_truncate QueryFlags_all raw) coll skip ret q selector).
Definition OpQuery_parse_body (body : bytes) : outcome ProtocolError OpQuery :=
  let* '(q, _) := parse_query_cursor body body in Ok q.

(** [OpQuery::handshake]. *)
Definition OpQuery_handshake (request : RawDocument) : OpQuery :=
  mkOpQuery 0 (lit "admin.$cmd") 0 (-1) request None.

(** ** OP_REPLY *)

Abbreviation ReplyFlags := Z.
Definition ReplyFlags_all : Z :=
  Z.lor (Z.lor (Z.lor CURSOR_NOT_FOUND QUERY_FAILURE) SHARD_CONFIG_STALE) AWAIT_CAPABLE.

Record OpReply := mkOpReply {
  response_flags : ReplyFlags;
  cursor_id : Z;
  starting_from : Z;
  number_returned : Z;
  reply_documents : list RawDocument;
}.

Definition OpReply_body_len (p : OpReply) : Z := 20 + docs_len (reply_documents p).

(** [len as i32]. *)
Definition as_i32 (z : Z) : Z := to_signed 32 (z mod 2 ^ 32).

Definition OpReply_encode_body (p : OpReply) (out : bytes) : outcome ProtocolError bytes :=
  let* _ := debug_assert (number_returned p =? as_i32 (len (reply_documents p))) in
  let out := put_i32_le out (response_flags p) in
  let out := put_i64_le out (cursor_id p) in
  let out := put_i32_le out (starting_from p) in
  let out := put_i32_le out (as_i32 (len (reply_documents p))) in
  Ok (foldl put_bytes out (reply_documents p)).

(** [for _ in 0..number_returned]. *)
Fixpoint take_documents (n : nat) (body : bytes) : reader ProtocolError (list RawDocument) :=
  match n with
  | O => rret []
  | S n => do d <- take_document_at body; do t <- take_documents n body; rret (d :: t)
  end.

Definition parse_reply_cursor (body : bytes) : reader ProtocolError OpReply :=
  do raw <- pread read_i32_le;
  do cid <- pread read_i64_le;
  do start <- pread read_i32_le;
  do n <- pread read_i32_le;
  if n <? 0 then rfail (ProtocolError_InvalidBody "negative numberReturned")
  else
    do _ <- (λ r, if remaining r / MIN_DOC_LEN <? n
                  then Err (ProtocolError_InvalidBody "numberReturned exceeds the body size")
                  else Ok ((), r));
    do docs <- take_documents (Z.to_nat n) body;
    do _ <- expect_end "trailing bytes after the documents";
    rret (mkOpReply (from_bits_truncate ReplyFlags_all raw) cid start n docs).
Definition OpReply_parse_body (body : bytes) : outcome ProtocolError OpReply :=
  let* '(p, _) := parse_reply_cursor body body in Ok p.

(** ** Documents at a cursor *)

(** [r] is a suffix of [body]. *)
Definition cursor_of (body r : bytes) : Prop := ∃ pre, body = pre ++ r.
Lemma cursor_of_app body w r : cursor_of body (w ++ r) → cursor_of body r.
Proof. intros [pre ->]. exists (pre ++ w). by rewrite <- app_assoc. Qed.

Lemma take_document_at_ok body d r : doc_ok d → cursor_of body (d ++ r) →
  take_document_at body (d ++ r) = Ok (d, r).
Proof.
  intros [Hr Hi] [pre ->]. destruct (raw_ok_prefix d Hr) as (b & Ed & Hl).
  unfold take_document_at, remaining. rewrite usub_app_r. cbn [bind].
  rewrite peek_i32_le_eq by len_tac.
  assert (takeZ 4 (d ++ r) = le_encode 4 (len d)) as ->.
  { rewrite Ed at 1. rewrite <- app_assoc. by apply takeZ_app. }
  cbn [map_err bind]. rewrite i32_of_le_encode by (unfold_ranges; lia).
  rewrite len_app. pose proof (len_nonneg r). unfold MIN_DOC_LEN. zif.
  rewrite slice_child by done. cbn [bind]. rewrite RawDocument_from_bytes_ok by done. cbn [map_err bind].
  by rewrite parses_read_bytes.
Qed.
Lemma take_document_at_Ok_inv body r d r' : cursor_of body r →
  take_document_at body r = Ok (d, r') → r = d ++ r' ∧ doc_ok d.
Proof.
  intros [pre ->] H. unfold take_document_at, remaining in H. rewrite usub_app_r in H. cbn [bind] in H.
  apply bind_Ok_inv in H as (l & Hl & H). apply map_err_Ok_inv in Hl.
  assert (4 <= len r) as Hlr.
  { unfold peek_i32_le in Hl. destruct (len r <? 4) eqn:E; [done|]. by zbool. }
  rewrite peek_i32_le_eq in Hl by done. injection Hl as <-.
  assert (in_i32 (i32_of_le (takeZ 4 r))) as Hi.
  { apply i32_of_le_range. rewrite len_takeZ; lia. }
  unfold MIN_DOC_LEN in H. destruct (_ || _) eqn:E; [done|]. zbool.
  apply bind_Ok_inv in H as (p & Hp & H).
  apply slice_of_suffix in Hp as (t & -> & Hlen); [|done|lia].
  apply bind_Ok_inv in H as (d' & Hd & H).
  apply map_err_Ok_inv, RawDocument_from_bytes_Ok_inv in Hd as [-> Hraw].
  rewrite parses_read_bytes in H by done. cbn [map_err bind] in H. injection H as <- <-.
  split; [done|]. split; [done|]. unfold_ranges. lia.
Qed.
Lemma returns_take_document_at body r : cursor_of body r → returns (take_document_at body r).
Proof.
  intros [pre ->]. unfold take_document_at, remaining. rewrite usub_app_r. cbn [bind].
  apply returns_bind; [apply returns_map_err, returns_peek_i32_le|]. intros l _.
  unfold MIN_DOC_LEN. case_match eqn:E; [done|]. zbool.
  apply returns_bind; [apply returns_slice; len_tac|]. intros p _.
  apply returns_bind; [apply returns_map_err, returns_RawDocument_from_bytes|]. intros d _.
  apply returns_bind; [apply returns_map_err, returns_read_bytes|by intros [? ?] _].
Qed.

Lemma pread_parses {A} (m : reader ReadError A) enc v r : parses m enc v →
  pread m (enc ++ r) = Ok (v, r).
Proof. intros H. apply (parses_map_err ProtocolError_from_read _ _ _ H). Qed.
Lemma expect_end_nil reason : expect_end reason [] = Ok ((), []).
Proof. done. Qed.
Lemma expect_end_Ok_inv reason r r' u : expect_end reason r = Ok (u, r') → r = [] ∧ r' = [].
Proof. unfold expect_end. destruct r; simpl; naive_solver. Qed.

(** ** The laws of OP_QUERY *)

Definition opt_wire (o : option RawDocument) : bytes := default [] o.
Definition query_tail (q : OpQuery) : bytes :=
  (full_collection_name q ++ [x00]) ++ le_encode 4 (number_to_skip q) ++
  le_encode 4 (number_to_return q) ++ query q ++ opt_wire (return_fields_selector q).
Definition query_wire (q : OpQuery) : bytes := le_encode 4 (query_flags q) ++ query_tail q.
Definition query_ok (q : OpQuery) : Prop :=
  Z.land (query_flags q) QueryFlags_all = query_flags q ∧
  full_collection_name q ≠ [] ∧ name_ok (full_collection_name q) ∧
  in_i32 (number_to_skip q) ∧ in_i32 (number_to_return q) ∧ doc_ok (query q) ∧
  match return_fields_selector q with Some d => doc_ok d | None => True end.

Lemma mask_in_i32 x m : 0 <= m < 2 ^ 31 → in_i32 (Z.land x m).
Proof. intros H. pose proof (land_mask_range x m 31 ltac:(lia) H). unfold_ranges. lia. Qed.

Lemma selector_ok body s : doc_ok s → cursor_of body s →
  (if is_empty s then Ok (None, s)
   else let* '(d, r) := take_document_at body s in Ok (Some d, r)) = @Ok ProtocolError _ (Some s, []).
Proof.
  intros Hs Hc. pose proof (doc_ok_len s Hs) as Hl. rewrite <- (app_nil_r s) in Hc.
  pose proof (take_document_at_ok body s [] Hs Hc) as Ht. rewrite app_nil_r in Ht.
  destruct s; [done|]. cbn [is_empty]. by rewrite Ht.
Qed.

Lemma query_parse_raw raw q : in_i32 raw → query_flags q = Z.land raw QueryFlags_all →
  query_ok q → OpQuery_parse_body (le_encode 4 raw ++ query_tail q) = Ok q.
Proof.
  intros Hr Hf (_ & Hne & [Hu Hn] & Hsk & Hrt & Hd & Hsel).
  destruct q as [fl name sk rt d sel]. cbn in *.
  unfold OpQuery_parse_body, parse_query_cursor, query_tail. cbn.
  set (body := le_encode 4 raw ++ _).
  assert (cursor_of body (d ++ opt_wire sel)) as Hc.
  { exists (le_encode 4 raw ++ (name ++ [x00]) ++ le_encode 4 sk ++ le_encode 4 rt).
    unfold body. by rewrite <- !app_assoc. }
  pose proof (pread_parses _ _ _ _ (parses_read_i32 _ Hr) : pread read_i32_le body = _) as H1.
  rewrite (rbind_eq _ _ _ _ _ H1).
  rewrite (rbind_eq _ _ _ _ _ (pread_parses _ _ _ _ (parses_read_cstring _ Hn))).
  destruct name as [|c name]; [done|]. rewrite rbind_ret.
  rewrite from_utf8_valid by done. cbn [map_err]. rewrite rbind_lift_Ok.
  rewrite (rbind_eq _ _ _ _ _ (pread_parses _ _ _ _ (parses_read_i32 _ Hsk))).
  rewrite (rbind_eq _ _ _ _ _ (pread_parses _ _ _ _ (parses_read_i32 _ Hrt))).
  rewrite (rbind_eq _ _ _ _ _ (take_document_at_ok _ _ _ Hd Hc)).
  destruct sel as [s|]; cbn [opt_wire default id].
  - apply cursor_of_app in Hc. erewrite rbind_eq by apply (selector_ok body s Hsel Hc).
    unfold from_bits_truncate. by rewrite <- Hf.
  - unfold from_bits_truncate. by rewrite <- Hf.
Qed.

Lemma query_parse_Ok_inv b q : OpQuery_parse_body b = Ok q →
  query_ok q ∧ ∃ raw, in_i32 raw ∧ query_flags q = Z.land raw QueryFlags_all ∧
    b = le_encode 4 raw ++ query_tail q.
Proof.
  unfold OpQuery_parse_body. intros H. apply bind_Ok_inv in H as ([q' r] & H & Hq). injection Hq as <-.
  unfold parse_query_cursor, pread in H. set (body := b) in H at 1 2.
  assert (cursor_of body b) as Hc by (by exists []). clearbody body. inv_read. inv_prim.
  apply map_err_Ok_inv, from_utf8_Ok_inv in H as [-> Hu].
  do 2 apply cursor_of_app in Hc. apply (cursor_of_app _ [x00]) in Hc. do 2 apply cursor_of_app in Hc.
  apply take_document_at_Ok_inv in Hr5 as [-> Hd]; [|done]. apply cursor_of_app in Hc.
  apply expect_end_Ok_inv in Hr7 as [-> ->].
  assert (r6 = opt_wire a6 ∧ match a6 with Some d => doc_ok d | None => True end) as [-> Hs].
  { destruct r6 as [|x r6]; cbn [is_empty] in Hr6; [by injection Hr6 as <-|].
    apply bind_Ok_inv in Hr6 as ([s r'] & Hs & E). injection E as <- ->.
    apply take_document_at_Ok_inv in Hs as [-> ?]; [|done]. by rewrite app_nil_r. }
  unfold query_ok, query_tail, from_bits_truncate.
  cbn [query_flags full_collection_name number_to_skip number_to_return query return_fields_selector].
  split; [split_and!; try done; apply land_idem|]. exists a. split_and!; [done..|].
  by rewrite <- (app_assoc _ [x00]).
Qed.

Lemma returns_query_parse b : returns (OpQuery_parse_body b).
Proof.
  unfold OpQuery_parse_body. apply returns_bind; [|by intros [? ?] _].
  unfold parse_query_cursor, pread. set (body := b) at 1 2.
  assert (cursor_of body b) as Hc by (by exists []). clearbody body. revert Hc. generalize b.
  intros r Hc. unfold rbind at 1. apply returns_bind; [returns_tac|].
  intros [raw r1] H1. inv_read. inv_prim. apply cursor_of_app in Hc.
  unfold rbind at 1. apply returns_bind; [returns_tac|].
  intros [name r2] H2. inv_read. inv_prim. apply cursor_of_app in Hc. apply (cursor_of_app _ [x00]) in Hc.
  destruct name as [|c name]; [done|]. rewrite rbind_ret.
  unfold rbind at 1. apply returns_bind; [returns_tac; apply returns_from_utf8|].
  intros [coll r3] H3. inv_read.
  unfold rbind at 1. apply returns_bind; [returns_tac|].
  intros [sk r4] H4. inv_read. inv_prim. apply cursor_of_app in Hc.
  unfold rbind at 1. apply returns_bind; [returns_tac|].
  intros [rt r5] H5. inv_read. inv_prim. apply cursor_of_app in Hc.
  unfold rbind at 1. apply returns_bind; [by apply returns_take_document_at|].
  intros [d r6] H6. apply take_document_at_Ok_inv in H6 as [-> _]; [|done]. apply cursor_of_app in Hc.
  unfold rbind at 1. apply returns_bind.
  { case_match; [done|]. apply returns_bind; [by apply returns_take_document_at|by intros [? ?] _]. }
  intros [sel r7] _. unfold rbind, expect_end. by destruct r7.
Qed.

Lemma query_encode_wire q out : query_ok q → OpQuery_encode_body q out = Ok (out ++ query_wire q).
Proof.
  intros (_ & _ & [_ Hn] & _). unfold OpQuery_encode_body. rewrite Hn. cbn [negb debug_assert bind].
  unfold query_wire, query_tail, put_i32_le, put_bytes, put_u8.
  destruct (return_fields_selector q); cbn [opt_wire default id];
    rewrite <- !app_assoc; by rewrite ?app_nil_r.
Qed.
Lemma query_body_len_wire q : query_ok q → OpQuery_body_len q = len (query_wire q).
Proof.
  intros _. unfold OpQuery_body_len, query_wire, query_tail.
  destruct (return_fields_selector q); cbn [opt_wire default id opt_len]; len_tac.
Qed.
Lemma query_parse_wire q : query_ok q → OpQuery_parse_body (query_wire q) = Ok q.
Proof.
  intros Hok. pose proof (proj1 Hok) as Hf. apply query_parse_raw; [|done..].
  rewrite <- Hf. by apply mask_in_i32.
Qed.

#[export] Instance OpQuery_Message : Message OpQuery := {
  OPCODE := Opcode_Query;
  body_len := OpQuery_body_len;
  encode_body := OpQuery_encode_body;
  parse_body := OpQuery_parse_body;
}.
#[export] Program Instance OpQuery_Laws : MessageLaws OpQuery := {
  msg_ok := query_ok;
  msg_wire := query_wire;
  encode_body_wire := query_encode_wire;
  body_len_wire := query_body_len_wire;
  parse_body_wire := query_parse_wire;
  returns_parse_body := returns_query_parse;
}.
Next Obligation.
  intros b m (Hok & raw & _ & _ & ->)%query_parse_Ok_inv. split; [done|].
  unfold query_wire. by rewrite !(len_app (le_encode 4 _)), !len_le_encode.
Qed.

(** ** The laws of OP_REPLY *)

Definition reply_tail (p : OpReply) : bytes :=
  le_encode 8 (cursor_id p) ++ le_encode 4 (starting_from p) ++
  le_encode 4 (number_returned p) ++ concat (reply_documents p).
Definition reply_wire (p : OpReply) : bytes := le_encode 4 (response_flags p) ++ reply_tail p.
Definition reply_ok (p : OpReply) : Prop :=
  Z.land (response_flags p) ReplyFlags_all = response_flags p ∧
  in_i64 (cursor_id p) ∧ in_i32 (starting_from p) ∧
  number_returned p = len (reply_documents p) ∧ number_returned p <= i32_max ∧
  Forall doc_ok (reply_documents p).

Lemma as_i32_small z : in_i32 z → as_i32 z = z.
Proof. intros. apply to_signed_mod; unfold_ranges; lia. Qed.

Lemma take_documents_ok docs : Forall doc_ok docs → ∀ body r,
  cursor_of body (concat docs ++ r) →
  take_documents (length docs) body (concat docs ++ r) = Ok (docs, r).
Proof.
  induction 1 as [|d docs Hd _ IH]; intros body r Hc; cbn [take_documents length concat]; [done|].
  cbn [concat] in Hc. rewrite <- app_assoc in *.
  rewrite (rbind_eq _ _ _ _ _ (take_document_at_ok _ _ _ Hd Hc)).
  apply cursor_of_app in Hc. by rewrite (rbind_eq _ _ _ _ _ (IH _ _ Hc)).
Qed.
Lemma take_documents_Ok_inv n : ∀ body r docs r', cursor_of body r →
  take_documents n body r = Ok (docs, r') →
  r = concat docs ++ r' ∧ Forall doc_ok docs ∧ length docs = n.
Proof.
  induction n as [|n IH]; intros body r docs r' Hc H; cbn [take_documents] in H; inv_read; [done|].
  apply take_document_at_Ok_inv in Hr as [-> Hd]; [|done]. apply cursor_of_app in Hc.
  apply IH in Hr1 as (-> & Hds & <-); [|done]. cbn [concat]. rewrite <- app_assoc.
  split_and!; [done|by constructor|done].
Qed.
Lemma returns_take_documents n : ∀ body r, cursor_of body r → returns (take_documents n body r).
Proof.
  induction n as [|n IH]; intros body r Hc; cbn [take_documents]; [done|].
  unfold rbind at 1. apply returns_bind; [by apply returns_take_document_at|].
  intros [d r1] H. apply take_document_at_Ok_inv in H as [-> _]; [|done]. apply cursor_of_app in Hc.
  unfold rbind. apply returns_bind; [by apply IH|by intros [? ?] _].
Qed.
Lemma docs_len_ge docs : Forall doc_ok docs → 5 * len docs <= len (concat docs).
Proof.
  induction 1 as [|d docs Hd _ IH]; cbn [concat]; [done|]. pose proof (doc_ok_len d Hd). len_tac.
Qed.

Lemma reply_parse_raw raw p : in_i32 raw → response_flags p = Z.land raw ReplyFlags_all →
  reply_ok p → OpReply_parse_body (le_encode 4 raw ++ reply_tail p) = Ok p.
Proof.
  intros Hr Hf (_ & Hcid & Hst & Hn & Hni & Hd). destruct p as [fl cid st n docs]. cbn in *.
  unfold OpReply_parse_body, parse_reply_cursor, reply_tail. cbn.
  set (body := le_encode 4 raw ++ _). pose proof (len_nonneg docs).
  assert (in_i32 n) as Hin by (unfold_ranges; lia).
  assert (cursor_of body (concat docs ++ [])) as Hc.
  { exists (le_encode 4 raw ++ le_encode 8 cid ++ le_encode 4 st ++ le_encode 4 n).
    unfold body. rewrite app_nil_r. by rewrite <- !app_assoc. }
  pose proof (pread_parses _ _ _ _ (parses_read_i32 _ Hr) : pread read_i32_le body = _) as H1.
  rewrite (rbind_eq _ _ _ _ _ H1). clear H1.
  rewrite (rbind_eq _ _ _ _ _ (pread_parses _ _ _ _ (parses_read_i64 _ Hcid))).
  rewrite (rbind_eq _ _ _ _ _ (pread_parses _ _ _ _ (parses_read_i32 _ Hst))).
  rewrite (rbind_eq _ _ _ _ _ (pread_parses _ _ _ _ (parses_read_i32 _ Hin))). zif.
  rewrite (rbind_eq _ _ (concat docs) () (concat docs)).
  2: { pose proof (docs_len_ge docs Hd). unfold remaining, MIN_DOC_LEN.
       assert (n <= len (concat docs) / 5) by (apply Z.div_le_lower_bound; lia). by zif. }
  replace (Z.to_nat n) with (length docs) by (unfold len in *; lia).
  pose proof (take_documents_ok docs Hd body [] Hc) as Ht. rewrite app_nil_r in Ht.
  rewrite (rbind_eq _ _ _ _ _ Ht). unfold from_bits_truncate. by rewrite <- Hf.
Qed.

Lemma reply_parse_Ok_inv b p : OpReply_parse_body b = Ok p →
  reply_ok p ∧ ∃ raw, in_i32 raw ∧ response_flags p = Z.land raw ReplyFlags_all ∧
    b = le_encode 4 raw ++ reply_tail p.
Proof.
  unfold OpReply_parse_body. intros H. apply bind_Ok_inv in H as ([p' r] & H & Hq). injection Hq as <-.
  unfold parse_reply_cursor, pread in H. set (body := b) in H at 1.
  assert (cursor_of body b) as Hc by (by exists []). clearbody body. inv_read. inv_prim. zbool.
  destruct (remaining r3 / MIN_DOC_LEN <? a2); [done|]. injection Hr3 as _ <-.
  do 4 apply cursor_of_app in Hc.
  apply take_documents_Ok_inv in Hr4 as (-> & Hd & Hl); [|done].
  apply expect_end_Ok_inv in Hr5 as [-> ->]. rewrite app_nil_r.
  unfold reply_ok, reply_tail, from_bits_truncate.
  cbn [response_flags cursor_id starting_from number_returned reply_documents].
  split; [split_and!; try done; [apply land_idem|unfold len; lia|unfold_ranges; lia]|].
  exists a. by split_and!.
Qed.

Lemma returns_reply_parse b : returns (OpReply_parse_body b).
Proof.
  unfold OpReply_parse_body. apply returns_bind; [|by intros [? ?] _].
  unfold parse_reply_cursor, pread. set (body := b) at 1.
  assert (cursor_of body b) as Hc by (by exists []). clearbody body. revert Hc. generalize b.
  intros r Hc. unfold rbind at 1. apply returns_bind; [returns_tac|].
  intros [raw r1] H1. inv_read. inv_prim. apply cursor_of_app in Hc.
  unfold rbind at 1. apply returns_bind; [returns_tac|].
  intros [cid r2] H2. inv_read. inv_prim. apply cursor_of_app in Hc.
  unfold rbind at 1. apply returns_bind; [returns_tac|].
  intros [st r3] H3. inv_read. inv_prim. apply cursor_of_app in Hc.
  unfold rbind at 1. apply returns_bind; [returns_tac|].
  intros [n r4] H4. inv_read. inv_prim. apply cursor_of_app in Hc.
  case_match; [done|]. unfold rbind at 1. case_match; [done|]. cbn [bind].
  unfold rbind at 1. apply returns_bind; [by apply returns_take_documents|].
  intros [docs r5] _. unfold rbind, expect_end. by destruct r5.
Qed.

Lemma reply_encode_wire p out : reply_ok p → OpReply_encode_body p out = Ok (out ++ reply_wire p).
Proof.
  intros (_ & _ & _ & Hn & Hi & _). unfold OpReply_encode_body. pose proof (len_nonneg (reply_documents p)).
  rewrite as_i32_small by (unfold_ranges; lia). rewrite Hn, Z.eqb_refl. cbn [debug_assert bind].
  rewrite foldl_put_bytes. unfold reply_wire, reply_tail, put_i32_le, put_i64_le, put_bytes.
  rewrite Hn. by rewrite <- !app_assoc.
Qed.
Lemma reply_body_len_wire p : reply_ok p → OpReply_body_len p = len (reply_wire p).
Proof.
  intros _. unfold OpReply_body_len, reply_wire, reply_tail. rewrite docs_len_concat. len_tac.
Qed.
Lemma reply_parse_wire p : reply_ok p → OpReply_parse_body (reply_wire p) = Ok p.
Proof.
  intros Hok. pose proof (proj1 Hok) as Hf. apply reply_parse_raw; [|done..].
  rewrite <- Hf. by apply mask_in_i32.
Qed.

#[export] Instance OpReply_Message : Message OpReply := {
  OPCODE := Opcode_Reply;
  body_len := OpReply_body_len;
  encode_body := OpReply_encode_body;
  parse_body := OpReply_parse_body;
}.
#[export] Program Instance OpReply_Laws : MessageLaws OpReply := {
  msg_ok := reply_ok;
  msg_wire := reply_wire;
  encode_body_wire := reply_encode_wire;
  body_len_wire := reply_body_len_wire;
  parse_body_wire := reply_parse_wire;
  returns_parse_body := returns_reply_parse;
}.
Next Obligation.
  intros b m (Hok & raw & _ & _ & ->)%reply_parse_Ok_inv. split; [done|].
  unfold reply_wire. by rewrite !(len_app (le_encode 4 _)), !len_le_encode.
Qed.

(** ** Properties *)

(** C38. OP_QUERY and OP_REPLY parse byte-exactly: an accepted body is a flag
    word and a tail, the parsed message re-encodes to the same tail behind the
    flag word restricted to the known flags, and for OP_REPLY
    [numberReturned] is the number of documents. *)
Theorem legacy_parse_exact b q p out :
  (OpQuery_parse_body b = Ok q →
   ∃ raw tail, b = le_encode 4 raw ++ tail ∧
     OpQuery_encode_body q out = Ok (out ++ le_encode 4 (Z.land raw QueryFlags_all) ++ tail) ∧
     OpQuery_body_len q = len b) ∧
  (OpReply_parse_body b = Ok p →
   number_returned p = len (reply_documents p) ∧
   ∃ raw tail, b = le_encode 4 raw ++ tail ∧
     OpReply_encode_body p out = Ok (out ++ le_encode 4 (Z.land raw ReplyFlags_all) ++ tail) ∧
     OpReply_body_len p = len b).
Proof.
  split.
  - intros (Hok & raw & _ & Hf & ->)%query_parse_Ok_inv. exists raw, (query_tail q). split; [done|].
    rewrite query_encode_wire, query_body_len_wire by done. unfold query_wire. rewrite Hf.
    by rewrite !(len_app (le_encode 4 _)), !len_le_encode.
  - intros (Hok & raw & _ & Hf & ->)%reply_parse_Ok_inv. split; [apply Hok|].
    exists raw, (reply_tail p). split; [done|].
    rewrite reply_encode_wire, reply_body_len_wire by done. unfold reply_wire. rewrite Hf.
    by rewrite !(len_app (le_encode 4 _)), !len_le_encode.
Qed.

Lemma legacy_parse_exact_witness :
  let b := reply_wire (mkOpReply 8 0 0 1 [doc_frame []]) in
  OpReply_parse_body b = Ok (mkOpReply 8 0 0 1 [doc_frame []]) ∧
  OpReply_body_len (mkOpReply 8 0 0 1 [doc_frame []]) = len b.
Proof.
  intros b. assert (OpReply_parse_body b = Ok (mkOpReply 8 0 0 1 [doc_frame []])) as E
    by (vm_compute; reflexivity).
  split; [exact E|].
  destruct (proj2 (legacy_parse_exact b (OpQuery_handshake []) _ []) E) as (_ & raw & tail & _ & _ & Hl).
  exact Hl.
Defined.
