(* ===== verification/OpCompressed.v ===== *)
(** * Compression, OP_COMPRESSED and the body dispatch:
    [mongowire/src/compression/], [mongowire/src/messages/op_compressed.rs]
    and [MessageBody] of [mongowire/src/messages/mod.rs]

    The compression libraries are parameters: a [Codec] is one of them, and a
    [Build] says which features are compiled in. *)
From stdpp Require Import base list numbers strings.
From Stdlib Require Import ZArith Lia.
From S2P Require Import Prelude Utf8 Io Consts BsonScalar BsonValue BsonEncode BsonDecode.
From S2P Require Import Header Message OpMsg OpLegacy.
Local Open Scope Z_scope.

(** ** Compressor ids *)

Inductive CompressorId :=
| CompressorId_Noop
| CompressorId_Snappy
| CompressorId_Zlib
| CompressorId_Zstd.
#[export] Instance CompressorId_eq_dec : EqDecision CompressorId.
Proof. solve_decision. Defined.

Definition CompressorId_to_u8 (c : CompressorId) : Z :=
  match c with
  | CompressorId_Noop => NOOP
  | CompressorId_Snappy => SNAPPY
  | CompressorId_Zlib => ZLIB
  | CompressorId_Zstd => ZSTD
  end.
Definition CompressorId_from_u8 (v : Z) : option CompressorId :=
  if v =? NOOP then Some CompressorId_Noop
  else if v =? SNAPPY then Some CompressorId_Snappy
  else if v =? ZLIB then Some CompressorId_Zlib
  else if v =? ZSTD then Some CompressorId_Zstd
  else None.
Definition CompressorId_name (c : CompressorId) : str :=
  match c with
  | CompressorId_Noop => lit "noop"
  | CompressorId_Snappy => lit "snappy"
  | CompressorId_Zlib => lit "zlib"
  | CompressorId_Zstd => lit "zstd"
  end.
Definition CompressorId_from_name (name : str) : option CompressorId :=
  if str_eqb name (lit "noop") then Some CompressorId_Noop
  else if str_eqb name (lit "snappy") then Some CompressorId_Snappy
  else if str_eqb name (lit "zlib") then Some CompressorId_Zlib
  else if str_eqb name (lit "zstd") then Some CompressorId_Zstd
  else None.

(** ** Codecs *)

(** The two functions of a compressor module, [compress(data)] and
    [decompress(data, expected_len)]; [inl] is the text of a library error. *)
Record Codec := mkCodec {
  codec_compress : bytes → string + bytes;
  codec_decompress : bytes → Z → string + bytes;
}.
(** The compiled-in features. *)
Record Build := mkBuild {
  feature_snappy : option Codec; feature_zlib : option Codec; feature_zstd : option Codec
}.

Section Compression.
Context (build : Build).

Definition codec_of (c : CompressorId) : option Codec :=
  match c with
  | CompressorId_Noop => None
  | CompressorId_Snappy => feature_snappy build
  | CompressorId_Zlib => feature_zlib build
  | CompressorId_Zstd => feature_zstd build
  end.
Definition CompressorId_is_enabled (c : CompressorId) : bool :=
  match c with CompressorId_Noop => true | _ => is_some (codec_of c) end.

(** [.map_err(|e| ProtocolError::Compression(e.to_string()))]. *)
Definition codec_result (r : string + bytes) : outcome ProtocolError bytes :=
  match r with inr b => Ok b | inl e => Err (ProtocolError_Compression e) end.

(** [noop::compress]. *)
Definition noop_compress (data : bytes) : bytes := data.

Definition compress (id : CompressorId) (data : bytes) : outcome ProtocolError bytes :=
  match id with
  | CompressorId_Noop => Ok (noop_compress data)
  | id =>
      match codec_of id with
      | Some c => codec_result (codec_compress c data)
      | None => Err (ProtocolError_UnsupportedCompressor (CompressorId_to_u8 id))
      end
  end.

Definition decompress (id : CompressorId) (data : bytes) (expected_len : Z)
  : outcome ProtocolError bytes :=
  let* out :=
    match id with
    | CompressorId_Noop => Ok (noop_compress data)
    | id =>
        match codec_of id with
        | Some c => codec_result (codec_decompress c data expected_len)
        | None => Err (ProtocolError_UnsupportedCompressor (CompressorId_to_u8 id))
        end
    end in
  if negb (len out =? expected_len)
  then Err (ProtocolError_DecompressedSizeMismatch expected_len (len out))
  else Ok out.
End Compression.

(** ** OP_COMPRESSED *)

Record OpCompressed := mkOpCompressed {
  original_opcode : Opcode;
  uncompressed_size : Z;
  compressor_id : CompressorId;
  compressed_message : bytes;
}.

Definition OpCompressed_wrap (build : Build) (opcode : Opcode) (body : bytes) (id : CompressorId)
  : outcome ProtocolError OpCompressed :=
  let* size := ok_or (i32_try_from (len body))
                 (ProtocolError_Compression "body larger than i32::MAX") in
  let* c := compress build id body in
  Ok (mkOpCompressed opcode size id c).

Definition OpCompressed_body_len (c : OpCompressed) : Z := 4 + 4 + 1 + len (compressed_message c).
Definition OpCompressed_encode_body (c : OpCompressed) (out : bytes) : outcome ProtocolError bytes :=
  let out := put_i32_le out (Opcode_to_i32 (original_opcode c)) in
  let out := put_i32_le out (uncompressed_size c) in
  let out := put_u8 out (CompressorId_to_u8 (compressor_id c)) in
  Ok (put_bytes out (compressed_message c)).

Definition OpCompressed_parse_body (body : bytes) : outcome ProtocolError OpCompressed :=
  let* '(raw_opcode, r) := pread read_i32_le body in
  let* op := ok_or (Opcode_from_i32 raw_opcode) (ProtocolError_UnsupportedOpcode raw_opcode) in
  let* '(size, r) := pread read_i32_le r in
  if size <? 0 then Err (ProtocolError_InvalidOpMsg "negative uncompressedSize")
  else
    let* '(raw_id, r) := pread read_u8 r in
    let* id := ok_or (CompressorId_from_u8 (u8 raw_id))
                 (ProtocolError_UnsupportedCompressor (u8 raw_id)) in
    let* start := usub (len body) (remaining r) in
    let* payload := slice body start (len body) in
    Ok (mkOpCompressed op size id payload).

(** ** [MessageBody] *)

Inductive MessageBody :=
| MessageBody_Msg (m : OpMsg)
| MessageBody_Query (q : OpQuery)
| MessageBody_Reply (p : OpReply)
| MessageBody_Compressed (c : OpCompressed).

Definition MessageBody_opcode (b : MessageBody) : Opcode :=
  match b with
  | MessageBody_Msg _ => Opcode_Msg
  | MessageBody_Query _ => Opcode_Query
  | MessageBody_Reply _ => Opcode_Reply
  | MessageBody_Compressed _ => Opcode_Compressed
  end.

(** *** The laws of OP_COMPRESSED *)

Definition compressed_wire (c : OpCompressed) : bytes :=
  le_encode 4 (Opcode_to_i32 (original_opcode c)) ++ le_encode 4 (uncompressed_size c) ++
  [of_u8 (CompressorId_to_u8 (compressor_id c))] ++ compressed_message c.
Definition compressed_ok (c : OpCompressed) : Prop := 0 <= uncompressed_size c <= i32_max.

Lemma CompressorId_from_to c :
  CompressorId_from_u8 (u8 (of_u8 (CompressorId_to_u8 c))) = Some c.
Proof. by destruct c. Qed.
Lemma CompressorId_to_from v c : CompressorId_from_u8 (u8 v) = Some c →
  of_u8 (CompressorId_to_u8 c) = v.
Proof.
  unfold CompressorId_from_u8. intros H. rewrite <- (of_u8_u8 v). f_equal.
  repeat case_match; zbool; by inv_ok.
Qed.
Lemma CompressorId_names c : CompressorId_from_name (CompressorId_name c) = Some c.
Proof. by destruct c. Qed.

Lemma compressed_encode_wire c out : compressed_ok c →
  OpCompressed_encode_body c out = Ok (out ++ compressed_wire c).
Proof.
  intros _. unfold OpCompressed_encode_body, compressed_wire, put_i32_le, put_bytes, put_u8.
  by rewrite <- !app_assoc.
Qed.
Lemma compressed_body_len_wire c : compressed_ok c →
  OpCompressed_body_len c = len (compressed_wire c).
Proof. intros _. unfold OpCompressed_body_len, compressed_wire. len_tac. Qed.
Lemma compressed_parse_wire c : compressed_ok c →
  OpCompressed_parse_body (compressed_wire c) = Ok c.
Proof.
  intros Hok. unfold compressed_ok in Hok. destruct c as [op size id msg]. cbn in Hok.
  unfold OpCompressed_parse_body, compressed_wire.
  cbn [original_opcode uncompressed_size compressor_id compressed_message].
  set (body := le_encode 4 (Opcode_to_i32 op) ++ _).
  assert (in_i32 size) as Hs by (unfold_ranges; lia).
  pose proof (pread_parses _ _ _ _ (parses_read_i32 _ (Opcode_to_i32_range op)) : pread read_i32_le body = _) as ->.
  cbn [bind]. rewrite Opcode_from_to. cbn [ok_or bind].
  rewrite (pread_parses _ _ _ _ (parses_read_i32 _ Hs)). cbn [bind]. zif.
  rewrite (pread_parses _ _ _ _ (parses_read_u8 _)). cbn [bind]. rewrite CompressorId_from_to.
  cbn [ok_or bind]. unfold body, remaining.
  rewrite (app_assoc (le_encode 4 size)), (app_assoc (le_encode 4 (Opcode_to_i32 op))).
  rewrite usub_app_r. cbn [bind]. rewrite slice_suffix by len_tac. done.
Qed.
Lemma compressed_parse_Ok_inv b c : OpCompressed_parse_body b = Ok c →
  compressed_ok c ∧ b = compressed_wire c.
Proof.
  unfold OpCompressed_parse_body, pread. intros H.
  apply bind_Ok_inv in H as ([raw r] & H1 & H). apply bind_Ok_inv in H as (op & Hop & H).
  apply bind_Ok_inv in H as ([size r2] & H2 & H). destruct (size <? 0) eqn:E; [done|]. zbool.
  apply bind_Ok_inv in H as ([rid r3] & H3 & H). apply bind_Ok_inv in H as (id & Hid & H).
  apply ok_or_Ok_inv in Hop, Hid. inv_read. inv_prim.
  apply Opcode_to_from in Hop as <-. apply CompressorId_to_from in Hid as <-.
  unfold remaining in H. rewrite (cons_middle _ (le_encode 4 size)), !(app_assoc _ _ r3) in H.
  rewrite usub_app_r in H. cbn [bind] in H. rewrite slice_suffix in H by len_tac.
  injection H as <-. unfold compressed_ok, compressed_wire. cbn. split; [unfold_ranges; lia|done].
Qed.
Lemma returns_compressed_parse b : returns (OpCompressed_parse_body b).
Proof.
  unfold OpCompressed_parse_body, pread.
  apply returns_bind; [returns_tac|]. intros [raw r] H1. apply returns_bind; [apply returns_ok_or|].
  intros op _. apply returns_bind; [returns_tac|]. intros [size r2] H2. case_match; [done|].
  apply returns_bind; [returns_tac|]. intros [rid r3] H3. apply returns_bind; [apply returns_ok_or|].
  intros id _. inv_read. inv_prim. unfold remaining. rewrite usub_Ok by len_tac. cbn [bind].
  apply returns_bind; [apply returns_slice; len_tac|done].
Qed.

#[export] Instance OpCompressed_Message : Message OpCompressed := {
  OPCODE := Opcode_Compressed;
  body_len := OpCompressed_body_len;
  encode_body := OpCompressed_encode_body;
  parse_body := OpCompressed_parse_body;
}.
#[export] Program Instance OpCompressed_Laws : MessageLaws OpCompressed := {
  msg_ok := compressed_ok;
  msg_wire := compressed_wire;
  encode_body_wire := compressed_encode_wire;
  body_len_wire := compressed_body_len_wire;
  parse_body_wire := compressed_parse_wire;
  returns_parse_body := returns_compressed_parse;
}.
Next Obligation. by intros b m [Hok ->]%compressed_parse_Ok_inv. Qed.

(** *** Dispatch *)

Definition MessageBody_body_len (b : MessageBody) : Z :=
  match b with
  | MessageBody_Msg m => body_len m
  | MessageBody_Query q => body_len q
  | MessageBody_Reply p => body_len p
  | MessageBody_Compressed c => body_len c
  end.
Definition MessageBody_encode_body (b : MessageBody) (out : bytes) : outcome ProtocolError bytes :=
  match b with
  | MessageBody_Msg m => encode_body m out
  | MessageBody_Query q => encode_body q out
  | MessageBody_Reply p => encode_body p out
  | MessageBody_Compressed c => encode_body c out
  end.
Definition MessageBody_parse_body (opcode : Opcode) (body : bytes)
  : outcome ProtocolError MessageBody :=
  match opcode with
  | Opcode_Msg => let* m := parse_body body in Ok (MessageBody_Msg m)
  | Opcode_Query => let* q := parse_body body in Ok (MessageBody_Query q)
  | Opcode_Reply => let* p := parse_body body in Ok (MessageBody_Reply p)
  | Opcode_Compressed => let* c := parse_body body in Ok (MessageBody_Compressed c)
  | Opcode_Update | Opcode_Insert | Opcode_Reserved | Opcode_GetMore | Opcode_Delete
  | Opcode_KillCursors => Err (ProtocolError_UnsupportedOpcode (Opcode_to_i32 opcode))
  end.

(** [OpCompressed::unwrap_body]. *)
Definition OpCompressed_unwrap_body (build : Build) (c : OpCompressed) (max_msg_len : Z)
  : outcome ProtocolError MessageBody :=
  if uncompressed_size c <? 0 then Err (ProtocolError_InvalidOpMsg "negative uncompressedSize")
  else if bool_decide (original_opcode c = Opcode_Compressed)
  then Err (ProtocolError_InvalidOpMsg "nested OP_COMPRESSED")
  else if max_msg_len <? uncompressed_size c
  then Err (ProtocolError_MessageTooLarge (uncompressed_size c) max_msg_len)
  else
    let* decompressed :=
      decompress build (compressor_id c) (compressed_message c) (uncompressed_size c) in
    MessageBody_parse_body (original_opcode c) decompressed.

(** ** The laws of [MessageBody], from those of its members *)

Definition body_ok (b : MessageBody) : Prop :=
  match b with
  | MessageBody_Msg m => msg_ok m
  | MessageBody_Query q => msg_ok q
  | MessageBody_Reply p => msg_ok p
  | MessageBody_Compressed c => msg_ok c
  end.
Definition body_wire (b : MessageBody) : bytes :=
  match b with
  | MessageBody_Msg m => msg_wire m
  | MessageBody_Query q => msg_wire q
  | MessageBody_Reply p => msg_wire p
  | MessageBody_Compressed c => msg_wire c
  end.

Lemma body_encode_wire b out : body_ok b → MessageBody_encode_body b out = Ok (out ++ body_wire b).
Proof. destruct b; apply encode_body_wire. Qed.
Lemma body_len_body_wire b : body_ok b → MessageBody_body_len b = len (body_wire b).
Proof. destruct b; apply body_len_wire. Qed.
Lemma body_parse_wire b : body_ok b →
  MessageBody_parse_body (MessageBody_opcode b) (body_wire b) = Ok b.
Proof.
  destruct b; intros H; unfold MessageBody_parse_body; cbn [MessageBody_opcode body_wire];
    by rewrite (parse_body_wire _ H).
Qed.
Lemma body_parse_Ok_inv op w b : MessageBody_parse_body op w = Ok b →
  MessageBody_opcode b = op ∧ body_ok b ∧ len (body_wire b) = len w.
Proof.
  destruct op; cbn [MessageBody_parse_body]; intros H; try done;
    apply bind_Ok_inv in H as (m & Hm & H); injection H as <-;
    (split; [done|]); by apply parse_body_ok.
Qed.
Lemma returns_body_parse op w : returns (MessageBody_parse_body op w).
Proof.
  destruct op; cbn [MessageBody_parse_body]; try done;
    (apply returns_bind; [apply returns_parse_body|done]).
Qed.

Lemma returns_decompress build id data n : returns (decompress build id data n).
Proof.
  unfold decompress, codec_result. apply returns_bind; [|intros out _; by case_match].
  destruct id; [done|..]; (destruct (codec_of _ _) as [c|]; [|done]);
    by destruct (codec_decompress c data n).
Qed.

Lemma returns_unwrap_body build c max : returns (OpCompressed_unwrap_body build c max).
Proof.
  unfold OpCompressed_unwrap_body. repeat case_match; try done.
  apply returns_bind; [apply returns_decompress|]. intros; apply returns_body_parse.
Qed.
#[export] Hint Resolve returns_unwrap_body : wire.

(** What a compressor module promises: decompressing what it compressed, with the
    original's length expected, returns the original. *)
Definition codec_lossless (c : Codec) : Prop :=
  ∀ data z, codec_compress c data = inr z → codec_decompress c z (len data) = inr data.

Lemma compress_decompress build id data z :
  (∀ c, codec_of build id = Some c → codec_lossless c) →
  compress build id data = Ok z → decompress build id z (len data) = Ok data.
Proof.
  intros Hc H. unfold decompress.
  assert (∀ c, codec_of build id = Some c → codec_result (codec_compress c data) = Ok z →
    codec_result (codec_decompress c z (len data)) = Ok data) as Hd.
  { intros c Ec. unfold codec_result. destruct (codec_compress c data) eqn:E; [done|].
    intros [= ->]. by rewrite (Hc c Ec data z). }
  destruct id; cbn [compress] in H.
  - injection H as <-. cbn [bind]. by rewrite Z.eqb_refl.
  - destruct (codec_of _ _) as [c|] eqn:E; [|done]. rewrite (Hd c) by done. cbn [bind]. by rewrite Z.eqb_refl.
  - destruct (codec_of _ _) as [c|] eqn:E; [|done]. rewrite (Hd c) by done. cbn [bind]. by rewrite Z.eqb_refl.
  - destruct (codec_of _ _) as [c|] eqn:E; [|done]. rewrite (Hd c) by done. cbn [bind]. by rewrite Z.eqb_refl.
Qed.

(** ** Properties *)

(** Wrapping, then parsing or unwrapping. *)
Lemma wrap_parse_unwrap build id b c max :
  (∀ codec, codec_of build id = Some codec → codec_lossless codec) →
  body_ok b → MessageBody_opcode b ≠ Opcode_Compressed → len (body_wire b) <= max →
  OpCompressed_wrap build (MessageBody_opcode b) (body_wire b) id = Ok c →
  OpCompressed_parse_body (compressed_wire c) = Ok c ∧
  OpCompressed_unwrap_body build c max = Ok b.
Proof.
  intros Hl Hb Hop Hm H. unfold OpCompressed_wrap in H.
  apply bind_Ok_inv in H as (size & Hs & H). apply ok_or_Ok_inv, i32_try_from_Some in Hs as [Hi ->].
  apply bind_Ok_inv in H as (z & Hz & H). injection H as <-.
  pose proof (len_nonneg (body_wire b)). split.
  { apply compressed_parse_wire. unfold compressed_ok. cbn. unfold_ranges. lia. }
  unfold OpCompressed_unwrap_body. cbn [uncompressed_size original_opcode compressor_id compressed_message].
  zif. rewrite bool_decide_eq_false_2 by done. zif.
  rewrite (compress_decompress build id (body_wire b) z Hl Hz). cbn [bind]. by apply body_parse_wire.
Qed.
Lemma wrap_unwrap build id b c max :
  (∀ codec, codec_of build id = Some codec → codec_lossless codec) →
  body_ok b → MessageBody_opcode b ≠ Opcode_Compressed → len (body_wire b) <= max →
  OpCompressed_wrap build (MessageBody_opcode b) (body_wire b) id = Ok c →
  OpCompressed_unwrap_body build c max = Ok b.
Proof. intros. by eapply wrap_parse_unwrap. Qed.

Definition identity_codec : Codec :=
  mkCodec (λ d, inr d) (λ d n, if len d <=? n then inr d else inl "output too large"%string).
Lemma identity_lossless : codec_lossless identity_codec.
Proof. intros d z [= <-]. simpl. by zif. Qed.

(** C24. Unwrapping is bounded and single-level: it always returns; when it
    succeeds the declared size is non-negative and within the limit, the
    wrapped opcode and the result are not OP_COMPRESSED, the result is
    well-formed and its encoding has exactly the declared size.  Nested,
    negative or oversized wrappers are rejected whatever the payload. *)
Theorem unwrap_guarded build c max :
  returns (OpCompressed_unwrap_body build c max) ∧
  (∀ b, OpCompressed_unwrap_body build c max = Ok b →
     0 <= uncompressed_size c <= max ∧ MessageBody_opcode b = original_opcode c ∧
     original_opcode c ≠ Opcode_Compressed ∧ body_ok b ∧
     len (body_wire b) = uncompressed_size c) ∧
  (uncompressed_size c < 0 ∨ max < uncompressed_size c ∨ original_opcode c = Opcode_Compressed →
     ∃ e, OpCompressed_unwrap_body build c max = Err e).
Proof.
  split; [apply returns_unwrap_body|]. unfold OpCompressed_unwrap_body. split.
  - intros b H. destruct (_ <? 0) eqn:E1; [done|]. case_bool_decide; [done|].
    destruct (max <? _) eqn:E2; [done|]. zbool. apply bind_Ok_inv in H as (d & Hd & H).
    apply body_parse_Ok_inv in H as (Ho & Hok & Hl). split_and!; [lia..|done|done|done|].
    unfold decompress in Hd. apply bind_Ok_inv in Hd as (o & _ & Hd). inv_ok. zbool. lia.
  - intros H. repeat case_match; try (by eexists). zbool. case_bool_decide; [done|]. naive_solver lia.
Qed.

Lemma unwrap_guarded_witness :
  let c := mkOpCompressed Opcode_Query (len (body_wire (MessageBody_Query (OpQuery_handshake (doc_frame [])))))
             CompressorId_Noop (body_wire (MessageBody_Query (OpQuery_handshake (doc_frame [])))) in
  OpCompressed_unwrap_body (mkBuild None None None) c MAX_MSG_LEN =
    Ok (MessageBody_Query (OpQuery_handshake (doc_frame []))) ∧
  0 <= uncompressed_size c <= MAX_MSG_LEN.
Proof.
  intros c.
  assert (OpCompressed_unwrap_body (mkBuild None None None) c MAX_MSG_LEN =
    Ok (MessageBody_Query (OpQuery_handshake (doc_frame [])))) as E by (vm_compute; reflexivity).
  split; [exact E|].
  exact (proj1 (proj1 (proj2 (unwrap_guarded (mkBuild None None None) c MAX_MSG_LEN)) _ E)).
Defined.
