(* ===== verification/Compressors.v ===== *)
(** * The compressor modules: [mongowire/src/compression/snappy.rs],
    [zlib.rs] and [zstd.rs]

    The crates [snap], [flate2] and [zstd] are parameters.  A streaming decoder
    is what it produces from its input: bytes, then the end of the stream or an
    error.  [Take] and [read_to_end] are the standard library's. *)
From stdpp Require Import base list numbers strings.
From Stdlib Require Import ZArith Lia.
From S2P Require Import Prelude Utf8 Io Consts BsonScalar BsonValue BsonEncode BsonDecode.
From S2P Require Import BsonRoundtrip Header Message OpMsg OpLegacy OpCompressed.
Local Open Scope Z_scope.

Record Crates := mkCrates {
  (** [FrameEncoder::write_all] and what is in the vector once it is dropped. *)
  snap_frame_encode : bytes → string + bytes;
  snap_frame_decode : bytes → bytes * option string;
  (** [ZlibEncoder] at the default level: [write_all], then [finish]. *)
  ZlibEncoder : Type;
  zlib_write_all : bytes → string + ZlibEncoder;
  zlib_finish : ZlibEncoder → string + bytes;
  zlib_decode : bytes → bytes * option string;
  (** [bulk::compress(data, level)] and [bulk::decompress(data, capacity)]. *)
  zstd_bulk_compress : bytes → Z → string + bytes;
  zstd_bulk_decompress : bytes → Z → string + bytes
}.

(** [reader.take(limit).read_to_end(&mut out)] on an empty [out]: an error
    counts only if it comes before the limit. *)
Definition take_read_to_end (limit : Z) (decoder : bytes * option string) : string + bytes :=
  let '(produced, failure) := decoder in
  if limit <=? len produced then inr (takeZ limit produced)
  else match failure with Some e => inl e | None => inr produced end.

Section Modules.
Context (K : Crates).

Definition snappy_compress (data : bytes) : string + bytes := snap_frame_encode K data.
Definition snappy_decompress (data : bytes) (expected_len : Z) : string + bytes :=
  take_read_to_end (expected_len + 1) (snap_frame_decode K data).
Definition zlib_compress (data : bytes) : string + bytes :=
  match zlib_write_all K data with inl e => inl e | inr enc => zlib_finish K enc end.
Definition zlib_decompress (data : bytes) (expected_len : Z) : string + bytes :=
  take_read_to_end (expected_len + 1) (zlib_decode K data).
Definition zstd_compress (data : bytes) : string + bytes := zstd_bulk_compress K data 3.
Definition zstd_decompress (data : bytes) (expected_len : Z) : string + bytes :=
  zstd_bulk_decompress K data (expected_len + 1).

Definition snappy_codec : Codec := mkCodec snappy_compress snappy_decompress.
Definition zlib_codec : Codec := mkCodec zlib_compress zlib_decompress.
Definition zstd_codec : Codec := mkCodec zstd_compress zstd_decompress.
(** A build with every feature. *)
Definition full_build : Build := mkBuild (Some snappy_codec) (Some zlib_codec) (Some zstd_codec).
End Modules.

(** What the crates document: a stream decoder reproduces what the encoder was
    given and ends; bulk decompression depends on the capacity only in that it
    succeeds when the capacity suffices and never exceeds it. *)
Class CrateLaws (K : Crates) : Prop := {
  snap_lossless d z : snap_frame_encode K d = inr z → snap_frame_decode K z = (d, None);
  zlib_lossless d enc z : zlib_write_all K d = inr enc → zlib_finish K enc = inr z →
    zlib_decode K z = (d, None);
  zstd_lossless d l z n : zstd_bulk_compress K d l = inr z → len d <= n →
    zstd_bulk_decompress K z n = inr d;
  zstd_capacity z n d : zstd_bulk_decompress K z n = inr d → len d <= n;
  zstd_content z n d n' : zstd_bulk_decompress K z n = inr d → len d <= n' →
    zstd_bulk_decompress K z n' = inr d
}.

(** Everything the compressed data holds, when it can be decompressed to its end,
    without any limit. *)
Definition holds (K : Crates) (id : CompressorId) (data d : bytes) : Prop :=
  match id with
  | CompressorId_Noop => d = data
  | CompressorId_Snappy => snap_frame_decode K data = (d, None)
  | CompressorId_Zlib => zlib_decode K data = (d, None)
  | CompressorId_Zstd => ∃ capacity, zstd_bulk_decompress K data capacity = inr d
  end.

Section Laws.
Context (K : Crates) `{!CrateLaws K}.

Lemma take_read_whole d : take_read_to_end (len d + 1) (d, None) = inr d.
Proof. simpl. by zif. Qed.
Lemma take_read_bounded n r d : 0 <= n → take_read_to_end n r = inr d → len d <= n.
Proof.
  intros Hn. destruct r as [p f]. simpl. case_match; zbool.
  - intros [= <-]. rewrite len_takeZ by lia. done.
  - destruct f; [done|]. intros [= <-]. lia.
Qed.

(** A limit one byte past the expected length tells a stream of that length from
    a longer one. *)
Lemma take_read_exact decoder n d :
  take_read_to_end (n + 1) decoder = inr d ∧ len d = n ↔ decoder = (d, None) ∧ len d = n.
Proof.
  destruct decoder as [p f]. simpl. split.
  - intros [H Hl]. case_match; zbool.
    + injection H as <-. pose proof (len_nonneg (takeZ (n + 1) p)).
      rewrite len_takeZ in Hl; lia.
    + destruct f; [done|]. by injection H as <-.
  - intros [[= -> ->] Hl]. rewrite Hl. by zif.
Qed.
Lemma full_build_exact id data n d :
  decompress (full_build K) id data n = Ok d ↔ holds K id data d ∧ len d = n.
Proof.
  assert (∀ m : string + bytes,
    (let* out := codec_result m in
     if negb (len out =? n) then Err (ProtocolError_DecompressedSizeMismatch n (len out)) else Ok out) = Ok d
    ↔ m = inr d ∧ len d = n) as Hm.
  { intros [e|x]; cbn [codec_result bind]; [naive_solver|]. destruct (Z.eqb_spec (len x) n); cbn [negb].
    - split; [by intros [= <-]|by intros [[= <-] _]].
    - split; [done|]. by intros [[= <-] ?]. }
  unfold decompress. destruct id; cbn [codec_of full_build feature_snappy feature_zlib feature_zstd holds].
  - cbn [bind]. unfold noop_compress. destruct (Z.eqb_spec (len data) n); cbn [negb]; naive_solver.
  - etransitivity; [apply Hm|]. apply take_read_exact.
  - etransitivity; [apply Hm|]. apply take_read_exact.
  - etransitivity; [apply Hm|]. cbn. unfold zstd_decompress. split.
    + intros [H Hl]. split; [|done]. by exists (n + 1).
    + intros [[cap H] Hl]. split; [|done]. eapply zstd_content; [exact H|lia].
Qed.

Lemma full_build_lossless id c : codec_of (full_build K) id = Some c → codec_lossless c.
Proof.
  destruct id; [done|..]; intros [= <-] d z Hz; cbn [codec_compress codec_decompress snappy_codec
    zlib_codec zstd_codec] in *.
  - unfold snappy_decompress. rewrite (snap_lossless d z Hz). apply take_read_whole.
  - unfold zlib_decompress, zlib_compress in *. destruct (zlib_write_all K d) as [e|enc] eqn:E; [done|].
    rewrite (zlib_lossless d enc z E Hz). apply take_read_whole.
  - unfold zstd_decompress. eapply zstd_lossless; [exact Hz|lia].
Qed.
Lemma full_build_bounded id c data n d : codec_of (full_build K) id = Some c → 0 <= n →
  codec_decompress c data n = inr d → len d <= n + 1.
Proof.
  destruct id; [done|..]; intros [= <-] Hn Hd; cbn in Hd.
  - eapply take_read_bounded; [|exact Hd]. lia.
  - eapply take_read_bounded; [|exact Hd]. lia.
  - by eapply zstd_capacity.
Qed.
End Laws.

(** C23. The compressor modules.  Over crates that behave as documented, a
    wrapped body of any compressor unwraps to itself.  On any input, hostile or
    not, decompression returns; it succeeds exactly when everything the
    compressed data holds, up to the end of its stream, has the expected length,
    and then yields all of it, so that a stream that expands to more than it
    declares is refused and never cut short; and no module expands more than one
    byte past the expected length. *)
Theorem compressor_modules K (L : CrateLaws K) id :
  (∀ b c max, body_ok b → MessageBody_opcode b ≠ Opcode_Compressed → len (body_wire b) <= max →
     OpCompressed_wrap (full_build K) (MessageBody_opcode b) (body_wire b) id = Ok c →
     OpCompressed_unwrap_body (full_build K) c max = Ok b)
  ∧ (∀ data n, returns (decompress (full_build K) id data n))
  ∧ (∀ data n d, decompress (full_build K) id data n = Ok d ↔ holds K id data d ∧ len d = n)
  ∧ (∀ codec data n d, codec_of (full_build K) id = Some codec → 0 <= n →
       codec_decompress codec data n = inr d → len d <= n + 1).
Proof.
  split_and!.
  - intros b c max Hb Ho Hm Hw. eapply wrap_unwrap; [|exact Hb|exact Ho|exact Hm|exact Hw].
    intros codec. by apply full_build_lossless.
  - intros data n. apply returns_decompress.
  - intros data n d. by apply full_build_exact.
  - intros codec data n d. by apply full_build_bounded.
Qed.

(** Crates that store the data behind a marker byte. *)
Definition store_encode (d : bytes) : bytes := x01 :: d.
Definition store_decode (z : bytes) : bytes * option string :=
  match z with x01 :: d => (d, None) | _ => ([], Some "corrupt input"%string) end.
Definition store_crates : Crates :=
  mkCrates (λ d, inr (store_encode d)) store_decode bytes (λ d, inr d) (λ d, inr (store_encode d))
    store_decode (λ d _, inr (store_encode d))
    (λ z n, match store_decode z with
            | (d, None) => if len d <=? n then inr d else inl "capacity exceeded"%string
            | (_, Some e) => inl e
            end).
Lemma store_crates_laws : CrateLaws store_crates.
Proof.
  split; cbn.
  - by intros d z [= <-].
  - by intros d enc z [= <-] [= <-].
  - intros d l z n [= <-] H. cbn. by zif.
  - intros z n d. destruct (store_decode z) as [p [e|]]; [done|]. case_match; [|done].
    intros [= <-]. by zbool.
  - intros z n d n'. destruct (store_decode z) as [p [e|]]; [done|]. case_match; [|done].
    intros [= <-] Hl. by zif.
Qed.
Lemma compressor_modules_witness :
  let b := MessageBody_Query (OpQuery_handshake (doc_frame [])) in
  ∃ c, OpCompressed_wrap (full_build store_crates) (MessageBody_opcode b) (body_wire b) CompressorId_Zlib = Ok c
    ∧ OpCompressed_unwrap_body (full_build store_crates) c MAX_MSG_LEN = Ok b.
Proof.
  intros b. eexists.
  assert (OpCompressed_wrap (full_build store_crates) (MessageBody_opcode b) (body_wire b) CompressorId_Zlib =
    Ok (mkOpCompressed Opcode_Query (len (body_wire b)) CompressorId_Zlib (store_encode (body_wire b)))) as E
    by (vm_compute; reflexivity).
  split; [exact E|].
  apply (proj1 (compressor_modules store_crates store_crates_laws CompressorId_Zlib) b _ MAX_MSG_LEN);
    [| | |exact E].
  - split; [reflexivity|]. split; [discriminate|]. split; [split; reflexivity|].
    split; [split; discriminate|]. split; [split; discriminate|]. split; [|exact I].
    split; [apply raw_ok_doc_frame; discriminate|discriminate].
  - discriminate.
  - vm_compute. discriminate.
Defined.
