(* ===== verification/Framing.v ===== *)
(** * Framing: [mongowire/src/framing.rs], [mongowire/src/codec.rs], the CRC
    wrapper [mongo_common/src/crc32c.rs] and the receive loop of
    [mongowire/src/test_client.rs]

    [BytesMut] arguments are threaded explicitly, also on the error paths, so
    that what a failed call consumed or wrote is part of the result.  The
    [crc32c] crate is the parameter [crc32c]. *)
From stdpp Require Import base list numbers strings.
From Stdlib Require Import ZArith Lia.
From S2P Require Import Prelude Utf8 Io Consts BsonScalar BsonValue BsonEncode BsonDecode.
From S2P Require Import Header Message OpMsg OpLegacy OpCompressed.
Local Open Scope Z_scope.

Section Framing.
Context (crc32c : bytes → Z).

(** [mongo_common::crc32c::checksum] and [verify]. *)
Definition crc_checksum (data : bytes) : Z := crc32c data.
Definition crc_verify (data : bytes) (expected : Z) : bool := crc32c data =? expected.

(** ** [parse_message] *)

Definition has_checksum_bit (flag_bits : Z) : bool :=
  negb (Z.land flag_bits CHECKSUM_PRESENT =? 0).

(** The checks on a complete OP_MSG frame before it is consumed. *)
Definition check_frame (h : Header) (buf : bytes) : outcome ProtocolError () :=
  let ml := message_length h in
  let* short :=
    (if bool_decide (op_code h = Opcode_Msg)
        && ((MSG_HEADER_LEN + 4 <=? ml) && (ml <? MSG_HEADER_LEN + 10))
     then let* bits := le_at u32_of_le buf MSG_HEADER_LEN in Ok (has_checksum_bit bits)
     else Ok false) in
  if short
  then Err (ProtocolError_InvalidOpMsg "frame too short for a checksummed OP_MSG")
  else if bool_decide (op_code h = Opcode_Msg) && (MSG_HEADER_LEN + 8 <=? ml) then
    let* frame := slice buf 0 ml in
    let* flag_bits := le_at u32_of_le frame MSG_HEADER_LEN in
    if has_checksum_bit flag_bits then
      let* at_ := usub ml 4 in
      let* expected := le_at u32_of_le frame at_ in
      let* covered := slice frame 0 at_ in
      let computed := crc_checksum covered in
      if negb (computed =? expected)
      then Err (ProtocolError_ChecksumMismatch expected computed)
      else Ok ()
    else Ok ()
  else Ok ().

(** Everything up to the consumption of the frame: [None] asks for more
    data, [Some h] announces a complete, verified frame. *)
Definition peek_message (buf : bytes) (max_len : Z) : outcome ProtocolError (option Header) :=
  if len buf <? MSG_HEADER_LEN then Ok None
  else
    let* prefix := slice buf 0 MSG_HEADER_LEN in
    let* h := Header_parse prefix max_len in
    if len buf <? message_length h then Ok None
    else let* _ := check_frame h buf in Ok (Some h).

(** [freeze]: [split_to] panics past the end. *)
Definition freeze (buf : bytes) (n : Z) : outcome ProtocolError (bytes * bytes) :=
  if len buf <? n then Panic else Ok (takeZ n buf, dropZ n buf).

(** The result and the buffer left behind. *)
Definition parse_message (buf : bytes) (max_len : Z)
  : outcome ProtocolError (option (Header * MessageBody)) * bytes :=
  match peek_message buf max_len with
  | Ok None => (Ok None, buf)
  | Err e => (Err e, buf)
  | Panic => (Panic, buf)
  | Fuel => (Fuel, buf)
  | Ok (Some h) =>
      match freeze buf (message_length h) with
      | Ok (frame, buf) =>
          (let* body_bytes := slice frame MSG_HEADER_LEN (len frame) in
           let* body := MessageBody_parse_body (op_code h) body_bytes in
           Ok (Some (h, body)), buf)
      | Err e => (Err e, buf)
      | Panic => (Panic, buf)
      | Fuel => (Fuel, buf)
      end
  end.

(** ** [encode_message] *)

Definition set_message_length (h : Header) (n : Z) : Header :=
  mkHeader n (request_id h) (response_to h) (op_code h).

(** [out[at..at+4].copy_from_slice(b)]. *)
Definition copy_at (out : bytes) (at_ : Z) (b : bytes) : outcome ProtocolError bytes :=
  if (0 <=? at_) && (at_ + len b <=? len out)
  then Ok (takeZ at_ out ++ b ++ dropZ (at_ + len b) out) else Panic.

(** Setting [checksumPresent] in the flag bits just written. *)
Definition patch_checksum_flag (out : bytes) (start : Z) : outcome ProtocolError bytes :=
  let flags_at := start + MSG_HEADER_LEN in
  let* bits := le_at u32_of_le out flags_at in
  copy_at out flags_at (le_encode 4 (Z.lor bits CHECKSUM_PRESENT)).

(** The CRC trailer over everything written since [start]. *)
Definition append_crc (out : bytes) (start : Z) : outcome ProtocolError bytes :=
  let* covered := slice out start (len out) in
  Ok (out ++ le_encode 4 (crc_checksum covered)).

(** The result, the header and the buffer. *)
Definition encode_message (h : Header) (body : MessageBody) (checksum_ : bool) (out : bytes)
  : outcome ProtocolError () * Header * bytes :=
  let total := MSG_HEADER_LEN + MessageBody_body_len body + (if checksum_ then 1 else 0) * 4 in
  match i32_try_from total with
  | None => (Err (ProtocolError_MessageTooLarge i32_max MAX_MSG_LEN), h, out)
  | Some total =>
      if MAX_MSG_LEN <? total then (Err (ProtocolError_MessageTooLarge total MAX_MSG_LEN), h, out)
      else
        let h := set_message_length h total in
        let start := len out in
        let out := Header_encode h out in
        match MessageBody_encode_body body out with
        | Err e => (Err e, h, out)
        | Panic => (Panic, h, out)
        | Fuel => (Fuel, h, out)
        | Ok out =>
            if checksum_ then
              match body with
              | MessageBody_Msg msg =>
                  if is_some (checksum msg) then
                    (Err (ProtocolError_InvalidOpMsg "body already carries a checksum trailer"),
                     h, out)
                  else
                    match (let* out := patch_checksum_flag out start in append_crc out start) with
                    | Ok out => (Ok (), h, out)
                    | Err e => (Err e, h, out)
                    | Panic => (Panic, h, out)
                    | Fuel => (Fuel, h, out)
                    end
              | _ =>
                  match append_crc out start with
                  | Ok out => (Ok (), h, out)
                  | Err e => (Err e, h, out)
                  | Panic => (Panic, h, out)
                  | Fuel => (Fuel, h, out)
                  end
              end
            else (Ok (), h, out)
        end
  end.

(** ** The tokio codec *)

Record CodecConfig := mkCodecConfig { max_msg_len : Z }.
Definition CodecConfig_default : CodecConfig := mkCodecConfig MAX_MSG_LEN.
(** [Decoder::decode] and [Encoder::encode] of [MongoCodec]. *)
Definition MongoCodec_decode (config : CodecConfig) (src : bytes)
  : outcome ProtocolError (option (Header * MessageBody)) * bytes :=
  parse_message src (max_msg_len config).
Definition MongoCodec_encode (item : Header * MessageBody) (dst : bytes)
  : outcome ProtocolError () * bytes :=
  let '(r, _, dst) := encode_message (fst item) (snd item) false dst in (r, dst).
(** [to_bytes]. *)
Definition to_bytes (h : Header) (body : MessageBody) (checksum_ : bool)
  : outcome ProtocolError bytes * Header :=
  let '(r, h, out) := encode_message h body checksum_ [] in
  (let* _ := r in Ok out, h).

(** ** [TestClient::recv]

    The stream is the list of chunks the socket will deliver; a read of no
    bytes, or the end of the list, is the end of file. *)
Fixpoint recv (chunks : list bytes) (buf : bytes)
  : outcome ProtocolError (option (Header * MessageBody)) * bytes * list bytes :=
  match parse_message buf i32_max with
  | (Ok (Some msg), buf) => (Ok (Some msg), buf, chunks)
  | (Ok None, buf) =>
      match chunks with
      | [] | [] :: _ =>
          (if is_empty buf then Ok None
           else Err (ProtocolError_InvalidHeader "truncated message before EOF"), buf, chunks)
      | chunk :: chunks => recv chunks (buf ++ chunk)
      end
  | (r, buf) => (r, buf, chunks)
  end.

(** ** Frames under extension of the buffer *)

Lemma slice_app_l {E A} (l x : list A) a b : b <= len l →
  @slice E A (l ++ x) a b = slice l a b.
Proof.
  intros Hb. unfold slice. rewrite len_app. pose proof (len_nonneg x).
  destruct (Z.leb_spec 0 a); [|done]. destruct (Z.leb_spec a b); [|done].
  replace (b <=? len l + len x) with true by lia. replace (b <=? len l) with true by lia.
  cbn [andb]. rewrite dropZ_app_le, takeZ_app_le by (rewrite ?len_dropZ; lia). done.
Qed.
Lemma le_at_app_l f b x off : off + 4 <= len b → le_at f (b ++ x) off = le_at f b off.
Proof. intros. unfold le_at. by rewrite slice_app_l. Qed.

Lemma check_frame_app h buf x : message_length h <= len buf →
  check_frame h (buf ++ x) = check_frame h buf.
Proof.
  intros Hl. unfold check_frame, MSG_HEADER_LEN in *. rewrite (slice_app_l buf x) by done.
  destruct (bool_decide _ && ((16 + 4 <=? _) && _)) eqn:E; [|done].
  apply andb_true_iff in E as [_ E]. zbool. by rewrite le_at_app_l by lia.
Qed.
Lemma peek_message_app buf x max_len r : peek_message buf max_len = r →
  match r with Ok None => False | _ => True end →
  peek_message (buf ++ x) max_len = r.
Proof.
  intros <- Hr. unfold peek_message, MSG_HEADER_LEN in *. pose proof (len_nonneg x).
  destruct (len buf <? 16) eqn:E; [done|]. zbool. rewrite len_app. zif.
  rewrite slice_app_l by lia. apply bind_ext. intros p Hp. apply bind_ext. intros h Hh.
  rewrite Hp in Hr. cbn [bind] in Hr. rewrite Hh in Hr. cbn [bind] in Hr.
  destruct (len buf <? message_length h) eqn:E2; [done|]. zbool. zif.
  by rewrite check_frame_app.
Qed.

(** What a complete frame is. *)
Lemma peek_message_Some buf max_len h : peek_message buf max_len = Ok (Some h) →
  header_ok max_len h ∧ message_length h <= len buf ∧ check_frame h buf = Ok () ∧
  ∃ rest, buf = header_wire h ++ rest.
Proof.
  unfold peek_message, MSG_HEADER_LEN. intros H. destruct (len buf <? 16) eqn:E; [done|]. zbool.
  apply bind_Ok_inv in H as (p & Hp & H). apply bind_Ok_inv in H as (h' & Hh & H).
  destruct (len buf <? message_length h') eqn:E2; [done|]. zbool.
  apply bind_Ok_inv in H as ([] & Hc & H). injection H as ->.
  apply slice_Ok_inv in Hp as (_ & _ & _ & ->).
  apply Header_parse_Ok_inv in Hh as (Hok & rest & Er). split_and!; try done.
  rewrite (dropZ_0 0) in Er by done. exists (rest ++ dropZ 16 buf).
  rewrite app_assoc, <- Er. by rewrite take_dropZ.
Qed.

Lemma parse_message_complete buf max_len h : peek_message buf max_len = Ok (Some h) →
  ∃ body rest, buf = header_wire h ++ body ++ rest ∧
    message_length h = MSG_HEADER_LEN + len body ∧
    parse_message buf max_len =
      (let* b := MessageBody_parse_body (op_code h) body in Ok (Some (h, b)), rest).
Proof.
  intros Hp. destruct (peek_message_Some _ _ _ Hp) as ((Hml & _) & Hle & _ & t & ->).
  rewrite len_app, len_header_wire in Hle.
  destruct (split_at (message_length h - MSG_HEADER_LEN) t) as (body & rest & -> & Hb); [lia|].
  exists body, rest. split; [done|]. split; [lia|]. unfold parse_message. rewrite Hp.
  unfold freeze. rewrite !len_app, len_header_wire. pose proof (len_nonneg rest). zif.
  rewrite app_assoc. rewrite takeZ_app, dropZ_app by (rewrite len_app, len_header_wire; lia).
  rewrite slice_suffix by (rewrite ?len_app, ?len_header_wire; done). done.
Qed.

Lemma parse_message_Some buf max_len h b buf' :
  parse_message buf max_len = (Ok (Some (h, b)), buf') →
  peek_message buf max_len = Ok (Some h) ∧ header_ok max_len h ∧ check_frame h buf = Ok () ∧
  ∃ body, buf = header_wire h ++ body ++ buf' ∧ message_length h = MSG_HEADER_LEN + len body ∧
    MessageBody_parse_body (op_code h) body = Ok b.
Proof.
  intros H. destruct (peek_message buf max_len) as [[h'|]| | |] eqn:Hp;
    try (unfold parse_message in H; rewrite Hp in H; done).
  destruct (parse_message_complete _ _ _ Hp) as (body & rest & E & Hm & Hr).
  rewrite H in Hr. injection Hr as Hr ->. destruct (MessageBody_parse_body (op_code h') body) as [b'| | |] eqn:Hb;
    try done. cbn [bind] in Hr. injection Hr as <- <-.
  destruct (peek_message_Some _ _ _ Hp) as (Hok & _ & Hc & _). split_and!; try done. eauto.
Qed.

Lemma returns_check_frame h buf : MSG_HEADER_LEN <= message_length h <= len buf →
  returns (check_frame h buf).
Proof.
  intros Hl. unfold check_frame, MSG_HEADER_LEN in *. apply returns_bind.
  { destruct (bool_decide _ && _) eqn:E; [|done]. apply andb_true_iff in E as [_ E]. zbool.
    apply returns_bind; [apply returns_le_at; lia|done]. }
  intros [] _; [done|]. destruct (bool_decide _ && _) eqn:E; [|done].
  apply andb_true_iff in E as [_ E]. zbool.
  apply returns_bind; [apply returns_slice; lia|]. intros frame Hf%len_slice.
  apply returns_bind; [apply returns_le_at; lia|]. intros bits _. case_match; [|done].
  rewrite usub_Ok by lia. cbn [bind]. apply returns_bind; [apply returns_le_at; lia|]. intros e _.
  apply returns_bind; [apply returns_slice; lia|]. intros c _. by case_match.
Qed.
Lemma returns_peek_message buf max_len : returns (peek_message buf max_len).
Proof.
  unfold peek_message, MSG_HEADER_LEN. case_match eqn:E; [done|]. zbool.
  apply returns_bind; [apply returns_slice; lia|]. intros p _.
  apply returns_bind; [apply returns_Header_parse|]. intros h Hh.
  apply Header_parse_Ok_inv in Hh as ((Hm & _) & _). case_match eqn:E2; [done|]. zbool.
  apply returns_bind; [apply returns_check_frame; lia|done].
Qed.
Lemma returns_parse_message buf max_len : returns (fst (parse_message buf max_len)).
Proof.
  pose proof (returns_peek_message buf max_len) as H.
  destruct (peek_message buf max_len) as [[h|]| | |] eqn:Hp;
    try (unfold parse_message; rewrite Hp; done).
  destruct (parse_message_complete _ _ _ Hp) as (body & rest & _ & _ & ->). simpl.
  apply returns_bind; [apply returns_body_parse|done].
Qed.

(** ** Encoding *)

(** The total the encoder announces. *)
Definition frame_len (b : MessageBody) (ck : bool) : Z :=
  MSG_HEADER_LEN + len (body_wire b) + (if ck then 4 else 0).
(** The message a checksummed encoding carries: the flag set and the value. *)
Definition with_checksum (m : OpMsg) (c : Z) : OpMsg :=
  mkOpMsg (Z.lor (flags m) CHECKSUM_PRESENT) (sections m) (Some c).
Definition covered_bytes (h : Header) (m : OpMsg) : bytes :=
  header_wire h ++ le_encode 4 (Z.lor (flags m) CHECKSUM_PRESENT) ++
  (x00 :: sec_body (sections m)) ++ sequences_wire (sequences (sections m)).

Lemma has_checksum_bit_contains f : has_checksum_bit f = flags_contains f CHECKSUM_PRESENT.
Proof.
  unfold has_checksum_bit, flags_contains. change CHECKSUM_PRESENT with (Z.ones 1).
  rewrite Z.land_ones by done. pose proof (Z.mod_pos_bound f (2 ^ 1) ltac:(done)).
  change (Z.ones 1) with 1. lia.
Qed.
Lemma flags_lor_ok f : flags_ok f → flags_ok (Z.lor f CHECKSUM_PRESENT) ∧
  flags_contains (Z.lor f CHECKSUM_PRESENT) CHECKSUM_PRESENT = true.
Proof.
  unfold flags_ok, flags_contains. intros E. split.
  - rewrite Z.land_lor_distr_l, E. done.
  - rewrite Z.land_lor_distr_l, Z.land_diag. apply Z.eqb_eq.
    apply Z.bits_inj'. intros n Hn. rewrite Z.lor_spec, Z.land_spec.
    by destruct (Z.testbit f n), (Z.testbit CHECKSUM_PRESENT n).
Qed.
Lemma with_checksum_ok m c : opmsg_ok m → in_u32 c → opmsg_ok (with_checksum m c).
Proof.
  intros (Hf & Hs & _ & _) Hc. destruct (flags_lor_ok _ Hf) as [H1 H2].
  split_and!; [done..| |done]. cbn [with_checksum checksum flags is_some]. by rewrite H2.
Qed.

Lemma encode_message_plain h b out : body_ok b → frame_len b false <= MAX_MSG_LEN →
  let h' := set_message_length h (frame_len b false) in
  encode_message h b false out = (Ok (), h', out ++ header_wire h' ++ body_wire b).
Proof.
  intros Hb Ht. unfold frame_len, encode_message in *. rewrite body_len_body_wire by done.
  rewrite Z.mul_0_l. set (n := MSG_HEADER_LEN + len (body_wire b) + 0) in *.
  pose proof (len_nonneg (body_wire b)).
  assert (0 <= n) by (unfold n, MSG_HEADER_LEN; lia).
  rewrite (proj2 (i32_try_from_Some n n)).
  2: { split; [|done]. unfold MAX_MSG_LEN in Ht. unfold_ranges. lia. }
  zif. rewrite Header_encode_wire, body_encode_wire by done. by rewrite <- app_assoc.
Qed.
Lemma encode_message_too_large h b ck out : body_ok b → MAX_MSG_LEN < frame_len b ck →
  ∃ n, encode_message h b ck out = (Err (ProtocolError_MessageTooLarge n MAX_MSG_LEN), h, out).
Proof.
  intros Hb Ht. unfold frame_len, encode_message in *. rewrite body_len_body_wire by done.
  replace ((if ck then 1 else 0) * 4) with (if ck then 4 else 0) by (by destruct ck).
  set (n := MSG_HEADER_LEN + len (body_wire b) + (if ck then 4 else 0)) in *.
  destruct (i32_try_from n) as [n'|] eqn:E; [|eauto].
  apply i32_try_from_Some in E as [_ ->]. zif. eauto.
Qed.

(** A message that already carries a checksum gets no second one. *)
Lemma encode_message_twice h m k out : opmsg_ok m → checksum m = Some k →
  frame_len (MessageBody_Msg m) true <= MAX_MSG_LEN →
  ∃ out', encode_message h (MessageBody_Msg m) true out
    = (Err (ProtocolError_InvalidOpMsg "body already carries a checksum trailer"),
       set_message_length h (frame_len (MessageBody_Msg m) true), out').
Proof.
  intros Hm Hk Ht. unfold frame_len, encode_message in *.
  rewrite body_len_body_wire by done. rewrite Z.mul_1_l.
  set (n := MSG_HEADER_LEN + len (body_wire (MessageBody_Msg m)) + 4) in *.
  pose proof (len_nonneg (body_wire (MessageBody_Msg m))).
  assert (0 <= n) by (unfold n, MSG_HEADER_LEN; lia).
  rewrite (proj2 (i32_try_from_Some n n)).
  2: { split; [|done]. unfold MAX_MSG_LEN in Ht. unfold_ranges. lia. }
  zif. rewrite Header_encode_wire, body_encode_wire by done. rewrite Hk. by eexists.
Qed.

Lemma copy_at_mid pre old post b at_ : at_ = len pre → len b = len old →
  copy_at (pre ++ old ++ post) at_ b = Ok (pre ++ b ++ post).
Proof.
  intros -> Hl. unfold copy_at. rewrite !len_app. pose proof (len_nonneg post).
  pose proof (len_nonneg pre). pose proof (len_nonneg old). zif. rewrite takeZ_app by done.
  rewrite (app_assoc pre old), dropZ_app by len_tac. done.
Qed.

Context (Hcrc : ∀ b, in_u32 (crc32c b)).

Lemma encode_message_checksum h m out : opmsg_ok m → checksum m = None →
  frame_len (MessageBody_Msg m) true <= MAX_MSG_LEN →
  let h' := set_message_length h (frame_len (MessageBody_Msg m) true) in
  encode_message h (MessageBody_Msg m) true out =
    (Ok (), h', out ++ header_wire h' ++
       opmsg_wire (with_checksum m (crc32c (covered_bytes h' m)))).
Proof.
  intros Hm Hn Ht. unfold frame_len, encode_message in *.
  rewrite body_len_body_wire by done. rewrite Z.mul_1_l.
  set (n := MSG_HEADER_LEN + len (body_wire (MessageBody_Msg m)) + 4) in *.
  pose proof (len_nonneg (body_wire (MessageBody_Msg m))).
  assert (0 <= n) by (unfold n, MSG_HEADER_LEN; lia).
  rewrite (proj2 (i32_try_from_Some n n)).
  2: { split; [|done]. unfold MAX_MSG_LEN in Ht. unfold_ranges. lia. }
  zif. rewrite Header_encode_wire, body_encode_wire by done. rewrite Hn. cbn [is_some].
  set (h' := set_message_length h n). cbn [body_wire msg_wire OpMsg_Laws].
  unfold patch_checksum_flag, append_crc, opmsg_wire, with_checksum, crc_checksum. rewrite Hn.
  cbn [checksum_wire flags sections checksum]. rewrite app_nil_r.
  set (tail := (x00 :: _) ++ _).
  assert (len out + MSG_HEADER_LEN = len (out ++ header_wire h')) as Hat
    by (rewrite len_app, len_header_wire; done).
  rewrite (le_at_mid u32_of_le (out ++ header_wire h') tail (le_encode 4 (flags m)))
    by (done || apply len_le_encode).
  cbn [bind]. rewrite u32_of_le_encode by (apply flags_ok_u32, Hm).
  rewrite copy_at_mid by (done || (by rewrite !len_le_encode)). cbn [bind].
  rewrite <- (app_assoc out). rewrite slice_suffix by (done || (by rewrite len_app)). cbn [bind].
  unfold covered_bytes. fold tail. rewrite <- !app_assoc. do 4 f_equal.
  unfold tail. rewrite <- !app_assoc. done.
Qed.

(** ** Parsing an encoded frame *)

Definition opmsg_front (m : OpMsg) : bytes :=
  le_encode 4 (flags m) ++ (x00 :: sec_body (sections m)) ++ sequences_wire (sequences (sections m)).
Lemma opmsg_wire_front m : opmsg_wire m = opmsg_front m ++ checksum_wire (checksum m).
Proof. unfold opmsg_wire, opmsg_front. by rewrite <- !app_assoc. Qed.

(** A frame whose flag word announces a checksum. *)
Lemma check_frame_raw h raw t c rest : op_code h = Opcode_Msg → in_u32 raw → in_u32 c →
  flags_contains raw CHECKSUM_PRESENT = true → 6 <= len t →
  message_length h = MSG_HEADER_LEN + len (le_encode 4 raw ++ t) + 4 →
  check_frame h (header_wire h ++ (le_encode 4 raw ++ t) ++ le_encode 4 c ++ rest) =
    let computed := crc32c (header_wire h ++ le_encode 4 raw ++ t) in
    if computed =? c then Ok () else Err (ProtocolError_ChecksumMismatch c computed).
Proof.
  intros Hop Hraw Hc Hbit Ht Hl. rewrite len_app, len_le_encode in Hl.
  unfold check_frame. cbv zeta. rewrite Hop.
  rewrite bool_decide_eq_true_2 by done. unfold MSG_HEADER_LEN in *. cbn [andb].
  replace ((16 + 4 <=? message_length h) && (message_length h <? 16 + 10)) with false by lia.
  cbn [bind]. replace (16 + 8 <=? message_length h) with true by lia.
  set (front := le_encode 4 raw ++ t).
  assert (message_length h = len (header_wire h ++ front ++ le_encode 4 c)) as Hml.
  { unfold front. rewrite !len_app, len_header_wire, !len_le_encode. unfold MSG_HEADER_LEN. lia. }
  replace (header_wire h ++ front ++ le_encode 4 c ++ rest)
    with ((header_wire h ++ front ++ le_encode 4 c) ++ rest) by (by rewrite <- !app_assoc).
  rewrite slice_prefix by done. cbn [bind].
  assert (le_at u32_of_le (header_wire h ++ front ++ le_encode 4 c) 16 = Ok raw) as ->.
  { unfold front. rewrite <- (app_assoc (le_encode 4 _)).
    rewrite le_at_mid by (by rewrite ?len_header_wire, ?len_le_encode).
    by rewrite u32_of_le_encode. }
  cbn [bind]. rewrite has_checksum_bit_contains, Hbit. rewrite usub_Ok by lia. cbn [bind].
  rewrite (app_assoc (header_wire h)).
  assert (message_length h - 4 = len (header_wire h ++ front)) as Hat
    by (rewrite Hml, !len_app, !len_le_encode; lia).
  rewrite <- (app_nil_r (le_encode 4 c)), le_at_mid by (done || apply len_le_encode).
  cbn [bind]. rewrite u32_of_le_encode by done. rewrite app_nil_r.
  rewrite slice_prefix by done. cbn [bind]. unfold crc_checksum. by destruct (crc32c _ =? c).
Qed.

Lemma check_frame_msg h m : op_code h = Opcode_Msg → opmsg_ok m →
  message_length h = MSG_HEADER_LEN + len (opmsg_wire m) →
  check_frame h (header_wire h ++ opmsg_wire m) =
    match checksum m with
    | None => Ok ()
    | Some c =>
        let computed := crc32c (header_wire h ++ opmsg_front m) in
        if computed =? c then Ok () else Err (ProtocolError_ChecksumMismatch c computed)
    end.
Proof.
  intros Hop Hm Hl. pose proof Hm as (Hf & (Hd & _) & Hc & Hcu). pose proof (doc_ok_len _ Hd).
  pose proof (flags_ok_u32 _ Hf) as Hfu. rewrite opmsg_wire_front, len_app in Hl. rewrite opmsg_wire_front.
  assert (10 <= len (opmsg_front m)) as Hfl by (unfold opmsg_front; len_tac).
  destruct (checksum m) as [c|]; cbn [is_some checksum_wire] in *.
  - rewrite len_le_encode in Hl. rewrite <- (app_nil_r (le_encode 4 c)).
    apply (check_frame_raw h (flags m)); try done; [|unfold opmsg_front in Hl; lia].
    unfold opmsg_front in Hfl. rewrite len_app, len_le_encode in Hfl. lia.
  - unfold check_frame. cbv zeta. rewrite Hop, bool_decide_eq_true_2 by done.
    unfold MSG_HEADER_LEN in *. rewrite len_nil in Hl. cbn [andb].
    replace ((16 + 4 <=? message_length h) && (message_length h <? 16 + 10)) with false by lia.
    cbn [bind]. replace (16 + 8 <=? message_length h) with true by lia. rewrite app_nil_r.
    rewrite <- (app_nil_r (header_wire h ++ opmsg_front m)).
    rewrite slice_prefix by (rewrite len_app, len_header_wire; unfold MSG_HEADER_LEN; lia). cbn [bind].
    unfold opmsg_front. rewrite le_at_mid by (by rewrite ?len_header_wire, ?len_le_encode).
    cbn [bind]. rewrite u32_of_le_encode by done. by rewrite has_checksum_bit_contains, <- Hc.
Qed.

Lemma check_frame_other h buf : op_code h ≠ Opcode_Msg → check_frame h buf = Ok ().
Proof. intros Hop. unfold check_frame. by rewrite bool_decide_eq_false_2. Qed.

Lemma parse_frame h b rest max_len : header_ok max_len h → body_ok b →
  op_code h = MessageBody_opcode b → message_length h = MSG_HEADER_LEN + len (body_wire b) →
  check_frame h (header_wire h ++ body_wire b) = Ok () →
  parse_message (header_wire h ++ body_wire b ++ rest) max_len = (Ok (Some (h, b)), rest).
Proof.
  intros Hh Hb Hop Hl Hc. pose proof (len_nonneg (body_wire b)). pose proof (len_nonneg rest).
  assert (peek_message (header_wire h ++ body_wire b ++ rest) max_len = Ok (Some h)) as Hp.
  { unfold peek_message. rewrite !len_app, len_header_wire. zif.
    rewrite slice_prefix by (by rewrite len_header_wire). cbn [bind].
    pose proof (header_parse_wire max_len h [] Hh) as Hpw. rewrite app_nil_r in Hpw.
    rewrite Hpw. cbn [bind]. zif.
    rewrite app_assoc, check_frame_app by (rewrite len_app, len_header_wire; lia). by rewrite Hc. }
  destruct (parse_message_complete _ _ _ Hp) as (body & rest' & E & Hm & ->).
  apply app_inv_head in E. apply (app_inj_1 _ _ _ _) in E as [<- <-]; [|unfold len in *; lia].
  rewrite Hop, body_parse_wire by done. done.
Qed.

Lemma header_ok_set h n max_len : in_i32 (request_id h) → in_i32 (response_to h) →
  MSG_HEADER_LEN <= n <= max_len → n <= MAX_MSG_LEN →
  header_ok max_len (set_message_length h n).
Proof. intros ? ? [? ?] ?. by split_and!. Qed.

Lemma front_with_checksum h m c :
  header_wire h ++ opmsg_front (with_checksum m c) = covered_bytes h m.
Proof. done. Qed.
End Framing.

(** The body a receiver sees: with a checksum requested, an OP_MSG gains the
    flag and the trailer. *)
Definition sent_body (crc : bytes → Z) (h : Header) (b : MessageBody) (ck : bool) : MessageBody :=
  match b with
  | MessageBody_Msg m =>
      if ck then MessageBody_Msg (with_checksum m (crc (covered_bytes h m))) else b
  | _ => b
  end.

Section SentFrames.
Context (crc : bytes → Z) (h : Header) (max_len : Z).
Hypothesis Hcrc : ∀ w, in_u32 (crc w).
Hypothesis Hrid : in_i32 (request_id h).
Hypothesis Hrto : in_i32 (response_to h).

Lemma sent_header_ok b ck : frame_len b ck <= max_len → frame_len b ck <= MAX_MSG_LEN →
  header_ok max_len (set_message_length h (frame_len b ck)).
Proof.
  pose proof (len_nonneg (body_wire b)). intros. apply header_ok_set; try done.
  unfold frame_len in *. destruct ck; lia.
Qed.

Lemma encode_parse_checksum m rest : let b := MessageBody_Msg m in
  body_ok b → op_code h = Opcode_Msg → checksum m = None →
  frame_len b true <= max_len → frame_len b true <= MAX_MSG_LEN →
  ∃ w, let h' := set_message_length h (frame_len b true) in
    (∀ out, encode_message crc h b true out = (Ok (), h', out ++ w))
    ∧ parse_message crc (w ++ rest) max_len = (Ok (Some (h', sent_body crc h' b true)), rest).
Proof.
  intros b Hb Hop Hnone Hmax Hfit. eexists. intros h'.
  pose proof (sent_header_ok b true Hmax Hfit : header_ok max_len h') as Hh'.
  split; [intros out; by apply encode_message_checksum|]. rewrite <- app_assoc. fold h'.
  cbn [sent_body b]. set (c := crc _). pose proof (with_checksum_ok m c Hb (Hcrc _)) as Hok.
  assert (message_length h' = MSG_HEADER_LEN + len (opmsg_wire (with_checksum m c))) as Hml.
  { cbn [h' message_length set_message_length]. unfold frame_len. cbn [b body_wire msg_wire OpMsg_Laws].
    rewrite !opmsg_wire_front, Hnone. cbn [checksum_wire checksum with_checksum].
    rewrite !len_app, len_nil. unfold opmsg_front. rewrite !len_app, !len_le_encode. cbn. lia. }
  apply (parse_frame crc h' (MessageBody_Msg (with_checksum m c)) rest max_len Hh' Hok Hop Hml).
  cbn [body_wire msg_wire OpMsg_Laws]. rewrite (check_frame_msg crc h' _ Hop Hok Hml).
  cbn [with_checksum checksum]. rewrite front_with_checksum. fold c. by rewrite Z.eqb_refl.
Qed.

Lemma encode_parse_plain b rest : body_ok b → op_code h = MessageBody_opcode b →
  (∀ m, b = MessageBody_Msg m → checksum m = None) →
  frame_len b false <= max_len → frame_len b false <= MAX_MSG_LEN →
  ∃ w, let h' := set_message_length h (frame_len b false) in
    (∀ out, encode_message crc h b false out = (Ok (), h', out ++ w))
    ∧ parse_message crc (w ++ rest) max_len = (Ok (Some (h', sent_body crc h' b false)), rest).
Proof.
  intros Hb Hop Hnone Hmax Hfit. eexists. intros h'.
  pose proof (sent_header_ok b false Hmax Hfit : header_ok max_len h') as Hh'.
  split; [intros out; by apply encode_message_plain|]. rewrite <- app_assoc. fold h'.
  replace (sent_body crc h' b false) with b by (by destruct b).
  assert (message_length h' = MSG_HEADER_LEN + len (body_wire b)) as Hml
    by (cbn [h' message_length set_message_length]; unfold frame_len; lia).
  apply parse_frame; try done. destruct b as [m| | |]; try (by apply check_frame_other; cbn; rewrite Hop).
  cbn [body_wire msg_wire OpMsg_Laws]. rewrite (check_frame_msg crc h' m Hop Hb Hml).
  by rewrite (Hnone m eq_refl).
Qed.

Lemma encode_parse_frame b ck rest : body_ok b → op_code h = MessageBody_opcode b →
  (∀ m, b = MessageBody_Msg m → checksum m = None) →
  (ck = true → MessageBody_opcode b = Opcode_Msg) →
  frame_len b ck <= max_len → frame_len b ck <= MAX_MSG_LEN →
  ∃ w, let h' := set_message_length h (frame_len b ck) in
    (∀ out, encode_message crc h b ck out = (Ok (), h', out ++ w))
    ∧ parse_message crc (w ++ rest) max_len = (Ok (Some (h', sent_body crc h' b ck)), rest).
Proof.
  intros Hb Hop Hnone Hck. destruct ck; [|by apply encode_parse_plain].
  destruct b as [m| | |]; try (by specialize (Hck eq_refl)).
  apply encode_parse_checksum; [done|done|by apply Hnone].
Qed.
End SentFrames.

(** ** Properties *)

(** C8. Framing round trip.  A well-formed body that carries no checksum yet,
    framed with a checksum only if it is an OP_MSG, and whose frame fits the
    protocol's limit, is appended to whatever the buffer holds as a frame that a
    parser whose limit it fits too turns back into the same header (with the
    length filled in) and body, leaving exactly the bytes that follow it; with a
    checksum requested, the OP_MSG comes back with [checksumPresent] set and the
    CRC of the preceding bytes as its checksum.  A body too large for the limit is
    refused with header and buffer untouched, and a checksum for an OP_MSG that
    already carries one is refused. *)
Theorem frame_roundtrip crc h b ck (h' := set_message_length h (frame_len b ck)) :
  (∀ w, in_u32 (crc w)) → body_ok b → op_code h = MessageBody_opcode b →
  in_i32 (request_id h) → in_i32 (response_to h) →
  (MAX_MSG_LEN < frame_len b ck → ∀ out, ∃ n,
     encode_message crc h b ck out = (Err (ProtocolError_MessageTooLarge n MAX_MSG_LEN), h, out))
  ∧ (frame_len b ck <= MAX_MSG_LEN → ∀ m k out, b = MessageBody_Msg m → checksum m = Some k → ck = true →
     ∃ out', encode_message crc h b ck out
       = (Err (ProtocolError_InvalidOpMsg "body already carries a checksum trailer"), h', out'))
  ∧ (frame_len b ck <= MAX_MSG_LEN → (∀ m, b = MessageBody_Msg m → checksum m = None) →
     (ck = true → MessageBody_opcode b = Opcode_Msg) →
     ∃ w, (∀ out, encode_message crc h b ck out = (Ok (), h', out ++ w))
       ∧ ∀ rest max_len, frame_len b ck <= max_len →
           parse_message crc (w ++ rest) max_len = (Ok (Some (h', sent_body crc h' b ck)), rest)).
Proof.
  intros Hcrc Hb Hop Hr1 Hr2. split_and!.
  - intros Hl out. by apply encode_message_too_large.
  - intros Hl m k out -> Hk ->. by apply (encode_message_twice crc h m k).
  - intros Hl Hnone Hck.
    destruct (encode_parse_frame crc h MAX_MSG_LEN Hcrc Hr1 Hr2 b ck [] Hb Hop Hnone Hck Hl Hl) as (w & He & _).
    exists w. split; [exact He|]. intros rest max_len Hmax.
    destruct (encode_parse_frame crc h max_len Hcrc Hr1 Hr2 b ck rest Hb Hop Hnone Hck Hmax Hl) as (w' & He' & Hp).
    specialize (He []). rewrite He' in He. by injection He as ->.
Qed.

Lemma frame_roundtrip_witness :
  let h := Header_new 7 0 Opcode_Query in
  let b := MessageBody_Query (OpQuery_handshake (doc_frame [])) in
  ∃ w, encode_message (λ _, 0) h b false [xee] = (Ok (), set_message_length h (frame_len b false), [xee] ++ w)
  ∧ parse_message (λ _, 0) (w ++ [xff]) MAX_MSG_LEN =
    (Ok (Some (set_message_length h (frame_len b false), b)), [xff]).
Proof.
  intros h b.
  assert (body_ok b) as Hb.
  { split; [reflexivity|]. split; [discriminate|]. split; [split; reflexivity|].
    split; [split; discriminate|]. split; [split; discriminate|]. split; [|exact I].
    split; [apply raw_ok_doc_frame; discriminate|discriminate]. }
  destruct (frame_roundtrip (λ _, 0) h b false) as (_ & _ & Hrt).
  - intros _. split; discriminate.
  - exact Hb.
  - reflexivity.
  - split; discriminate.
  - split; discriminate.
  - destruct Hrt as (w & He & Hp); [vm_compute; discriminate|discriminate|discriminate|].
    exists w. split; [exact (He [xee])|]. apply (Hp [xff] MAX_MSG_LEN). vm_compute. discriminate.
Defined.

Section Streaming.
Context (crc : bytes → Z).

Definition is_none {A} (r : outcome ProtocolError (option A)) : bool :=
  match r with Ok None => true | _ => false end.

Lemma parse_message_none buf max_len buf' :
  parse_message crc buf max_len = (Ok None, buf') → buf' = buf.
Proof.
  intros H. destruct (peek_message crc buf max_len) as [[h|]| | |] eqn:Hp;
    try (unfold parse_message in H; rewrite Hp in H; congruence).
  destruct (parse_message_complete crc _ _ _ Hp) as (body & rest & _ & _ & Hr).
  rewrite H in Hr. injection Hr as Hr _. destruct (MessageBody_parse_body _ body); discriminate Hr.
Qed.
Lemma parse_message_stable buf x max_len r buf' :
  parse_message crc buf max_len = (r, buf') → is_none r = false →
  parse_message crc (buf ++ x) max_len = (r, buf' ++ x).
Proof.
  intros H Hr. destruct (peek_message crc buf max_len) as [[h|]|e| |] eqn:Hp.
  - pose proof (peek_message_app crc buf x max_len _ Hp I) as Hp'.
    destruct (parse_message_complete crc _ _ _ Hp) as (body & rest & E1 & Hl1 & E2).
    destruct (parse_message_complete crc _ _ _ Hp') as (body' & rest' & E1' & Hl1' & ->).
    rewrite H in E2. injection E2 as -> ->. rewrite E1, <- !app_assoc in E1'.
    apply app_inv_head in E1'. apply (app_inj_1 _ _ _ _) in E1' as [<- <-]; [done|].
    unfold len in *. lia.
  - unfold parse_message in H. rewrite Hp in H. injection H as <- <-. done.
  - unfold parse_message in H |- *. rewrite Hp in H. rewrite (peek_message_app crc buf x max_len _ Hp I).
    by injection H as <- <-.
  - pose proof (returns_peek_message crc buf max_len) as Hret. by rewrite Hp in Hret.
  - pose proof (returns_peek_message crc buf max_len) as Hret. by rewrite Hp in Hret.
Qed.

Lemma returns_append_crc out start : 0 <= start <= len out → returns (append_crc crc out start).
Proof. intros. unfold append_crc. apply returns_bind; [apply returns_slice; lia|done]. Qed.
Lemma returns_encode_message h b ck out : body_ok b →
  returns (fst (fst (encode_message crc h b ck out))).
Proof.
  intros Hb. unfold encode_message. rewrite body_len_body_wire by done.
  destruct (i32_try_from _) as [n|]; [|done]. case_match; [done|].
  rewrite Header_encode_wire, body_encode_wire by done. destruct ck; [|done].
  rewrite <- app_assoc. set (frame := header_wire _ ++ body_wire b).
  assert (returns (append_crc crc (out ++ frame) (len out))) as Ha
    by (apply returns_append_crc; len_tac).
  destruct b as [m| | |]; try (by destruct (append_crc crc _ _)).
  case_match; [done|]. pose proof (doc_ok_len _ (proj1 (proj1 (proj2 Hb)))).
  assert (len frame = MSG_HEADER_LEN + len (opmsg_wire m)) as Hfl.
  { unfold frame. by rewrite len_app, len_header_wire. }
  assert (4 <= len (opmsg_wire m)) by (unfold opmsg_wire; len_tac).
  assert (returns (let* o := patch_checksum_flag (out ++ frame) (len out) in
                   append_crc crc o (len out))) as Hp; [|revert Hp; by case_match].
  unfold patch_checksum_flag, MSG_HEADER_LEN in *. rewrite bind_assoc.
  pose proof (len_nonneg out). apply returns_bind; [apply returns_le_at; len_tac|]. intros bits _.
  unfold copy_at. rewrite len_le_encode. change (Z.of_nat 4) with 4. rewrite len_app. zif. cbn [bind].
  apply returns_append_crc. rewrite !len_app, len_takeZ by (rewrite len_app; lia). len_tac.
Qed.

Lemma parse_message_rejects h buf max_len e : header_ok max_len h → message_length h <= len buf →
  (∃ t, buf = header_wire h ++ t) → check_frame crc h buf = Err e →
  parse_message crc buf max_len = (Err e, buf).
Proof.
  intros Hh Hl [t ->] Hc. unfold parse_message.
  assert (peek_message crc (header_wire h ++ t) max_len = Err e) as ->; [|done].
  unfold peek_message. rewrite len_app, len_header_wire in *. pose proof (len_nonneg t). zif.
  rewrite slice_prefix by (by rewrite len_header_wire). cbn [bind].
  pose proof (header_parse_wire max_len h [] Hh) as Hpw. rewrite app_nil_r in Hpw.
  rewrite Hpw. cbn [bind]. zif. by rewrite Hc.
Qed.

(** Reading from any chunking of the stream amounts to parsing the whole. *)
Lemma recv_spec chunks : Forall (λ c, c ≠ []) chunks → ∀ buf,
  let '(r, remains) := parse_message crc (buf ++ concat chunks) i32_max in
  let '(r', buf', chunks') := recv crc chunks buf in
  buf' ++ concat chunks' = remains ∧
  r' = if is_none r then
         if is_empty (buf ++ concat chunks) then Ok None
         else Err (ProtocolError_InvalidHeader "truncated message before EOF")
       else r.
Proof.
  induction 1 as [|c chunks Hc _ IH]; intros buf; cbn [recv concat].
  - rewrite app_nil_r. destruct (parse_message crc buf i32_max) as [r remains] eqn:E.
    destruct r as [[msg|]|e| |]; cbn [is_none]; rewrite ?app_nil_r; try done.
    by apply parse_message_none in E as ->.
  - destruct (parse_message crc buf i32_max) as [r remains] eqn:E.
    destruct (is_none r) eqn:Er.
    + destruct r as [[msg|]|e| |]; try done. apply parse_message_none in E as ->.
      destruct c as [|x c]; [done|]. specialize (IH (buf ++ x :: c)).
      rewrite <- app_assoc in IH. exact IH.
    + rewrite (parse_message_stable _ (c ++ concat chunks) _ _ _ E Er).
      destruct r as [[msg|]|e| |]; try done; cbn [is_none]; done.
Qed.
End Streaming.

(** C7. Incremental parsing: asking for more data consumes nothing; a decided
    result (a message or an error) is unchanged by any bytes that arrive
    later, which stay in the buffer behind what was left. *)
Theorem parse_message_incremental crc buf x max_len :
  let '(r, remains) := parse_message crc buf max_len in
  if is_none r then remains = buf
  else parse_message crc (buf ++ x) max_len = (r, remains ++ x).
Proof.
  destruct (parse_message crc buf max_len) as [r remains] eqn:E. destruct (is_none r) eqn:Er.
  - destruct r as [[?|]| | |]; try done. by apply parse_message_none in E.
  - by apply parse_message_stable.
Qed.

(** C10. A parsed message accounts for its bytes: the buffer was the encoded
    header, a body of the announced length, and the rest, which is all that
    remains; the header obeys both size limits and matches the body's type;
    and the body is well-formed, so it re-encodes to the same number of
    bytes. *)
Theorem parse_message_sound crc buf max_len h b remains :
  parse_message crc buf max_len = (Ok (Some (h, b)), remains) →
  ∃ body, buf = header_wire h ++ body ++ remains ∧
    message_length h = MSG_HEADER_LEN + len body ∧
    MSG_HEADER_LEN <= message_length h <= Z.min max_len MAX_MSG_LEN ∧
    MessageBody_opcode b = op_code h ∧ body_ok b ∧
    ∀ out, ∃ w, MessageBody_encode_body b out = Ok (out ++ w) ∧ len w = len body.
Proof.
  intros (_ & (Hh1 & Hh2 & _) & _ & body & E & Hl & Hb)%parse_message_Some.
  apply body_parse_Ok_inv in Hb as (Ho & Hok & Hw). exists body. split_and!; try done; try lia.
  intros out. exists (body_wire b). by rewrite body_encode_wire.
Qed.

Lemma parse_message_sound_witness :
  let h := mkHeader 26 1 0 Opcode_Msg in
  let b := MessageBody_Msg (mkOpMsg 0 (mkSections (doc_frame []) []) None) in
  ∃ body, header_wire h ++ body_wire b = header_wire h ++ body ++ [] ∧ body_ok b.
Proof.
  intros h b.
  assert (parse_message (λ _, 0) (header_wire h ++ body_wire b) MAX_MSG_LEN = (Ok (Some (h, b)), [])) as E
    by (vm_compute; reflexivity).
  destruct (parse_message_sound (λ _, 0) _ _ _ _ _ E) as (body & H1 & _ & _ & _ & H2 & _).
  exists body. split; [exact H1|exact H2].
Defined.

(** C9. Checksums protect the frame: an accepted OP_MSG carries a checksum
    exactly when its flag says so, and the value is the CRC of every byte of
    the frame before it; replacing the trailer by any other value makes the
    parser report a mismatch and consume nothing. *)
Theorem checksum_verified crc buf max_len h m remains :
  parse_message crc buf max_len = (Ok (Some (h, MessageBody_Msg m)), remains) →
  match checksum m with
  | None => flags_contains (flags m) CHECKSUM_PRESENT = false
  | Some c =>
      flags_contains (flags m) CHECKSUM_PRESENT = true ∧
      crc (takeZ (message_length h - 4) buf) = c ∧
      ∀ c' rest, in_u32 c' → c' ≠ c →
        let buf' := takeZ (message_length h - 4) buf ++ le_encode 4 c' ++ rest in
        parse_message crc buf' max_len = (Err (ProtocolError_ChecksumMismatch c' c), buf')
  end.
Proof.
  intros Hp. destruct (parse_message_Some _ _ _ _ _ _ Hp) as (_ & Hh & Hc & body & -> & Hl & Hb).
  destruct (body_parse_Ok_inv _ _ _ Hb) as (Hop & Hok & Hw). cbn in Hop. rewrite <- Hop in Hb.
  apply bind_Ok_inv in Hb as (m' & Hb & Em). injection Em as ->.
  apply opmsg_parse_Ok_inv in Hb as (_ & raw & Hraw & Hfl & Ebody).
  pose proof Hok as (_ & _ & Hck & Hcu). destruct (checksum m) as [c|] eqn:Ec; [|done].
  split; [done|].
  set (t := (x00 :: sec_body (sections m)) ++ sequences_wire (sequences (sections m))).
  assert (body = (le_encode 4 raw ++ t) ++ le_encode 4 c) as ->
    by (rewrite Ebody; unfold t; by rewrite <- !app_assoc).
  rewrite (len_app (le_encode 4 raw ++ t)), len_le_encode in Hl.
  assert (flags_contains raw CHECKSUM_PRESENT = true) as Hbit.
  { apply MsgFlags_parse_Ok_inv in Hfl as [Hfl _]. rewrite Hfl in Hck. unfold flags_contains in *.
    rewrite <- Z.land_assoc in Hck. exact (eq_sym Hck). }
  assert (6 <= len t) as Ht.
  { pose proof (doc_ok_len _ (proj1 (proj1 (proj2 Hok)))). unfold t. len_tac. }
  assert (∀ c' rest, in_u32 c' → check_frame crc h (header_wire h ++ (le_encode 4 raw ++ t) ++ le_encode 4 c' ++ rest) =
    let computed := crc (header_wire h ++ le_encode 4 raw ++ t) in
    if computed =? c' then Ok () else Err (ProtocolError_ChecksumMismatch c' computed)) as Hcf.
  { intros c' rest Hc'. apply check_frame_raw; try done. lia. }
  rewrite <- app_assoc, Hcf in Hc by done. cbv zeta in Hc. destruct (crc _ =? c) eqn:E; [|done]. zbool.
  rewrite <- (app_assoc (le_encode 4 raw ++ t)), (app_assoc (header_wire h)), takeZ_app
    by (rewrite (len_app (header_wire h)), len_header_wire; lia).
  split; [done|]. intros c' rest Hc' Hne. cbv zeta. rewrite <- app_assoc.
  apply (parse_message_rejects crc h); [done| |eauto|].
  - rewrite !(len_app _ (_ ++ _)), len_header_wire. rewrite (len_app (le_encode 4 c')), len_le_encode.
    pose proof (len_nonneg rest). lia.
  - rewrite Hcf by done. cbv zeta. rewrite E. by replace (c =? c') with false by lia.
Qed.

Lemma checksum_verified_witness :
  let m := with_checksum (mkOpMsg 0 (mkSections (doc_frame []) []) None) 26 in
  let h := mkHeader 30 1 0 Opcode_Msg in
  let buf := header_wire h ++ opmsg_wire m in
  parse_message len buf MAX_MSG_LEN = (Ok (Some (h, MessageBody_Msg m)), []) ∧
  fst (parse_message len (takeZ 26 buf ++ le_encode 4 27 ++ []) MAX_MSG_LEN) =
    Err (ProtocolError_ChecksumMismatch 27 26).
Proof.
  intros m h buf.
  assert (parse_message len buf MAX_MSG_LEN = (Ok (Some (h, MessageBody_Msg m)), [])) as E
    by (vm_compute; reflexivity).
  split; [exact E|].
  destruct (checksum_verified len buf MAX_MSG_LEN h m [] E) as (_ & _ & H).
  specialize (H 27 [] ltac:(split; discriminate) ltac:(discriminate)). cbv zeta in H.
  change (message_length h - 4) with 26 in H. rewrite H. reflexivity.
Defined.

(** Requesting a checksum for a body that is not OP_MSG appends a CRC
    trailer with no flag announcing it: the encoder reports success, and the
    parser then takes the trailer of this handshake for a selector document
    and rejects the frame. *)
Lemma checksum_on_query_unparseable :
  let h := Header_new 1 0 Opcode_Query in
  let b := MessageBody_Query (OpQuery_handshake (doc_frame [])) in
  let '(r, h', w) := encode_message len h b true [] in
  r = Ok () ∧ message_length h' = len w ∧
  parse_message len w MAX_MSG_LEN = (Err (ProtocolError_InvalidBody "invalid document length"), []).
Proof. vm_compute. by split_and!. Qed.
