(* ===== verification/Fuzz.v ===== *)
(** * The fuzz targets: [fuzz/fuzz_targets]

    Each target is a function of its input that panics where an assertion or a
    [panic!] of the source fires; that it never does is a theorem. *)
From stdpp Require Import base list numbers strings.
From Stdlib Require Import ZArith Lia.
From S2P Require Import Prelude Utf8 StrOps Io Consts BsonScalar F64 BsonValue Convert Macros.
From S2P Require Import BsonEncode.
From S2P Require Import BsonDecode BsonRoundtrip Header Message OpMsg OpLegacy OpCompressed Framing.
Local Open Scope Z_scope.

(** ** Equality of values: the derived [PartialEq] of [Bson] *)

Definition f64_eq (a b : f64) : bool := f64_le a b && f64_le b a.
Section Eq.
Variable eq : Bson → Bson → bool.
Definition fields_eq : list (str * Bson) → list (str * Bson) → bool :=
  fix go a b :=
    match a, b with
    | [], [] => true
    | (n, x) :: a, (m, y) :: b => str_eqb n m && eq x y && go a b
    | _, _ => false
    end.
Definition values_eq : list Bson → list Bson → bool :=
  fix go a b :=
    match a, b with
    | [], [] => true
    | x :: a, y :: b => eq x y && go a b
    | _, _ => false
    end.
End Eq.
Fixpoint Bson_eq (a b : Bson) : bool :=
  match a, b with
  | Bson_Double x, Bson_Double y => f64_eq x y
  | Bson_String x, Bson_String y | Bson_JavaScript x, Bson_JavaScript y
  | Bson_Symbol x, Bson_Symbol y => str_eqb x y
  | Bson_Document x, Bson_Document y => fields_eq Bson_eq x y
  | Bson_Array x, Bson_Array y => values_eq Bson_eq x y
  | Bson_Binary x, Bson_Binary y => bool_decide (x = y)
  | Bson_Undefined, Bson_Undefined | Bson_Null, Bson_Null
  | Bson_MinKey, Bson_MinKey | Bson_MaxKey, Bson_MaxKey => true
  | Bson_ObjectId x, Bson_ObjectId y | Bson_Decimal128 x, Bson_Decimal128 y => str_eqb x y
  | Bson_Bool x, Bson_Bool y => Bool.eqb x y
  | Bson_DateTime x, Bson_DateTime y | Bson_Int32 x, Bson_Int32 y
  | Bson_Int64 x, Bson_Int64 y => x =? y
  | Bson_Regex x, Bson_Regex y => bool_decide (x = y)
  | Bson_DbPointer x, Bson_DbPointer y => bool_decide (x = y)
  | Bson_Timestamp x, Bson_Timestamp y => bool_decide (x = y)
  | Bson_JavaScriptScope c s, Bson_JavaScriptScope c' s' => str_eqb c c' && str_eqb s s'
  | _, _ => false
  end.

(** [assert!]. *)
Definition assert {E} (c : bool) : outcome E () := if c then Ok () else Panic.
(** [let Ok(x) = m else { panic!() }]. *)
Definition or_panic {E F A} (m : outcome E A) : outcome F A :=
  match m with Ok a => Ok a | Err _ => Panic | Panic => Panic | Fuel => Fuel end.
(** [let Ok(x) = m else { return }]. *)
Definition or_return {E F A} (m : outcome E A) (k : A → outcome F ()) : outcome F () :=
  match m with Ok a => k a | Err _ => Ok () | Panic => Panic | Fuel => Fuel end.
(** [let _ = m]. *)
Definition ignore {E F A} (m : outcome E A) : outcome F () :=
  match m with Ok _ | Err _ => Ok () | Panic => Panic | Fuel => Fuel end.

(** ** [fuzz_document] *)

Definition fuzz_document (data : bytes) : outcome Empty_set () :=
  or_return (RawDocument_from_bytes data) (λ raw,
    let* _ := ignore (RawDocument_shallow raw) in
    or_return (RawDocument_deep raw) (λ doc,
      let* re1 := or_panic (Document_encode doc) in
      let* doc2 := or_panic (RawDocument_deep re1) in
      let* re2 := or_panic (Document_encode doc2) in
      assert (str_eqb re1 re2))).

(** ** [fuzz_msg] *)

Definition fuzz_msg (crc : bytes → Z) (data : bytes) : outcome Empty_set () :=
  ignore (fst (parse_message crc data MAX_MSG_LEN)).

(** ** [fuzz_macros] *)

(** [data.windows(n)]. *)
Fixpoint windows (n : Z) (data : bytes) : list bytes :=
  match data with
  | [] => []
  | _ :: t => if n <=? len data then takeZ n data :: windows n t else []
  end.
(** [data.chunks(8)], with the length as fuel. *)
Fixpoint chunks8 (fuel : nat) (data : bytes) : list bytes :=
  match fuel, data with
  | S fuel, _ :: _ => takeZ 8 data :: chunks8 fuel (dropZ 8 data)
  | _, _ => []
  end.
Definition chunks (data : bytes) : list bytes := chunks8 (length data) data.
(** [data.chunks_exact(8)]. *)
Definition chunks_exact (data : bytes) : list bytes :=
  filter (λ c, len c = 8) (chunks data).

Definition is_ascii_hexdigit (b : byte) : bool := is_some (hex_digit b).

(** The body of the first loop. *)
Definition fuzz_oid (window : bytes) : outcome Empty_set () :=
  match from_utf8 window with
  | Ok hex =>
      if negb (forallb is_ascii_hexdigit hex) then Ok ()
      else
        let* macro_oid := oid_macro hex in
        let* api_oid := or_panic (ObjectId_from_hex hex) in
        assert (Bson_eq macro_oid (Bson_ObjectId api_oid))
  | _ => Ok ()
  end.
(** The body of the second loop. *)
Definition fuzz_dt (chunk : bytes) : outcome Empty_set () :=
  let* a := array_of 8 chunk in
  let ms := i64_of_le a in
  assert (Bson_eq (dt_macro ms) (Bson_DateTime ms)).
Fixpoint for_each {E A} (f : A → outcome E ()) (l : list A) : outcome E () :=
  match l with [] => Ok () | x :: t => let* _ := f x in for_each f t end.

(** The chunk copied into an eight-byte buffer of zeros. *)
Definition fuzz_scalar (c : bytes) : Bson :=
  Bson_Int64 (i64_of_le (c ++ replicate (Z.to_nat (8 - len c)) x00)).
Definition fuzz_doc (data : bytes) : outcome Empty_set () :=
  let scalars := fuzz_scalar <$> chunks data in
  match scalars with
  | [] => Ok ()
  | _ =>
      let* doc := expect (doc_macro
        [Tok_literal (lit "values"); Tok_colon; Tok_expr (Bson_Array scalars); Tok_comma;
         Tok_literal (lit "count"); Tok_colon; Tok_expr (Bson_Int64 (as_i64 (len scalars)))]) in
      or_return (Document_encode doc) (λ raw1,
        or_return (RawDocument_deep raw1) (λ decoded,
          or_return (Document_encode decoded) (λ raw2, assert (str_eqb raw1 raw2))))
  end.
Definition fuzz_macros (data : bytes) : outcome Empty_set () :=
  let* _ := for_each fuzz_oid (windows 24 data) in
  let* _ := for_each fuzz_dt (chunks_exact data) in
  fuzz_doc data.

(** ** They never panic *)

#[local] Opaque RawDocument_deep RawDocument_shallow.

Lemma for_each_Ok {E A} (f : A → outcome E ()) l :
  Forall (λ x, f x = Ok ()) l → for_each f l = Ok ().
Proof. induction 1 as [|x l Hx _ IH]; simpl; [done|]. by rewrite Hx. Qed.
Lemma ignore_returns {E F A} (m : outcome E A) : returns m → @ignore E F A m = Ok ().
Proof. by destruct m. Qed.

Lemma windows_len n data : 0 <= n → Forall (λ w, len w = n) (windows n data).
Proof.
  intros Hn. induction data as [|b t IH]; cbn [windows]; [constructor|].
  case_match; constructor; [|done]. zbool. apply len_takeZ. lia.
Qed.

Lemma hex_pairs_all s n : length s = (2 * n)%nat → forallb is_ascii_hexdigit s = true →
  ∃ id, hex_pairs s = Ok id.
Proof.
  revert s. induction n as [|n IH]; intros s Hl Hs.
  - destruct s; [|done]. by exists [].
  - destruct s as [|a [|b s]]; simpl in Hl; try lia. cbn [forallb] in Hs.
    apply andb_true_iff in Hs as [Ha Hs]. apply andb_true_iff in Hs as [Hb Hs].
    unfold is_ascii_hexdigit in Ha, Hb. cbn [hex_pairs].
    destruct (hex_digit a), (hex_digit b); try done. cbn [ok_or bind].
    destruct (IH s ltac:(lia) Hs) as [id ->]. eauto.
Qed.
Lemma fuzz_oid_Ok w : len w = 24 → fuzz_oid w = Ok ().
Proof.
  intros Hw. unfold fuzz_oid. pose proof (from_utf8_Ok_inv w) as Hv.
  destruct (from_utf8 w) as [hex| | |]; try done. destruct (Hv hex eq_refl) as [-> _].
  destruct (forallb is_ascii_hexdigit w) eqn:Hx; [|done]. cbn [negb].
  destruct (hex_pairs_all w 12) as [id Hid]; [unfold len in Hw; lia|done|].
  unfold oid_macro, oid_from_hex, ObjectId_from_hex. rewrite Hw. cbn [Z.eqb Pos.eqb negb].
  rewrite Hid. cbn [bind or_panic Bson_eq]. by rewrite str_eqb_refl.
Qed.
Lemma fuzz_dt_Ok c : len c = 8 → fuzz_dt c = Ok ().
Proof.
  intros Hc. unfold fuzz_dt, array_of. rewrite Hc. cbn -[i64_of_le]. by rewrite Z.eqb_refl.
Qed.

Lemma chunks8_len fuel data : Forall (λ c, len c <= 8) (chunks8 fuel data).
Proof.
  revert data. induction fuel as [|fuel IH]; intros [|b t]; try constructor; [|apply IH].
  unfold takeZ, len. rewrite length_take. lia.
Qed.
Lemma fuzz_scalar_ok c : len c <= 8 → value_ok (fuzz_scalar c).
Proof.
  intros Hc. unfold fuzz_scalar. cbn. split; [|done]. apply i64_of_le_range.
  rewrite len_app. unfold len at 2. rewrite length_replicate. pose proof (len_nonneg c). lia.
Qed.
(** An encoding of a well-formed document of small nesting is byte-stable. *)
Lemma encode_stable d : fields_ok d → document_nesting d <= MAX_NESTING_DEPTH →
  or_return (F := Empty_set) (Document_encode d) (λ raw1,
    or_return (RawDocument_deep raw1) (λ decoded,
      or_return (Document_encode decoded) (λ raw2, assert (str_eqb raw1 raw2)))) = Ok ().
Proof.
  intros Hok Hn. pose proof (Document_encode_writes d) as Hw. unfold writes in Hw.
  destruct (encodable (Bson_Document d)) eqn:He; [|by destruct Hw as [e ->]].
  cbn [encodable] in He. apply andb_true_iff in He as [_ Hl]. zbool.
  cbn [app] in Hw. rewrite Hw. cbn [or_return]. rewrite deep_wire; [|done|].
  - zif. cbn [or_return]. rewrite Hw. cbn [or_return]. by rewrite str_eqb_refl.
  - unfold_ranges. unfold document_wire, fields_wire. cbn [value_wire] in Hl. lia.
Qed.
Lemma fuzz_doc_Ok data : fuzz_doc data = Ok ().
Proof.
  unfold fuzz_doc. pose proof (chunks8_len (length data) data) as Hc. fold (chunks data) in Hc.
  destruct (fuzz_scalar <$> chunks data) as [|v vs] eqn:E; [done|]. rewrite <- E. clear E v vs.
  cbn [doc_macro doc_build expr_value expect bind].
  apply encode_stable.
  - unfold fields_ok, Document_add, Document_new. cbn [app].
    apply Forall_cons. split; [split; [done|]|apply Forall_singleton; split; [done|]].
    + apply value_ok_array, Forall_fmap. eapply Forall_impl; [exact Hc|].
      intros c. apply fuzz_scalar_ok.
    + cbn. split; [apply as_i64_range|done].
  - unfold document_nesting. cbn [Document_add Document_new app nesting foldr snd].
    assert (foldr (λ x m, Z.max (nesting x) m) 0 (fuzz_scalar <$> chunks data) = 0) as ->.
    { induction (chunks data) as [|c l IH]; [done|]. cbn. rewrite IH; [done|].
      by apply Forall_cons in Hc as [_ ?]. }
    done.
Qed.

Lemma fuzz_document_Ok data : growth * len data <= i32_max → fuzz_document data = Ok ().
Proof.
  intros Hb. unfold fuzz_document. pose proof (returns_RawDocument_from_bytes data) as Hr.
  pose proof (RawDocument_from_bytes_Ok_inv data) as Hv.
  destruct (RawDocument_from_bytes data) as [raw|e| |]; [|done|done|done]. cbn [or_return].
  destruct (Hv raw eq_refl) as [-> _]. clear Hv Hr.
  rewrite ignore_returns by apply shallow_returns. cbn [bind].
  pose proof (deep_returns data) as Hr. pose proof (deep_reencodes data) as He.
  destruct (RawDocument_deep data) as [doc|e| |]; [|done|done|done]. cbn [or_return].
  destruct (He doc Hb eq_refl) as [E1 E2]. rewrite E1. cbn [or_panic bind].
  rewrite E2. cbn [or_panic bind]. rewrite E1. cbn [or_panic bind]. by rewrite str_eqb_refl.
Qed.

(** C6. The fuzz targets hold.  On every input the framing target and the macro
    target finish without a panic, and so does the document target on inputs
    for which eleven times the length fits [i32]: beyond that, canonical array
    keys could make a re-encoding too long to have a length. *)
Theorem fuzz_targets_hold crc data :
  fuzz_msg crc data = Ok () ∧ fuzz_macros data = Ok ()
  ∧ (growth * len data <= i32_max → fuzz_document data = Ok ()).
Proof.
  split_and!.
  - apply ignore_returns, returns_parse_message.
  - unfold fuzz_macros. rewrite for_each_Ok, for_each_Ok; [cbn [bind]; apply fuzz_doc_Ok| |].
    + unfold chunks_exact. apply Forall_forall. intros c [Hc _]%list_elem_of_filter.
      by apply fuzz_dt_Ok.
    + eapply Forall_impl; [by apply windows_len|]. intros w. apply fuzz_oid_Ok.
  - apply fuzz_document_Ok.
Qed.
Lemma fuzz_targets_hold_witness :
  let data := [x10; x00; x00; x00; x04; x61; x00; x08; x00; x00; x00; x0a; x7a; x00; x00; x00] in
  growth * len data <= i32_max ∧ fuzz_document data = Ok ().
Proof.
  intros data. split; [discriminate|]. apply (fuzz_targets_hold (λ _, 0) data). discriminate.
Defined.
