(* ===== verification/Auth.v ===== *)
(** * Authentication errors and the PLAIN payload:
    [mongo_common/src/auth/mod.rs] and [mongo_common/src/auth/plain.rs]. *)
From stdpp Require Import base list numbers strings.
From Stdlib Require Import ZArith Lia.
From S2P Require Import Prelude Utf8 BsonScalar StrOps.
Local Open Scope Z_scope.

Inductive AuthError :=
| AuthError_InvalidMessage (reason : string)
| AuthError_Failure (reason : str)
| AuthError_NonceMismatch
| AuthError_ServerSignatureMismatch
| AuthError_ClientProofMismatch
| AuthError_State.

(** The [Display] strings of the [thiserror] attributes. *)
Definition AuthError_to_string (e : AuthError) : str :=
  match e with
  | AuthError_InvalidMessage reason => lit "invalid authentication message: " ++ lit reason
  | AuthError_Failure reason => lit "authentication failed: " ++ reason
  | AuthError_NonceMismatch => lit "nonce mismatch"
  | AuthError_ServerSignatureMismatch => lit "server signature mismatch"
  | AuthError_ClientProofMismatch => lit "client proof mismatch"
  | AuthError_State => lit "authentication step out of order"
  end.

(** ** PLAIN *)

Record PlainMessage := mkPlain { authz_id : str; authc_id : str; password : str }.

Definition as_utf8 (bs : bytes) : outcome AuthError str :=
  map_err (λ _, AuthError_InvalidMessage "payload is not valid UTF-8") (from_utf8 bs).

Definition parse_client_payload (payload : bytes) : outcome AuthError PlainMessage :=
  let fields := split_on x00 payload in
  if negb (len fields =? 3)
  then Err (AuthError_InvalidMessage "expected two NUL separators")
  else
    let* f0 := index fields 0 in
    let* authz := as_utf8 f0 in
    let* f1 := index fields 1 in
    let* authc := as_utf8 f1 in
    let* f2 := index fields 2 in
    let* pwd := as_utf8 f2 in
    Ok (mkPlain authz authc pwd).

Definition build_client_payload (authz authc pwd : str) : bytes :=
  authz ++ [x00] ++ authc ++ [x00] ++ pwd.

(** ** Lemmas *)

Lemma as_utf8_Ok bs s : as_utf8 bs = Ok s ↔ s = bs ∧ valid_utf8 bs = true.
Proof.
  unfold as_utf8. split.
  - intros H. apply map_err_Ok_inv in H. by apply from_utf8_Ok_inv.
  - intros [-> H]. by rewrite from_utf8_valid.
Qed.
Lemma returns_as_utf8 bs : returns (as_utf8 bs).
Proof. unfold as_utf8. auto with wire. Qed.
#[export] Hint Resolve returns_as_utf8 : wire.

Lemma len_3_inv {A} (l : list A) : len l = 3 → ∃ a b c, l = [a; b; c].
Proof.
  destruct l as [|a [|b [|c [|d l]]]]; intros; len_tac; try lia; eauto.
Qed.

Definition plain_field_ok (s : str) : Prop := lacks x00 s ∧ valid_utf8 s = true.

Lemma build_split a b c : lacks x00 a → lacks x00 b → lacks x00 c →
  split_on x00 (build_client_payload a b c) = [a; b; c].
Proof.
  intros. apply (split_join x00 [a; b; c]); [done|by repeat constructor].
Qed.

(** PLAIN payloads: parsing always returns, and it yields a message
    exactly when the payload is the rendering of that message and its three
    fields are NUL-free, valid UTF-8; so building and parsing are mutually
    inverse, and a NUL inside a field can never shift the field boundaries. *)
Lemma plain_payload_exact payload m :
  returns (parse_client_payload payload)
  ∧ (parse_client_payload payload = Ok m
     ↔ payload = build_client_payload (authz_id m) (authc_id m) (password m)
       ∧ plain_field_ok (authz_id m) ∧ plain_field_ok (authc_id m) ∧ plain_field_ok (password m)).
Proof.
  split.
  - unfold parse_client_payload. destruct (len _ =? 3) eqn:E; simpl negb; [|done].
    apply Z.eqb_eq, len_3_inv in E as (a & b & c & ->).
    repeat (apply returns_bind; [solve [done|auto with wire]|intros ? _]). done.
  - unfold parse_client_payload, plain_field_ok. split.
    + destruct (len _ =? 3) eqn:E; simpl negb; [|done].
      apply Z.eqb_eq, len_3_inv in E as (a & b & c & E).
      destruct (join_split x00 payload) as (Hj & _ & Hl). rewrite E in *.
      intros H. inv_ok.
      repeat match goal with H : index _ _ = Ok _ |- _ => injection H as <- end.
      repeat match goal with H : as_utf8 _ = Ok _ |- _ => apply as_utf8_Ok in H as [-> ?] end.
      rewrite !Forall_cons in Hl. simpl. destruct Hl as (? & ? & ? & _). done.
    + destruct m as [a b c]; simpl. intros (-> & [? Ha] & [? Hb] & [? Hc]).
      rewrite build_split by done. simpl negb. unfold as_utf8.
      cbn [index get bind expect]. simpl. by rewrite !from_utf8_valid.
Qed.
