(* ===== verification/TestKit.v ===== *)
(** * Unit tests as computations

    The source's unit tests are replayed on the model: a test is a computation
    that panics where an assertion or an [unwrap] of the source fails, and it
    passes when it returns.  They check the definitions against the vectors the
    program's authors chose. *)
From stdpp Require Import base list numbers strings.
From Stdlib Require Import ZArith Lia.
From S2P Require Import Prelude Utf8 StrOps Io Consts BsonScalar F64 BsonValue BsonDecode Fuzz.
From S2P Require Import Header OpMsg OpLegacy OpCompressed Auth.
Local Open Scope Z_scope.

Abbreviation test := (outcome Empty_set ()).
Definition passes (t : test) : Prop := t = Ok ().

(** ** [PartialEq] *)

Class PartialEq (A : Type) := eqb : A → A → bool.
#[export] Instance PartialEq_decidable {A} `{EqDecision A} : PartialEq A | 100 :=
  λ a b, bool_decide (a = b).
#[export] Instance PartialEq_Bson : PartialEq Bson := Bson_eq.
#[export] Instance PartialEq_option {A} `{PartialEq A} : PartialEq (option A) := λ a b,
  match a, b with Some a, Some b => eqb a b | None, None => true | _, _ => false end.
#[export] Instance PartialEq_prod {A B} `{PartialEq A, PartialEq B} : PartialEq (A * B) := λ a b,
  eqb a.1 b.1 && eqb a.2 b.2.
#[export] Instance PartialEq_list {A} `{PartialEq A} : PartialEq (list A) :=
  fix go a b :=
    match a, b with
    | [], [] => true
    | x :: a, y :: b => eqb x y && go a b
    | _, _ => false
    end.
#[export] Instance PartialEq_outcome {E A} `{PartialEq E, PartialEq A} : PartialEq (outcome E A) := λ a b,
  match a, b with Ok a, Ok b => eqb a b | Err a, Err b => eqb a b | _, _ => false end.

#[export] Instance ReadError_eq_dec : EqDecision ReadError.
Proof. solve_decision. Defined.
#[export] Instance Scalar_eq_dec : EqDecision Scalar.
Proof. solve_decision. Defined.
#[export] Instance BsonError_eq_dec : EqDecision BsonError.
Proof. solve_decision. Defined.
#[export] Instance RawBsonRef_eq_dec : EqDecision RawBsonRef.
Proof. solve_decision. Defined.
#[export] Instance AuthError_eq_dec : EqDecision AuthError.
Proof. solve_decision. Defined.
#[export] Instance PlainMessage_eq_dec : EqDecision PlainMessage.
Proof. solve_decision. Defined.

Lemma bytes_eqb_refl (b : bytes) : eqb b b = true.
Proof.
  induction b as [|x b IH]; [done|]. change (eqb x x && eqb b b = true). rewrite IH, andb_true_r.
  by apply bool_decide_eq_true_2.
Qed.

(** ** Assertions *)

(** [assert_eq!] and [assert_ne!]. *)
Definition assert_eq {A} `{PartialEq A} (a b : A) : test := assert (eqb a b).
Lemma assert_eq_refl {A} `{EqDecision A} (a : A) : assert_eq a a = Ok ().
Proof. unfold assert_eq, eqb, PartialEq_decidable. by rewrite bool_decide_eq_true_2. Qed.
Definition assert_ne {A} `{PartialEq A} (a b : A) : test := assert (negb (eqb a b)).
(** [unwrap()] of a [Result] and of an [Option]. *)
Definition unwrap {E A} (m : outcome E A) : outcome Empty_set A := or_panic m.
Definition unwrap_some {A} (o : option A) : outcome Empty_set A := expect o.
(** [assert!(matches!(m, Err(e) if p(e)))]; [is_err()]. *)
Definition assert_err_if {E A} (p : E → bool) (m : outcome E A) : test :=
  match m with Err e => assert (p e) | Ok _ => Panic | Panic => Panic | Fuel => Fuel end.
Definition assert_err {E A} (m : outcome E A) : test := assert_err_if (λ _, true) m.
Definition assert_ok {E A} (m : outcome E A) : test := let* _ := unwrap m in Ok ().

Notation "a ;; b" := (bind a (fun _ => b)) (at level 100, b at level 200, right associativity) : wire_scope.

(** A loop that collects its results. *)
Fixpoint mapM_outcome {E A B} (f : A → outcome E B) (l : list A) : outcome E (list B) :=
  match l with
  | [] => Ok []
  | a :: l => let* b := f a in let* l := mapM_outcome f l in Ok (b :: l)
  end.

(** A text in double quotes. *)
Definition dq (s : str) : str := x22 :: s ++ [x22].
Definition nul : bytes := [x00].
Definition bs (l : list Z) : bytes := of_u8 <$> l.
