(* ===== verification/TestsCommon.v ===== *)
(** * The unit tests of [mongo_common], replayed

    The tests of [consts.rs], [io.rs], [bson/scalar.rs], [crc32c.rs] and
    [auth/plain.rs], in the source's order. *)
From stdpp Require Import base list numbers strings.
From Stdlib Require Import ZArith Lia.
From S2P Require Import Prelude Utf8 StrOps Io Consts BsonScalar F64 BsonValue BsonDecode Fuzz.
From S2P Require Import Framing Auth TestKit.
Local Open Scope Z_scope.

(** ** [consts.rs] *)

Definition test_header_len : test :=
  assert_eq MSG_HEADER_LEN 16 ;; assert_eq MSG_HEADER_LEN (4 * 4).
Definition test_limits_match_references : test :=
  assert_eq MAX_MSG_LEN 48000000 ;;
  assert_eq MAX_BSON_LEN 16777216 ;;
  assert_eq MAX_BSON_LEN (16 * 1024 * 1024).
Definition test_opcode_values : test :=
  assert_eq OP_REPLY 1 ;;
  assert_eq OP_UPDATE 2001 ;;
  assert_eq OP_INSERT 2002 ;;
  assert_eq OP_RESERVED 2003 ;;
  assert_eq OP_QUERY 2004 ;;
  assert_eq OP_GET_MORE 2005 ;;
  assert_eq OP_DELETE 2006 ;;
  assert_eq OP_KILL_CURSORS 2007 ;;
  assert_eq OP_COMPRESSED 2012 ;;
  assert_eq OP_MSG 2013.
Definition test_flag_bits : test :=
  assert_eq CHECKSUM_PRESENT 1 ;;
  assert_eq MORE_TO_COME 2 ;;
  assert_eq EXHAUST_ALLOWED (Z.shiftl 1 16).

(** ** [io.rs] *)

Definition test_read_scalars : test :=
  let r := bs [1; 0; 0; 0; 255; 0] in
  let* '(v, r) := unwrap (read_i32_le r) in
  assert_eq v 1 ;;
  let* '(b, r) := unwrap (read_u8 r) in
  assert_eq (u8 b) 255 ;;
  assert_eq (remaining r) 1 ;;
  assert_err_if (λ e, eqb e (ReadError_ShortInput 4 1)) (read_i32_le r).
Definition test_read_cstring_ok_and_error : test :=
  let r := lit "hello" ++ nul ++ lit "world" ++ nul ++ lit "rest" in
  let* '(a, r) := unwrap (read_cstring r) in
  assert_eq a (lit "hello") ;;
  let* '(b, r) := unwrap (read_cstring r) in
  assert_eq b (lit "world") ;;
  assert_eq r (lit "rest") ;;
  assert_err (read_cstring r).
Definition test_peek_does_not_advance : test :=
  let r := bs [7; 0; 0; 0; 9] in
  let* v := unwrap (peek_i32_le r) in
  assert_eq v 7 ;;
  assert_eq (remaining r) 5 ;;
  let* '(v, r) := unwrap (read_i32_le r) in
  assert_eq v 7.
Definition test_write_scalars_and_patch : test :=
  let w : bytes := [] in
  let '(pos, w) := placeholder_i32 w in
  let* w := unwrap (put_cstring w (lit "ab")) in
  let* w := put_i32_le_at w pos 3 in
  assert_eq w (bs [3; 0; 0; 0; 97; 98; 0]).
Definition test_write_cstring_rejects_nul : test :=
  let w : bytes := [] in
  assert_err (put_cstring w (lit "a" ++ nul ++ lit "b")) ;; assert_eq (len w) 0.

(** ** [bson/scalar.rs] *)

(** One of each kind; 1.5 as its bit pattern. *)
Definition scalar_cases : list Scalar :=
  [Scalar_Double 4609434218613702656; Scalar_String (lit "привет");
   Scalar_Binary (mkBinary BinarySubtype_Uuid (bs [1; 2; 3])); Scalar_Undefined;
   Scalar_ObjectId (replicate 12 x07); Scalar_Bool true; Scalar_DateTime (-42); Scalar_Null;
   Scalar_Regex (mkRegex (lit "^a") (lit "im"));
   Scalar_DbPointer (mkDbPointer (lit "a.b") (replicate 12 x09));
   Scalar_JavaScript (lit "1 + 1"); Scalar_Symbol (lit "sym"); Scalar_Int32 (-5);
   Scalar_Timestamp (mkTimestamp 123 456); Scalar_Int64 i64_min;
   Scalar_Decimal128 (replicate 16 x01); Scalar_MinKey; Scalar_MaxKey].
Definition test_roundtrip_scalars : test :=
  for_each (λ case,
    let* '(n, buf) := unwrap (encode_scalar case []) in
    let* '(decoded, used) := unwrap (parse_scalar (tag_of case) buf) in
    assert_eq used n ;; assert_eq decoded case) scalar_cases.
Definition test_truncated_input_errors : test :=
  let* '(_, buf) := unwrap (encode_scalar (Scalar_String (lit "hello")) []) in
  for_each (λ n, assert_err (parse_scalar TAG_STRING (takeZ n buf))) (seqZ 0 (len buf)).
Definition test_composite_tags_rejected : test :=
  for_each (λ tag, assert_err (parse_scalar tag (replicate 16 x00)))
    [TAG_DOCUMENT; TAG_ARRAY; TAG_JAVASCRIPT_SCOPE].
Definition test_binary_old_subtype : test :=
  let input := le_encode 4 7 ++ bs [2] ++ le_encode 4 3 ++ bs [1; 2; 3] in
  let* '(s, used) := unwrap (parse_scalar TAG_BINARY input) in
  assert_eq used (len input) ;;
  assert_eq s (Scalar_Binary (mkBinary BinarySubtype_BinaryOld (bs [1; 2; 3]))).
Definition test_wire_order_timestamp : test :=
  let input := le_encode 4 170 ++ le_encode 4 187 in
  let* '(s, used) := unwrap (parse_scalar TAG_TIMESTAMP input) in
  assert_eq used 8 ;;
  assert_eq s (Scalar_Timestamp (mkTimestamp 187 170)).

(** [object_id_counter]. *)
Definition object_id_counter (id : ObjectId) : outcome Empty_set Z :=
  let* b9 := index id 9 in let* b10 := index id 10 in let* b11 := index id 11 in
  Ok (Z.lor (Z.lor (Z.shiftl (u8 b9) 16) (Z.shiftl (u8 b10) 8)) (u8 b11)).
(** The clock reads [now] throughout and no other thread generates ids; the
    random bytes of the eight calls are given. *)
Definition test_object_id_new_layout (now : Z) (randoms : list bytes) (counter : Z) : test :=
  let ids := object_ids ((λ r, (Some now, r)) <$> randoms) counter in
  for_each (λ id,
    let* b := slice id 0 4 in
    assert (now - le_decode (rev b) <=? 2)) ids ;;
  for_each (λ pair,
    let* c1 := object_id_counter pair.2 in
    let* c0 := object_id_counter pair.1 in
    let delta := (c1 - c0) mod 2 ^ 32 in
    assert ((1 <=? delta) && (delta <=? 1000)) ;;
    assert_ne pair.1 pair.2) (zip ids (drop 1 ids)) ;;
  assert (4 <=? len (remove_dups ((λ id, takeZ 5 (dropZ 4 id)) <$> ids))).

Definition HEX : str := lit "507f1f77bcf86cd799439011".
Definition is_lower_hex (b : byte) : bool :=
  ((48 <=? u8 b) && (u8 b <=? 57)) || ((97 <=? u8 b) && (u8 b <=? 102)).
Definition test_object_id_hex_roundtrip (generated : list ObjectId) : test :=
  let id := bs [80; 127; 31; 119; 188; 248; 108; 215; 153; 67; 144; 17] in
  assert_eq (ObjectId_to_hex id) HEX ;;
  let* id' := unwrap (ObjectId_from_hex HEX) in
  assert_eq id' id ;;
  let* upper := unwrap (ObjectId_from_hex (lit "507F1F77BCF86CD799439011")) in
  assert_eq upper id ;;
  assert_eq (ObjectId_to_hex upper) HEX ;;
  for_each (λ generated,
    let hex := ObjectId_to_hex generated in
    assert_eq (len hex) 24 ;;
    assert (forallb is_lower_hex hex) ;;
    let* back := unwrap (ObjectId_from_hex hex) in
    assert_eq back generated ;;
    let* '(_, buf) := unwrap (encode_scalar (Scalar_ObjectId generated) []) in
    let* '(decoded, used) := unwrap (parse_scalar TAG_OBJECT_ID buf) in
    assert_eq used 12 ;;
    assert_eq decoded (Scalar_ObjectId generated)) generated.
Definition test_object_id_hex_errors : test :=
  assert_eq (ObjectId_from_hex (takeZ 23 HEX))
    (Err (ScalarError_Invalid TAG_OBJECT_ID "object id hex string must be 24 characters")) ;;
  assert_err (ObjectId_from_hex []) ;;
  assert_err (ObjectId_from_hex (lit "507F1F77BCF86CD7994390110")) ;;
  for_each (λ bad,
    assert_eq (ObjectId_from_hex bad)
      (Err (ScalarError_Invalid TAG_OBJECT_ID "object id hex string contains a non-hex character")))
    [lit "507f1f77bcf86cd79943901g"; lit "507f1f77bcf86cd79943901 "; lit "z07f1f77bcf86cd799439011";
     lit "507f1f77bcf86cd79943901" ++ [x01]] ;;
  assert_err (ObjectId_from_hex (lit "разработка")) ;;
  assert_err (ObjectId_from_hex (lit "507f1f77bcf86cd79943901😀")).

(** ** [crc32c.rs] *)

Definition test_verify_roundtrip (crc : bytes → Z) : test :=
  let data := lit "hello, mongodb wire protocol" in
  let c := crc_checksum crc data in
  assert (crc_verify crc data c) ;; assert (negb (crc_verify crc data (Z.lxor c 1))).

(** ** [auth/plain.rs] *)

Definition test_plain_roundtrip : test :=
  let b := build_client_payload [] (lit "user") (lit "pwd") in
  assert_eq b (nul ++ lit "user" ++ nul ++ lit "pwd") ;;
  let* parsed := unwrap (parse_client_payload b) in
  assert_eq parsed (mkPlain [] (lit "user") (lit "pwd")).
Definition two_separators : AuthError := AuthError_InvalidMessage "expected two NUL separators".
Definition test_too_many_nuls_rejected : test :=
  assert_eq (parse_client_payload (lit "a" ++ nul ++ lit "b" ++ nul ++ lit "c" ++ nul ++ lit "d"))
    (Err two_separators).
Definition test_too_few_nuls_rejected : test :=
  assert_eq (parse_client_payload (lit "abc")) (Err two_separators) ;;
  assert_eq (parse_client_payload (lit "a" ++ nul ++ lit "b")) (Err two_separators) ;;
  assert_eq (parse_client_payload []) (Err two_separators).
Definition test_roundtrip_with_all_fields : test :=
  let b := build_client_payload (lit "authz") (lit "authc") (lit "p@ss word") in
  assert_eq b (lit "authz" ++ nul ++ lit "authc" ++ nul ++ lit "p@ss word") ;;
  let* parsed := unwrap (parse_client_payload b) in
  assert_eq parsed (mkPlain (lit "authz") (lit "authc") (lit "p@ss word")).
Definition test_empty_fields_are_allowed : test :=
  let* parsed := unwrap (parse_client_payload (nul ++ nul)) in
  assert_eq parsed (mkPlain [] [] []).
Definition test_invalid_utf8_rejected : test :=
  assert_eq (parse_client_payload (lit "a" ++ nul ++ lit "b" ++ nul ++ [xff]))
    (Err (AuthError_InvalidMessage "payload is not valid UTF-8")).

(** ** They pass *)

Definition tests_common : list test :=
  [test_header_len; test_limits_match_references; test_opcode_values; test_flag_bits;
   test_read_scalars; test_read_cstring_ok_and_error; test_peek_does_not_advance;
   test_write_scalars_and_patch; test_write_cstring_rejects_nul;
   test_roundtrip_scalars; test_truncated_input_errors; test_composite_tags_rejected;
   test_binary_old_subtype; test_wire_order_timestamp; test_object_id_hex_errors;
   test_plain_roundtrip; test_too_many_nuls_rejected; test_too_few_nuls_rejected;
   test_roundtrip_with_all_fields; test_empty_fields_are_allowed; test_invalid_utf8_rejected].
Lemma tests_common_pass : Forall passes tests_common.
Proof. repeat (constructor; [vm_compute; reflexivity|]). constructor. Qed.

(** With any checksum function, and with the identifiers of given clock readings
    and random bytes. *)
Lemma test_verify_roundtrip_passes crc : passes (test_verify_roundtrip crc).
Proof.
  unfold passes, test_verify_roundtrip, crc_verify, crc_checksum. rewrite Z.eqb_refl. cbn [assert bind].
  replace (_ =? Z.lxor _ 1) with false; [done|]. symmetry. apply Z.eqb_neq. intros H.
  apply (f_equal (λ z, Z.testbit z 0)) in H. rewrite Z.lxor_spec in H. cbn in H.
  match type of H with ?x = _ => by destruct x end.
Qed.
Definition eight_randoms : list bytes := (λ n, le_encode 5 n) <$> seqZ 1 8.
Lemma test_object_id_new_passes :
  passes (test_object_id_new_layout 1700000000 eight_randoms 40)
  ∧ passes (test_object_id_hex_roundtrip
              (object_ids [(Some 1700000000, replicate 5 x2a); (None, replicate 5 xff)] 7)).
Proof. split; vm_compute; reflexivity. Qed.
