(* ===== verification/TestsBson.v ===== *)
(** * The unit tests of [wirebson], replayed

    The tests of [document.rs], [array.rs], [encode.rs], [raw.rs], [decode.rs]
    and [macros.rs], in the source's order, and the scalar conversions'.  Doubles
    are written as their bit patterns. *)
From stdpp Require Import base list numbers strings.
From Stdlib Require Import ZArith Lia.
From S2P Require Import Prelude Utf8 StrOps Io Consts BsonScalar F64 BsonValue Convert Macros BsonEncode.
From S2P Require Import BsonDecode BsonRoundtrip LogText LogFormat OpLegacy Fuzz TestKit TestsCommon.
Local Open Scope Z_scope.

(** [doc.add(name, value)] on a document under construction. *)
Notation "d +: ( n , v )" := (Document_add d n v) (at level 50, left associativity) : wire_scope.

(** ** [document.rs] *)

Definition test_get_get_mut : test :=
  let doc := Document_new +: (lit "a", Bson_Int32 1) +: (lit "b", Bson_String (lit "x"))
               +: (lit "a", Bson_Int32 2) in
  assert_eq (Document_get doc (lit "a")) (Some (Bson_Int32 1)) ;;
  assert_eq (Document_get doc (lit "b")) (Some (Bson_String (lit "x"))) ;;
  assert_eq (Document_get doc (lit "c")) None ;;
  let doc := default doc (Document_get_mut doc (lit "b") (λ _, Bson_Int64 9)) in
  assert_eq (Document_get doc (lit "b")) (Some (Bson_Int64 9)) ;;
  assert_eq (Document_get_mut doc (lit "c") id) None.
Definition test_remove_all_duplicates : test :=
  let doc := Document_new +: (lit "a", Bson_Int32 1) +: (lit "b", Bson_Int32 2)
               +: (lit "a", Bson_Int32 3) +: (lit "a", Bson_Int32 4) in
  let* '(removed, doc) := unwrap (Document_remove doc (lit "a")) in
  assert_eq removed (Some (Bson_Int32 1)) ;;
  assert_eq (Document_len doc) 1 ;;
  assert_eq (Document_get doc (lit "a")) None ;;
  let* '(removed, doc) := unwrap (Document_remove doc (lit "a")) in
  assert_eq removed None ;;
  assert_eq (Document_get doc (lit "b")) (Some (Bson_Int32 2)).
Definition test_replace_existing_or_append : test :=
  let doc := Document_new +: (lit "a", Bson_Int32 1) in
  let doc := Document_replace doc (lit "a") (Bson_String (lit "replaced")) in
  assert_eq (Document_len doc) 1 ;;
  assert_eq (Document_get doc (lit "a")) (Some (Bson_String (lit "replaced"))) ;;
  let doc := Document_replace doc (lit "b") (Bson_Int32 2) in
  assert_eq (Document_len doc) 2 ;;
  assert_eq (Document_get doc (lit "b")) (Some (Bson_Int32 2)) ;;
  assert_eq (Document_field_names doc) [lit "a"; lit "b"].
Definition test_command_and_iter : test :=
  let empty := Document_new in
  assert_eq (Document_command empty) None ;;
  assert (Document_is_empty empty) ;;
  let doc := Document_new +: (lit "insert", Bson_Int32 1) +: (lit "other", Bson_Int32 2) in
  assert_eq (Document_command doc) (Some (lit "insert")) ;;
  assert_eq doc [(lit "insert", Bson_Int32 1); (lit "other", Bson_Int32 2)].
(** Encodes, and both depths decode to [doc] and re-encode to the same bytes. *)
Definition assert_roundtrip (doc : Document) : test :=
  let* raw := unwrap (Document_encode doc) in
  for_each (λ decode : RawDocument → outcome BsonError Document,
    let* decoded := unwrap (decode raw) in
    assert_eq decoded doc ;;
    let* again := unwrap (Document_encode decoded) in
    assert_eq again raw) [RawDocument_shallow; RawDocument_deep].
Definition test_document_roundtrip : test :=
  assert_roundtrip
    (Document_new +: (lit "hello", Bson_String (lit "world"))
       +: (lit "arr", Bson_Array [Bson_Bool true; Bson_Null])
       +: (lit "dup", Bson_Int32 1) +: (lit "dup", Bson_Int32 2)).
Definition test_from_iterator_pairs : test :=
  let doc := Document_from_iter lit id [("a", Bson_Int32 1); ("b", Bson_from (Native_str (lit "two")))]%string in
  assert_eq (Document_len doc) 2 ;;
  assert_eq (Document_get doc (lit "a")) (Some (Bson_Int32 1)) ;;
  assert_eq (Document_get doc (lit "b")) (Some (Bson_String (lit "two"))).
Definition test_document_display : test :=
  let doc := Document_new +: (lit "a", Bson_Int32 1) in
  let* s := Document_fmt (λ _, true) doc in
  assert_eq s (lit "{" ++ dq (lit "a") ++ lit ": 1}").

(** ** [array.rs] *)

Definition test_push_iter_len : test :=
  let arr := Array_new in
  assert (Array_is_empty arr) ;;
  let arr := Array_push (Array_push (Array_push arr (Bson_Int32 1)) (Bson_String (lit "two"))) Bson_Null in
  assert_eq (Array_len arr) 3 ;;
  assert_eq arr [Bson_Int32 1; Bson_String (lit "two"); Bson_Null].
Definition test_array_roundtrip : test :=
  let arr := Array_push (Array_push Array_new (Bson_Int32 (-1))) (Bson_Array [Bson_String (lit "inner")]) in
  let* raw := unwrap (Array_encode arr) in
  let* deep := unwrap (RawArray_deep raw) in
  assert_eq deep arr ;;
  let* shallow := unwrap (RawArray_shallow raw) in
  assert_eq shallow arr ;;
  let* again := unwrap (Array_encode deep) in
  assert_eq again raw.
Definition test_array_display : test :=
  let* s := Array_fmt (λ _, true) [Bson_Int32 1; Bson_Null] in
  assert_eq s (lit "[1, null]").

(** ** [encode.rs] *)

(** The canonical document from bsonspec.org. *)
Definition HELLO : bytes :=
  bs [22; 0; 0; 0; 2] ++ lit "hello" ++ bs [0; 6; 0; 0; 0] ++ lit "world" ++ bs [0; 0].
Definition test_encode_hello_world_byte_exact : test :=
  let* raw := unwrap (Document_encode (Document_new +: (lit "hello", Bson_String (lit "world")))) in
  assert_eq raw HELLO.
Definition test_encode_empty_document : test :=
  let* raw := unwrap (Document_encode Document_new) in assert_eq raw (bs [5; 0; 0; 0; 0]).
Definition test_encode_array_keys : test :=
  let* out := unwrap (encode_array [Bson_Int32 7; Bson_Null] []) in
  assert_eq out (le_encode 4 15 ++ bs [16; 48; 0] ++ le_encode 4 7 ++ bs [10; 49; 0] ++ bs [0]).
Definition test_encode_rejects_interior_nul : test :=
  let doc : Document := [(lit "a" ++ nul ++ lit "b", Bson_Int32 1)] in
  assert_err_if (λ e, match e with BsonError_InvalidInput _ _ => true | _ => false end)
    (Document_encode doc) ;;
  assert_roundtrip (Document_new +: (lit "bad", Bson_String (lit "va" ++ nul ++ lit "lue"))).
Definition test_roundtrip_every_variant : test :=
  let inner : Document := [(lit "x", Bson_MinKey)] in
  let* scope := unwrap (Document_encode [(lit "scope", Bson_Bool true)]) in
  let doc := Document_new
    +: (lit "double", Bson_Double 4631126087693909361)
    +: (lit "double_neg_zero", Bson_Double 9223372036854775808)
    +: (lit "string", Bson_String (lit "привет"))
    +: (lit "document", Bson_Document inner)
    +: (lit "array", Bson_Array [Bson_Null; Bson_Int32 1]) in
  let doc := foldl (λ doc '(name, st),
      doc +: (name, Bson_Binary (mkBinary st (bs [10; 11; 12])))) doc
    [(lit "binary_generic", BinarySubtype_Generic); (lit "binary_function", BinarySubtype_Function);
     (lit "binary_old", BinarySubtype_BinaryOld); (lit "binary_uuid_old", BinarySubtype_UuidOld);
     (lit "binary_uuid", BinarySubtype_Uuid); (lit "binary_md5", BinarySubtype_Md5);
     (lit "binary_encrypted", BinarySubtype_Encrypted);
     (lit "binary_user", BinarySubtype_UserDefined x80)] in
  assert_roundtrip
    (doc +: (lit "undefined", Bson_Undefined)
       +: (lit "object_id", Bson_ObjectId (replicate 12 x01))
       +: (lit "bool", Bson_Bool true)
       +: (lit "datetime", Bson_DateTime (-42))
       +: (lit "null", Bson_Null)
       +: (lit "regex", Bson_Regex (mkRegex (lit "^a") (lit "im")))
       +: (lit "db_pointer", Bson_DbPointer (mkDbPointer (lit "a.b") (replicate 12 x02)))
       +: (lit "javascript", Bson_JavaScript (lit "1 + 1"))
       +: (lit "symbol", Bson_Symbol (lit "sym"))
       +: (lit "javascript_scope", Bson_JavaScriptScope (lit "code()") scope)
       +: (lit "int32", Bson_Int32 i32_min)
       +: (lit "timestamp", Bson_Timestamp (mkTimestamp 287454020 1432778632))
       +: (lit "int64", Bson_Int64 i64_max)
       +: (lit "decimal128", Bson_Decimal128 (bs (seqZ 1 16)))
       +: (lit "min_key", Bson_MinKey)
       +: (lit "max_key", Bson_MaxKey)).
Definition test_binary_old_layout : test :=
  let v := Bson_Binary (mkBinary BinarySubtype_BinaryOld (bs [1; 2; 3])) in
  let* raw := unwrap (Document_encode (Document_new +: (lit "b", v))) in
  assert_eq raw (le_encode 4 20 ++ bs [5; 98; 0] ++ le_encode 4 7 ++ bs [2] ++ le_encode 4 3
                 ++ bs [1; 2; 3] ++ bs [0]) ;;
  let* decoded := unwrap (RawDocument_deep raw) in
  assert_eq (Document_get decoded (lit "b")) (Some v).
Definition test_truncation_never_panics : test :=
  let doc := Document_new +: (lit "d", Bson_Document [(lit "x", Bson_Int32 1)])
               +: (lit "a", Bson_Array [Bson_Null]) in
  let* raw := unwrap (Document_encode doc) in
  for_each (λ n, assert_err (RawDocument_from_vec (takeZ n raw))) (seqZ 0 (len raw)).

(** The rendering of [log_document], with every character printed as it is. *)
#[local] Abbreviation log_document := (log_document (λ _, true)).
Definition field (name : string) (v : str) : str := dq (lit name) ++ lit ": " ++ v.
Definition comma_sep : str := lit ", ".
Definition test_log_compact : test :=
  let doc := Document_new +: (lit "hello", Bson_String (lit "world")) +: (lit "n", Bson_Int32 42)
    +: (lit "arr", Bson_Array [Bson_Int32 1; Bson_Null])
    +: (lit "empty_doc", Bson_Document Document_new) +: (lit "empty_arr", Bson_Array Array_new) in
  let* s := log_document doc false in
  assert_eq s (lit "{" ++ field "hello" (dq (lit "world")) ++ comma_sep ++ field "n" (lit "42") ++ comma_sep
    ++ field "arr" (lit "[1, null]") ++ comma_sep ++ field "empty_doc" (lit "{}") ++ comma_sep
    ++ field "empty_arr" (lit "[]") ++ lit "}").
Definition test_log_indent : test :=
  let doc := Document_new +: (lit "a", Bson_Int32 1)
    +: (lit "d", Bson_Document [(lit "b", Bson_Bool true)]) in
  let* s := log_document doc true in
  let nl := [newline] in
  assert_eq s (lit "{" ++ nl ++ lit "  " ++ field "a" (lit "1,") ++ nl ++ lit "  " ++ field "d" (lit "{") ++ nl
    ++ lit "    " ++ field "b" (lit "true,") ++ nl ++ lit "  }," ++ nl ++ lit "}").
Definition test_log_special_values : test :=
  let arr :=
    [Bson_Double 9221120237041090560; Bson_Double f64_inf; Bson_Double (2 ^ 63 + f64_inf);
     Bson_Double 4631107791820423168; Bson_Double (2 ^ 63); Bson_Undefined;
     Bson_ObjectId (replicate 12 xab); Bson_Bool false; Bson_DateTime 1627378542123;
     Bson_DateTime (-62135596800000); Bson_Null; Bson_Regex (mkRegex (lit "p") (lit "o"));
     Bson_Int32 7; Bson_Timestamp (mkTimestamp 5 6); Bson_Int64 9; Bson_MinKey; Bson_MaxKey] in
  let* s := log_array (λ _, true) arr false in
  assert_eq s (lit "[NaN, +Inf, -Inf, 42.0, -0.0, undefined, "
    ++ lit "ObjectId('abababababababababababab'), false, "
    ++ lit "2021-07-27T09:35:42.123Z, 0001-01-01T00:00:00Z, null, /p/o, "
    ++ lit "7, Timestamp({s: 5, i: 6}), int64(9), MinKey, MaxKey]").
Definition test_log_js_scope_and_binary : test :=
  let* scope := unwrap (Document_encode Document_new) in
  let doc := Document_new +: (lit "js", Bson_JavaScriptScope (lit "1") scope)
    +: (lit "b", Bson_Binary (mkBinary (BinarySubtype_UserDefined x80) (lit "hi")))
    +: (lit "sym", Bson_Symbol (lit "s")) in
  let* s := log_document doc false in
  assert_eq s (lit "{"
    ++ field "js" (lit "JavaScriptScope({code: " ++ dq (lit "1") ++ lit ", scope: RawDocument<5>})")
    ++ comma_sep ++ field "b" (lit "Binary(user:aGk=)") ++ comma_sep
    ++ field "sym" (lit "Symbol(" ++ dq (lit "s") ++ lit ")") ++ lit "}").
(** [s.matches(p).count()] for a pattern that cannot overlap itself, and
    [s.contains(p)]. *)
Definition occurrences (p s : bytes) : Z :=
  len (filter (λ i, starts_with p (drop i s) = true) (seq 0 (length s))).
Fixpoint wrapped (n : nat) (doc : Document) : Document :=
  match n with O => doc | S n => wrapped n [(lit "f", Bson_Document doc)] end.
Definition test_log_depth_cutoff : test :=
  let doc := wrapped (Z.to_nat MAX_NESTING_DEPTH + 5) [(lit "v", Bson_Int32 1)] in
  let* rendered := log_document doc false in
  assert_eq (occurrences (dq (lit "f") ++ lit ":") rendered) MAX_NESTING_DEPTH ;;
  assert (0 <? occurrences (lit "{...}") rendered).
(** The property test: what the strategy builds re-encodes byte for byte. *)
Definition test_encode_decode_byte_stable (doc : Document) : test :=
  let* bytes := unwrap (Document_encode doc) in
  let* raw := unwrap (RawDocument_from_bytes bytes) in
  for_each (λ decode : RawDocument → outcome BsonError Document,
    let* decoded := unwrap (decode raw) in
    let* reencoded := unwrap (Document_encode decoded) in
    assert_eq reencoded bytes) [RawDocument_shallow; RawDocument_deep].

(** ** [raw.rs] *)

Definition test_from_bytes_accepts_canonical_document : test :=
  let* raw := unwrap (RawDocument_from_bytes HELLO) in
  assert_eq (len raw) 22 ;; assert_eq raw HELLO.
Definition test_from_bytes_short_input : test :=
  for_each (λ n, assert_eq (RawDocument_from_bytes (takeZ n HELLO)) (Err (BsonError_ShortInput MIN_DOC_LEN n)))
    (seqZ 0 MIN_DOC_LEN).
Definition test_from_bytes_length_mismatch : test :=
  assert_eq (RawDocument_from_vec (HELLO ++ [xaa])) (Err (BsonError_LengthMismatch 22 23)) ;;
  assert_eq (RawDocument_from_bytes (takeZ 21 HELLO)) (Err (BsonError_LengthMismatch 22 21)) ;;
  let* v := set_index HELLO 0 x15 in
  assert_eq (RawDocument_from_vec v) (Err (BsonError_LengthMismatch 21 22)).
Definition invalid_at (offset : Z) (e : BsonError) : bool :=
  match e with BsonError_InvalidInput o _ => o =? offset | _ => false end.
Definition test_from_bytes_missing_nul_and_tiny_declared : test :=
  let last := len HELLO - 1 in
  let* v := set_index HELLO last x01 in
  assert_err_if (invalid_at last) (RawDocument_from_vec v) ;;
  let* v := set_index (replicate 8 x00) 0 x04 in
  assert_err_if (invalid_at 0) (RawDocument_from_vec v).
(** [raw.get(key).unwrap().unwrap().to_bson().unwrap()]. *)
Definition get_bson (raw : RawDocument) (key : str) : outcome Empty_set Bson :=
  let* v := unwrap (RawDocument_get raw key) in
  let* v := unwrap_some v in
  unwrap (RawBsonRef_to_bson v).
Definition test_shallow_and_deep_agree : test :=
  let* raw := unwrap (RawDocument_from_bytes HELLO) in
  let* shallow := unwrap (RawDocument_shallow raw) in
  let* deep := unwrap (RawDocument_deep raw) in
  assert_eq shallow deep ;;
  let* v := get_bson raw (lit "hello") in
  assert_eq v (Bson_String (lit "world")).
Definition test_get_first_duplicate : test :=
  let doc := Document_new +: (lit "a", Bson_Int32 1) +: (lit "a", Bson_Int32 2) +: (lit "b", Bson_Int32 3) in
  let* raw := unwrap (Document_encode doc) in
  let* a := get_bson raw (lit "a") in
  assert_eq a (Bson_Int32 1) ;;
  let* b := get_bson raw (lit "b") in
  assert_eq b (Bson_Int32 3) ;;
  let* c := unwrap (RawDocument_get raw (lit "c")) in
  assert (negb (is_some c)).
(** [fields().take(n)]: the items of [n] calls of [next]. *)
Fixpoint next_items (n : nat) (it : FieldsIter)
  : outcome BsonError (list (option (sum BsonError (str * RawBsonRef)))) :=
  match n with
  | O => Ok []
  | S n =>
      let* '(item, it) := FieldsIter_next it in
      let* rest := next_items n it in
      Ok (item :: rest)
  end.
Definition test_fields_iterates_in_order : test :=
  let doc := Document_new +: (lit "one", Bson_Int32 1) +: (lit "two", Bson_String (lit "two"))
               +: (lit "three", Bson_Bool true) in
  let* raw := unwrap (Document_encode doc) in
  let* items := unwrap (next_items 5 (RawDocument_fields raw)) in
  assert (bool_decide (items =
    [Some (inr (lit "one", RawBsonRef_Int32 1)); Some (inr (lit "two", RawBsonRef_String (lit "two")));
     Some (inr (lit "three", RawBsonRef_Bool true)); None; None])).
(** A nested document that declares more bytes than its parent has. *)
Definition overlong_child : bytes :=
  le_encode 4 16 ++ bs [3; 100; 0] ++ le_encode 4 64 ++ le_encode 4 5 ++ bs [0].
Definition test_fields_error_on_malformed : test :=
  let* raw := unwrap (RawDocument_from_vec overlong_child) in
  let* '(item, _) := unwrap (FieldsIter_next (RawDocument_fields raw)) in
  let* item := unwrap_some item in
  assert (match item with inl _ => true | inr _ => false end).
Definition test_command_names : test :=
  let* raw := unwrap (RawDocument_from_bytes HELLO) in
  let* name := unwrap (RawDocument_command raw) in
  assert_eq name (lit "hello") ;;
  let* empty := unwrap (RawDocument_from_vec (bs [5; 0; 0; 0; 0])) in
  let* name := unwrap (RawDocument_command empty) in
  assert_eq name [] ;;
  let* raw := unwrap (RawDocument_from_vec (le_encode 4 9 ++ bs [10; 255; 254; 0] ++ bs [0])) in
  assert_err_if (λ e, match e with BsonError_Utf8 _ => true | _ => false end) (RawDocument_command raw).
Definition test_raw_array_roundtrip : test :=
  let arr := [Bson_Int32 7; Bson_Null] in
  let* enc := unwrap (Array_encode arr) in
  let* raw := unwrap (RawArray_from_vec enc) in
  let* shallow := unwrap (RawArray_shallow raw) in
  assert_eq shallow arr ;;
  let* deep := unwrap (RawArray_deep raw) in
  assert_eq deep arr ;;
  assert_eq (len raw) (4 + 7 + 3 + 1).
Definition test_raw_display : test :=
  let doc := Document_new +: (lit "hello", Bson_String (lit "world")) +: (lit "n", Bson_Int32 42) in
  let* raw := unwrap (Document_encode doc) in
  let* s := RawDocument_fmt (λ _, true) raw false in
  assert_eq s (lit "{" ++ field "hello" (dq (lit "world")) ++ comma_sep ++ field "n" (lit "42") ++ lit "}") ;;
  let* s := RawDocument_fmt (λ _, true) raw true in
  let nl := [newline] in
  assert_eq s (lit "{" ++ nl ++ lit "  " ++ field "hello" (dq (lit "world")) ++ lit "," ++ nl
    ++ lit "  " ++ field "n" (lit "42") ++ lit "," ++ nl ++ lit "}").

(** ** [decode.rs] *)

Definition decode_deep (b : bytes) : outcome BsonError Document := decode_document b Mode_Deep 1.
Definition test_hello_world : test :=
  let* doc := unwrap (decode_deep HELLO) in
  assert_eq (Document_len doc) 1 ;;
  assert_eq (Document_get doc (lit "hello")) (Some (Bson_String (lit "world"))) ;;
  let* shallow := unwrap (decode_document HELLO Mode_Shallow 1) in
  assert_eq doc shallow.
Definition test_empty_document : test :=
  let* doc := unwrap (decode_deep (bs [5; 0; 0; 0; 0])) in assert (Document_is_empty doc).
Definition int32_element (name : Z) (v : Z) : bytes := bs [TAG_INT32; name; 0] ++ le_encode 4 v.
Definition test_array_elements_in_order_names_ignored : test :=
  let b := le_encode 4 14 ++ int32_element 48 1 ++ int32_element 55 2 ++ bs [0] in
  let* arr := unwrap (decode_array decode_gas b Mode_Deep 1) in
  assert_eq arr [Bson_Int32 1; Bson_Int32 2].
Definition test_duplicates_preserved_get_first : test :=
  let b := le_encode 4 17 ++ int32_element 97 1 ++ int32_element 97 2 ++ bs [0] in
  let* doc := unwrap (decode_deep b) in
  assert_eq (Document_len doc) 2 ;;
  assert_eq (Document_get doc (lit "a")) (Some (Bson_Int32 1)).
Definition test_nested_composites : test :=
  let* y := unwrap (Document_encode [(lit "y", Bson_Null)]) in
  let* scope := unwrap (RawDocument_from_vec y) in
  assert_roundtrip
    [(lit "d", Bson_Document [(lit "x", Bson_Int32 1)]);
     (lit "a", Bson_Array [Bson_String (lit "s")]);
     (lit "js", Bson_JavaScriptScope (lit "1 + 1") scope)].
Definition test_js_scope_length_mismatch : test :=
  let* scope := unwrap (Document_encode [(lit "y", Bson_Null)]) in
  let '(pos, value) := placeholder_i32 [] in
  let* '(_, value) := unwrap (encode_scalar (Scalar_String (lit "code")) value) in
  let value := put_bytes value scope in
  let* value := put_i32_le_at value pos (as_i32 (len value - pos + 1)) in
  let doc_bytes := le_encode 4 (len value + 8) ++ bs [TAG_JAVASCRIPT_SCOPE; 99; 0] ++ value ++ bs [0] in
  assert_err_if (λ e, match e with BsonError_LengthMismatch _ _ => true | _ => false end) (decode_deep doc_bytes).
Definition is_invalid (e : BsonError) : bool :=
  match e with BsonError_InvalidInput _ _ => true | _ => false end.
Definition test_premature_terminator_rejected : test :=
  assert_err_if is_invalid (decode_deep (le_encode 4 10 ++ bs [0] ++ bs [42; 0; 0; 0])).
Definition test_unknown_tag_rejected : test :=
  assert_err_if is_invalid (decode_deep (le_encode 4 8 ++ bs [66; 97; 0] ++ bs [0])).
Definition test_truncated_fields_error_never_panic : test :=
  for_each (λ n, assert_err (decode_deep (takeZ n overlong_child))) (seqZ 0 (len overlong_child)) ;;
  assert_err (decode_deep overlong_child).
Definition test_depth_guard_boundary : test :=
  let build n := unwrap (Document_encode (wrapped n [(lit "v", Bson_Int32 42)])) in
  let* ok := build 19%nat in
  assert_ok (decode_document ok Mode_Deep 1) ;;
  let* too_deep := build 20%nat in
  assert_err_if (λ e, eqb e (BsonError_NestedTooDeep MAX_NESTING_DEPTH))
    (decode_document too_deep Mode_Deep 1) ;;
  assert_err_if (λ e, eqb e (BsonError_NestedTooDeep MAX_NESTING_DEPTH))
    (decode_document too_deep Mode_Shallow 1).
Definition borrowed_scalar_cases : list Scalar :=
  [Scalar_Double 4631126087693909361; Scalar_String (lit "привет");
   Scalar_Binary (mkBinary BinarySubtype_Generic (bs [1; 2; 3]));
   Scalar_Binary (mkBinary BinarySubtype_BinaryOld (replicate 7 x09));
   Scalar_Binary (mkBinary BinarySubtype_Uuid []);
   Scalar_Binary (mkBinary (BinarySubtype_UserDefined x80) [x42]);
   Scalar_Undefined; Scalar_ObjectId (replicate 12 x07); Scalar_Bool true; Scalar_DateTime (-42);
   Scalar_Null; Scalar_Regex (mkRegex (lit "^a") (lit "im"));
   Scalar_DbPointer (mkDbPointer (lit "a.b") (replicate 12 x09)); Scalar_JavaScript (lit "1 + 1");
   Scalar_Symbol (lit "sym"); Scalar_Int32 (-5); Scalar_Timestamp (mkTimestamp 123 456);
   Scalar_Int64 i64_min; Scalar_Decimal128 (replicate 16 x01); Scalar_MinKey; Scalar_MaxKey].
Definition test_scalar_parsing_matches_mongo_common : test :=
  for_each (λ case,
    let tag := tag_of case in
    let* '(_, buf) := unwrap (encode_scalar case []) in
    let* '(expected, expected_len) := unwrap (parse_scalar tag buf) in
    let* '(actual, actual_len) := unwrap (parse_value tag buf buf 0) in
    assert_eq actual_len expected_len ;;
    let* v := unwrap (RawBsonRef_to_bson actual) in
    assert_eq v (Bson_from_scalar expected)) borrowed_scalar_cases.
Definition test_spec_convention_binary_len : test :=
  let buf := bs [4; 0; 0; 0; 0; 1; 2; 3] in
  assert_err (parse_value TAG_BINARY buf buf 0).

(** ** [macros.rs] *)

(** [doc! { name: value, .. }] and [arr![..]] in the tokens of the source; an
    expression stands for the value it converts to. *)
#[local] Abbreviation i32 n := (Tok_expr (Bson_from (Native_i32 n))).
#[local] Abbreviation i64 n := (Tok_expr (Bson_from (Native_i64 n))).
#[local] Abbreviation f64_lit n := (Tok_expr (Bson_from (Native_f64 n))).
#[local] Abbreviation text s := (Tok_literal (lit s)).
#[local] Abbreviation boolean b := (Tok_expr (Bson_from (Native_bool b))).
Definition one_and_quarter : f64 := 4608308318706860032.
Definition pair (name : string) (t : token) : list token := [Tok_literal (lit name); Tok_colon; t].
Definition tokens (l : list (list token)) : list token := mjoin (list.reverse (
  match list.reverse l with [] => [] | x :: t => x :: ((λ y, y ++ [Tok_comma]) <$> t) end)).
Definition doc_of (l : list (list token)) : outcome Empty_set Document := expect (doc_macro (tokens l)).
Definition arr_of (l : list (list token)) : outcome Empty_set Array := expect (arr_macro (tokens l)).

Definition test_doc_empty : test :=
  let* d := doc_of [] in assert (Document_is_empty d) ;; assert_eq d Document_new.
Definition test_doc_int32_default : test :=
  let* d := doc_of [pair "n" (i32 30)] in assert_eq (Document_get d (lit "n")) (Some (Bson_Int32 30)).
Definition test_doc_int64_explicit : test :=
  let* d := doc_of [pair "n" (i64 30)] in assert_eq (Document_get d (lit "n")) (Some (Bson_Int64 30)).
Definition test_doc_double : test :=
  let* d := doc_of [pair "r" (f64_lit one_and_quarter)] in
  assert_eq (Document_get d (lit "r")) (Some (Bson_Double one_and_quarter)).
Definition test_doc_string : test :=
  let* d := doc_of [pair "s" (text "hi")] in
  assert_eq (Document_get d (lit "s")) (Some (Bson_String (lit "hi"))).
Definition test_doc_bool : test :=
  let* d := doc_of [pair "on" (boolean true); pair "off" (boolean false)] in
  assert_eq (Document_get d (lit "on")) (Some (Bson_Bool true)) ;;
  assert_eq (Document_get d (lit "off")) (Some (Bson_Bool false)).
Definition test_doc_null : test :=
  let* d := doc_of [pair "x" Tok_null] in assert_eq (Document_get d (lit "x")) (Some Bson_Null).
Definition test_doc_min_max_keys : test :=
  let* d := doc_of [pair "lo" Tok_MIN_KEY; pair "hi" Tok_MAX_KEY] in
  assert_eq (Document_get d (lit "lo")) (Some Bson_MinKey) ;;
  assert_eq (Document_get d (lit "hi")) (Some Bson_MaxKey).
Definition test_doc_nested : test :=
  let* user := doc_of [pair "name" (text "x"); pair "v" (i64 1)] in
  let* tags := arr_of [[text "a"]; [text "b"]] in
  let* d := expect (doc_macro (tokens [pair "user" (Tok_expr (Bson_Document user));
                                       pair "tags" (Tok_expr (Bson_Array tags))] ++ [Tok_comma])) in
  assert_eq (Document_len d) 2 ;;
  match Document_get d (lit "user") with
  | Some (Bson_Document inner) =>
      assert_eq (Document_get inner (lit "name")) (Some (Bson_String (lit "x"))) ;;
      assert_eq (Document_get inner (lit "v")) (Some (Bson_Int64 1))
  | _ => Panic
  end ;;
  match Document_get d (lit "tags") with
  | Some (Bson_Array arr) =>
      assert_eq (Array_len arr) 2 ;; assert_eq (head arr) (Some (Bson_String (lit "a")))
  | _ => Panic
  end.
Definition test_doc_preserves_field_order_and_duplicates : test :=
  let* d := doc_of [pair "a" (i32 1); pair "b" (i32 2); pair "a" (i32 3)] in
  assert_eq (Document_field_names d) [lit "a"; lit "b"; lit "a"] ;;
  assert_eq (Document_get d (lit "a")) (Some (Bson_Int32 1)).
Definition test_doc_trailing_comma_ok : test :=
  let* d := expect (doc_macro (tokens [pair "a" (i32 1); pair "b" (i32 2)] ++ [Tok_comma])) in
  assert_eq (Document_len d) 2.
Definition test_doc_expression_value : test :=
  let v := Tok_expr (Bson_from (Native_i64 42)) in
  let s := Tok_expr (Bson_from (Native_String (lit "dyn"))) in
  let* d := doc_of [pair "v" v; pair "s" s] in
  assert_eq (Document_get d (lit "v")) (Some (Bson_Int64 42)) ;;
  assert_eq (Document_get d (lit "s")) (Some (Bson_String (lit "dyn"))).
Definition test_doc_encode_decode_roundtrip : test :=
  let* arr := arr_of [[i32 1]; [f64_lit one_and_quarter]; [Tok_null]; [Tok_MAX_KEY]] in
  let* inner := doc_of [pair "k" (boolean true)] in
  let* d := expect (doc_macro (tokens [pair "s" (text "x"); pair "n" (i32 7);
              pair "arr" (Tok_expr (Bson_Array arr)); pair "inner" (Tok_expr (Bson_Document inner))]
              ++ [Tok_comma])) in
  let* raw := unwrap (Document_encode d) in
  let* deep := unwrap (RawDocument_deep raw) in
  assert_eq deep d.
Definition test_arr_empty : test :=
  let* a := arr_of [] in assert (Array_is_empty a) ;; assert_eq a Array_new.
Definition test_arr_scalars : test :=
  let* a := arr_of [[i32 1]; [f64_lit one_and_quarter]; [text "three"]; [boolean true]; [Tok_null]; [Tok_MIN_KEY]] in
  assert_eq a [Bson_Int32 1; Bson_Double one_and_quarter; Bson_String (lit "three"); Bson_Bool true;
               Bson_Null; Bson_MinKey].
Definition test_arr_trailing_comma_ok : test :=
  let* a := expect (arr_macro (tokens [[i32 1]; [i32 2]; [i32 3]] ++ [Tok_comma])) in
  assert_eq (Array_len a) 3.
Definition test_arr_nested : test :=
  let* d := doc_of [pair "k" (i32 1)] in
  let* inner := arr_of [[i32 2]; [i32 3]] in
  let* a := arr_of [[i32 1]; [Tok_expr (Bson_Document d)]; [Tok_expr (Bson_Array inner)]] in
  assert_eq (Array_len a) 3.
Definition test_oid_string_literal : test :=
  let* v := oid_macro HEX in
  let* expected := unwrap (ObjectId_from_hex HEX) in
  assert_eq v (Bson_ObjectId expected) ;;
  let* first := index expected 0 in
  assert_eq (u8 first) 80 ;;
  let* last := index expected 11 in
  assert_eq (u8 last) 17.
Definition test_dt_i64 : test := assert_eq (dt_macro 1234567890) (Bson_DateTime 1234567890).
Definition test_dt_expression : test := let ms := 999 in assert_eq (dt_macro ms) (Bson_DateTime 999).

(** ** [mongo_common/src/bson/convert.rs] *)

Definition test_narrowing_is_range_checked : test :=
  assert_eq (Scalar_try_int I8 (Scalar_Int32 127)) (Ok 127) ;;
  assert_eq (Scalar_try_int I8 (Scalar_Int32 128)) (Err ScalarError_OutOfRange) ;;
  assert_eq (Scalar_try_int U8 (Scalar_Int32 (-1))) (Err ScalarError_OutOfRange) ;;
  assert_eq (Scalar_try_int I128 (Scalar_Int64 (-5))) (Ok (-5)) ;;
  assert_eq (Scalar_try_int U64 (Scalar_Int64 (-5))) (Err ScalarError_OutOfRange).
Definition test_kind_mismatch_is_not_convertible : test :=
  assert_eq (Scalar_try_int I64 (Scalar_String (lit "x"))) (Err ScalarError_NotConvertible) ;;
  assert_eq (Scalar_try_bool (Scalar_Int32 1)) (Err ScalarError_NotConvertible).
Definition test_int_from_double_requires_integral : test :=
  assert_eq (Scalar_try_int I64 (Scalar_Double (f64_of_i64 2))) (Ok 2) ;;
  assert_eq (Scalar_try_int I64 (Scalar_Double 4612811918334230528)) (Err ScalarError_NotConvertible).
Definition test_string_forms : test :=
  assert_eq (Scalar_try_String (Scalar_Symbol (lit "s"))) (Ok (lit "s")).
Definition test_system_time_roundtrip : test :=
  let* t := epoch_plus (Duration_from_millis 123456) in
  let* s := Scalar_from_time t in
  assert_eq (Scalar_try_SystemTime s) (Ok t).
(** With the [uuid] and [dec] crates, on any of their values. *)
Definition test_uuid_roundtrip (C : ValueCrates) (u : Uuid C) : outcome ScalarError (Uuid C) :=
  Scalar_try_Uuid C (Scalar_from_Uuid C u).
Definition test_decimal128_kind_mismatch (C : ValueCrates) : list (outcome ScalarError (Dec C)) :=
  [Scalar_try_Dec C (Scalar_Int32 1); Scalar_try_Dec C (Scalar_String (lit "1.5"));
   Scalar_try_Dec C Scalar_Null].
Definition test_decimal128_roundtrip_bits (C : ValueCrates) (bits : bytes) : outcome ScalarError Scalar :=
  let* d := Scalar_try_Dec C (Scalar_Decimal128 bits) in
  Ok (Scalar_from_Dec C d).
Definition scalar_from_bits (bits : Z) : Scalar := Scalar_Decimal128 (le_encode 16 bits).
Definition CASES : list (string * Z) :=
  [("1", 0x22080000000000000000000000000001); ("1.5", 0x2207c000000000000000000000000015);
   ("-1.5", 0xa207c000000000000000000000000015); ("-0", 0xa2080000000000000000000000000000);
   ("0.000001", 0x22068000000000000000000000000001); ("-123.456", 0xa2074000000000000000000000028e56);
   ("1E-6176", 0x00000000000000000000000000000001); ("1E+6111", 0x43ffc000000000000000000000000001);
   ("1234567890123456789012345678901234", 0x2608134b9c1e28e56f3c127177823534);
   ("Infinity", 0x78000000000000000000000000000000); ("-Infinity", 0xf8000000000000000000000000000000);
   ("NaN", 0x7c000000000000000000000000000000)]%string.
(** With the crate's [text.parse()]. *)
Definition test_known_bit_patterns_roundtrip (C : ValueCrates) (parse : str → option (Dec C)) : test :=
  for_each (λ '(repr, bits),
    let* parsed := unwrap_some (parse (lit repr)) in
    assert_eq (dec_to_le_bytes C parsed) (le_encode 16 bits) ;;
    let scalar := scalar_from_bits bits in
    let* d := unwrap (Scalar_try_Dec C scalar) in
    assert_eq (dec_to_le_bytes C d) (le_encode 16 bits) ;;
    assert_eq (dec_to_le_bytes C d) (dec_to_le_bytes C parsed) ;;
    assert_eq (Scalar_from_Dec C d) scalar) CASES.

(** ** They pass *)

Definition tests_bson : list test :=
  [test_get_get_mut; test_remove_all_duplicates; test_replace_existing_or_append;
   test_command_and_iter; test_document_roundtrip; test_from_iterator_pairs; test_document_display;
   test_push_iter_len; test_array_roundtrip; test_array_display;
   test_encode_hello_world_byte_exact; test_encode_empty_document; test_encode_array_keys;
   test_encode_rejects_interior_nul; test_roundtrip_every_variant; test_binary_old_layout;
   test_truncation_never_panics; test_log_compact; test_log_indent; test_log_special_values;
   test_log_js_scope_and_binary; test_log_depth_cutoff;
   test_from_bytes_accepts_canonical_document; test_from_bytes_short_input;
   test_from_bytes_length_mismatch; test_from_bytes_missing_nul_and_tiny_declared;
   test_shallow_and_deep_agree; test_get_first_duplicate; test_fields_iterates_in_order;
   test_fields_error_on_malformed; test_command_names; test_raw_array_roundtrip; test_raw_display;
   test_hello_world; test_empty_document; test_array_elements_in_order_names_ignored;
   test_duplicates_preserved_get_first; test_nested_composites; test_js_scope_length_mismatch;
   test_premature_terminator_rejected; test_unknown_tag_rejected;
   test_truncated_fields_error_never_panic; test_depth_guard_boundary;
   test_scalar_parsing_matches_mongo_common; test_spec_convention_binary_len;
   test_doc_empty; test_doc_int32_default; test_doc_int64_explicit; test_doc_double; test_doc_string;
   test_doc_bool; test_doc_null; test_doc_min_max_keys; test_doc_nested;
   test_doc_preserves_field_order_and_duplicates; test_doc_trailing_comma_ok;
   test_doc_expression_value; test_doc_encode_decode_roundtrip; test_arr_empty; test_arr_scalars;
   test_arr_trailing_comma_ok; test_arr_nested; test_oid_string_literal; test_dt_i64;
   test_dt_expression;
   test_narrowing_is_range_checked; test_kind_mismatch_is_not_convertible;
   test_int_from_double_requires_integral; test_string_forms; test_system_time_roundtrip].
Lemma tests_bson_pass : Forall passes tests_bson.
Proof. repeat (constructor; [vm_compute; reflexivity|]). constructor. Qed.

#[local] Opaque RawDocument_deep RawDocument_shallow.

(** The property test on every well-formed document within the nesting limit that
    encodes, which the strategy's all are; the tests that use the crates, on
    every value. *)
Lemma byte_stable_passes d raw : fields_ok d → document_nesting d <= MAX_NESTING_DEPTH →
  Document_encode d = Ok raw → passes (test_encode_decode_byte_stable d).
Proof.
  intros Hok Hn E. unfold passes, test_encode_decode_byte_stable. rewrite E. cbn [unwrap or_panic bind].
  pose proof E as E'. unfold Document_encode in E'. apply bind_Ok_inv in E' as (out & Ho & Hv).
  apply RawDocument_from_bytes_Ok_inv in Hv as Hraw.
  assert (raw = document_wire d ∧ len raw <= u32_max) as [-> Hl].
  { pose proof (Document_encode_writes d) as Hw. unfold writes in Hw.
    destruct (encodable (Bson_Document d)) eqn:He; [|destruct Hw; congruence].
    assert (raw = document_wire d) as -> by (rewrite Hw in E; by injection E).
    split; [done|]. cbn [encodable] in He. apply andb_true_iff in He as [_ Hl]. zbool. unfold_ranges.
    unfold document_wire, fields_wire. cbn [value_wire] in Hl. lia. }
  assert (RawDocument_from_bytes (document_wire d) = Ok (document_wire d)) as ->.
  { apply RawDocument_from_bytes_frame. unfold document_wire in Hl. by rewrite len_doc_frame in Hl. }
  assert (RawDocument_deep (document_wire d) = Ok d) as Hd.
  { rewrite deep_wire by done. by zif. }
  unfold unwrap. cbn [or_panic bind for_each]. rewrite (proj1 (shallow_is_deep _)), Hd. cbn [or_panic bind].
  rewrite E. cbn [or_panic bind]. unfold assert_eq. by rewrite bytes_eqb_refl.
Qed.
Lemma crate_tests_pass C `{!ValueCratesLaws C} :
  (∀ u, test_uuid_roundtrip C u = Ok u)
  ∧ Forall (λ r, r = Err ScalarError_NotConvertible) (test_decimal128_kind_mismatch C)
  ∧ ∀ bits, len bits = 16 → test_decimal128_roundtrip_bits C bits = Ok (Scalar_Decimal128 bits).
Proof.
  split_and!.
  - intros u. by apply uuid_roundtrip.
  - by repeat constructor.
  - intros bits Hb. destruct (decimal_roundtrip C bits Hb) as (v & Hv & Hs).
    unfold test_decimal128_roundtrip_bits. rewrite Hv. cbn [bind]. by rewrite Hs.
Qed.
(** Where the crate reads the texts as the listed patterns. *)
Lemma known_bit_patterns_pass C `{!ValueCratesLaws C} parse :
  Forall (λ '(repr, bits), ∃ d, parse (lit repr) = Some d ∧ dec_to_le_bytes C d = le_encode 16 bits) CASES →
  passes (test_known_bit_patterns_roundtrip C parse).
Proof.
  unfold passes, test_known_bit_patterns_roundtrip. induction 1 as [|[repr bits] l (d & Hp & Hd) _ IH]; [done|].
  cbn [for_each]. rewrite Hp. cbn [unwrap_some expect bind]. rewrite Hd. unfold assert_eq at 1.
  rewrite bytes_eqb_refl. cbn [assert bind unwrap Scalar_try_Dec scalar_from_bits or_panic].
  assert (dec_to_le_bytes C (dec_from_le_bytes C (le_encode 16 bits)) = le_encode 16 bits) as E
    by (apply dec_to_from; by rewrite len_le_encode).
  unfold Scalar_from_Dec. rewrite E. unfold assert_eq at 1 2. rewrite bytes_eqb_refl. cbn [assert bind].
  by rewrite assert_eq_refl.
Qed.
