(* ===== verification/Scram.v ===== *)
(** * SCRAM client and server: [mongo_common/src/auth/scram.rs]

    [&mut self] methods are computations over the machine they mutate: a
    [step S A] maps the machine to a result and the machine left behind, also
    when the result is an error.  The digest, MAC, key-derivation, base64 and
    constant-time-comparison crates are the fields of the [Crypto] parameter;
    [CryptoLaws] collects what their documentation promises.  Random bytes are
    arguments. *)
From stdpp Require Import base list numbers strings.
From Stdlib Require Import ZArith Lia.
From S2P Require Import Prelude Utf8 BsonScalar StrOps Auth.
Local Open Scope Z_scope.

(** ** Stateful steps *)

Definition step (S A : Type) : Type := S → outcome AuthError A * S.
#[export] Instance step_ret {S} : MRet (step S) := λ A a s, (Ok a, s).
#[export] Instance step_bind {S} : MBind (step S) := λ A B k m s,
  match m s with
  | (Ok a, s') => k a s'
  | (Err e, s') => (Err e, s')
  | (Panic, s') => (Panic, s')
  | (Fuel, s') => (Fuel, s')
  end.
Definition self {S} : step S S := λ s, (Ok s, s).
Definition update {S} (f : S → S) : step S () := λ s, (Ok (), f s).
(** A fallible call that does not touch the machine. *)
Definition try {S A} (m : outcome AuthError A) : step S A := λ s, (m, s).
Definition fail {S A} (e : AuthError) : step S A := try (Err e).

(** ** Mechanisms and constants *)

Inductive ScramMechanism := ScramMechanism_Sha1 | ScramMechanism_Sha256.
#[export] Instance ScramMechanism_eq_dec : EqDecision ScramMechanism.
Proof. solve_decision. Defined.

Definition USERNAME_KEY : char := lit "n".
Definition NONCE_KEY : char := lit "r".
Definition SALT_KEY : char := lit "s".
Definition ITERATION_KEY : char := lit "i".
Definition CHANNEL_BINDING_KEY : char := lit "c".
Definition PROOF_KEY : char := lit "p".
Definition VERIFIER_KEY : char := lit "v".
Definition ERROR_KEY : char := lit "e".
Definition NO_CHANNEL_BINDING_FLAG : str := lit "biws".
Definition MAX_SCRAM_ITERATIONS : Z := 1000000.
Definition GS2_NO_BINDING_HEADER : str := lit "n,,".

Definition ScramMechanism_name (m : ScramMechanism) : str :=
  match m with
  | ScramMechanism_Sha1 => lit "SCRAM-SHA-1"
  | ScramMechanism_Sha256 => lit "SCRAM-SHA-256"
  end.
Definition ScramMechanism_from_name (name : str) : option ScramMechanism :=
  if str_eqb name (lit "SCRAM-SHA-1") then Some ScramMechanism_Sha1
  else if str_eqb name (lit "SCRAM-SHA-256") then Some ScramMechanism_Sha256
  else None.
Definition ScramMechanism_default_iterations (m : ScramMechanism) : Z :=
  match m with ScramMechanism_Sha1 => 10000 | ScramMechanism_Sha256 => 15000 end.

(** ** The cryptographic crates *)

Record Crypto := mkCrypto {
  (** [pbkdf2_array::<Hmac<..>, N>(password, salt, rounds)]. *)
  pbkdf2_array : ScramMechanism → bytes → bytes → Z → option bytes;
  (** [Mac::new_from_slice(key)], [update], [finalize]. *)
  hmac : ScramMechanism → bytes → bytes → option bytes;
  digest : ScramMechanism → bytes → bytes;
  md5 : bytes → bytes;
  base64_encode : bytes → str;
  base64_decode : str → option bytes;
  (** [subtle::ConstantTimeEq] on slices. *)
  ct_eq : bytes → bytes → bool
}.

(** The digest size of a mechanism. *)
Definition output_size (m : ScramMechanism) : Z :=
  match m with ScramMechanism_Sha1 => 20 | ScramMechanism_Sha256 => 32 end.

Class CryptoLaws (c : Crypto) : Prop := {
  (** HMAC takes keys of any length, and so does PBKDF2 over it. *)
  pbkdf2_total m p s i : 1 <= i → is_Some (pbkdf2_array c m p s i);
  hmac_total m k x : ∃ t, hmac c m k x = Some t ∧ len t = output_size m;
  base64_inverse x : base64_decode c (base64_encode c x) = Some x;
  base64_nil : base64_encode c [] = [];
  (** The comma is not in the base64 alphabet. *)
  base64_alphabet x : lacks comma (base64_encode c x);
  ct_eq_spec x y : ct_eq c x y = bool_decide (x = y)
}.

Section Scram.
Context (c : Crypto).

(** ** Primitives *)

Definition to_lower_hex (bs : bytes) : str := concat (lower_hex <$> bs).

Definition mongo_sha1_password (username password : str) : str :=
  to_lower_hex (md5 c (username ++ lit ":mongo:" ++ password)).

Definition salted_password (m : ScramMechanism) (password salt : bytes) (iterations : Z)
  : outcome AuthError bytes := expect (pbkdf2_array c m password salt iterations).

Definition hmac_bytes (m : ScramMechanism) (key input : bytes) : outcome AuthError bytes :=
  expect (hmac c m key input).

Definition hash_bytes (m : ScramMechanism) (input : bytes) : bytes := digest c m input.

Definition xor_byte (l r : byte) : byte := of_u8 (Z.lxor (u8 l) (u8 r)).
Definition xor_bytes (lhs rhs : bytes) : outcome AuthError bytes :=
  let* _ := debug_assert (len lhs =? len rhs) in
  Ok (zip_with xor_byte lhs rhs).

Definition escape_username (username : str) : str :=
  replace [comma] (lit "=2C") (replace [equals] (lit "=3D") username).

Definition effective_password (m : ScramMechanism) (username password : str) : str :=
  match m with
  | ScramMechanism_Sha1 => mongo_sha1_password username password
  | ScramMechanism_Sha256 => password
  end.

Definition generate_nonce (random : bytes) : str := base64_encode c random.

(** The closure of [parse_attributes]. *)
Definition parse_attribute (attr : str) : outcome AuthError (char * str) :=
  match next_char attr with
  | Some (key, rest) =>
      match next_char rest with
      | Some (eq, value) =>
          if str_eqb eq (lit "=") then Ok (key, value)
          else Err (AuthError_InvalidMessage "malformed SCRAM attribute")
      | None => Err (AuthError_InvalidMessage "malformed SCRAM attribute")
      end
  | None => Err (AuthError_InvalidMessage "malformed SCRAM attribute")
  end.
(** [collect] into a [Result]: the first error wins. *)
Fixpoint collect {A} (l : list (outcome AuthError A)) : outcome AuthError (list A) :=
  match l with
  | [] => Ok []
  | m :: l => let* a := m in let* rest := collect l in Ok (a :: rest)
  end.
Definition parse_attributes (msg : str) : outcome AuthError (list (char * str)) :=
  collect (parse_attribute <$> split_on comma msg).

(** ** Stored credentials *)

Record StoredCredentials := mkCredentials {
  salt : bytes; iterations : Z; stored_key : bytes; server_key : bytes
}.

Definition StoredCredentials_derive (m : ScramMechanism) (password : str) (salt : bytes) (iterations : Z)
  : outcome AuthError StoredCredentials :=
  let* salted := salted_password m password salt iterations in
  let* client_key := hmac_bytes m salted (lit "Client Key") in
  let stored_key := hash_bytes m client_key in
  let* server_key := hmac_bytes m salted (lit "Server Key") in
  Ok (mkCredentials salt iterations stored_key server_key).

(** ** The server-first message *)

Record ServerFirst := mkServerFirst { sf_nonce : str; sf_salt : bytes; sf_iterations : Z }.

Fixpoint server_first_loop (attrs : list (char * str))
    (nonce : option str) (salt : option bytes) (iterations : option Z)
  : outcome AuthError (option str * option bytes * option Z) :=
  match attrs with
  | [] => Ok (nonce, salt, iterations)
  | (key, value) :: attrs =>
      if str_eqb key NONCE_KEY && negb (is_some nonce)
      then server_first_loop attrs (Some value) salt iterations
      else if str_eqb key SALT_KEY && negb (is_some salt) then
        let* decoded := ok_or (base64_decode c value) (AuthError_InvalidMessage "invalid base64 salt") in
        server_first_loop attrs nonce (Some decoded) iterations
      else if str_eqb key ITERATION_KEY && negb (is_some iterations) then
        let* parsed := ok_or (parse_u32 value) (AuthError_InvalidMessage "invalid iteration count") in
        if (parsed =? 0) || (MAX_SCRAM_ITERATIONS <? parsed)
        then Err (AuthError_InvalidMessage "iteration count out of range")
        else server_first_loop attrs nonce salt (Some parsed)
      else server_first_loop attrs nonce salt iterations
  end.

Definition ServerFirst_parse (msg : str) : outcome AuthError ServerFirst :=
  let* attrs := parse_attributes msg in
  let* '(nonce, salt, iterations) := server_first_loop attrs None None None in
  let* nonce :=
    ok_or (match nonce with Some (b :: n) => Some (b :: n) | _ => None end)
          (AuthError_InvalidMessage "missing server nonce") in
  let* salt := ok_or salt (AuthError_InvalidMessage "missing salt") in
  let* iterations := ok_or iterations (AuthError_InvalidMessage "missing iteration count") in
  Ok (mkServerFirst nonce salt iterations).

(** ** The client *)

Inductive ClientState :=
| ClientState_Init
| ClientState_FirstSent
| ClientState_FinalSent
| ClientState_Done.
#[export] Instance ClientState_eq_dec : EqDecision ClientState.
Proof. solve_decision. Defined.

Record ScramClient := mkClient {
  cl_mechanism : ScramMechanism;
  cl_username : str;
  cl_password : str;
  cl_client_nonce : str;
  cl_server_first : option ServerFirst;
  cl_salted_password : option bytes;
  cl_auth_message : str;
  cl_state : ClientState
}.

Definition set_cl_auth_message (msg : str) (s : ScramClient) : ScramClient :=
  mkClient (cl_mechanism s) (cl_username s) (cl_password s) (cl_client_nonce s)
    (cl_server_first s) (cl_salted_password s) msg (cl_state s).
Definition set_cl_state (st : ClientState) (s : ScramClient) : ScramClient :=
  mkClient (cl_mechanism s) (cl_username s) (cl_password s) (cl_client_nonce s)
    (cl_server_first s) (cl_salted_password s) (cl_auth_message s) st.
Definition set_cl_salted_password (p : option bytes) (s : ScramClient) : ScramClient :=
  mkClient (cl_mechanism s) (cl_username s) (cl_password s) (cl_client_nonce s)
    (cl_server_first s) p (cl_auth_message s) (cl_state s).
Definition set_cl_server_first (f : option ServerFirst) (s : ScramClient) : ScramClient :=
  mkClient (cl_mechanism s) (cl_username s) (cl_password s) (cl_client_nonce s)
    f (cl_salted_password s) (cl_auth_message s) (cl_state s).

Definition ScramClient_with_nonce (m : ScramMechanism) (username effective_password client_nonce : str)
  : ScramClient :=
  mkClient m username effective_password client_nonce None None [] ClientState_Init.

Definition ScramClient_new (m : ScramMechanism) (username password : str) (random : bytes)
  : outcome AuthError ScramClient :=
  Ok (ScramClient_with_nonce m username (effective_password m username password)
        (generate_nonce random)).

Definition client_first_message : step ScramClient str :=
  s ← self;
  if negb (bool_decide (cl_state s = ClientState_Init)) then fail AuthError_State
  else
    let escaped := escape_username (cl_username s) in
    let bare := USERNAME_KEY ++ lit "=" ++ escaped ++ lit "," ++ NONCE_KEY ++ lit "=" ++ cl_client_nonce s in
    _ ← update (set_cl_auth_message bare);
    _ ← update (set_cl_state ClientState_FirstSent);
    mret (lit "n,," ++ bare).

Definition receive_server_first (msg : str) : step ScramClient () :=
  s ← self;
  if negb (bool_decide (cl_state s = ClientState_FirstSent))
     || is_some (cl_server_first s) then fail AuthError_State
  else
    server_first ← try (ServerFirst_parse msg);
    if negb (starts_with (cl_client_nonce s) (sf_nonce server_first)) then fail AuthError_NonceMismatch
    else
      salted ← try (salted_password (cl_mechanism s) (cl_password s) (sf_salt server_first)
                      (sf_iterations server_first));
      _ ← update (set_cl_auth_message (cl_auth_message s ++ lit "," ++ msg ++ lit ","));
      _ ← update (set_cl_salted_password (Some salted));
      update (set_cl_server_first (Some server_first)).

Definition client_final_without_proof (full_nonce : str) : str :=
  CHANNEL_BINDING_KEY ++ lit "=" ++ NO_CHANNEL_BINDING_FLAG ++ lit "," ++ NONCE_KEY ++ lit "="
    ++ full_nonce.

Definition client_final_message : step ScramClient str :=
  s ← self;
  if negb (bool_decide (cl_state s = ClientState_FirstSent)) then fail AuthError_State
  else
    server_first ← try (ok_or (cl_server_first s) AuthError_State);
    let full_nonce := sf_nonce server_first in
    salted ← try (ok_or (cl_salted_password s) AuthError_State);
    client_key ← try (hmac_bytes (cl_mechanism s) salted (lit "Client Key"));
    let stored_key := hash_bytes (cl_mechanism s) client_key in
    let without_proof := client_final_without_proof full_nonce in
    _ ← update (set_cl_auth_message (cl_auth_message s ++ without_proof));
    client_signature ← try (hmac_bytes (cl_mechanism s) stored_key (cl_auth_message s ++ without_proof));
    proof ← try (xor_bytes client_key client_signature);
    _ ← update (set_cl_state ClientState_FinalSent);
    mret (without_proof ++ lit "," ++ PROOF_KEY ++ lit "=" ++ base64_encode c proof).

Definition receive_server_final (msg : str) : step ScramClient () :=
  s ← self;
  if negb (bool_decide (cl_state s = ClientState_FinalSent)) then fail AuthError_State
  else
    attrs ← try (parse_attributes msg);
    match attrs with
    | [(key, value)] =>
        if str_eqb key ERROR_KEY then fail (AuthError_Failure value)
        else if str_eqb key VERIFIER_KEY then
          received ← try (ok_or (base64_decode c value)
                            (AuthError_InvalidMessage "invalid base64 server signature"));
          salted ← try (ok_or (cl_salted_password s) AuthError_State);
          server_key ← try (hmac_bytes (cl_mechanism s) salted (lit "Server Key"));
          expected ← try (hmac_bytes (cl_mechanism s) server_key (cl_auth_message s));
          if (len expected =? len received) && ct_eq c expected received
          then update (set_cl_state ClientState_Done)
          else fail AuthError_ServerSignatureMismatch
        else fail (AuthError_InvalidMessage "expected v= or e= in server-final message")
    | _ => fail (AuthError_InvalidMessage "malformed server-final message")
    end.

(** ** The server *)

Inductive ServerState :=
| ServerState_ExpectClientFirst
| ServerState_ExpectClientFinal
| ServerState_Done.
#[export] Instance ServerState_eq_dec : EqDecision ServerState.
Proof. solve_decision. Defined.

Record ScramServer := mkServer {
  sv_mechanism : ScramMechanism;
  sv_server_nonce : str;
  sv_client_first_bare : str;
  sv_server_first_message : str;
  sv_state : ServerState;
  sv_username : str;
  sv_client_nonce : str;
  sv_credentials : option StoredCredentials
}.

Definition ScramServer_with_nonce (m : ScramMechanism) (server_nonce : str) : ScramServer :=
  mkServer m server_nonce [] [] ServerState_ExpectClientFirst [] [] None.
Definition ScramServer_new (m : ScramMechanism) (random : bytes) : ScramServer :=
  ScramServer_with_nonce m (generate_nonce random).

Definition set_sv_state (st : ServerState) (s : ScramServer) : ScramServer :=
  mkServer (sv_mechanism s) (sv_server_nonce s) (sv_client_first_bare s)
    (sv_server_first_message s) st (sv_username s) (sv_client_nonce s) (sv_credentials s).

(** The assignments of [handle_client_first] up to the server-first message. *)
Definition set_sv_client_first (bare client_nonce username : str) (creds : StoredCredentials)
    (message : str) (s : ScramServer) : ScramServer :=
  mkServer (sv_mechanism s) (sv_server_nonce s) bare message (sv_state s) username client_nonce
    (Some creds).

Definition server_first_text (full_nonce : str) (creds : StoredCredentials) : str :=
  NONCE_KEY ++ lit "=" ++ full_nonce ++ lit "," ++ SALT_KEY ++ lit "=" ++ base64_encode c (salt creds)
    ++ lit "," ++ ITERATION_KEY ++ lit "=" ++ dec_bytes (iterations creds).

(** The GS2 header check. *)
Definition strip_gs2 (msg : str) : outcome AuthError str :=
  match strip_prefix GS2_NO_BINDING_HEADER msg with
  | Some bare => Ok bare
  | None =>
      if starts_with (lit "y,,") msg || starts_with (lit "p=") msg
      then Err (AuthError_InvalidMessage "channel binding is not supported")
      else Err (AuthError_InvalidMessage "invalid GS2 header")
  end.

(** The client nonce of the attribute list: [n=..] first, [r=..] second, no
    mandatory extension anywhere. *)
Definition client_first_nonce (attrs : list (char * str)) : outcome AuthError str :=
  if existsb (λ kv, str_eqb kv.1 (lit "m")) attrs
  then Err (AuthError_InvalidMessage "mandatory extension not supported")
  else
    match attrs with
    | (k1, _) :: attrs =>
        if negb (str_eqb k1 USERNAME_KEY)
        then Err (AuthError_InvalidMessage "expected n=<username> attribute")
        else
          match attrs with
          | (k2, client_nonce) :: _ =>
              if negb (str_eqb k2 NONCE_KEY)
              then Err (AuthError_InvalidMessage "expected r=<nonce> attribute")
              else if str_eqb client_nonce []
              then Err (AuthError_InvalidMessage "missing client nonce")
              else Ok client_nonce
          | [] => Err (AuthError_InvalidMessage "expected r=<nonce> attribute")
          end
    | [] => Err (AuthError_InvalidMessage "expected n=<username> attribute")
    end.

Definition handle_client_first (msg username : str) (creds : StoredCredentials)
  : step ScramServer str :=
  s ← self;
  if negb (bool_decide (sv_state s = ServerState_ExpectClientFirst)) then fail AuthError_State
  else
    bare ← try (strip_gs2 msg);
    attrs ← try (parse_attributes bare);
    client_nonce ← try (client_first_nonce attrs);
    let full_nonce := client_nonce ++ sv_server_nonce s in
    let message := server_first_text full_nonce creds in
    _ ← update (set_sv_client_first bare client_nonce username creds message);
    _ ← update (set_sv_state ServerState_ExpectClientFinal);
    mret message.

(** The attribute loop of [handle_client_final]: each of [c], [r], [p] at most
    once, nothing else. *)
Fixpoint client_final_loop (attrs : list (char * str)) (channel_binding nonce proof : option str)
  : outcome AuthError (option str * option str * option str) :=
  match attrs with
  | [] => Ok (channel_binding, nonce, proof)
  | (key, value) :: attrs =>
      if str_eqb key CHANNEL_BINDING_KEY && negb (is_some channel_binding)
      then client_final_loop attrs (Some value) nonce proof
      else if str_eqb key NONCE_KEY && negb (is_some nonce)
      then client_final_loop attrs channel_binding (Some value) proof
      else if str_eqb key PROOF_KEY && negb (is_some proof)
      then client_final_loop attrs channel_binding nonce (Some value)
      else Err (AuthError_InvalidMessage "unexpected attribute in client-final message")
  end.

Definition handle_client_final (msg : str) : step ScramServer str :=
  s ← self;
  if negb (bool_decide (sv_state s = ServerState_ExpectClientFinal)) then fail AuthError_State
  else
    creds ← try (ok_or (sv_credentials s) AuthError_State);
    attrs ← try (parse_attributes msg);
    '(channel_binding, nonce, proof) ← try (client_final_loop attrs None None None);
    if negb (bool_decide (channel_binding = Some NO_CHANNEL_BINDING_FLAG))
    then fail (AuthError_InvalidMessage "expected c=biws channel binding")
    else
      let full_nonce := sv_client_nonce s ++ sv_server_nonce s in
      if negb (bool_decide (nonce = Some full_nonce)) then fail AuthError_NonceMismatch
      else
        proof_b64 ← try (ok_or proof (AuthError_InvalidMessage "missing p=<proof> attribute"));
        proof ← try (ok_or (base64_decode c proof_b64)
                       (AuthError_InvalidMessage "invalid base64 client proof"));
        let without_proof := client_final_without_proof full_nonce in
        let auth_message :=
          sv_client_first_bare s ++ lit "," ++ sv_server_first_message s ++ lit "," ++ without_proof in
        client_signature ← try (hmac_bytes (sv_mechanism s) (stored_key creds) auth_message);
        if negb (len proof =? len client_signature)
        then fail (AuthError_InvalidMessage "client proof has the wrong length")
        else
          client_key ← try (xor_bytes proof client_signature);
          if negb (ct_eq c (hash_bytes (sv_mechanism s) client_key) (stored_key creds))
          then fail AuthError_ClientProofMismatch
          else
            server_signature ← try (hmac_bytes (sv_mechanism s) (server_key creds) auth_message);
            _ ← update (set_sv_state ServerState_Done);
            mret (VERIFIER_KEY ++ lit "=" ++ base64_encode c server_signature).

End Scram.
