(* ===== verification/ScramCorrect.v ===== *)
(** * Correctness of the SCRAM machines

    The honest exchange, what a completed authentication has verified, the
    states a server or client can reach under any sequence of calls, and the
    escaping of user names. *)
From stdpp Require Import base list numbers strings.
From Stdlib Require Import ZArith Lia.
From S2P Require Import Prelude Utf8 BsonScalar StrOps Auth Scram.
Local Open Scope Z_scope.

(** Unfold the step monad in a hypothesis and follow every branch. *)
Ltac step_unfold :=
  unfold mbind, step_bind, self, fail, try, update, mret, step_ret in *.
Ltac step_inv := step_unfold; simpl in *; repeat (case_match; simpl in *; simplify_eq).

(** ** Attribute lists *)

Definition attribute (kv : byte * str) : str := kv.1 :: equals :: kv.2.
Definition attribute_ok (kv : byte * str) : Prop := u8 kv.1 < 128 ∧ kv.1 ≠ comma ∧ lacks comma kv.2.

Lemma parse_attribute_ok kv : u8 kv.1 < 128 → parse_attribute (attribute kv) = Ok ([kv.1], kv.2).
Proof.
  intros H. unfold parse_attribute, attribute. rewrite next_char_ascii by done.
  rewrite (next_char_ascii equals) by (vm_compute; done). done.
Qed.

Lemma parse_attributes_join kvs : kvs ≠ [] → Forall attribute_ok kvs →
  parse_attributes (join_with comma (attribute <$> kvs)) = Ok ((λ kv, ([kv.1], kv.2)) <$> kvs).
Proof.
  intros Hne H. unfold parse_attributes. rewrite split_join.
  - clear Hne. induction H as [|kv kvs (Hk & _ & _) _ IH]; [done|].
    cbn [fmap list_fmap collect]. rewrite parse_attribute_ok by done. simpl.
    change (list_fmap _ _ ?f ?l) with (f <$> l). by rewrite IH.
  - by destruct kvs.
  - apply Forall_fmap. eapply Forall_impl; [exact H|]. intros kv (_ & ? & ?). simpl.
    unfold attribute. rewrite !lacks_cons. split_and!; [done|done|done].
Qed.

(** What a message says, without the parser: pieces between commas, each one
    character, an equals sign and a value. *)
Definition piece_is (piece : str) (kv : char * str) : Prop :=
  next_char piece = Some (kv.1, equals :: kv.2).
Definition message_of (msg : str) (kvs : list (char * str)) : Prop :=
  ∃ pieces, pieces ≠ [] ∧ Forall (lacks comma) pieces ∧ msg = join_with comma pieces
    ∧ Forall2 piece_is pieces kvs.
(** The value of the first attribute with a key. *)
Definition first_of (key : char) (kvs : list (char * str)) : option str :=
  snd <$> head (filter (λ kv, kv.1 = key) kvs).

Lemma next_char_equals s eq v : next_char s = Some (eq, v) → str_eqb eq (lit "=") = true ↔ s = equals :: v.
Proof.
  destruct s as [|b s]; [done|]. unfold next_char. intros [= <- <-]. unfold str_eqb. split.
  - intros Hb%bool_decide_eq_true.
    assert (b = equals) as ->.
    { pose proof (u8_range b). destruct (u8 b <? 128), (u8 b <? 224), (u8 b <? 240); unfold takeZ in Hb; simpl in Hb; by injection Hb. }
    done.
  - intros [= -> _]. by apply bool_decide_eq_true.
Qed.
Lemma parse_attribute_iff piece kv : parse_attribute piece = Ok kv ↔ piece_is piece kv.
Proof.
  unfold parse_attribute, piece_is. destruct kv as [k v]. cbn [fst snd].
  destruct (next_char piece) as [[key rest]|]; [|done].
  destruct (next_char rest) as [[eq value]|] eqn:E.
  - pose proof (next_char_equals _ _ _ E) as He. destruct (str_eqb eq (lit "=")).
    + rewrite (proj1 He eq_refl). naive_solver.
    + split; [done|]. intros [= -> ->]. rewrite next_char_ascii in E by done. injection E as <- <-.
      by apply proj2 in He; specialize (He eq_refl).
  - split; [done|]. intros [= -> ->]. by rewrite next_char_ascii in E.
Qed.
Lemma collect_Forall2 {A B} (f : A → outcome AuthError B) l l' :
  collect (f <$> l) = Ok l' ↔ Forall2 (λ a b, f a = Ok b) l l'.
Proof.
  revert l'. induction l as [|a l IH]; intros l'; cbn [fmap list_fmap collect].
  - split; [by intros [= <-]|by intros ->%Forall2_nil_inv_l].
  - split.
    + intros (b & Hb & (bs & Hbs & [= <-])%bind_Ok_inv)%bind_Ok_inv. constructor; [done|]. by apply IH.
    + intros (b & bs & Hb & Hbs%IH & ->)%Forall2_cons_inv_l. rewrite Hb. cbn [bind]. by rewrite Hbs.
Qed.
Lemma parse_attributes_iff msg kvs : parse_attributes msg = Ok kvs ↔ message_of msg kvs.
Proof.
  unfold parse_attributes. rewrite collect_Forall2. split.
  - intros Hf. destruct (join_split comma msg) as (Hj & Hne & Hl). exists (split_on comma msg).
    split_and!; [done..|]. eapply Forall2_impl; [exact Hf|]. intros. by apply parse_attribute_iff.
  - intros (pieces & Hne & Hl & -> & Hf). rewrite split_join by done.
    eapply Forall2_impl; [exact Hf|]. intros. by apply parse_attribute_iff.
Qed.

(** ** Exclusive or *)

Lemma xor_byte_cancel a b : xor_byte (xor_byte a b) b = a.
Proof.
  apply u8_inj. unfold xor_byte. rewrite !u8_of_u8.
  pose proof (u8_range a). pose proof (u8_range b).
  assert (0 <= Z.lxor (u8 a) (u8 b) < 256).
  { split; [apply Z.lxor_nonneg; lia|].
    destruct (Z.eq_dec (Z.lxor (u8 a) (u8 b)) 0) as [->|Hz]; [lia|].
    change 256 with (2 ^ 8). apply Z.log2_lt_pow2.
    { assert (0 <= Z.lxor (u8 a) (u8 b)) by (apply Z.lxor_nonneg; lia). lia. }
    eapply Z.le_lt_trans; [apply Z.log2_lxor; lia|].
    apply Z.max_lub_lt; (eapply Z.le_lt_trans; [apply (Z.log2_le_mono _ 255); lia|done]). }
  rewrite (Z.mod_small (Z.lxor (u8 a) (u8 b))) by lia.
  rewrite Z.lxor_assoc, Z.lxor_nilpotent, Z.lxor_0_r. apply Z.mod_small. lia.
Qed.

Lemma xor_cancel k s : len k = len s →
  zip_with xor_byte (zip_with xor_byte k s) s = k ∧ len (zip_with xor_byte k s) = len s.
Proof.
  revert s. induction k as [|a k IH]; intros [|b s]; intros H; len_tac; try lia; [done|].
  destruct (IH s) as [Hx Hl]; [lia|]. cbn [zip_with]. rewrite xor_byte_cancel, Hx. len_tac. split; [done|lia].
Qed.

Lemma xor_bytes_ok k s : len k = len s → xor_bytes k s = Ok (zip_with xor_byte k s).
Proof. intros H. unfold xor_bytes, debug_assert. by rewrite (proj2 (Z.eqb_eq _ _) H). Qed.

(** ** Escaping *)

Definition unescape_username (s : str) : str :=
  replace (lit "=3D") (lit "=") (replace (lit "=2C") (lit ",") s).

Lemma escape_cons b u : escape_username (b :: u) =
  (if bool_decide (b = equals) then lit "=3D" else if bool_decide (b = comma) then lit "=2C" else [b])
  ++ escape_username u.
Proof.
  unfold escape_username. rewrite replace_byte_cons, replace_byte_app. f_equal.
  case_bool_decide; [by vm_compute|]. rewrite replace_byte_cons. case_bool_decide; done.
Qed.

Lemma unescape_escape u : unescape_username (escape_username u) = u.
Proof.
  unfold unescape_username. induction u as [|b u IH]; [done|]. rewrite escape_cons.
  case_bool_decide; [subst b|case_bool_decide; [subst b|]].
  - change (lit "=3D") with [x3d; x33; x44]. change (lit "=2C") with [x3d; x32; x43] in *.
    change (replace [x3d; x32; x43] (lit ",") ([x3d; x33; x44] ++ escape_username u))
      with ([x3d; x33; x44] ++ replace [x3d; x32; x43] (lit ",") (escape_username u)).
    rewrite replace_match. change (lit "=3D") with [x3d; x33; x44] in IH. rewrite IH. done.
  - change (lit "=2C") with [x3d; x32; x43] in *. rewrite replace_match.
    change (lit ",") with [comma] in *. change (lit "=3D") with [x3d; x33; x44] in *.
    cbn [app]. rewrite replace_other by done. by rewrite IH.
  - change (lit "=2C") with [x3d; x32; x43] in *. change (lit "=3D") with [x3d; x33; x44] in *.
    cbn [app]. rewrite replace_other by done. rewrite replace_other by done. by rewrite IH.
Qed.

Lemma lacks_escape u : lacks comma (escape_username u).
Proof.
  induction u as [|b u IH]; [apply lacks_nil|]. rewrite escape_cons, lacks_app. split; [|done].
  repeat case_bool_decide; unfold lacks.
  - by apply (bool_decide_unpack _).
  - by apply (bool_decide_unpack _).
  - intros Hin. apply list_elem_of_singleton in Hin. congruence.
Qed.

(** ** The honest exchange *)

Section Exchange.
Context (c : Crypto) `{!CryptoLaws c}.

(** The four messages of an exchange, passed between the two machines in
    order; [creds] is what the server's caller looked up for [username]. *)
Definition exchange (cl : ScramClient) (sv : ScramServer) (username : str) (creds : StoredCredentials)
  : outcome AuthError (ScramClient * ScramServer) :=
  let '(r, cl) := client_first_message cl in
  let* first := r in
  let '(r, sv) := handle_client_first c first username creds sv in
  let* server_first := r in
  let '(r, cl) := receive_server_first c server_first cl in
  let* _ := r in
  let '(r, cl) := client_final_message c cl in
  let* final := r in
  let '(r, sv) := handle_client_final c final sv in
  let* server_final := r in
  let '(r, cl) := receive_server_final c server_final cl in
  let* _ := r in
  Ok (cl, sv).

Definition client_first_bare (username nonce : str) : str :=
  join_with comma (attribute <$> [(x6e, escape_username username); (x72, nonce)]).

Lemma client_first_eq m u p n :
  client_first_message (ScramClient_with_nonce m u p n)
  = (Ok (lit "n,," ++ client_first_bare u n),
     mkClient m u p n None None (client_first_bare u n) ClientState_FirstSent).
Proof. reflexivity. Qed.

Lemma parse_first_bare u n : lacks comma n →
  parse_attributes (client_first_bare u n) = Ok [(USERNAME_KEY, escape_username u); (NONCE_KEY, n)].
Proof.
  intros. unfold client_first_bare. rewrite parse_attributes_join; [done|done|].
  repeat constructor; simpl; try done. apply lacks_escape.
Qed.

Lemma strip_gs2_ok bare : strip_gs2 (lit "n,," ++ bare) = Ok bare.
Proof.
  unfold strip_gs2. change (lit "n,,") with GS2_NO_BINDING_HEADER. by rewrite strip_prefix_app.
Qed.

Lemma client_first_nonce_ok user n : n ≠ [] →
  client_first_nonce [(USERNAME_KEY, user); (NONCE_KEY, n)] = Ok n.
Proof. destruct n; [done|]. reflexivity. Qed.

Lemma server_first_eq m u user creds sn n : lacks comma n → n ≠ [] →
  handle_client_first c (lit "n,," ++ client_first_bare u n) user creds (ScramServer_with_nonce m sn)
  = (Ok (server_first_text c (n ++ sn) creds),
     mkServer m sn (client_first_bare u n) (server_first_text c (n ++ sn) creds)
       ServerState_ExpectClientFinal user n (Some creds)).
Proof.
  intros Hn Hne. unfold handle_client_first. step_unfold.
  rewrite bool_decide_true by done. cbn [negb]. rewrite strip_gs2_ok, parse_first_bare by done.
  rewrite client_first_nonce_ok by done. done.
Qed.

Lemma server_first_text_join nonce creds :
  server_first_text c nonce creds
  = join_with comma (attribute <$> [(x72, nonce); (x73, base64_encode c (salt creds));
                                    (x69, dec_bytes (iterations creds))]).
Proof.
  reflexivity.
Qed.

Lemma ServerFirst_parse_text nonce creds : lacks comma nonce → nonce ≠ [] →
  1 <= iterations creds <= MAX_SCRAM_ITERATIONS →
  ServerFirst_parse c (server_first_text c nonce creds)
  = Ok (mkServerFirst nonce (salt creds) (iterations creds)).
Proof.
  intros Hn Hne Hi. unfold ServerFirst_parse. rewrite server_first_text_join, parse_attributes_join.
  - cbn [bind fmap list_fmap fst snd]. unfold server_first_loop. simpl.
    rewrite base64_inverse. simpl. rewrite parse_u32_dec.
    2: { unfold MAX_SCRAM_ITERATIONS in Hi. unfold_ranges. lia. }
    simpl. zif. simpl. destruct nonce; [done|]. done.
  - done.
  - repeat constructor; simpl; try done.
    + apply base64_alphabet.
    + by apply lacks_dec_bytes.
Qed.
Definition final_attributes (nonce : str) (proof : bytes) : list (byte * str) :=
  [(x63, NO_CHANNEL_BINDING_FLAG); (x72, nonce); (x70, base64_encode c proof)].

Lemma parse_client_final nonce proof : lacks comma nonce →
  parse_attributes (client_final_without_proof nonce ++ lit "," ++ PROOF_KEY ++ lit "="
                    ++ base64_encode c proof)
  = Ok [(CHANNEL_BINDING_KEY, NO_CHANNEL_BINDING_FLAG); (NONCE_KEY, nonce);
        (PROOF_KEY, base64_encode c proof)].
Proof.
  intros Hn.
  assert (client_final_without_proof nonce ++ lit "," ++ PROOF_KEY ++ lit "=" ++ base64_encode c proof
          = join_with comma (attribute <$> final_attributes nonce proof)) as ->.
  { unfold client_final_without_proof. rewrite <- !app_assoc. reflexivity. }
  rewrite parse_attributes_join; [done|done|].
  repeat constructor; simpl; try done.
  - by apply (bool_decide_unpack _).
  - apply base64_alphabet.
Qed.

Lemma parse_server_final sig :
  parse_attributes (VERIFIER_KEY ++ lit "=" ++ base64_encode c sig)
  = Ok [(VERIFIER_KEY, base64_encode c sig)].
Proof.
  change (VERIFIER_KEY ++ lit "=" ++ base64_encode c sig)
    with (join_with comma (attribute <$> [(x76, base64_encode c sig)])).
  rewrite parse_attributes_join; [done|done|]. repeat constructor; simpl; try done.
  apply base64_alphabet.
Qed.

(** The transcript both sides authenticate. *)
Definition transcript (bare server_first nonce : str) : str :=
  bare ++ lit "," ++ server_first ++ lit ",c=biws,r=" ++ nonce.
Lemma transcript_eq bare sf nonce :
  bare ++ lit "," ++ sf ++ lit "," ++ client_final_without_proof nonce = transcript bare sf nonce.
Proof. reflexivity. Qed.
Lemma transcript_assoc bare sf nonce :
  (bare ++ lit "," ++ sf ++ lit ",") ++ client_final_without_proof nonce = transcript bare sf nonce.
Proof. rewrite <- !app_assoc. reflexivity. Qed.

(** The client after the server-first message of [creds], with key material
    [salted]. *)
Lemma receive_first_eq m u p n sn creds salted : lacks comma n → lacks comma sn → n ≠ [] →
  1 <= iterations creds <= MAX_SCRAM_ITERATIONS →
  salted_password c m p (salt creds) (iterations creds) = Ok salted →
  let msg := server_first_text c (n ++ sn) creds in
  receive_server_first c msg (mkClient m u p n None None (client_first_bare u n) ClientState_FirstSent)
  = (Ok (), mkClient m u p n (Some (mkServerFirst (n ++ sn) (salt creds) (iterations creds)))
              (Some salted) (client_first_bare u n ++ lit "," ++ msg ++ lit ",") ClientState_FirstSent).
Proof.
  intros Hn Hs Hne Hi Hp msg. unfold receive_server_first. step_unfold.
  rewrite bool_decide_true by done. cbn [negb orb is_some cl_server_first].
  subst msg. rewrite ServerFirst_parse_text; [|by apply lacks_app|by destruct n|done].
  cbn [sf_nonce sf_salt sf_iterations cl_client_nonce cl_mechanism cl_password].
  rewrite starts_with_app. cbn [negb]. rewrite Hp. reflexivity.
Qed.

Lemma hmac_bytes_ok m k x : ∃ t, hmac_bytes c m k x = Ok t ∧ len t = output_size m.
Proof. unfold hmac_bytes. destruct (hmac_total m k x) as (t & -> & ?). by exists t. Qed.

Lemma client_final_eq m u p n sf salted msg ck sig :
  hmac_bytes c m salted (lit "Client Key") = Ok ck →
  let wo := client_final_without_proof (sf_nonce sf) in
  hmac_bytes c m (hash_bytes c m ck) (msg ++ wo) = Ok sig → len ck = len sig →
  client_final_message c (mkClient m u p n (Some sf) (Some salted) msg ClientState_FirstSent)
  = (Ok (wo ++ lit "," ++ PROOF_KEY ++ lit "=" ++ base64_encode c (zip_with xor_byte ck sig)),
     mkClient m u p n (Some sf) (Some salted) (msg ++ wo) ClientState_FinalSent).
Proof.
  intros Hck wo Hsig Hl. unfold client_final_message. step_unfold.
  rewrite bool_decide_true by done.
  cbn [negb ok_or cl_server_first cl_salted_password cl_mechanism cl_auth_message].
  rewrite Hck. fold wo. rewrite Hsig, xor_bytes_ok by done. reflexivity.
Qed.

Lemma server_final_eq m sn bare sf user n creds ck sig ssig : lacks comma (n ++ sn) →
  stored_key creds = hash_bytes c m ck →
  hmac_bytes c m (stored_key creds) (transcript bare sf (n ++ sn)) = Ok sig → len ck = len sig →
  hmac_bytes c m (server_key creds) (transcript bare sf (n ++ sn)) = Ok ssig →
  handle_client_final c
    (client_final_without_proof (n ++ sn) ++ lit "," ++ PROOF_KEY ++ lit "="
     ++ base64_encode c (zip_with xor_byte ck sig))
    (mkServer m sn bare sf ServerState_ExpectClientFinal user n (Some creds))
  = (Ok (VERIFIER_KEY ++ lit "=" ++ base64_encode c ssig),
     mkServer m sn bare sf ServerState_Done user n (Some creds)).
Proof.
  intros Hn Hk Hsig Hl Hs. unfold handle_client_final. step_unfold.
  rewrite bool_decide_true by done. cbn [negb ok_or sv_credentials].
  rewrite parse_client_final by done.
  change (client_final_loop _ None None None)
    with (Ok (E := AuthError) (Some NO_CHANNEL_BINDING_FLAG, Some (n ++ sn),
                Some (base64_encode c (zip_with xor_byte ck sig)))).
  cbn [sv_client_nonce sv_server_nonce ok_or]. rewrite !bool_decide_true by done. cbn [negb].
  rewrite base64_inverse. cbn [ok_or sv_client_first_bare sv_server_first_message sv_mechanism].
  rewrite transcript_eq, Hsig.
  destruct (xor_cancel ck sig Hl) as [Hx Hlx]. rewrite Hlx, Z.eqb_refl. cbn [negb].
  rewrite xor_bytes_ok, Hx by done. rewrite ct_eq_spec, bool_decide_true by done. cbn [negb].
  rewrite Hs. reflexivity.
Qed.

Lemma receive_final_eq m u p n sf salted msg sk sig :
  hmac_bytes c m salted (lit "Server Key") = Ok sk → hmac_bytes c m sk msg = Ok sig →
  receive_server_final c (VERIFIER_KEY ++ lit "=" ++ base64_encode c sig)
    (mkClient m u p n sf (Some salted) msg ClientState_FinalSent)
  = (Ok (), mkClient m u p n sf (Some salted) msg ClientState_Done).
Proof.
  intros Hsk Hsig. unfold receive_server_final. step_unfold.
  rewrite bool_decide_true by done. cbn [negb]. rewrite parse_server_final.
  change (str_eqb VERIFIER_KEY ERROR_KEY) with false. change (str_eqb VERIFIER_KEY VERIFIER_KEY) with true.
  cbn iota. rewrite base64_inverse. cbn [ok_or cl_salted_password cl_mechanism cl_auth_message].
  rewrite Hsk, Hsig, Z.eqb_refl, ct_eq_spec, bool_decide_true by done. reflexivity.
Qed.

Lemma exchange_succeeds m u p n sn slt it creds : lacks comma n → lacks comma sn → n ≠ [] →
  1 <= it <= MAX_SCRAM_ITERATIONS → StoredCredentials_derive c m p slt it = Ok creds →
  ∃ cl sv, exchange (ScramClient_with_nonce m u p n) (ScramServer_with_nonce m sn) u creds = Ok (cl, sv)
    ∧ cl_state cl = ClientState_Done ∧ sv_state sv = ServerState_Done ∧ sv_username sv = u.
Proof.
  intros Hn Hs Hne Hi Hd. unfold StoredCredentials_derive in Hd.
  apply bind_Ok_inv in Hd as (salted & Hsp & Hd). apply bind_Ok_inv in Hd as (ck & Hck & Hd).
  apply bind_Ok_inv in Hd as (sk & Hsk & Hd). injection Hd as <-.
  set (creds := mkCredentials slt it (hash_bytes c m ck) sk).
  set (sf := server_first_text c (n ++ sn) creds).
  destruct (hmac_bytes_ok m (hash_bytes c m ck) (transcript (client_first_bare u n) sf (n ++ sn)))
    as (sig & Hsig & Hlsig).
  destruct (hmac_bytes_ok m sk (transcript (client_first_bare u n) sf (n ++ sn))) as (ssig & Hssig & _).
  assert (len ck = len sig) as Hl.
  { destruct (hmac_bytes_ok m salted (lit "Client Key")) as (t & Ht & ?). congruence. }
  unfold exchange. rewrite client_first_eq. cbn [bind]. rewrite server_first_eq by done. cbn [bind].
  rewrite (receive_first_eq m u p n sn creds salted) by done. cbn [bind]. fold sf.
  rewrite (client_final_eq m u p n _ salted _ ck sig); [|done| |done].
  2: { cbn [sf_nonce]. rewrite <- Hsig. f_equal. apply transcript_assoc. }
  cbn [bind sf_nonce].
  rewrite (server_final_eq m sn _ sf u n creds ck sig ssig); [|by apply lacks_app|done..].
  cbn [bind]. rewrite (receive_final_eq _ _ _ _ _ _ _ sk ssig); [|done|].
  2: { rewrite <- Hssig. f_equal. apply transcript_assoc. }
  cbn [bind]. eexists _, _. done.
Qed.
End Exchange.

(** ** What the machines verify *)

Section Reachability.
Context (c : Crypto) `{!CryptoLaws c}.

(** [msg] proves knowledge of the client key to [sv], which answers [reply]:
    it consists of the [c=biws] flag, the full nonce and a proof, each once, in
    any order and nothing else; and the proof, unmasked with the signature of
    the transcript, hashes to the stored key. *)
Definition proof_verified (sv : ScramServer) (msg reply : str) : Prop :=
  ∃ creds attrs b64 proof sig ssig,
    let nonce := sv_client_nonce sv ++ sv_server_nonce sv in
    let auth := transcript (sv_client_first_bare sv) (sv_server_first_message sv) nonce in
    sv_credentials sv = Some creds
    ∧ message_of msg attrs
    ∧ attrs ≡ₚ [(lit "c", lit "biws"); (lit "r", nonce); (lit "p", b64)]
    ∧ base64_decode c b64 = Some proof
    ∧ hmac c (sv_mechanism sv) (stored_key creds) auth = Some sig
    ∧ len proof = len sig
    ∧ digest c (sv_mechanism sv) (zip_with xor_byte proof sig) = stored_key creds
    ∧ hmac c (sv_mechanism sv) (server_key creds) auth = Some ssig
    ∧ reply = lit "v=" ++ base64_encode c ssig.

(** The loop over the attributes takes each key once. *)
Definition missing (key : char) (have : option str) (value : str) : list (char * str) :=
  match have with None => [(key, value)] | Some _ => [] end.
Definition found (have : option str) (value : str) : Prop :=
  match have with None => True | Some v => v = value end.
Lemma client_final_loop_sound attrs : ∀ b n p b' n' p',
  client_final_loop attrs b n p = Ok (Some b', Some n', Some p') →
  attrs ≡ₚ missing (lit "c") b b' ++ missing (lit "r") n n' ++ missing (lit "p") p p'
  ∧ found b b' ∧ found n n' ∧ found p p'.
Proof.
  induction attrs as [|[k v] attrs IH]; intros b n p b' n' p'; cbn [client_final_loop].
  { intros [= -> -> ->]. done. }
  unfold str_eqb. repeat case_bool_decide; subst; destruct b, n, p; cbn [is_some negb andb]; try done;
    intros (HP & Hb & Hn & Hp)%IH; cbn [missing found app] in *; subst;
    (split_and!; [|done..]); rewrite HP; solve_Permutation.
Qed.
Lemma client_final_loop_complete attrs : ∀ b n p b' n' p',
  attrs ≡ₚ missing (lit "c") b b' ++ missing (lit "r") n n' ++ missing (lit "p") p p' →
  found b b' → found n n' → found p p' →
  client_final_loop attrs b n p = Ok (Some b', Some n', Some p').
Proof.
  induction attrs as [|[k v] attrs IH]; intros b n p b' n' p' HP Hb Hn Hp.
  { apply Permutation_nil_l in HP. destruct b, n, p; try done. cbn [found] in *. by subst. }
  assert ((k, v) ∈ missing (lit "c") b b' ++ missing (lit "r") n n' ++ missing (lit "p") p p') as Hin
    by (rewrite <- HP; by left).
  destruct b, n, p; cbn [missing app found] in *; subst;
    repeat (apply elem_of_cons in Hin as [Hin|Hin]; [injection Hin as -> ->|]);
    try (by apply not_elem_of_nil in Hin);
    cbn [client_final_loop]; apply IH; cbn [missing app found]; try done;
    (eapply Permutation_cons_inv; rewrite HP; solve_Permutation).
Qed.
Lemma client_final_loop_iff attrs b n p : client_final_loop attrs None None None = Ok (Some b, Some n, Some p)
  ↔ attrs ≡ₚ [(lit "c", b); (lit "r", n); (lit "p", p)].
Proof.
  split; [by intros [? _]%client_final_loop_sound|]. intros. by apply client_final_loop_complete.
Qed.

Lemma returns_collect {A B} (f : A → outcome AuthError B) l :
  (∀ a, returns (f a)) → returns (collect (f <$> l)).
Proof.
  intros Hf. induction l as [|a l IH]; [done|]. cbn [fmap list_fmap collect].
  apply returns_bind; [done|]. intros. apply returns_bind; [exact IH|done].
Qed.
Lemma returns_parse_attributes msg : returns (parse_attributes msg).
Proof.
  apply returns_collect. intros a. unfold parse_attribute. repeat case_match; done.
Qed.
Lemma returns_client_final_loop attrs : ∀ b n p, returns (client_final_loop attrs b n p).
Proof.
  induction attrs as [|[k v] attrs IH]; intros b n p; simpl; [done|]. repeat case_match; done.
Qed.
Lemma returns_server_first_loop attrs : ∀ n s i, returns (server_first_loop c attrs n s i).
Proof.
  induction attrs as [|[k v] attrs IH]; intros n s i; simpl; [done|].
  repeat (case_match; [done||(apply returns_bind; [auto with wire|intros; repeat case_match; done])|]).
  done.
Qed.
Lemma returns_ServerFirst_parse msg : returns (ServerFirst_parse c msg).
Proof.
  unfold ServerFirst_parse. apply returns_bind; [apply returns_parse_attributes|]. intros attrs _.
  apply returns_bind; [apply returns_server_first_loop|]. intros [[n s] i] _.
  repeat (apply returns_bind; [auto with wire|intros ? _]). done.
Qed.
Lemma returns_hmac m k x : returns (hmac_bytes c m k x).
Proof. destruct (hmac_bytes_ok c m k x) as (t & -> & _). done. Qed.

Lemma handle_client_final_spec sv msg r sv' : handle_client_final c msg sv = (r, sv') →
  match r with
  | Ok reply => sv_state sv = ServerState_ExpectClientFinal ∧ proof_verified sv msg reply
                ∧ sv' = set_sv_state ServerState_Done sv
  | Err _ => sv' = sv
  | Panic | Fuel => False
  end.
Proof.
  unfold handle_client_final. step_unfold.
  case_bool_decide as Hst; cbn [negb]; [|intros; by simplify_eq].
  destruct (sv_credentials sv) as [creds|] eqn:Hcr; cbn [ok_or]; [|intros; by simplify_eq].
  pose proof (returns_parse_attributes msg) as Hra.
  destruct (parse_attributes msg) as [attrs| | |] eqn:Hpa; try done; [|intros; by simplify_eq].
  pose proof (returns_client_final_loop attrs None None None) as Hrl.
  destruct (client_final_loop attrs None None None) as [[[b n] p]| | |] eqn:Hl; try done;
    [|intros; by simplify_eq].
  case_bool_decide as Hb; cbn [negb]; [|intros; by simplify_eq].
  case_bool_decide as Hn; cbn [negb]; [|intros; by simplify_eq].
  destruct p as [b64|]; cbn [ok_or]; [|intros; by simplify_eq].
  destruct (base64_decode c b64) as [proof|] eqn:Hp; cbn [ok_or]; [|intros; by simplify_eq].
  rewrite transcript_eq. unfold hmac_bytes.
  set (auth := transcript _ _ _).
  destruct (hmac_total (sv_mechanism sv) (stored_key creds) auth) as (sig & Hsig & _).
  rewrite Hsig. cbn [expect].
  destruct (len proof =? len sig) eqn:Hlen; cbn [negb]; [|intros; by simplify_eq].
  apply Z.eqb_eq in Hlen. rewrite xor_bytes_ok by done. rewrite ct_eq_spec. unfold hash_bytes.
  case_bool_decide as Hh; cbn [negb]; [|intros; by simplify_eq].
  destruct (hmac_total (sv_mechanism sv) (server_key creds) auth) as (ssig & Hssig & _).
  rewrite Hssig. cbn [expect]. intros [= <- <-]. subst b n.
  split_and!; [done| |done]. exists creds, attrs, b64, proof, sig, ssig.
  apply parse_attributes_iff in Hpa. apply client_final_loop_iff in Hl. done.
Qed.

Lemma handle_client_final_verified sv msg reply : sv_state sv = ServerState_ExpectClientFinal →
  proof_verified sv msg reply →
  handle_client_final c msg sv = (Ok reply, set_sv_state ServerState_Done sv).
Proof.
  intros Hst (creds & attrs & b64 & proof & sig & ssig & Hcr & Hpa & Hl & Hd & Hsig & Hlen & Hh & Hs & ->).
  apply parse_attributes_iff in Hpa. apply client_final_loop_iff in Hl.
  unfold handle_client_final. step_unfold. rewrite bool_decide_true by done. cbn [negb].
  rewrite Hcr. cbn [ok_or]. rewrite Hpa, Hl. rewrite !bool_decide_true by done. cbn [negb ok_or].
  rewrite Hd. cbn [ok_or]. unfold hmac_bytes, hash_bytes.
  rewrite transcript_eq, Hsig. cbn [expect]. rewrite Hlen, Z.eqb_refl. cbn [negb]. rewrite xor_bytes_ok by done.
  rewrite ct_eq_spec, bool_decide_true by done. cbn [negb]. rewrite Hs. reflexivity.
Qed.

(** [msg] is a client-first message without channel binding: a user name, a
    nonce and extensions, none of them mandatory. *)
Definition first_carries (msg bare nonce : str) : Prop :=
  msg = lit "n,," ++ bare ∧ nonce ≠ []
  ∧ ∃ user exts, message_of bare ((lit "n", user) :: (lit "r", nonce) :: exts)
      ∧ Forall (λ kv, kv.1 ≠ lit "m") exts.
(** What an accepted client-first message makes of a fresh server, and the
    answer to it. *)
Definition first_step (sv : ScramServer) (msg user : str) (creds : StoredCredentials) (reply : str)
    (sv' : ScramServer) : Prop :=
  ∃ bare nonce, first_carries msg bare nonce
    ∧ reply = lit "r=" ++ (nonce ++ sv_server_nonce sv) ++ lit ",s=" ++ base64_encode c (salt creds)
              ++ lit ",i=" ++ dec_bytes (iterations creds)
    ∧ sv' = mkServer (sv_mechanism sv) (sv_server_nonce sv) bare reply ServerState_ExpectClientFinal
              user nonce (Some creds).

Lemma client_first_nonce_Ok attrs nonce : client_first_nonce attrs = Ok nonce →
  nonce ≠ [] ∧ ∃ user exts, attrs = (lit "n", user) :: (lit "r", nonce) :: exts
    ∧ Forall (λ kv, kv.1 ≠ lit "m") exts.
Proof.
  unfold client_first_nonce. destruct (existsb (λ kv : str * str, str_eqb kv.1 (lit "m")) attrs) eqn:Hm; [done|].
  destruct attrs as [|[k1 user] attrs]; [done|]. unfold str_eqb at 1. case_bool_decide as H1; [|done].
  destruct attrs as [|[k2 n] attrs]; [done|]. unfold str_eqb at 1. case_bool_decide as H2; [|done].
  unfold str_eqb at 1. case_bool_decide as H3; [done|]. intros [= <-]. subst. split; [done|].
  exists user, attrs. split; [done|]. apply Forall_forall. intros kv Hin E.
  cbn [existsb fst] in Hm. apply orb_false_iff in Hm as [_ [_ Hm]%orb_false_iff].
  assert (existsb (λ kv : str * str, str_eqb kv.1 (lit "m")) attrs = true) as He; [|congruence].
  apply existsb_exists. exists kv. split; [by apply list_elem_of_In|]. by apply bool_decide_eq_true.
Qed.

Lemma handle_client_first_spec sv msg user creds r sv' :
  handle_client_first c msg user creds sv = (r, sv') →
  match r with
  | Ok reply => sv_state sv = ServerState_ExpectClientFirst ∧ first_step sv msg user creds reply sv'
  | Err _ => sv' = sv
  | Panic | Fuel => False
  end.
Proof.
  unfold handle_client_first. step_unfold.
  case_bool_decide as Hst; cbn [negb]; [|intros; by simplify_eq].
  destruct (strip_gs2 msg) as [bare| | |] eqn:Hg;
    [|by intros; simplify_eq|unfold strip_gs2 in Hg; by repeat case_match..].
  pose proof (returns_parse_attributes bare) as Hra.
  destruct (parse_attributes bare) as [attrs| | |] eqn:Hpa; try done; [|intros; by simplify_eq].
  destruct (client_first_nonce attrs) as [n| | |] eqn:Hn;
    [|by intros; simplify_eq|unfold client_first_nonce in Hn; by repeat case_match..].
  intros [= <- <-]. split; [done|]. exists bare, n.
  apply client_first_nonce_Ok in Hn as (Hne & u & exts & -> & Hexts). apply parse_attributes_iff in Hpa.
  split; [|by split].
  split_and!; [|done|by exists u, exts]. unfold strip_gs2 in Hg.
  destruct (strip_prefix GS2_NO_BINDING_HEADER msg) eqn:Hs; [|by repeat case_match].
  injection Hg as ->. by apply strip_prefix_Some in Hs.
Qed.
Lemma first_step_state sv msg user creds reply sv' : first_step sv msg user creds reply sv' →
  sv_state sv' = ServerState_ExpectClientFinal ∧ sv_username sv' = user.
Proof. by intros (bare & nonce & _ & _ & ->). Qed.

(** Every call a server can receive, with whatever arguments. *)
Inductive server_call :=
| CallFirst (msg username : str) (creds : StoredCredentials)
| CallFinal (msg : str).
Definition server_apply (call : server_call) : step ScramServer str :=
  match call with
  | CallFirst msg username creds => handle_client_first c msg username creds
  | CallFinal msg => handle_client_final c msg
  end.

(** A server with the log of the calls it received and their results. *)
Inductive server_runs (init : ScramServer) : list (server_call * outcome AuthError str) → ScramServer → Prop :=
| server_start : server_runs init [] init
| server_next log sv call r sv' : server_runs init log sv → server_apply call sv = (r, sv') →
    server_runs init (log ++ [(call, r)]) sv'.

(** The calls of a log that succeeded, with what they returned. *)
Definition accepted {A B} (log : list (A * outcome AuthError B)) : list (A * B) :=
  omap (λ x, match x.2 with Ok b => Some (x.1, b) | _ => None end) log.
Lemma accepted_snoc {A B} (log : list (A * outcome AuthError B)) a r :
  accepted (log ++ [(a, r)]) = accepted log ++ match r with Ok b => [(a, b)] | _ => [] end.
Proof. unfold accepted. rewrite omap_app. by destruct r. Qed.

(** What a server has accepted, and the state that has put it in. *)
Definition server_history (init : ScramServer) (log : list (server_call * outcome AuthError str))
    (sv : ScramServer) : Prop :=
  match accepted log with
  | [] => sv = init
  | [(CallFirst msg user creds, sfirst)] => first_step init msg user creds sfirst sv
  | [(CallFirst msg user creds, sfirst); (CallFinal final, sfinal)] =>
      ∃ sv1, first_step init msg user creds sfirst sv1 ∧ proof_verified sv1 final sfinal
        ∧ sv = set_sv_state ServerState_Done sv1
  | _ => False
  end.

Lemma server_history_state init log sv : sv_state init = ServerState_ExpectClientFirst →
  server_history init log sv →
  match sv_state sv with
  | ServerState_ExpectClientFirst => accepted log = [] ∧ sv = init
  | ServerState_ExpectClientFinal => ∃ msg user creds sfirst,
      accepted log = [(CallFirst msg user creds, sfirst)] ∧ first_step init msg user creds sfirst sv
  | ServerState_Done => True
  end.
Proof.
  intros Hi. unfold server_history.
  destruct (accepted log) as [|[[msg user creds|] sfirst] [|[[|final] sfinal] [|]]]; try done.
  - intros ->. by rewrite Hi.
  - intros H. destruct (first_step_state _ _ _ _ _ _ H) as [-> _]. by exists msg, user, creds, sfirst.
  - by intros (sv1 & _ & _ & ->).
Qed.
Lemma server_runs_history init log sv : sv_state init = ServerState_ExpectClientFirst →
  server_runs init log sv → server_history init log sv.
Proof.
  intros Hi. induction 1 as [|log sv call r sv' _ IH Hc]; [done|].
  pose proof (server_history_state _ _ _ Hi IH) as Hst.
  unfold server_history. rewrite accepted_snoc. destruct call as [msg user creds|msg]; cbn [server_apply] in Hc.
  - apply handle_client_first_spec in Hc. destruct r as [reply|e| |]; try done.
    + destruct Hc as [E Hf]. rewrite E in Hst. destruct Hst as [-> ->]. exact Hf.
    + subst sv'. by rewrite app_nil_r.
  - apply handle_client_final_spec in Hc. destruct r as [reply|e| |]; try done.
    + destruct Hc as (E & Hv & ->). rewrite E in Hst. destruct Hst as (m & u & cr & sf & -> & Hf).
      by exists sv.
    + subst sv'. by rewrite app_nil_r.
Qed.

Lemma server_apply_returns call sv : returns (server_apply call sv).1.
Proof.
  destruct (server_apply call sv) as [r sv'] eqn:E. simpl.
  destruct call; cbn [server_apply] in E;
    [apply handle_client_first_spec in E|apply handle_client_final_spec in E]; by destruct r.
Qed.

(** *** The client *)

Definition iterations_ok (i : Z) : Prop := 1 <= i <= MAX_SCRAM_ITERATIONS.

Lemma parse_digits_nonneg s : ∀ acc v, 0 <= acc → parse_digits s acc = Some v → 0 <= v.
Proof.
  induction s as [|b s IH]; simpl; intros acc v Ha H; [by simplify_eq|].
  unfold dec_digit in H. repeat (case_match; simplify_eq); zbool. eapply IH; [|done]. lia.
Qed.
Lemma parse_u32_nonneg s v : parse_u32 s = Some v → 0 <= v.
Proof.
  unfold parse_u32. intros. repeat (case_match; simplify_eq); eapply parse_digits_nonneg; [|done| |done]; lia.
Qed.

Lemma server_first_loop_iterations attrs : ∀ n s i n' s' i',
  server_first_loop c attrs n s i = Ok (n', s', i') →
  (∀ k, i = Some k → iterations_ok k) → ∀ k, i' = Some k → iterations_ok k.
Proof.
  induction attrs as [|[key v] attrs IH]; intros n s i n' s' i'; cbn [server_first_loop].
  { intros. simplify_eq. eauto. }
  destruct (_ && _); [eauto|]. destruct (_ && _).
  { intros H. apply bind_Ok_inv in H as (? & _ & H). eauto. }
  destruct (_ && _); [|eauto].
  intros H. apply bind_Ok_inv in H as (parsed & Hp & H). apply ok_or_Ok_inv, parse_u32_nonneg in Hp.
  destruct ((parsed =? 0) || _) eqn:Hr; [done|]. intros _. eapply IH; [exact H|].
  intros k [= <-]. unfold iterations_ok. zbool. lia.
Qed.

Lemma first_of_cons key k v kvs :
  first_of key ((k, v) :: kvs) = if bool_decide (k = key) then Some v else first_of key kvs.
Proof. unfold first_of. rewrite filter_cons. cbn [fst]. case_bool_decide; by case_decide. Qed.
(** The loop keeps the first value of each key. *)
Definition or_else {A} (have next : option A) : option A :=
  match have with Some a => Some a | None => next end.
Lemma server_first_loop_first attrs : ∀ n s i n' s' i',
  server_first_loop c attrs n s i = Ok (n', s', i') →
  n' = or_else n (first_of (lit "r") attrs)
  ∧ s' = or_else s (first_of (lit "s") attrs ≫= base64_decode c)
  ∧ i' = or_else i (first_of (lit "i") attrs ≫= parse_u32).
Proof.
  induction attrs as [|[key v] attrs IH]; intros n s i n' s' i'; cbn [server_first_loop].
  { intros [= <- <- <-]. by destruct n, s, i. }
  rewrite !first_of_cons. unfold str_eqb, NONCE_KEY, SALT_KEY, ITERATION_KEY.
  case_bool_decide as Hr; [subst key|case_bool_decide as Hs; [subst key|case_bool_decide as Hi; [subst key|]]];
    repeat rewrite bool_decide_false by done; cbn [andb].
  - destruct n; cbn [is_some negb andb]; intros (-> & -> & ->)%IH; done.
  - destruct s; cbn [is_some negb andb]; [intros (-> & -> & ->)%IH; done|].
    intros (d & Hd%ok_or_Ok_inv & (-> & -> & ->)%IH)%bind_Ok_inv.
    split_and!; [done| |done]. symmetry. exact Hd.
  - destruct i; cbn [is_some negb andb]; [intros (-> & -> & ->)%IH; done|].
    intros (d & Hd%ok_or_Ok_inv & H)%bind_Ok_inv. destruct (_ || _); [done|].
    apply IH in H as (-> & -> & ->). split_and!; [done..|]. symmetry. exact Hd.
  - by intros (-> & -> & ->)%IH.
Qed.

(** What a server-first message says: the first nonce, salt and iteration count
    of its attributes, the count within the limit. *)
Definition server_first_carries (msg : str) (sf : ServerFirst) : Prop :=
  ∃ kvs b64 count, message_of msg kvs
    ∧ first_of (lit "r") kvs = Some (sf_nonce sf) ∧ sf_nonce sf ≠ []
    ∧ first_of (lit "s") kvs = Some b64 ∧ base64_decode c b64 = Some (sf_salt sf)
    ∧ first_of (lit "i") kvs = Some count ∧ parse_u32 count = Some (sf_iterations sf)
    ∧ 1 <= sf_iterations sf <= 1000000.
Lemma ServerFirst_parse_carries msg sf : ServerFirst_parse c msg = Ok sf → server_first_carries msg sf.
Proof.
  unfold ServerFirst_parse. intros H. apply bind_Ok_inv in H as (attrs & Hm%parse_attributes_iff & H).
  apply bind_Ok_inv in H as ([[n s] i] & Hl & H).
  apply bind_Ok_inv in H as (nonce & Hn%ok_or_Ok_inv & H). apply bind_Ok_inv in H as (salt & Hs%ok_or_Ok_inv & H).
  apply bind_Ok_inv in H as (it & Hi%ok_or_Ok_inv & [= <-]).
  pose proof (server_first_loop_iterations _ _ _ _ _ _ _ Hl ltac:(done) it Hi) as Hit.
  apply server_first_loop_first in Hl as (-> & Es & Ei). cbn [or_else] in *.
  rewrite Hs in Es. rewrite Hi in Ei. symmetry in Es, Ei. apply bind_Some in Es as (b64 & Hb & Hd). apply bind_Some in Ei as (count & Hc & Hp).
  exists attrs, b64, count. cbn [sf_nonce sf_salt sf_iterations].
  destruct (first_of (lit "r") attrs) as [[|b l]|]; try done. injection Hn as <-. split_and!; try done; apply Hit.
Qed.

Inductive client_call :=
| CallClientFirst
| CallServerFirst (msg : str)
| CallClientFinal
| CallServerFinal (msg : str).
(** The messages a client is asked for are results; receiving returns nothing. *)
Definition client_apply (call : client_call) : step ScramClient str :=
  match call with
  | CallClientFirst => client_first_message
  | CallServerFirst msg => _ ← receive_server_first c msg; mret []
  | CallClientFinal => client_final_message c
  | CallServerFinal msg => _ ← receive_server_final c msg; mret []
  end.
Inductive client_runs (init : ScramClient) : list (client_call * outcome AuthError str) → ScramClient → Prop :=
| client_start : client_runs init [] init
| client_next log cl call r cl' : client_runs init log cl → client_apply call cl = (r, cl') →
    client_runs init (log ++ [(call, r)]) cl'.

(** A server-first message a client accepts, with the key it derives. *)
Definition first_accepted (cl : ScramClient) (msg : str) (sf : ServerFirst) (salted : bytes) : Prop :=
  server_first_carries msg sf ∧ (∃ rest, sf_nonce sf = cl_client_nonce cl ++ rest)
  ∧ pbkdf2_array c (cl_mechanism cl) (cl_password cl) (sf_salt sf) (sf_iterations sf) = Some salted.
(** The client-final message: the flag, the nonce and the client key masked with
    the signature of the transcript. *)
Definition proof_text (m : ScramMechanism) (salted : bytes) (auth nonce final : str) : Prop :=
  ∃ ck sig, hmac c m salted (lit "Client Key") = Some ck ∧ hmac c m (digest c m ck) auth = Some sig
    ∧ final = lit "c=biws,r=" ++ nonce ++ lit ",p=" ++ base64_encode c (zip_with xor_byte ck sig).
(** [msg] is [v=..] with the signature of the transcript under the server key of
    [salted]. *)
Definition server_verified (m : ScramMechanism) (salted : bytes) (auth msg : str) : Prop :=
  ∃ b64 sk sig, message_of msg [(lit "v", b64)] ∧ base64_decode c b64 = Some sig
    ∧ hmac c m salted (lit "Server Key") = Some sk ∧ hmac c m sk auth = Some sig.

(** What a client has accepted, in the only order there is, and the state that
    has put it in. *)
Definition client_history (init : ScramClient) (log : list (client_call * outcome AuthError str))
    (cl : ScramClient) : Prop :=
  let m := cl_mechanism init in
  let bare := client_first_bare (cl_username init) (cl_client_nonce init) in
  let client := mkClient m (cl_username init) (cl_password init) (cl_client_nonce init) in
  match accepted log with
  | [] => cl = init
  | [(CallClientFirst, first)] =>
      first = lit "n,," ++ bare ∧ cl = client None None bare ClientState_FirstSent
  | (CallClientFirst, first) :: (CallServerFirst sfirst, _) :: rest =>
      first = lit "n,," ++ bare ∧ ∃ sf salted, first_accepted init sfirst sf salted ∧
      let auth := transcript bare sfirst (sf_nonce sf) in
      match rest with
      | [] => cl = client (Some sf) (Some salted) (bare ++ lit "," ++ sfirst ++ lit ",") ClientState_FirstSent
      | [(CallClientFinal, final)] =>
          proof_text m salted auth (sf_nonce sf) final
          ∧ cl = client (Some sf) (Some salted) auth ClientState_FinalSent
      | [(CallClientFinal, final); (CallServerFinal sfinal, _)] =>
          proof_text m salted auth (sf_nonce sf) final ∧ server_verified m salted auth sfinal
          ∧ cl = client (Some sf) (Some salted) auth ClientState_Done
      | _ => False
      end
  | _ => False
  end.

Lemma receive_first_spec cl msg r cl' : receive_server_first c msg cl = (r, cl') →
  match r with
  | Ok _ => cl_state cl = ClientState_FirstSent ∧ cl_server_first cl = None
      ∧ ∃ sf salted, first_accepted cl msg sf salted
        ∧ cl' = set_cl_server_first (Some sf) (set_cl_salted_password (Some salted)
                  (set_cl_auth_message (cl_auth_message cl ++ lit "," ++ msg ++ lit ",") cl))
  | Err _ => cl' = cl
  | Panic | Fuel => False
  end.
Proof.
  unfold receive_server_first. step_unfold.
  case_bool_decide as Hst; cbn [negb orb]; [|by intros [= <- <-]].
  destruct (cl_server_first cl) eqn:Hf; cbn [is_some]; [by intros [= <- <-]|].
  pose proof (returns_ServerFirst_parse msg) as Hr.
  destruct (ServerFirst_parse c msg) as [sf| | |] eqn:Hp; try done; [|by intros [= <- <-]].
  destruct (starts_with _ _) eqn:Hs; cbn [negb]; [|by intros [= <- <-]].
  apply ServerFirst_parse_carries in Hp as Hi. unfold salted_password.
  destruct (pbkdf2_total (c := c) (cl_mechanism cl) (cl_password cl) (sf_salt sf) (sf_iterations sf))
    as [salted Hk]; [by destruct Hi as (? & ? & ? & _ & _ & _ & _ & _ & _ & _ & ? & _)|].
  rewrite Hk. cbn [expect]. intros [= <- <-].
  split_and!; [done..|]. exists sf, salted. split; [|done]. split_and!; [done| |done].
  unfold starts_with in Hs. destruct (strip_prefix _ _) as [rest|] eqn:E; [|done].
  exists rest. by apply strip_prefix_Some in E.
Qed.

Lemma client_final_spec cl r cl' : client_final_message c cl = (r, cl') →
  match r with
  | Ok final => cl_state cl = ClientState_FirstSent
      ∧ ∃ sf salted, cl_server_first cl = Some sf ∧ cl_salted_password cl = Some salted
        ∧ let auth := cl_auth_message cl ++ client_final_without_proof (sf_nonce sf) in
          proof_text (cl_mechanism cl) salted auth (sf_nonce sf) final
          ∧ cl' = set_cl_state ClientState_FinalSent (set_cl_auth_message auth cl)
  | Err _ => cl' = cl
  | Panic | Fuel => False
  end.
Proof.
  unfold client_final_message. step_unfold.
  case_bool_decide as Hst; cbn [negb]; [|by intros [= <- <-]].
  destruct (cl_server_first cl) as [sf|] eqn:Hf; cbn [ok_or]; [|by intros [= <- <-]].
  destruct (cl_salted_password cl) as [salted|] eqn:Hs; cbn [ok_or]; [|by intros [= <- <-]].
  unfold hmac_bytes, hash_bytes.
  destruct (hmac_total (cl_mechanism cl) salted (lit "Client Key")) as (ck & Hck & Hl).
  rewrite Hck. cbn [expect].
  destruct (hmac_total (cl_mechanism cl) (digest c (cl_mechanism cl) ck)
              (cl_auth_message cl ++ client_final_without_proof (sf_nonce sf))) as (sig & Hsig & Hl').
  rewrite Hsig. cbn [expect].
  rewrite xor_bytes_ok by congruence. intros [= <- <-]. split; [done|]. exists sf, salted.
  split_and!; [done..| |done]. exists ck, sig. split_and!; [done..|].
  reflexivity.
Qed.

Lemma receive_final_spec cl msg r cl' : receive_server_final c msg cl = (r, cl') →
  match r with
  | Ok _ => cl_state cl = ClientState_FinalSent
      ∧ (∃ salted, cl_salted_password cl = Some salted
           ∧ server_verified (cl_mechanism cl) salted (cl_auth_message cl) msg)
      ∧ cl' = set_cl_state ClientState_Done cl
  | Err _ => cl' = cl
  | Panic | Fuel => False
  end.
Proof.
  unfold receive_server_final. step_unfold.
  case_bool_decide as Hst; cbn [negb]; [|by intros [= <- <-]].
  pose proof (returns_parse_attributes msg) as Hr.
  destruct (parse_attributes msg) as [attrs| | |] eqn:Hp; try done; [|by intros [= <- <-]].
  destruct attrs as [|[key v] [|]]; [by intros [= <- <-]| |by intros [= <- <-]].
  destruct (str_eqb key ERROR_KEY); [by intros [= <- <-]|].
  destruct (str_eqb key VERIFIER_KEY) eqn:Hk; [|by intros [= <- <-]].
  apply bool_decide_eq_true in Hk as ->. apply parse_attributes_iff in Hp.
  destruct (base64_decode c v) as [recv|] eqn:Hd; cbn [ok_or]; [|by intros [= <- <-]].
  destruct (cl_salted_password cl) as [salted|] eqn:Hs; cbn [ok_or]; [|by intros [= <- <-]].
  unfold hmac_bytes. destruct (hmac_total (cl_mechanism cl) salted (lit "Server Key")) as (sk & Hsk & _).
  rewrite Hsk. cbn [expect].
  destruct (hmac_total (cl_mechanism cl) sk (cl_auth_message cl)) as (sig & Hsig & _).
  rewrite Hsig. cbn [expect]. rewrite ct_eq_spec.
  destruct (_ && _) eqn:He; [|by intros [= <- <-]]. intros [= <- <-].
  apply andb_true_iff in He as [_ He]. apply bool_decide_eq_true in He as ->.
  split_and!; [done| |done]. exists salted. split; [done|]. by exists v, sk, recv.
Qed.

(** A call, by its specification. *)
Lemma client_apply_spec call cl r cl' : client_apply call cl = (r, cl') →
  match r with
  | Ok out =>
      match call with
      | CallClientFirst => out = lit "n,," ++ client_first_bare (cl_username cl) (cl_client_nonce cl)
          ∧ cl_state cl = ClientState_Init
          ∧ cl' = set_cl_state ClientState_FirstSent
                    (set_cl_auth_message (client_first_bare (cl_username cl) (cl_client_nonce cl)) cl)
      | CallServerFirst msg => ∃ u, receive_server_first c msg cl = (Ok u, cl')
      | CallClientFinal => client_final_message c cl = (Ok out, cl')
      | CallServerFinal msg => ∃ u, receive_server_final c msg cl = (Ok u, cl')
      end
  | Err _ => cl' = cl
  | Panic | Fuel => False
  end.
Proof.
  destruct call as [|msg| |msg]; cbn [client_apply].
  - unfold client_first_message. step_unfold.
    case_bool_decide as Hst; cbn [negb]; intros [= <- <-]; done.
  - unfold mbind, step_bind, mret, step_ret. destruct (receive_server_first c msg cl) as [r1 cl1] eqn:E.
    apply receive_first_spec in E as Hs. destruct r1; try done; intros [= <- <-]; [by eexists|done].
  - intros E. apply client_final_spec in E as Hs. by destruct r.
  - unfold mbind, step_bind, mret, step_ret. destruct (receive_server_final c msg cl) as [r1 cl1] eqn:E.
    apply receive_final_spec in E as Hs. destruct r1; try done; intros [= <- <-]; [by eexists|done].
Qed.
Lemma client_apply_returns call cl : returns (client_apply call cl).1.
Proof.
  destruct (client_apply call cl) as [r cl'] eqn:E. apply client_apply_spec in E. by destruct r.
Qed.

(** The last accepted call that a state allows for. *)
Lemma client_history_state init log cl : cl_state init = ClientState_Init →
  client_history init log cl →
  match cl_state cl with
  | ClientState_Init => accepted log = []
  | ClientState_FirstSent =>
      match cl_server_first cl with
      | None => ∃ first, accepted log = [(CallClientFirst, first)]
      | Some _ => ∃ first sfirst x, accepted log = [(CallClientFirst, first); (CallServerFirst sfirst, x)]
      end
  | ClientState_FinalSent => ∃ first sfirst x final,
      accepted log = [(CallClientFirst, first); (CallServerFirst sfirst, x); (CallClientFinal, final)]
  | ClientState_Done => True
  end.
Proof.
  intros Hi. unfold client_history.
  destruct (accepted log) as [|[[|m1| |m1] f1] [|[[|m2| |m2] f2] rest]]; try done.
  - intros ->. by rewrite Hi.
  - intros [_ ->]. by eexists.
  - intros (_ & sf & salted & _ & Hrest). revert Hrest.
    destruct rest as [|[[|m3| |m3] f3] [|[[|m4| |m4] f4] [|]]]; try done.
    + intros ->. by repeat eexists.
    + intros [_ ->]. by repeat eexists.
    + by intros (_ & _ & ->).
Qed.
Lemma client_runs_history m u p n log cl (init := ScramClient_with_nonce m u p n) :
  client_runs init log cl → client_history init log cl.
Proof.
  induction 1 as [|log cl call r cl' _ IH Hc]; [done|].
  pose proof (client_history_state init log cl eq_refl IH) as Hst.
  apply client_apply_spec in Hc. unfold client_history in *. rewrite accepted_snoc.
  destruct r as [out|e| |]; try done; [|subst; by rewrite app_nil_r].
  destruct call as [|msg| |msg].
  - destruct Hc as (-> & E & ->). rewrite E in Hst. rewrite Hst in *. by subst.
  - destruct Hc as [[] (E & Hn & sf & salted & Ha & ->)%receive_first_spec]. rewrite E, Hn in Hst.
    destruct Hst as [first Hl]. rewrite Hl in *. destruct IH as [-> ->]. split; [done|].
    by exists sf, salted.
  - apply client_final_spec in Hc as (E & sf & salted & Hsf & Hsp & Hp & ->). rewrite E, Hsf in Hst.
    destruct Hst as (first & sfirst & x & Hl). rewrite Hl in *.
    destruct IH as (-> & sf' & salted' & Ha & ->). injection Hsf as ->. injection Hsp as ->.
    split; [done|]. exists sf, salted. split; [done|].
    cbn [cl_auth_message cl_mechanism] in Hp |- *. rewrite transcript_assoc in *. done.
  - destruct Hc as [[] (E & (salted & Hsp & Hv) & ->)%receive_final_spec]. rewrite E in Hst.
    destruct Hst as (first & sfirst & x & final & Hl). rewrite Hl in *.
    destruct IH as (-> & sf & salted' & Ha & Hp & ->). injection Hsp as ->. split; [done|].
    by exists sf, salted.
Qed.

Lemma generate_nonce_ok random : len random = 18 →
  generate_nonce c random ≠ [] ∧ lacks comma (generate_nonce c random).
Proof.
  intros Hl. split; [|apply base64_alphabet]. unfold generate_nonce. intros E.
  pose proof (base64_inverse random) as H. rewrite E, <- base64_nil, base64_inverse in H.
  injection H as <-. done.
Qed.
End Reachability.

(** ** A concrete [Crypto] for the witnesses: hexadecimal in place of base64,
    truncation in place of the digests. *)

Definition pad (n : nat) (x : bytes) : bytes := take n (x ++ replicate n x00).
Definition toy_crypto : Crypto :=
  mkCrypto (λ m p s i, Some (pad (Z.to_nat (output_size m)) (p ++ s)))
    (λ m k x, Some (pad (Z.to_nat (output_size m)) (rev x ++ k)))
    (λ m x, pad (Z.to_nat (output_size m)) x)
    (λ x, pad 16 x)
    ObjectId_to_hex
    (λ s, match hex_pairs s with Ok b => Some b | _ => None end)
    (λ x y, bool_decide (x = y)).

Lemma hex_lacks_comma x : lacks comma (ObjectId_to_hex x).
Proof.
  induction x as [|b x IH]; [apply lacks_nil|]. simpl. rewrite !lacks_cons.
  split_and!; [destruct b; vm_compute; discriminate..|exact IH].
Qed.

#[export] Instance toy_laws : CryptoLaws toy_crypto.
Proof.
  split; simpl.
  - intros. by eexists.
  - intros m k x. eexists. split; [done|]. unfold len, pad.
    rewrite length_take, length_app, length_replicate. destruct m; simpl output_size; lia.
  - intros x. by rewrite hex_pairs_to_hex.
  - done.
  - apply hex_lacks_comma.
  - done.
Qed.

(** An exchange of toy machines up to the client-final message. *)
Definition toy_credentials : StoredCredentials :=
  match StoredCredentials_derive toy_crypto ScramMechanism_Sha256 (lit "pw") (lit "salt") 4096 with
  | Ok creds => creds | _ => mkCredentials [] 0 [] [] end.
Definition toy_client : ScramClient :=
  ScramClient_with_nonce ScramMechanism_Sha256 (lit "u") (lit "pw") (lit "cn").
Definition text (r : outcome AuthError str) : str := match r with Ok s => s | _ => [] end.
Definition toy_first : outcome AuthError str * ScramServer :=
  handle_client_first toy_crypto (text (client_first_message toy_client).1) (lit "u") toy_credentials
    (ScramServer_with_nonce ScramMechanism_Sha256 (lit "sn")).
Definition toy_server : ScramServer := toy_first.2.
Definition toy_final : str :=
  text (client_final_message toy_crypto
          (receive_server_first toy_crypto (text toy_first.1) (client_first_message toy_client).2).2).1.

(** ** The theorems *)

(** C16. The honest exchange completes: for any user name (commas and equals
    signs included), password, mechanism and random bytes, with credentials
    derived from the same password and an iteration count the client accepts,
    passing the four messages between a fresh client and a fresh server
    succeeds, both machines end in their done state, and the server reports the
    user name it was given. *)
Theorem scram_exchange_succeeds c (Hc : CryptoLaws c) m user pwd random_c random_s slt it creds cl :
  len random_c = 18 → len random_s = 18 → 1 <= it <= MAX_SCRAM_ITERATIONS →
  StoredCredentials_derive c m (effective_password c m user pwd) slt it = Ok creds →
  ScramClient_new c m user pwd random_c = Ok cl →
  ∃ cl' sv', exchange c cl (ScramServer_new c m random_s) user creds = Ok (cl', sv')
    ∧ cl_state cl' = ClientState_Done ∧ sv_state sv' = ServerState_Done ∧ sv_username sv' = user.
Proof.
  intros Hr Hs Hi Hd [= <-].
  destruct (generate_nonce_ok c random_c Hr). destruct (generate_nonce_ok c random_s Hs).
  by apply (exchange_succeeds c _ _ _ _ _ slt it).
Qed.

Lemma scram_exchange_succeeds_witness :
  ∃ creds cl cl' sv',
    StoredCredentials_derive toy_crypto ScramMechanism_Sha256 (lit "secret") (lit "salt") 4096 = Ok creds
    ∧ exchange toy_crypto cl (ScramServer_new toy_crypto ScramMechanism_Sha256 (replicate 18 x01))
        (lit "a=b,c") creds = Ok (cl', sv').
Proof.
  destruct (StoredCredentials_derive toy_crypto ScramMechanism_Sha256 (lit "secret") (lit "salt") 4096)
    as [creds| | |] eqn:E; [|discriminate E..].
  destruct (scram_exchange_succeeds toy_crypto toy_laws ScramMechanism_Sha256 (lit "a=b,c") (lit "secret")
              (replicate 18 x00) (replicate 18 x01) (lit "salt") 4096 creds _
              eq_refl eq_refl ltac:(unfold MAX_SCRAM_ITERATIONS; lia) E eq_refl) as (cl' & sv' & H & _).
  exists creds. do 3 eexists. split; [reflexivity|exact H].
Defined.

(** C12. A server authenticates exactly on a verified proof: over any machine
    state and message, [handle_client_final] returns, succeeds if and only if
    the server is waiting for that message and the message carries the [c=biws]
    flag, the full nonce and a proof that unmasks to a key hashing to the
    stored key, each exactly once and nothing else; then the reply is the
    server's signature and only the state changes, to done; a failed call leaves
    the machine as it was. *)
Theorem scram_server_authenticates c (Hc : CryptoLaws c) sv msg :
  returns (handle_client_final c msg sv).1
  ∧ (∀ reply sv', handle_client_final c msg sv = (Ok reply, sv')
       ↔ sv_state sv = ServerState_ExpectClientFinal ∧ proof_verified c sv msg reply
         ∧ sv' = set_sv_state ServerState_Done sv)
  ∧ (∀ e sv', handle_client_final c msg sv = (Err e, sv') → sv' = sv).
Proof.
  split_and!.
  - apply (server_apply_returns c (CallFinal msg)).
  - intros reply sv'. split; [exact (handle_client_final_spec c sv msg (Ok reply) sv')|].
    intros (Hs & Hv & ->). by apply handle_client_final_verified.
  - intros e sv'. exact (handle_client_final_spec c sv msg (Err e) sv').
Qed.

Lemma scram_server_authenticates_witness :
  sv_state toy_server = ServerState_ExpectClientFinal
  ∧ ∃ reply, proof_verified toy_crypto toy_server toy_final reply.
Proof.
  split; [vm_compute; reflexivity|].
  destruct (handle_client_final toy_crypto toy_final toy_server) as [r sv'] eqn:E.
  pose proof (f_equal fst E) as Hr. vm_compute in Hr.
  destruct r as [reply|e| |]; try discriminate Hr. exists reply.
  exact (proj1 (proj2 (proj1 (proj1 (proj2
           (scram_server_authenticates toy_crypto toy_laws toy_server toy_final)) reply sv') E))).
Defined.

(** C17. Server call order: whatever sequence of calls with whatever arguments
    a fresh server has received, the calls it accepted are none, or one
    client-first message, or one client-first message followed by one
    client-final message that proves knowledge of the client key to the server
    as the first message left it; every other call in the log was refused.  The
    server is in the state those accepted calls determine: untouched; or holding
    the nonce, the text and the credentials of that first message, having
    answered with the joint nonce, the salt and the iteration count; or that
    state marked done.  And no call panics. *)
Theorem scram_server_order c (Hc : CryptoLaws c) m nonce log sv call :
  server_runs c (ScramServer_with_nonce m nonce) log sv →
  server_history c (ScramServer_with_nonce m nonce) log sv ∧ returns (server_apply c call sv).1.
Proof.
  intros H. split; [by apply server_runs_history|by apply server_apply_returns].
Qed.

(** A second client-first message, refused, before the proof. *)
Lemma scram_server_order_witness :
  let init := ScramServer_with_nonce ScramMechanism_Sha256 (lit "sn") in
  let first := CallFirst (text (client_first_message toy_client).1) (lit "u") toy_credentials in
  ∃ log sv, server_runs toy_crypto init log sv ∧ sv_state sv = ServerState_Done
    ∧ fst <$> log = [first; first; CallFinal toy_final] ∧ fst <$> accepted log = [first; CallFinal toy_final]
    ∧ server_history toy_crypto init log sv.
Proof.
  intros init first.
  set (run := λ call sv, server_apply toy_crypto call sv).
  set (sv1 := (run first init).2). set (sv2 := (run first sv1).2). set (sv3 := (run (CallFinal toy_final) sv2).2).
  set (log := ([] ++ [(first, (run first init).1)] ++ [(first, (run first sv1).1)])
              ++ [(CallFinal toy_final, (run (CallFinal toy_final) sv2).1)]).
  assert (server_runs toy_crypto init log sv3) as Hr.
  { apply (server_next _ _ _ sv2); [|apply surjective_pairing].
    apply (server_next _ _ [(first, (run first init).1)] sv1); [|apply surjective_pairing].
    apply (server_next _ _ [] init); [constructor|apply surjective_pairing]. }
  exists log, sv3. split; [exact Hr|]. split; [vm_compute; reflexivity|].
  split; [vm_compute; reflexivity|]. split; [vm_compute; reflexivity|].
  exact (proj1 (scram_server_order toy_crypto toy_laws ScramMechanism_Sha256 (lit "sn") log sv3
                  (CallFinal []) Hr)).
Defined.

(** C18. Client call order and server authentication: whatever sequence of
    calls a fresh client has received, those it accepted are a prefix of: its
    own first message, one server-first message, its own final message, one
    server-final message; every other call in the log was refused.  The
    server-first message it accepted has a nonce that extends its own and an
    iteration count within the limit; its two own messages are those RFC 5802 prescribes, the second with the proof for the
    transcript of exactly these messages; and it is done only if the
    server-final message it accepted carried the signature of that transcript
    under the server key derived from its own password.  No call panics. *)
Theorem scram_client_order c (Hc : CryptoLaws c) m user pwd nonce log cl call :
  client_runs c (ScramClient_with_nonce m user pwd nonce) log cl →
  client_history c (ScramClient_with_nonce m user pwd nonce) log cl ∧ returns (client_apply c call cl).1.
Proof.
  intros H. split; [by apply client_runs_history|by apply client_apply_returns].
Qed.

(** A forged signature, refused, before the true one. *)
Definition toy_client_calls : list client_call :=
  [CallClientFirst; CallServerFirst (text toy_first.1); CallClientFinal; CallServerFinal (lit "v=00");
   CallServerFinal (text (handle_client_final toy_crypto toy_final toy_server).1)].
Fixpoint client_log (cl : ScramClient) (calls : list client_call)
  : list (client_call * outcome AuthError str) * ScramClient :=
  match calls with
  | [] => ([], cl)
  | call :: calls =>
      let '(r, cl) := client_apply toy_crypto call cl in
      let '(log, cl) := client_log cl calls in ((call, r) :: log, cl)
  end.
Lemma client_log_runs init log0 cl calls : client_runs toy_crypto init log0 cl →
  client_runs toy_crypto init (log0 ++ (client_log cl calls).1) (client_log cl calls).2.
Proof.
  revert log0 cl. induction calls as [|call calls IH]; intros log0 cl Hr; cbn [client_log].
  { by rewrite app_nil_r. }
  destruct (client_apply toy_crypto call cl) as [r cl1] eqn:E.
  specialize (IH (log0 ++ [(call, r)]) cl1 ltac:(by eapply client_next)).
  destruct (client_log cl1 calls) as [log cl2]. by rewrite <- app_assoc in IH.
Qed.
Lemma scram_client_order_witness :
  let log := (client_log toy_client toy_client_calls).1 in
  let cl := (client_log toy_client toy_client_calls).2 in
  cl_state cl = ClientState_Done ∧ length (accepted log) = 4%nat ∧ length log = 5%nat
  ∧ client_history toy_crypto toy_client log cl.
Proof.
  split; [vm_compute; reflexivity|]. split; [vm_compute; reflexivity|]. split; [vm_compute; reflexivity|].
  refine (proj1 (scram_client_order toy_crypto toy_laws ScramMechanism_Sha256 (lit "u") (lit "pw") (lit "cn")
                   _ _ CallClientFirst _)).
  exact (client_log_runs toy_client [] toy_client toy_client_calls (client_start _ _)).
Defined.
