(* ===== verification/Api.v ===== *)
(** * The embedding API: [mongowire/src/api/client_info.rs],
    [mongowire/src/api/handler.rs], [mongowire/src/api/response.rs] and the
    state of [mongowire/src/api/auth.rs]

    Handlers are instances of the class [CommandHandler].  What a handler takes
    from outside its arguments (the clock, random bytes) is in the [Env] of the
    call.  The source shares one handler among all connections and passes it as
    [&self], so it may have interior state: an element of the handler's type is
    the handler as a call meets it, with that state; how calls change it is up
    to the embedder and no part of the class.  [Serve] lets every event meet
    whatever state the handler may be in. *)
From stdpp Require Import base list numbers strings.
From Stdlib Require Import ZArith Lia.
From S2P Require Import Prelude Utf8 Io Consts BsonScalar BsonValue Convert BsonEncode.
From S2P Require Import BsonDecode BsonRoundtrip Header Message OpMsg OpLegacy OpCompressed Framing.
From S2P Require Import StrOps Auth Scram.
Local Open Scope Z_scope.

(** ** Per-connection state *)

Record AuthState := mkAuthState {
  scram : option (ScramMechanism * ScramServer);
  authenticated : option str
}.
Definition AuthState_default : AuthState := mkAuthState None None.

(** A socket address, in its rendered form. *)
Definition SocketAddr : Type := str.

Record ConnectionInfo := mkConnection {
  request_id_counter : Z;
  peer_addr : option SocketAddr;
  negotiated_compressors : list CompressorId;
  ctx_checksum : bool;
  auth : AuthState
}.

Definition ConnectionInfo_new : ConnectionInfo := mkConnection 0 None [] true AuthState_default.

(** [AtomicI32::fetch_add] wraps around. *)
Definition next_request_id (ctx : ConnectionInfo) : Z * ConnectionInfo :=
  (request_id_counter ctx,
   mkConnection (as_i32 (request_id_counter ctx + 1)) (peer_addr ctx)
     (negotiated_compressors ctx) (ctx_checksum ctx) (auth ctx)).

Definition set_negotiated (l : list CompressorId) (ctx : ConnectionInfo) : ConnectionInfo :=
  mkConnection (request_id_counter ctx) (peer_addr ctx) l (ctx_checksum ctx) (auth ctx).
Definition set_auth (a : AuthState) (ctx : ConnectionInfo) : ConnectionInfo :=
  mkConnection (request_id_counter ctx) (peer_addr ctx) (negotiated_compressors ctx)
    (ctx_checksum ctx) a.

(** ** Handlers *)

Record Command := mkCommand {
  cmd_name : str;
  cmd_body : RawDocument;
  cmd_sequences : list DocumentSequence;
  cmd_flags : MsgFlags
}.

Inductive Reply := Reply_Msg (m : OpMsg) | Reply_NoReply.

(** What a call finds in its environment. *)
Record Env := mkEnv { now : SystemTime; random : bytes }.

Class CommandHandler (H : Type) :=
  handle_command : H → Env → ConnectionInfo → Command → outcome WireError Reply * ConnectionInfo.

(** ** Ready-made replies *)

(** [bson_error]: a BSON failure as a protocol error. *)
Definition bson_error (e : BsonError) : WireError := WireError_Protocol (ProtocolError_Bson e).

Definition op_msg (fl : MsgFlags) (body : RawDocument) : outcome WireError OpMsg :=
  map_err WireError_Protocol (OpMsg_new fl body []).

(** The bit pattern of [1.0_f64]. *)
Definition f64_one : f64 := 4607182418800017408.

(** The [compression] array. *)
Definition compressor_names (compressors : list CompressorId) : Array :=
  foldl (λ a c, Array_push a (Bson_String (CompressorId_name c))) Array_new compressors.

Definition handshake_document (local_time : Bson) (compressors : list CompressorId) (max_msg_len : Z)
    (legacy_is_master : bool) : Document :=
  let doc := Document_new in
  let doc := Document_add doc (lit "ok") (Bson_Double f64_one) in
  let doc := if legacy_is_master
             then Document_add doc (lit "ismaster") (Bson_Bool true)
             else Document_add doc (lit "isWritablePrimary") (Bson_Bool true) in
  let doc := Document_add doc (lit "helloOk") (Bson_Bool true) in
  let doc := Document_add doc (lit "maxBsonObjectSize") (Bson_Int32 MAX_BSON_LEN) in
  let doc := Document_add doc (lit "maxMessageSizeBytes") (Bson_Int32 max_msg_len) in
  let doc := Document_add doc (lit "maxWriteBatchSize") (Bson_Int32 100000) in
  let doc := Document_add doc (lit "localTime") local_time in
  let doc := Document_add doc (lit "logicalSessionTimeoutMinutes") (Bson_Int32 30) in
  let doc := Document_add doc (lit "connectionId") (Bson_Int32 1) in
  let doc := Document_add doc (lit "minWireVersion") (Bson_Int32 0) in
  let doc := Document_add doc (lit "maxWireVersion") (Bson_Int32 21) in
  let doc := Document_add doc (lit "readOnly") (Bson_Bool false) in
  if negb (bool_decide (compressors = []))
  then Document_add doc (lit "compression") (Bson_Array (compressor_names compressors))
  else doc.

Definition handshake_reply (env : Env) (compressors : list CompressorId) (max_msg_len : Z)
    (legacy_is_master : bool) : outcome WireError OpMsg :=
  let* local_time := Bson_from_time (now env) in
  let* raw := map_err bson_error
                (Document_encode (handshake_document local_time compressors max_msg_len legacy_is_master)) in
  op_msg 0 raw.

Definition query_handshake_reply (body : RawDocument) : OpReply :=
  mkOpReply AWAIT_CAPABLE 0 0 1 [body].

Definition ping_reply : outcome WireError OpMsg :=
  let doc := Document_add Document_new (lit "ok") (Bson_Double f64_one) in
  let* raw := map_err bson_error (Document_encode doc) in
  op_msg 0 raw.
