(* ===== verification/SaslBridge.v ===== *)
(** * The SASL bridge: [mongowire/src/api/auth.rs]

    [saslStart] and [saslContinue] mapped onto the SCRAM server; everything
    else goes to the inner handler.  The credential store is an instance of
    the class [CredentialSource]. *)
From stdpp Require Import base list numbers strings gmap.
From Stdlib Require Import ZArith Lia.
From S2P Require Import Prelude Utf8 Io Consts BsonScalar BsonValue BsonEncode BsonDecode.
From S2P Require Import BsonRoundtrip Header Message OpMsg OpLegacy OpCompressed Framing.
From S2P Require Import StrOps Auth Scram ScramCorrect Api.
Local Open Scope Z_scope.

Definition AUTHENTICATION_FAILED : Z := 18.

Definition auth_failed (message : str) : WireError :=
  WireError_command AUTHENTICATION_FAILED (lit "AuthenticationFailed") message.

Class CredentialSource (C : Type) :=
  lookup_credentials : C → ScramMechanism → str → option StoredCredentials.

#[export] Instance ScramMechanism_countable : Countable ScramMechanism.
Proof.
  refine (inj_countable' (λ m, match m with ScramMechanism_Sha1 => false | ScramMechanism_Sha256 => true end)
            (λ b : bool, if b then ScramMechanism_Sha256 else ScramMechanism_Sha1) _).
  by intros [].
Defined.

(** ** Reading the command documents *)

Definition parse_mechanism (body : RawDocument) : outcome WireError ScramMechanism :=
  let* field := map_err bson_error (RawDocument_get body (lit "mechanism")) in
  match field with
  | Some (RawBsonRef_String name) =>
      ok_or (ScramMechanism_from_name name)
        (auth_failed (lit "unsupported authentication mechanism " ++ name))
  | _ => Err (auth_failed (lit "saslStart requires a string mechanism"))
  end.

Definition payload_bytes (body : RawDocument) : outcome WireError bytes :=
  let* field := map_err bson_error (RawDocument_get body (lit "payload")) in
  match field with
  | Some (RawBsonRef_Binary b) => Ok (binary_bytes b)
  | Some (RawBsonRef_String payload) => Ok payload
  | Some _ => Err (auth_failed (lit "payload must be a string or binary"))
  | None => Err (auth_failed (lit "missing payload"))
  end.

Definition payload_str (body : RawDocument) : outcome WireError str :=
  let* bs := payload_bytes body in
  map_err (λ _, auth_failed (lit "payload is not valid UTF-8")) (from_utf8 bs).

Definition conversation_id_of (body : RawDocument) : outcome WireError Z :=
  match RawDocument_get body (lit "conversationId") with
  | Ok (Some (RawBsonRef_Int32 id)) => Ok id
  | Ok (Some (RawBsonRef_Int64 id)) => Ok (as_i32 id)
  | Ok _ | Err _ => Ok 1
  | Panic => Panic
  | Fuel => Fuel
  end.

Definition parse_client_first_username (client_first : str) : option str :=
  let bare := default client_first (strip_prefix (lit "n,,") client_first) in
  match split_on comma bare with
  | [] => None
  | first :: _ =>
      match strip_prefix (lit "n=") first with
      | None => None
      | Some username =>
          Some (replace (lit "=3D") (lit "=") (replace (lit "=2C") (lit ",") username))
      end
  end.

(** ** Replies *)

Definition payload_bson (message : str) : Bson :=
  Bson_Binary (mkBinary BinarySubtype_Generic message).

Definition sasl_document (conversation_id : Z) (done : bool) (payload : str) : Document :=
  let doc := Document_new in
  let doc := Document_add doc (lit "conversationId") (Bson_Int32 conversation_id) in
  let doc := Document_add doc (lit "done") (Bson_Bool done) in
  let doc := Document_add doc (lit "payload") (payload_bson payload) in
  Document_add doc (lit "ok") (Bson_Double f64_one).

Definition sasl_reply (conversation_id : Z) (done : bool) (payload : str) : outcome WireError OpMsg :=
  let* raw := map_err bson_error (Document_encode (sasl_document conversation_id done payload)) in
  op_msg 0 raw.

Definition set_scram (x : option (ScramMechanism * ScramServer)) (ctx : ConnectionInfo) : ConnectionInfo :=
  set_auth (mkAuthState x (authenticated (auth ctx))) ctx.
Definition set_authenticated (x : option str) (ctx : ConnectionInfo) : ConnectionInfo :=
  set_auth (mkAuthState (scram (auth ctx)) x) ctx.

Record ScramBridge (H C : Type) := mkBridge { bridge_inner : H; bridge_credentials : C }.
Arguments mkBridge {H C}.
Arguments bridge_inner {H C}.
Arguments bridge_credentials {H C}.

Section Bridge.
Context (c : Crypto).

(** [sasl_start] up to the accepted client-first message: the mechanism, the
    server that accepted it and its answer. *)
Definition sasl_accept {C} `{CredentialSource C} (store : C) (env : Env) (body : RawDocument)
  : outcome WireError (ScramMechanism * ScramServer * str) :=
  let* mechanism := parse_mechanism body in
  let* client_first := payload_str body in
  let* username := ok_or (parse_client_first_username client_first)
                     (auth_failed (lit "malformed client-first message")) in
  match lookup_credentials store mechanism username with
  | None => Err (auth_failed (lit "Authentication failed."))
  | Some creds =>
      let server := ScramServer_new c mechanism (random env) in
      let '(r, server) := handle_client_first c client_first username creds server in
      let* server_first := map_err (λ e, auth_failed (AuthError_to_string e)) r in
      Ok (mechanism, server, server_first)
  end.

Definition sasl_start {C} `{CredentialSource C} (store : C) (env : Env) (ctx : ConnectionInfo)
    (body : RawDocument) : outcome WireError Reply * ConnectionInfo :=
  if is_some (scram (auth ctx))
  then (Err (auth_failed (lit "saslStart while an authentication exchange is already in progress")), ctx)
  else
    match sasl_accept store env body with
    | Ok (mechanism, server, server_first) =>
        let ctx := set_scram (Some (mechanism, server)) ctx in
        (let* reply := sasl_reply 1 false server_first in Ok (Reply_Msg reply), ctx)
    | Err e => (Err e, ctx)
    | Panic => (Panic, ctx)
    | Fuel => (Fuel, ctx)
    end.

Definition sasl_continue (ctx : ConnectionInfo) (body : RawDocument)
  : outcome WireError Reply * ConnectionInfo :=
  match payload_str body with
  | Ok client_final =>
      match scram (auth ctx) with
      | None => (Err (auth_failed (lit "saslContinue without saslStart")), ctx)
      | Some (_, server) =>
          let ctx := set_scram None ctx in
          match conversation_id_of body with
          | Ok conversation_id =>
              match handle_client_final c client_final server with
              | (Ok server_final, server) =>
                  let ctx := set_authenticated (Some (sv_username server)) ctx in
                  (let* reply := sasl_reply conversation_id true server_final in
                   Ok (Reply_Msg reply), ctx)
              | (Err e, _) => (Err (auth_failed (AuthError_to_string e)), ctx)
              | (Panic, _) => (Panic, ctx)
              | (Fuel, _) => (Fuel, ctx)
              end
          | Err e => (Err e, ctx)
          | Panic => (Panic, ctx)
          | Fuel => (Fuel, ctx)
          end
      end
  | Err e => (Err e, ctx)
  | Panic => (Panic, ctx)
  | Fuel => (Fuel, ctx)
  end.

Definition ScramBridge_handle_command {H C} `{CommandHandler H} `{CredentialSource C}
    (self : ScramBridge H C) (env : Env) (ctx : ConnectionInfo) (command : Command)
  : outcome WireError Reply * ConnectionInfo :=
  if str_eqb (cmd_name command) (lit "saslStart")
  then sasl_start (bridge_credentials self) env ctx (cmd_body command)
  else if str_eqb (cmd_name command) (lit "saslContinue")
  then sasl_continue ctx (cmd_body command)
  else handle_command (bridge_inner self) env ctx command.
#[export] Instance ScramBridge_handler {H C} `{CommandHandler H} `{CredentialSource C}
  : CommandHandler (ScramBridge H C) := ScramBridge_handle_command.

(** ** The in-memory credential store *)

(** [HashMap<(ScramMechanism, String), StoredCredentials>]. *)
Definition MemoryCredentialSource : Type := gmap (ScramMechanism * str) StoredCredentials.
Definition MemoryCredentialSource_default : MemoryCredentialSource := ∅.

Definition MemoryCredentialSource_insert (self : MemoryCredentialSource) (mechanism : ScramMechanism)
    (username password : str) : outcome AuthError MemoryCredentialSource :=
  let effective := match mechanism with
                   | ScramMechanism_Sha1 => mongo_sha1_password c username password
                   | ScramMechanism_Sha256 => password
                   end in
  let salt := of_u8 <$> seqZ 0 16 in
  let* credentials :=
    StoredCredentials_derive c mechanism effective salt (ScramMechanism_default_iterations mechanism) in
  Ok (<[(mechanism, username) := credentials]> self).

Definition MemoryCredentialSource_lookup (self : MemoryCredentialSource) (mechanism : ScramMechanism)
    (username : str) : option StoredCredentials := self !! (mechanism, username).
#[export] Instance MemoryCredentialSource_source : CredentialSource MemoryCredentialSource :=
  MemoryCredentialSource_lookup.
End Bridge.

(** ** User names through the wire *)

Lemma parse_username_first u n : parse_client_first_username (lit "n,," ++ client_first_bare u n) = Some u.
Proof.
  unfold parse_client_first_username. rewrite strip_prefix_app. cbv beta iota delta [default from_option id].
  change (client_first_bare u n)
    with ((x6e :: equals :: escape_username u) ++ comma :: attribute (x72, n)).
  rewrite split_on_app.
  - change (x6e :: equals :: escape_username u) with (lit "n=" ++ escape_username u).
    rewrite strip_prefix_app. f_equal. exact (unescape_escape u).
  - rewrite !lacks_cons. split_and!; [done|done|apply lacks_escape].
Qed.

(** ** The login *)

Section Login.
Context (c : Crypto) `{!CryptoLaws c} {C : Type} `{CredentialSource C} (store : C).

(** An accepted exchange, step by step. *)
Lemma exchange_steps cl sv user creds cl' sv' : exchange c cl sv user creds = Ok (cl', sv') →
  ∃ first cl1 sfirst sv1 cl2 final cl3 sfinal,
    client_first_message cl = (Ok first, cl1)
    ∧ handle_client_first c first user creds sv = (Ok sfirst, sv1)
    ∧ receive_server_first c sfirst cl1 = (Ok (), cl2)
    ∧ client_final_message c cl2 = (Ok final, cl3)
    ∧ handle_client_final c final sv1 = (Ok sfinal, sv')
    ∧ receive_server_final c sfinal cl3 = (Ok (), cl').
Proof.
  unfold exchange. intros E.
  destruct (client_first_message cl) as [[first| | |] cl1] eqn:E1; try done. cbn [bind] in E.
  destruct (handle_client_first c first user creds sv) as [[sfirst| | |] sv1] eqn:E2; try done.
  cbn [bind] in E. destruct (receive_server_first c sfirst cl1) as [[[]| | |] cl2] eqn:E3; try done.
  cbn [bind] in E. destruct (client_final_message c cl2) as [[final| | |] cl3] eqn:E4; try done.
  cbn [bind] in E. destruct (handle_client_final c final sv1) as [[sfinal| | |] sv2] eqn:E5; try done.
  cbn [bind] in E. destruct (receive_server_final c sfinal cl3) as [[[]| | |] cl4] eqn:E6; try done.
  cbn [bind] in E. injection E as -> ->. naive_solver.
Qed.

Lemma returns_conversation_id body : ∃ id, conversation_id_of body = Ok id.
Proof.
  unfold conversation_id_of. pose proof (returns_RawDocument_get body (lit "conversationId")) as Hr.
  destruct (RawDocument_get body _) as [[v|]| | |]; try done; [|by eexists..].
  destruct v; by eexists.
Qed.

Lemma sasl_accept_ok env body mech first user creds sfirst sv :
  parse_mechanism body = Ok mech → payload_str body = Ok first →
  parse_client_first_username first = Some user →
  lookup_credentials store mech user = Some creds →
  handle_client_first c first user creds (ScramServer_new c mech (random env)) = (Ok sfirst, sv) →
  sasl_accept c store env body = Ok (mech, sv, sfirst).
Proof.
  intros Hm Hp Hu Hl Hh. unfold sasl_accept. rewrite Hm. cbn [bind]. rewrite Hp. cbn [bind].
  rewrite Hu. cbn [ok_or bind]. rewrite Hl, Hh. done.
Qed.

(** *** What a SASL command says *)

Definition carries_mechanism (body : RawDocument) (mech : ScramMechanism) : Prop :=
  RawDocument_get body (lit "mechanism") = Ok (Some (RawBsonRef_String (ScramMechanism_name mech))).
(** A text payload, as a string or as binary data of any subtype. *)
Definition carries_payload (body : RawDocument) (message : str) : Prop :=
  valid_utf8 message = true
  ∧ (RawDocument_get body (lit "payload") = Ok (Some (RawBsonRef_String message))
     ∨ ∃ st, RawDocument_get body (lit "payload") = Ok (Some (RawBsonRef_Binary (mkBinary st message)))).
(** The user a client-first message claims. *)
Definition claims (first user : str) : Prop :=
  ∃ name rest, first = lit "n,,n=" ++ name ++ rest ∧ lacks comma name
    ∧ (rest = [] ∨ ∃ r, rest = comma :: r) ∧ user = unescape_username name.

Lemma parse_mechanism_Ok body mech : parse_mechanism body = Ok mech → carries_mechanism body mech.
Proof.
  unfold parse_mechanism, carries_mechanism. intros (field & Hf%map_err_Ok_inv & E)%bind_Ok_inv. rewrite Hf.
  destruct field as [[]|]; try done. apply ok_or_Ok_inv in E. unfold ScramMechanism_from_name, str_eqb in E.
  case_bool_decide; [by simplify_eq|]. case_bool_decide; by simplify_eq.
Qed.
Lemma payload_str_iff body s : valid_utf8 s = true → payload_str body = Ok s ↔ carries_payload body s.
Proof.
  intros Hu. unfold payload_str, payload_bytes, carries_payload. split.
  - intros (bs & (field & Hf%map_err_Ok_inv & E)%bind_Ok_inv & [-> _]%map_err_Ok_inv%from_utf8_Ok_inv)%bind_Ok_inv.
    rewrite Hf. split; [done|]. destruct field as [[]|]; try done; injection E as <-; [by left|].
    right. destruct b as [st bs]. by exists st.
  - intros (_ & [->|[st ->]]); cbn [map_err bind binary_bytes]; by rewrite from_utf8_valid.
Qed.
Lemma payload_str_valid body s : payload_str body = Ok s → valid_utf8 s = true.
Proof. unfold payload_str. by intros (bs & _ & [-> ?]%map_err_Ok_inv%from_utf8_Ok_inv)%bind_Ok_inv. Qed.
Lemma payload_str_carries body s : payload_str body = Ok s → carries_payload body s.
Proof. intros E. apply payload_str_iff; [by eapply payload_str_valid|done]. Qed.
Lemma join_head sep p ps : ∃ rest, join_with sep (p :: ps) = p ++ rest ∧ (rest = [] ∨ ∃ r, rest = sep :: r).
Proof.
  destruct ps as [|q ps]; [exists []; rewrite app_nil_r; by split; [|left]|].
  exists (sep :: join_with sep (q :: ps)). split; [done|]. right. by eexists.
Qed.
Lemma parse_username_claims first user bare : first = lit "n,," ++ bare →
  parse_client_first_username first = Some user → claims first user.
Proof.
  intros ->. unfold parse_client_first_username. rewrite strip_prefix_app. cbn [default from_option id].
  destruct (join_split comma bare) as (Hj & _ & Hl). destruct (split_on comma bare) as [|p ps]; [done|].
  destruct (strip_prefix (lit "n=") p) as [name|] eqn:Hs; [|done]. intros [= <-].
  apply strip_prefix_Some in Hs as ->. destruct (join_head comma (lit "n=" ++ name) ps) as (rest & E & Hrest).
  exists name, rest. rewrite <- Hj, E. apply Forall_cons in Hl as [[_ Hl]%lacks_app _]. done.
Qed.

Lemma sasl_accept_Ok_inv env body mech sv sfirst : sasl_accept c store env body = Ok (mech, sv, sfirst) →
  ∃ first user creds, carries_mechanism body mech ∧ carries_payload body first ∧ claims first user
    ∧ lookup_credentials store mech user = Some creds
    ∧ first_step c (ScramServer_new c mech (random env)) first user creds sfirst sv.
Proof.
  unfold sasl_accept. intros E. apply bind_Ok_inv in E as (m & Hm%parse_mechanism_Ok & E).
  apply bind_Ok_inv in E as (first & Hp%payload_str_carries & E). apply bind_Ok_inv in E as (user & Hu & E).
  apply ok_or_Ok_inv in Hu. destruct (lookup_credentials store m user) as [creds|] eqn:Hl; [|done].
  destruct (handle_client_first _ _ _ _ _) as [r sv1] eqn:Hh. apply bind_Ok_inv in E as (sf & Hr & E).
  apply map_err_Ok_inv in Hr as ->. injection E as -> -> ->.
  apply (handle_client_first_spec c) in Hh as [_ Hf]. exists first, user, creds. split_and!; try done.
  destruct Hf as (bare & nonce & (-> & _) & _). by eapply parse_username_claims.
Qed.

(** ** No authentication without a proof *)

(** A command a connection received, with what its call found in the environment
    and returned. *)
Definition entry : Type := Env * Command * outcome WireError Reply.
Definition entry_command (e : entry) : Command := e.1.2.

(** [e] is the [saslStart] with which [user] began the exchange that [sv] serves,
    with the credentials the store holds for that user and mechanism. *)
Definition starts (e : entry) (user : str) (sv : ScramServer) : Prop :=
  let body := cmd_body (entry_command e) in
  cmd_name (entry_command e) = lit "saslStart"
  ∧ ∃ mech first creds sfirst, carries_mechanism body mech ∧ carries_payload body first ∧ claims first user
      ∧ lookup_credentials store mech user = Some creds
      ∧ first_step c (ScramServer_new c mech (random e.1.1)) first user creds sfirst sv.
(** [e] is a [saslContinue] with the proof that exchange asks for. *)
Definition proves (e : entry) (sv : ScramServer) : Prop :=
  cmd_name (entry_command e) = lit "saslContinue"
  ∧ ∃ final sfinal, carries_payload (cmd_body (entry_command e)) final ∧ proof_verified c sv final sfinal.
(** [e] does not end the exchange in progress. *)
Definition passes_by (e : entry) : Prop :=
  cmd_name (entry_command e) = lit "saslContinue" → ∀ s, ¬ carries_payload (cmd_body (entry_command e)) s.

(** The exchange of [user] is in progress after these commands; [user] has
    logged in. *)
Definition in_progress (log : list entry) (user : str) (sv : ScramServer) : Prop :=
  ∃ before e since, log = before ++ e :: since ∧ starts e user sv ∧ Forall passes_by since.
Definition logged_in (log : list entry) (user : str) : Prop :=
  ∃ before e after sv, log = before ++ e :: after ∧ in_progress before user sv ∧ proves e sv.

Definition auth_justified (log : list entry) (a : AuthState) : Prop :=
  (∀ mech sv, scram a = Some (mech, sv) → ∃ user, in_progress log user sv)
  ∧ (∀ user, authenticated a = Some user → logged_in log user).

Lemma in_progress_snoc log e user sv : in_progress log user sv → passes_by e →
  in_progress (log ++ [e]) user sv.
Proof.
  intros (before & e' & since & -> & Hs & Hp) He. exists before, e', (since ++ [e]).
  rewrite <- app_assoc. split_and!; [done..|]. by apply Forall_app_2; [|constructor].
Qed.
Lemma logged_in_snoc log e user : logged_in log user → logged_in (log ++ [e]) user.
Proof.
  intros (before & e' & after & sv & -> & Hp & Hv). exists before, e', (after ++ [e]), sv.
  by rewrite <- app_assoc.
Qed.
Lemma in_progress_username log user sv : in_progress log user sv → sv_username sv = user.
Proof.
  intros (before & e & since & _ & (_ & mech & first & creds & sfirst & _ & _ & _ & _ & Hf) & _).
  by apply first_step_state in Hf as [_ ?].
Qed.
(** Commands that leave the authentication state alone. *)
Lemma justified_snoc log e a : auth_justified log a → passes_by e → auth_justified (log ++ [e]) a.
Proof.
  intros [Hs Ha] He. split.
  - intros mech sv [user Hp]%Hs. exists user. by apply in_progress_snoc.
  - intros user Hu%Ha. by apply logged_in_snoc.
Qed.

Lemma sasl_start_justified log env ctx command r ctx' (e := (env, command, r)) :
  cmd_name command = lit "saslStart" →
  sasl_start c store env ctx (cmd_body command) = (r, ctx') →
  auth_justified log (auth ctx) → auth_justified (log ++ [e]) (auth ctx').
Proof.
  intros Hname. assert (passes_by e) as Hb.
  { intros Hx. change (cmd_name command = lit "saslContinue") in Hx. by rewrite Hname in Hx. }
  unfold sasl_start. destruct (is_some _); [intros [= <- <-]; by intros; apply justified_snoc|].
  destruct (sasl_accept c store env (cmd_body command)) as [[[mech sv] sfirst]| | |] eqn:E;
    intros [= <- <-]; [|by intros; apply justified_snoc..].
  intros [_ Ha]. split; [|by intros user Hu%Ha; apply logged_in_snoc]. intros m s [= <- <-].
  apply sasl_accept_Ok_inv in E as (first & user & creds & Hm & Hp & Hc & Hl & Hf).
  exists user, log, e, []. split_and!; [done| |done]. split; [done|]. by exists mech, first, creds, sfirst.
Qed.

Lemma sasl_continue_justified log env ctx command r ctx' (e := (env, command, r)) :
  cmd_name command = lit "saslContinue" →
  sasl_continue c ctx (cmd_body command) = (r, ctx') →
  auth_justified log (auth ctx) → auth_justified (log ++ [e]) (auth ctx').
Proof.
  intros Hname. unfold sasl_continue. destruct (payload_str (cmd_body command)) as [final| | |] eqn:Hp.
  2-4: intros [= <- <-]; intros; apply justified_snoc; [done|]; intros _ s Hs;
    change (carries_payload (cmd_body command) s) in Hs;
    apply (payload_str_iff _ _ (proj1 Hs)) in Hs; congruence.
  destruct (scram (auth ctx)) as [[mech sv]|] eqn:Hs.
  2: { intros [= <- <-] [_ Ha]. split; [by rewrite Hs|]. intros user Hu%Ha. by apply logged_in_snoc. }
  destruct (returns_conversation_id (cmd_body command)) as [id ->]. intros E [Hf Ha].
  assert (∀ user, authenticated (auth ctx) = Some user → logged_in (log ++ [e]) user) as Ha'
    by (intros user Hu%Ha; by apply logged_in_snoc).
  destruct (handle_client_final c final sv) as [[sfinal| | |] sv'] eqn:Hh;
    injection E as <- <-; [|by split..].
  apply (handle_client_final_spec c) in Hh as (_ & Hv & ->).
  destruct (Hf mech sv Hs) as [user Hu]. split; [done|]. intros u [= <-].
  change (sv_username (set_sv_state ServerState_Done sv)) with (sv_username sv).
  rewrite (in_progress_username _ _ _ Hu). apply payload_str_carries in Hp.
  exists log, e, [], sv. split_and!; [done..|]. split; [done|]. by exists final, sfinal.
Qed.
End Login.

(** The contexts a bridge can produce from a connection under any sequence of
    commands, with the log of those commands. *)
Inductive bridge_runs (c : Crypto) {H C} `{CommandHandler H} `{CredentialSource C}
    (bridge : ScramBridge H C) (init : ConnectionInfo) : list entry → ConnectionInfo → Prop :=
| bridge_start : bridge_runs c bridge init [] init
| bridge_next log ctx env command r ctx' : bridge_runs c bridge init log ctx →
    ScramBridge_handle_command c bridge env ctx command = (r, ctx') →
    bridge_runs c bridge init (log ++ [(env, command, r)]) ctx'.

(** An inner handler that leaves the authentication state alone. *)
Definition auth_neutral {H} `{CommandHandler H} (inner : H) : Prop :=
  ∀ env ctx command, auth (handle_command inner env ctx command).2 = auth ctx.

Lemma bridge_runs_justified c (Hc : CryptoLaws c) {H C} `{CommandHandler H} `{CredentialSource C}
    (bridge : ScramBridge H C) log ctx :
  auth_neutral (bridge_inner bridge) → bridge_runs c bridge ConnectionInfo_new log ctx →
  auth_justified c (bridge_credentials bridge) log (auth ctx).
Proof.
  intros Hn. induction 1 as [|log ctx env command r ctx' _ IH E]; [by split|].
  unfold ScramBridge_handle_command in E.
  destruct (str_eqb _ (lit "saslStart")) eqn:Hstart.
  { apply bool_decide_eq_true in Hstart. by eapply sasl_start_justified. }
  destruct (str_eqb _ (lit "saslContinue")) eqn:Hcont.
  { apply bool_decide_eq_true in Hcont. by eapply sasl_continue_justified. }
  apply bool_decide_eq_false in Hcont.
  pose proof (Hn env ctx command) as Ha. rewrite E in Ha. simpl in Ha. rewrite Ha.
  apply justified_snoc; [done|]. by intros ?.
Qed.

(** A handler with no commands of its own, for the witnesses. *)
Definition no_handler : CommandHandler () := λ _ _ ctx _, (Ok Reply_NoReply, ctx).

Definition sasl_start_document (mech : ScramMechanism) (payload : str) : Document :=
  [(lit "saslStart", Bson_Int32 1); (lit "mechanism", Bson_String (ScramMechanism_name mech));
   (lit "payload", payload_bson payload)].
Definition sasl_continue_document (payload : str) : Document :=
  [(lit "saslContinue", Bson_Int32 1); (lit "conversationId", Bson_Int32 1);
   (lit "payload", payload_bson payload)].
Definition encoded (d : Document) : RawDocument := match Document_encode d with Ok r => r | _ => [] end.

(** The values of a concrete login with the toy cryptography. *)
Definition demo_store : MemoryCredentialSource :=
  match MemoryCredentialSource_insert toy_crypto ∅ ScramMechanism_Sha256 (lit "a,b") (lit "pw") with
  | Ok s => s | _ => ∅ end.
Definition demo_env : Env := mkEnv 0 (replicate 18 x01).
Definition demo_bridge : ScramBridge () MemoryCredentialSource := mkBridge () demo_store.
Definition demo_client : ScramClient :=
  ScramClient_with_nonce ScramMechanism_Sha256 (lit "a,b") (lit "pw")
    (generate_nonce toy_crypto (replicate 18 x00)).

Definition demo_first : str := match (client_first_message demo_client).1 with Ok s => s | _ => [] end.
Definition demo_ctx1 : ConnectionInfo :=
  (sasl_start toy_crypto demo_store demo_env ConnectionInfo_new
     (encoded (sasl_start_document ScramMechanism_Sha256 demo_first))).2.
Definition demo_sfirst : str :=
  match scram (auth demo_ctx1) with Some (_, sv) => sv_server_first_message sv | None => [] end.
Definition demo_final : str :=
  match (client_final_message toy_crypto
           (receive_server_first toy_crypto demo_sfirst (client_first_message demo_client).2).2).1
  with Ok s => s | _ => [] end.
Definition demo_command (d : Document) : Command :=
  mkCommand (match d with (name, _) :: _ => name | [] => [] end) (encoded d) [] 0.
Definition demo_handle (ctx : ConnectionInfo) (d : Document) : outcome WireError Reply * ConnectionInfo :=
  ScramBridge_handle_command (H0 := no_handler) (H1 := MemoryCredentialSource_source) toy_crypto
    demo_bridge demo_env ctx (demo_command d).
Definition demo_ctx2 : ConnectionInfo := (demo_handle demo_ctx1 (sasl_continue_document demo_final)).2.

(** C11. No authentication bypass: under any sequence of commands from a fresh
    connection, the connection is authenticated as a user only if among the
    commands it received are a [saslStart] whose payload is a client-first
    message claiming that user, accepted with the credentials the store holds for
    that user and mechanism and answered with the nonce drawn then, and after it,
    with no other [saslContinue] message in between, a [saslContinue] whose
    payload consists of the channel-binding flag, the nonce of that very exchange
    and a proof verified against those credentials and the texts exchanged.  The
    inner handler is arbitrary as long as it leaves the authentication state
    alone. *)
Theorem sasl_no_bypass c (Hc : CryptoLaws c) H C (h : CommandHandler H) (s : CredentialSource C)
    (bridge : ScramBridge H C) log ctx user :
  auth_neutral (bridge_inner bridge) →
  bridge_runs c bridge ConnectionInfo_new log ctx →
  authenticated (auth ctx) = Some user →
  ∃ before start since cont after sv,
    log = (before ++ start :: since) ++ cont :: after
    ∧ starts c (bridge_credentials bridge) start user sv ∧ Forall passes_by since ∧ proves c cont sv.
Proof.
  intros Hn Hr Hu. apply (bridge_runs_justified c Hc bridge log ctx Hn Hr) in Hu.
  destruct Hu as (pre & cont & after & sv & -> & (before & start & since & -> & Hs & Hp) & Hv).
  by exists before, start, since, cont, after, sv.
Qed.

Lemma sasl_no_bypass_witness :
  let start := demo_command (sasl_start_document ScramMechanism_Sha256 demo_first) in
  let cont := demo_command (sasl_continue_document demo_final) in
  ∃ log, entry_command <$> log = [start; cont]
  ∧ authenticated (auth demo_ctx2) = Some (lit "a,b")
  ∧ ∃ before e1 since e2 after sv, log = (before ++ e1 :: since) ++ e2 :: after
      ∧ starts toy_crypto demo_store e1 (lit "a,b") sv ∧ proves toy_crypto e2 sv.
Proof.
  intros start cont.
  set (log := ([] ++ [(demo_env, start, (demo_handle ConnectionInfo_new (sasl_start_document ScramMechanism_Sha256 demo_first)).1)])
              ++ [(demo_env, cont, (demo_handle demo_ctx1 (sasl_continue_document demo_final)).1)]).
  exists log. split; [reflexivity|].
  assert (authenticated (auth demo_ctx2) = Some (lit "a,b")) as Ha by (vm_compute; reflexivity).
  split; [exact Ha|].
  destruct (sasl_no_bypass toy_crypto toy_laws () _ no_handler MemoryCredentialSource_source demo_bridge
            log demo_ctx2 (lit "a,b")) as (before & e1 & since & e2 & after & sv & El & Hs & _ & Hp).
  - intros env ctx command. reflexivity.
  - apply (bridge_next _ _ _ _ demo_ctx1 demo_env cont); [|apply surjective_pairing].
    apply (bridge_next _ _ _ [] ConnectionInfo_new demo_env start); [constructor|vm_compute; reflexivity].
  - exact Ha.
  - exists before, e1, since, e2, after, sv. split; [exact El|]. split; [exact Hs|exact Hp].
Defined.

(** The commands of a login, step by step; between them the connection's other
    fields may change, and neither command changes the id counter or the
    checksum setting. *)
Lemma login_steps c (Hc : CryptoLaws c) C (s : CredentialSource C) (store : C)
    mech user pwd random_c slt it creds cl first cl1 env ctx body1 :
  len random_c = 18 → len (random env) = 18 → 1 <= it <= MAX_SCRAM_ITERATIONS →
  StoredCredentials_derive c mech (effective_password c mech user pwd) slt it = Ok creds →
  lookup_credentials store mech user = Some creds →
  ScramClient_new c mech user pwd random_c = Ok cl →
  client_first_message cl = (Ok first, cl1) →
  scram (auth ctx) = None → parse_mechanism body1 = Ok mech → payload_str body1 = Ok first →
  ∃ sfirst ctx1 cl2 final cl3,
    sasl_start c store env ctx body1
      = (let* reply := sasl_reply 1 false sfirst in Ok (Reply_Msg reply), ctx1)
    ∧ (request_id_counter ctx1 = request_id_counter ctx ∧ ctx_checksum ctx1 = ctx_checksum ctx)
    ∧ receive_server_first c sfirst cl1 = (Ok (), cl2)
    ∧ client_final_message c cl2 = (Ok final, cl3)
    ∧ ∀ body2 ctx1', auth ctx1' = auth ctx1 → payload_str body2 = Ok final →
       ∃ id sfinal cl4 ctx2,
         sasl_continue c ctx1' body2
           = (let* reply := sasl_reply id true sfinal in Ok (Reply_Msg reply), ctx2)
         ∧ (request_id_counter ctx2 = request_id_counter ctx1' ∧ ctx_checksum ctx2 = ctx_checksum ctx1')
         ∧ authenticated (auth ctx2) = Some user ∧ scram (auth ctx2) = None
         ∧ receive_server_final c sfinal cl3 = (Ok (), cl4) ∧ cl_state cl4 = ClientState_Done.
Proof.
  intros Hrc Hrs Hit Hd Hl [= <-] Hfirst Hs Hm Hp.
  destruct (generate_nonce_ok c random_c Hrc) as [Hn1 Hn2].
  destruct (generate_nonce_ok c (random env) Hrs) as [_ Hn3].
  destruct (exchange_succeeds c mech user (effective_password c mech user pwd) _ _ slt it creds
              Hn2 Hn3 Hn1 Hit Hd) as (cl' & sv' & Hx & Hdone & _ & Huser).
  apply exchange_steps in Hx as (f & k1 & sfirst & sv1 & cl2 & final & cl3 & sfinal & E1 & E2 & E3 & E4 & E5 & E6).
  rewrite Hfirst in E1. injection E1 as <- <-.
  assert (parse_client_first_username first = Some user) as Hu.
  { rewrite client_first_eq in Hfirst. injection Hfirst as <- _. apply parse_username_first. }
  exists sfirst, (set_scram (Some (mech, sv1)) ctx), cl2, final, cl3. split_and!; [|done..|].
  - unfold sasl_start. rewrite Hs. cbn [is_some].
    rewrite (sasl_accept_ok c store env body1 mech first user creds sfirst sv1) by done. done.
  - intros body2 ctx1' Hauth Hp2. destruct (returns_conversation_id body2) as [id Hid].
    exists id, sfinal, cl', (set_authenticated (Some user) (set_scram None ctx1')).
    split_and!; try done. unfold sasl_continue. rewrite Hp2, Hauth.
    change (scram (auth (set_scram (Some (mech, sv1)) ctx))) with (Some (mech, sv1)).
    cbv iota. rewrite Hid, E5, Huser. done.
Qed.
