(* ===== verification/Server.v ===== *)
(** * The server loop and the built-in commands: [mongowire/src/api/mod.rs]

    [process_socket] is a function of the items the framed stream yields, one
    turn per item; a turn also fixes what its handler call finds in the
    environment and how the transport behaves.  The bytes written so far are
    threaded through.  The [crc32c] crate and the compressors are parameters. *)
From stdpp Require Import base list numbers strings.
From Stdlib Require Import ZArith Lia.
From S2P Require Import Prelude Utf8 Io Consts BsonScalar BsonValue BsonEncode BsonDecode.
From S2P Require Import BsonRoundtrip Header Message OpMsg OpLegacy OpCompressed Framing.
From S2P Require Import StrOps Auth Scram ScramCorrect Api SaslBridge.
Local Open Scope Z_scope.

Record ServerConfig := mkServerConfig {
  cfg_max_msg_len : Z; cfg_checksum : bool; cfg_compressors : list CompressorId
}.
Definition ServerConfig_default : ServerConfig := mkServerConfig MAX_MSG_LEN true [].

(** The [std::io::Error]s of the loop. *)
Inductive SocketError :=
| SocketError_InvalidData (e : ProtocolError)
| SocketError_Reply (e : WireError)
| SocketError_Transport.

(** [Result::ok]. *)
Definition ok {E F A} (m : outcome E A) : outcome F (option A) :=
  match m with
  | Ok a => Ok (Some a)
  | Err _ => Ok None
  | Panic => Panic
  | Fuel => Fuel
  end.

(** ** Compression negotiation *)

(** The strings among the elements of the [compression] array. *)
Definition string_elements (values : Array) : list str :=
  omap (λ v, match v with Bson_String name => Some name | _ => None end) values.

Definition requested_compressors {E} (body : RawDocument) : outcome E (option (list str)) :=
  let* field := ok (RawDocument_get body (lit "compression")) in
  match field with
  | Some (Some (RawBsonRef_Array names)) =>
      let* values := ok (RawArray_shallow names) in
      Ok (option_map string_elements values)
  | _ => Ok None
  end.

Definition negotiate (configured : list CompressorId) (requested : option (list str))
  : list CompressorId :=
  match requested with
  | None => []
  | Some requested =>
      List.filter (λ c, existsb (λ name, str_eqb name (CompressorId_name c)) requested) configured
  end.

(** ** Error replies *)

Definition error_reply {E} (err : WireError) (request : MessageBody)
  : outcome E (option MessageBody) :=
  match to_error_response_doc err with
  | None => Ok None
  | Some doc =>
      let* raw := ok (Document_encode doc) in
      match raw with
      | None => Ok None
      | Some raw =>
          match request with
          | MessageBody_Query _ =>
              let reply := query_handshake_reply raw in
              Ok (Some (MessageBody_Reply
                          (mkOpReply (Z.lor (response_flags reply) QUERY_FAILURE) (cursor_id reply)
                             (starting_from reply) (number_returned reply) (reply_documents reply))))
          | _ =>
              let* m := ok (op_msg 0 raw) in
              Ok (option_map MessageBody_Msg m)
          end
      end
  end.

(** ** The built-in commands *)

Definition is_hello (name : str) : bool :=
  str_eqb name (lit "hello") || str_eqb name (lit "isMaster") || str_eqb name (lit "ismaster").

Record BuiltinHandler (H : Type) := mkBuiltin {
  builtin_inner : H; builtin_compressors : list CompressorId; builtin_max_msg_len : Z
}.
Arguments mkBuiltin {H}.
Arguments builtin_inner {H}.
Arguments builtin_compressors {H}.
Arguments builtin_max_msg_len {H}.

Definition BuiltinHandler_handle_command {H} `{CommandHandler H} (self : BuiltinHandler H) (env : Env)
    (ctx : ConnectionInfo) (command : Command) : outcome WireError Reply * ConnectionInfo :=
  if is_hello (cmd_name command) then
    match requested_compressors (cmd_body command) with
    | Ok requested =>
        let negotiated := negotiate (builtin_compressors self) requested in
        let ctx := set_negotiated negotiated ctx in
        let legacy := negb (str_eqb (cmd_name command) (lit "hello")) in
        (let* m := handshake_reply env negotiated (builtin_max_msg_len self) legacy in
         Ok (Reply_Msg m), ctx)
    | Err e => (Err e, ctx)
    | Panic => (Panic, ctx)
    | Fuel => (Fuel, ctx)
    end
  else if str_eqb (cmd_name command) (lit "ping")
  then (let* m := ping_reply in Ok (Reply_Msg m), ctx)
  else handle_command (builtin_inner self) env ctx command.
#[export] Instance BuiltinHandler_handler {H} `{CommandHandler H}
  : CommandHandler (BuiltinHandler H) := BuiltinHandler_handle_command.

(** ** The connection loop *)

(** One turn of the loop: the environment of the handler call, and the
    transport: [Some k] fails after [k] more bytes. *)
Record Turn := mkTurn { turn_env : Env; turn_write : option Z }.

Inductive flow := flow_Continue | flow_Return (r : outcome SocketError ()).

(** [write_all] and [flush]. *)
Definition write_all (turn : Turn) (out frame : bytes) : outcome SocketError () * bytes :=
  match turn_write turn with
  | None => (Ok (), out ++ frame)
  | Some k => (Err SocketError_Transport, out ++ takeZ k frame)
  end.

(** A transport failure reported through the codec is wrapped once more. *)
Definition framed_error (e : SocketError) : SocketError :=
  match e with
  | SocketError_Transport => SocketError_InvalidData (ProtocolError_Io (IoError_Other "transport"))
  | e => e
  end.

Section Server.
Context (crc32c : bytes → Z) (build : Build).

Definition is_msg (body : MessageBody) : bool :=
  match body with MessageBody_Msg _ => true | _ => false end.

Definition send_reply (turn : Turn) (ctx : ConnectionInfo) (response_to : Z) (body : MessageBody)
    (out : bytes) : outcome SocketError () * ConnectionInfo * bytes :=
  let '(id, ctx) := next_request_id ctx in
  let header := Header_new id response_to (MessageBody_opcode body) in
  let bypass := ctx_checksum ctx && is_msg body in
  let '(r, frame) :=
    if bypass
    then let '(r, _, frame) := encode_message crc32c header body true [] in (r, frame)
    else MongoCodec_encode crc32c (header, body) [] in
  match r with
  | Ok _ =>
      let '(r, out) := write_all turn out frame in
      (if bypass then r else map_err framed_error r, ctx, out)
  | Err e => (Err (SocketError_InvalidData e), ctx, out)
  | Panic => (Panic, ctx, out)
  | Fuel => (Fuel, ctx, out)
  end.

(** [send_reply(..).await?] followed by the next iteration. *)
Definition send_and_continue (turn : Turn) (ctx : ConnectionInfo) (response_to : Z) (body : MessageBody)
    (out : bytes) : flow * ConnectionInfo * bytes :=
  match send_reply turn ctx response_to body out with
  | (Ok _, ctx, out) => (flow_Continue, ctx, out)
  | (r, ctx, out) => (flow_Return r, ctx, out)
  end.

(** Closing without an error, and carrying on without a reply. *)
Definition close (ctx : ConnectionInfo) (out : bytes) : flow * ConnectionInfo * bytes :=
  (flow_Return (Ok ()), ctx, out).
Definition silent (ctx : ConnectionInfo) (out : bytes) : flow * ConnectionInfo * bytes :=
  (flow_Continue, ctx, out).

Definition answer_query (config : ServerConfig) (turn : Turn) (h : Header) (q : OpQuery)
    (ctx : ConnectionInfo) (out : bytes) : flow * ConnectionInfo * bytes :=
  match RawDocument_command (query q) with
  | Err _ => close ctx out
  | Panic => (flow_Return Panic, ctx, out)
  | Fuel => (flow_Return Fuel, ctx, out)
  | Ok name =>
      if negb (is_hello name) then
        let err := WireError_command 59 (lit "CommandNotFound") (lit "OP_QUERY only supports hello/isMaster") in
        match error_reply err (MessageBody_Query q) with
        | Ok (Some reply) => send_and_continue turn ctx (request_id h) reply out
        | Ok None => silent ctx out
        | Err r => (flow_Return (Err r), ctx, out)
        | Panic => (flow_Return Panic, ctx, out)
        | Fuel => (flow_Return Fuel, ctx, out)
        end
      else
        match requested_compressors (query q) with
        | Ok requested =>
            let negotiated := negotiate (cfg_compressors config) requested in
            let ctx := set_negotiated negotiated ctx in
            match handshake_reply (turn_env turn) negotiated (cfg_max_msg_len config) true with
            | Ok reply =>
                let body := MessageBody_Reply (query_handshake_reply (OpMsg_document reply)) in
                send_and_continue turn ctx (request_id h) body out
            | Err e => (flow_Return (Err (SocketError_Reply e)), ctx, out)
            | Panic => (flow_Return Panic, ctx, out)
            | Fuel => (flow_Return Fuel, ctx, out)
            end
        | Err r => (flow_Return (Err r), ctx, out)
        | Panic => (flow_Return Panic, ctx, out)
        | Fuel => (flow_Return Fuel, ctx, out)
        end
  end.

Context {H : Type} `{CommandHandler H}.

Definition answer_msg (handler : H) (turn : Turn) (h : Header) (msg : OpMsg)
    (ctx : ConnectionInfo) (out : bytes) : flow * ConnectionInfo * bytes :=
  match RawDocument_command (OpMsg_document msg) with
  | Err _ => close ctx out
  | Panic => (flow_Return Panic, ctx, out)
  | Fuel => (flow_Return Fuel, ctx, out)
  | Ok name =>
      let command := mkCommand name (OpMsg_document msg) (sequences (sections msg)) (flags msg) in
      let more_to_come := flags_contains (cmd_flags command) MORE_TO_COME in
      let '(outcome, ctx) := handle_command handler (turn_env turn) ctx command in
      match outcome with
      | Panic => (flow_Return Panic, ctx, out)
      | Fuel => (flow_Return Fuel, ctx, out)
      | Ok _ | Err _ =>
          if more_to_come then silent ctx out
          else
            match outcome with
            | Ok (Reply_Msg reply) =>
                send_and_continue turn ctx (request_id h) (MessageBody_Msg reply) out
            | Ok Reply_NoReply => silent ctx out
            | Err err =>
                match error_reply err (MessageBody_Msg msg) with
                | Ok (Some reply) => send_and_continue turn ctx (request_id h) reply out
                | Ok None => close ctx out
                | Err r => (flow_Return (Err r), ctx, out)
                | Panic => (flow_Return Panic, ctx, out)
                | Fuel => (flow_Return Fuel, ctx, out)
                end
            | Panic => (flow_Return Panic, ctx, out)
            | Fuel => (flow_Return Fuel, ctx, out)
            end
      end
  end.

(** OP_COMPRESSED is unwrapped before dispatch. *)
Definition unwrap_request (config : ServerConfig) (body : MessageBody)
  : outcome ProtocolError MessageBody :=
  match body with
  | MessageBody_Compressed compressed => OpCompressed_unwrap_body build compressed (cfg_max_msg_len config)
  | body => Ok body
  end.

Definition dispatch (config : ServerConfig) (handler : H) (turn : Turn) (h : Header) (body : MessageBody)
    (ctx : ConnectionInfo) (out : bytes) : flow * ConnectionInfo * bytes :=
  match body with
  | MessageBody_Query q => answer_query config turn h q ctx out
  | MessageBody_Msg msg => answer_msg handler turn h msg ctx out
  | MessageBody_Reply _ => silent ctx out
  | MessageBody_Compressed _ => close ctx out
  end.

Definition process_item (config : ServerConfig) (handler : H) (turn : Turn)
    (item : outcome ProtocolError (Header * MessageBody)) (ctx : ConnectionInfo) (out : bytes)
  : flow * ConnectionInfo * bytes :=
  match item with
  | Err _ => close ctx out
  | Panic => (flow_Return Panic, ctx, out)
  | Fuel => (flow_Return Fuel, ctx, out)
  | Ok (h, body) =>
      match unwrap_request config body with
      | Err _ => close ctx out
      | Panic => (flow_Return Panic, ctx, out)
      | Fuel => (flow_Return Fuel, ctx, out)
      | Ok body => dispatch config handler turn h body ctx out
      end
  end.

(** The [while let] loop; the end of the list is the end of the stream. *)
Fixpoint process_items (config : ServerConfig) (handler : H)
    (items : list (Turn * outcome ProtocolError (Header * MessageBody)))
    (ctx : ConnectionInfo) (out : bytes) : outcome SocketError () * ConnectionInfo * bytes :=
  match items with
  | [] => (Ok (), ctx, out)
  | (turn, item) :: items =>
      match process_item config handler turn item ctx out with
      | (flow_Continue, ctx, out) => process_items config handler items ctx out
      | (flow_Return r, ctx, out) => (r, ctx, out)
      end
  end.

Definition process_socket (config : ServerConfig) (handler : H) (peer : option SocketAddr)
    (items : list (Turn * outcome ProtocolError (Header * MessageBody)))
  : outcome SocketError () * ConnectionInfo * bytes :=
  let ctx := ConnectionInfo_new in
  let ctx := mkConnection (request_id_counter ctx) peer (negotiated_compressors ctx)
               (cfg_checksum config) (auth ctx) in
  process_items config handler items ctx [].
End Server.
