(* ===== verification/ServerCorrect.v ===== *)
(** * Correctness of the server loop

    The contract handlers give to the loop is the class [HandlerLaws]; the
    built-in handlers satisfy it whenever their inner handler does.  Against
    that contract: the loop never panics, every request is answered by at most
    one frame that echoes its request id, requests that announce more to come
    are never answered, and errors become error documents or close the
    connection. *)
From stdpp Require Import base list numbers strings.
From Stdlib Require Import ZArith Lia.
From S2P Require Import Prelude Utf8 Io Consts BsonScalar BsonValue Convert BsonEncode.
From S2P Require Import BsonDecode BsonRoundtrip Header Message OpMsg OpLegacy OpCompressed Framing.
From S2P Require Import StrOps Auth Scram ScramCorrect Api SaslBridge Server.
Local Open Scope Z_scope.

#[local] Opaque RawArray_shallow RawDocument_get RawDocument_deep.

(** ** Replies the loop can send *)

(** An OP_MSG as [OpMsg::new] builds it. *)
Definition message_fine (m : OpMsg) : Prop := opmsg_ok m ∧ checksum m = None.

Definition result_fine (r : outcome WireError OpMsg) : Prop :=
  match r with Ok m => message_fine m | Err _ => True | Panic | Fuel => False end.

Definition reply_fine (r : outcome WireError Reply) : Prop :=
  match r with
  | Ok (Reply_Msg m) => message_fine m
  | Ok Reply_NoReply | Err _ => True
  | Panic | Fuel => False
  end.

(** A clock that is past the epoch. *)
Definition env_ok (env : Env) : Prop := 0 <= now env.

(** What the loop relies on: handlers return, the messages they hand over are
    built by [OpMsg::new], and the id counter stays an [i32]. *)
Class HandlerLaws (H : Type) `{CommandHandler H} : Prop := {
  handler_fine (self : H) env ctx command :
    env_ok env → reply_fine (handle_command self env ctx command).1;
  handler_counter (self : H) env ctx command :
    in_i32 (request_id_counter ctx) →
    in_i32 (request_id_counter (handle_command self env ctx command).2)
}.

Lemma Document_encode_returns d : returns (Document_encode d).
Proof.
  pose proof (Document_encode_writes d) as Hw. unfold writes in Hw.
  destruct (encodable _); [by rewrite Hw|]. by destruct Hw as [e ->].
Qed.

Lemma Document_encode_doc_ok d r : Document_encode d = Ok r → r = document_wire d ∧ doc_ok r.
Proof.
  intros Hd. pose proof (Document_encode_writes d) as Hw. unfold writes in Hw.
  destruct (encodable (Bson_Document d)) eqn:He; [|by destruct Hw as [e Hw]; rewrite Hw in Hd].
  rewrite Hw in Hd. injection Hd as <-. split; [done|].
  cbn [encodable] in He. apply andb_true_iff in He as [_ He]. zbool.
  split; [|exact He]. unfold Document_encode in Hw. apply bind_Ok_inv in Hw as (out & _ & Hv).
  apply RawDocument_from_bytes_Ok_inv in Hv as [Hv ?]. cbn [app] in Hv. by rewrite Hv.
Qed.

Lemma op_msg_Ok body : op_msg 0 body = Ok (mkOpMsg 0 (mkSections body []) None).
Proof. reflexivity. Qed.

(** Encoding a document and wrapping it, as every reply builder does. *)
Lemma built_fine d : result_fine (let* raw := map_err bson_error (Document_encode d) in op_msg 0 raw).
Proof.
  pose proof (Document_encode_returns d) as Hr.
  destruct (Document_encode d) as [raw|e| |] eqn:E; try done. cbn [map_err bind]. rewrite op_msg_Ok.
  apply Document_encode_doc_ok in E as [_ Hok]. split; [|done].
  apply (OpMsg_new_ok 0 raw []); [done|done|done|constructor].
Qed.

Lemma built_Ok_inv d m : (let* raw := map_err bson_error (Document_encode d) in op_msg 0 raw) = Ok m →
  m = mkOpMsg 0 (mkSections (document_wire d) []) None ∧ Document_encode d = Ok (document_wire d).
Proof.
  intros E. apply bind_Ok_inv in E as (raw & Hr & E). apply map_err_Ok_inv in Hr.
  destruct (Document_encode_doc_ok _ _ Hr) as [-> _]. rewrite op_msg_Ok in E. by injection E as <-.
Qed.

Lemma reply_of_result (r : outcome WireError OpMsg) : result_fine r →
  reply_fine (let* m := r in Ok (Reply_Msg m)).
Proof. by destruct r. Qed.

Lemma handshake_fine env cs max legacy : env_ok env → result_fine (handshake_reply env cs max legacy).
Proof.
  intros He. unfold handshake_reply, Bson_from_time, millis_from_time, duration_since_epoch, env_ok in *.
  rewrite (proj2 (Z.leb_le 0 (now env)) He). apply built_fine.
Qed.

Lemma returns_requested {E} body : returns (@requested_compressors E body).
Proof.
  unfold requested_compressors. pose proof (returns_RawDocument_get body (lit "compression")) as Hr.
  destruct (RawDocument_get body _) as [[v|]| | |]; try done. simpl. destruct v; try done.
  pose proof (returns_RawArray_shallow a) as Ha. by destruct (RawArray_shallow a).
Qed.

Lemma requested_never_fails {E} body e : @requested_compressors E body ≠ Err e.
Proof.
  unfold requested_compressors. destruct (RawDocument_get body _) as [[v|]| | |]; try done. simpl.
  destruct v; try done. by destruct (RawArray_shallow a).
Qed.

(** ** The built-in handlers keep the contract *)

#[export] Instance BuiltinHandler_laws {H} `{HandlerLaws H} : HandlerLaws (BuiltinHandler H).
Proof.
  split; intros self env ctx command He; unfold handle_command, BuiltinHandler_handler,
    BuiltinHandler_handle_command.
  - destruct (is_hello _).
    + pose proof (@returns_requested WireError (cmd_body command)) as Hr.
      destruct (requested_compressors _); try done. by apply reply_of_result, handshake_fine.
    + destruct (str_eqb _ _); [apply reply_of_result, built_fine|]. by apply handler_fine.
  - destruct (is_hello _); [by destruct (requested_compressors _)|].
    destruct (str_eqb _ _); [done|]. by apply handler_counter.
Qed.

Lemma returns_payload_str body : returns (payload_str body).
Proof.
  unfold payload_str, payload_bytes. apply returns_bind; [|auto with wire].
  apply returns_bind; [auto with wire|]. intros [[]|] _; done.
Qed.
Lemma returns_parse_mechanism body : returns (parse_mechanism body).
Proof.
  unfold parse_mechanism. apply returns_bind; [auto with wire|].
  intros [[]|] _; try done. auto with wire.
Qed.

Section BridgeLaws.
Context (c : Crypto) `{!CryptoLaws c} {C : Type} `{CredentialSource C} (store : C).

Lemma returns_sasl_accept env body : returns (sasl_accept c store env body).
Proof.
  unfold sasl_accept. apply returns_bind; [apply returns_parse_mechanism|]. intros mech _.
  apply returns_bind; [apply returns_payload_str|]. intros first _.
  apply returns_bind; [auto with wire|]. intros user _.
  destruct (lookup_credentials store mech user) as [creds|]; [|done].
  destruct (handle_client_first _ _ _ _ _) as [r sv] eqn:E.
  pose proof (handle_client_first_spec c _ _ _ _ _ _ E). by destruct r.
Qed.

Lemma sasl_start_fine env ctx body : reply_fine (sasl_start c store env ctx body).1.
Proof.
  unfold sasl_start. destruct (is_some _); [done|]. pose proof (returns_sasl_accept env body).
  destruct (sasl_accept c store env body) as [[[m s] f]| | |]; try done.
  apply reply_of_result, built_fine.
Qed.

Lemma sasl_continue_fine ctx body : reply_fine (sasl_continue c ctx body).1.
Proof.
  unfold sasl_continue. pose proof (returns_payload_str body).
  destruct (payload_str body) as [final| | |]; try done.
  destruct (scram (auth ctx)) as [[m sv]|]; [|done].
  destruct (returns_conversation_id body) as [id ->].
  destruct (handle_client_final c final sv) as [r sv'] eqn:E.
  pose proof (handle_client_final_spec c _ _ _ _ E) as Hs.
  destruct r; try done. apply reply_of_result, built_fine.
Qed.

(** SASL commands leave the rest of the context alone. *)
Lemma sasl_context env ctx body :
  request_id_counter (sasl_start c store env ctx body).2 = request_id_counter ctx
  ∧ request_id_counter (sasl_continue c ctx body).2 = request_id_counter ctx.
Proof. unfold sasl_start, sasl_continue. split; repeat case_match; done. Qed.
End BridgeLaws.

Lemma ScramBridge_laws c `{!CryptoLaws c} {H C} `{HandlerLaws H} `{CredentialSource C} :
  @HandlerLaws (ScramBridge H C) (ScramBridge_handler c).
Proof.
  split; intros self env ctx command He; unfold handle_command, ScramBridge_handler,
    ScramBridge_handle_command.
  - destruct (str_eqb _ _); [apply (sasl_start_fine c)|].
    destruct (str_eqb _ _); [apply (sasl_continue_fine c)|]. by apply handler_fine.
  - destruct (sasl_context c (bridge_credentials self) env ctx (cmd_body command)) as [E1 E2].
    destruct (str_eqb _ _); [by rewrite E1|]. destruct (str_eqb _ _); [by rewrite E2|].
    by apply handler_counter.
Qed.

(** ** Sending *)

(** Bodies the loop sends. *)
Definition sendable (b : MessageBody) : Prop :=
  body_ok b ∧ ∀ m, b = MessageBody_Msg m → checksum m = None.

Lemma sendable_msg m : message_fine m → sendable (MessageBody_Msg m).
Proof. intros [Ho Hc]. split; [exact Ho|]. by intros m' [= <-]. Qed.

Lemma query_reply_sendable raw f : doc_ok raw → Z.land f ReplyFlags_all = f →
  sendable (MessageBody_Reply (mkOpReply f 0 0 1 [raw])).
Proof.
  intros Hd Hf. split; [|done]. cbn. unfold_ranges.
  split_and!; cbn; done || lia || (constructor; [exact Hd|constructor]).
Qed.

Lemma error_reply_spec {E} err request : ∃ o, @error_reply E err request = Ok o
  ∧ (∀ b, o = Some b → sendable b).
Proof.
  unfold error_reply. destruct (to_error_response_doc err) as [d|]; [|by exists None].
  pose proof (Document_encode_returns d) as Hr.
  destruct (Document_encode d) as [raw|e| |] eqn:Hd; try done; [|by exists None].
  apply Document_encode_doc_ok in Hd as [-> Hok]. cbn [ok bind].
  assert (sendable (MessageBody_Msg (mkOpMsg 0 (mkSections (document_wire d) []) None))) as Hs.
  { apply sendable_msg. split; [|done].
    apply (OpMsg_new_ok 0 (document_wire d) []); [done|done|done|constructor]. }
  destruct request; rewrite ?op_msg_Ok; eexists; (split; [reflexivity|]); intros b [= <-];
    (exact Hs || by apply query_reply_sendable).
Qed.

(** A byte stream that parses into [l] and nothing else. *)
Inductive stream (crc : bytes → Z) : bytes → list (Header * MessageBody) → Prop :=
| stream_nil : stream crc [] []
| stream_cons buf m rest l :
    parse_message crc buf MAX_MSG_LEN = (Ok (Some m), rest) → stream crc rest l →
    stream crc buf (m :: l).

Lemma stream_app crc a l b l' : stream crc a l → stream crc b l' → stream crc (a ++ b) (l ++ l').
Proof.
  intros Ha Hb. induction Ha as [|buf m rest l Hp _ IH]; [done|]. cbn [app].
  apply (stream_cons _ _ m (rest ++ b)); [|exact IH]. by apply parse_message_stable.
Qed.

Section Loop.
Context (crc : bytes → Z) (build : Build).
Hypothesis Hcrc : ∀ w, in_u32 (crc w).

(** The transport keeps up and the clock is past the epoch. *)
Definition turn_ok (t : Turn) : Prop := env_ok (turn_env t).
Definition transport_ok (t : Turn) : Prop := turn_write t = None.

(** What one turn wrote: nothing, or one frame answering request [rid]. *)
Definition answered (rid : Z) (out out' : bytes) : Prop :=
  out' = out ∨ ∃ w h b, out' = out ++ w ∧ stream crc w [(h, b)] ∧ response_to h = rid.

Lemma returns_send_reply turn ctx rid b out : sendable b →
  returns (send_reply crc turn ctx rid b out).1.1.
Proof.
  intros [Hb _]. unfold send_reply. destruct (next_request_id ctx) as [id ctx'].
  set (h := Header_new id rid (MessageBody_opcode b)).
  assert (∀ ck, returns (encode_message crc h b ck []).1.1) as Hr
    by (intros; by apply returns_encode_message).
  destruct (ctx_checksum ctx' && is_msg b).
  - specialize (Hr true). destruct (encode_message crc h b true []) as [[r h'] w].
    destruct r; try done. unfold write_all. by destruct (turn_write turn).
  - specialize (Hr false). unfold MongoCodec_encode. cbn [fst snd].
    destruct (encode_message crc h b false []) as [[r h'] w].
    destruct r; try done. unfold write_all. by destruct (turn_write turn).
Qed.

Lemma send_reply_frame turn ctx rid b out r ctx' out' :
  sendable b → transport_ok turn → in_i32 (request_id_counter ctx) → in_i32 rid →
  send_reply crc turn ctx rid b out = (r, ctx', out') →
  ctx' = (next_request_id ctx).2
  ∧ if frame_len b (ctx_checksum ctx && is_msg b) <=? MAX_MSG_LEN
    then r = Ok () ∧ ∃ w, out' = out ++ w
      ∧ let h := set_message_length (Header_new (request_id_counter ctx) rid (MessageBody_opcode b))
                   (frame_len b (ctx_checksum ctx && is_msg b)) in
        stream crc w [(h, sent_body crc h b (ctx_checksum ctx && is_msg b))]
    else out' = out ∧ ∃ e, r = Err (SocketError_InvalidData e).
Proof.
  intros [Hb Hn] Ht Hi Hr. unfold send_reply. cbn [next_request_id fst snd ctx_checksum].
  set (h := Header_new (request_id_counter ctx) rid (MessageBody_opcode b)).
  set (ck := ctx_checksum ctx && is_msg b).
  assert (ck = true → MessageBody_opcode b = Opcode_Msg) as Hck.
  { intros [_ ?]%andb_true_iff. by destruct b. }
  assert ((if ck then let '(r, _, frame) := encode_message crc h b true [] in (r, frame)
           else MongoCodec_encode crc (h, b) [])
          = let '(r, _, frame) := encode_message crc h b ck [] in (r, frame)) as Hcase.
  { destruct ck; [done|]. unfold MongoCodec_encode. cbn [fst snd].
    by destruct (encode_message crc h b false []) as [[??]?]. }
  rewrite Hcase. clear Hcase.
  destruct (frame_len b ck <=? MAX_MSG_LEN) eqn:Hf; zbool.
  - destruct (encode_parse_frame crc h MAX_MSG_LEN Hcrc Hi Hr b ck [] Hb eq_refl Hn Hck Hf Hf)
      as (w & Hw & Hp).
    rewrite Hw. unfold write_all. rewrite Ht. intros [= <- <- <-]. split; [done|]. split; [by destruct ck|].
    exists w. split; [done|]. rewrite app_nil_r in Hp. eapply stream_cons; [exact Hp|constructor].
  - destruct (encode_message_too_large crc h b ck [] Hb Hf) as [n Hw]. rewrite Hw.
    intros [= <- <- <-]. split; [done|]. split; [done|]. by eexists.
Qed.

Lemma as_i32_range z : in_i32 (as_i32 z).
Proof.
  unfold as_i32, to_signed. pose proof (Z.mod_pos_bound z (2 ^ 32) ltac:(lia)).
  unfold_ranges. case_match; zbool; lia.
Qed.

Definition flow_returns (f : flow) : Prop :=
  match f with flow_Continue => True | flow_Return r => returns r end.

Lemma returns_send_and_continue turn ctx rid b out : sendable b →
  flow_returns (send_and_continue crc turn ctx rid b out).1.1.
Proof.
  intros Hb. unfold send_and_continue. pose proof (returns_send_reply turn ctx rid b out Hb) as Hr.
  destruct (send_reply crc turn ctx rid b out) as [[r c'] o']. by destruct r.
Qed.

Lemma send_and_continue_answered turn ctx rid b out fl ctx' out' :
  sendable b → transport_ok turn → in_i32 (request_id_counter ctx) → in_i32 rid →
  send_and_continue crc turn ctx rid b out = (fl, ctx', out') →
  in_i32 (request_id_counter ctx') ∧ answered rid out out'.
Proof.
  intros Hb Ht Hi Hr. unfold send_and_continue.
  destruct (send_reply crc turn ctx rid b out) as [[r c'] o'] eqn:E. intros Heq.
  assert (c' = ctx' ∧ o' = out') as [<- <-] by (destruct r; by injection Heq as <- <- <-). clear Heq.
  apply send_reply_frame in E as [-> E]; try done. split; [apply as_i32_range|].
  destruct (_ <=? _); [|left; apply E]. destruct E as (_ & w & -> & Hs). right. by do 3 eexists.
Qed.

(** A body that fits is sent, as one frame, and the loop goes on. *)
Lemma send_and_continue_sent turn ctx rid b out (ck := ctx_checksum ctx && is_msg b) :
  sendable b → transport_ok turn → in_i32 (request_id_counter ctx) → in_i32 rid →
  frame_len b ck <= MAX_MSG_LEN →
  ∃ w h', send_and_continue crc turn ctx rid b out = (flow_Continue, (next_request_id ctx).2, out ++ w)
    ∧ stream crc w [(h', sent_body crc h' b ck)]
    ∧ response_to h' = rid ∧ request_id h' = request_id_counter ctx.
Proof.
  intros Hb Ht Hi Hr Hfit. unfold send_and_continue.
  destruct (send_reply crc turn ctx rid b out) as [[r c'] o'] eqn:E.
  apply send_reply_frame in E as [-> E]; try done. fold ck in E.
  rewrite (proj2 (Z.leb_le _ _) Hfit) in E. destruct E as (-> & w & -> & Hs).
  eexists w, _. split; [reflexivity|]. split; [exact Hs|done].
Qed.

Lemma handshake_query_sendable env cs max legacy m : env_ok env →
  handshake_reply env cs max legacy = Ok m →
  sendable (MessageBody_Reply (query_handshake_reply (OpMsg_document m))).
Proof.
  intros He Hm. pose proof (handshake_fine env cs max legacy He) as Hf. rewrite Hm in Hf.
  destruct Hf as [Hok _]. apply query_reply_sendable; [|done].
  destruct Hok as (_ & (? & ?) & _). done.
Qed.

Lemma answer_query_spec config turn h q ctx out : turn_ok turn →
  flow_returns (answer_query crc config turn h q ctx out).1.1
  ∧ (∀ fl ctx' out', transport_ok turn → in_i32 (request_id_counter ctx) → in_i32 (request_id h) →
       answer_query crc config turn h q ctx out = (fl, ctx', out') →
       in_i32 (request_id_counter ctx') ∧ answered (request_id h) out out').
Proof.
  intros Ht. unfold answer_query. pose proof (returns_RawDocument_command (query q)) as Hr.
  destruct (RawDocument_command (query q)) as [name|e| |]; try done.
  2: { split; [done|]. intros ??????[= <- <- <-]. split; [done|by left]. }
  destruct (is_hello name); cbn [negb].
  - pose proof (@returns_requested SocketError (query q)) as Hq.
    pose proof (@requested_never_fails SocketError (query q)) as Hne.
    destruct (requested_compressors (query q)) as [req|e| |]; try done; [|by destruct (Hne e)].
    pose proof (handshake_fine (turn_env turn) (negotiate (cfg_compressors config) req)
                  (cfg_max_msg_len config) true Ht) as Hf.
    destruct (handshake_reply _ _ _ _) as [m|e| |] eqn:Hm; try done.
    + pose proof (handshake_query_sendable _ _ _ _ _ Ht Hm) as Hs.
      split; [by apply returns_send_and_continue|]. intros fl ctx' out' Htr Hi Hh.
      apply send_and_continue_answered; done.
    + split; [done|]. intros ??????[= <- <- <-]. split; [done|by left].
  - destruct (@error_reply_spec SocketError
                (WireError_command 59 (lit "CommandNotFound") (lit "OP_QUERY only supports hello/isMaster"))
                (MessageBody_Query q)) as (o & -> & Ho).
    destruct o as [b|].
    + split; [by apply returns_send_and_continue, Ho|]. intros fl ctx' out' Htr Hi Hh.
      apply send_and_continue_answered; try done. by apply Ho.
    + split; [done|]. intros ??????[= <- <- <-]. split; [done|by left].
Qed.

Context {H : Type} `{HandlerLaws H}.

Lemma answer_msg_spec (handler : H) turn h msg ctx out : turn_ok turn →
  flow_returns (answer_msg crc handler turn h msg ctx out).1.1
  ∧ (∀ fl ctx' out', transport_ok turn → in_i32 (request_id_counter ctx) → in_i32 (request_id h) →
       answer_msg crc handler turn h msg ctx out = (fl, ctx', out') →
       in_i32 (request_id_counter ctx') ∧ answered (request_id h) out out').
Proof.
  intros Ht. unfold answer_msg. pose proof (returns_RawDocument_command (OpMsg_document msg)) as Hr.
  destruct (RawDocument_command (OpMsg_document msg)) as [name|e| |]; try done.
  2: { split; [done|]. intros ??????[= <- <- <-]. split; [done|by left]. }
  set (command := mkCommand _ _ _ _).
  pose proof (handler_fine handler (turn_env turn) ctx command Ht) as Hf.
  pose proof (handler_counter handler (turn_env turn) ctx command) as Hcn.
  destruct (handle_command handler (turn_env turn) ctx command) as [r c']. cbn [fst snd] in *.
  assert (∀ fl ctx' out', (fl, ctx', out') = silent c' out → in_i32 (request_id_counter ctx) →
            in_i32 (request_id_counter ctx') ∧ answered (request_id h) out out') as Hsilent.
  { intros ??? [= -> -> ->] Hi. split; [by apply Hcn|by left]. }
  destruct r as [[m|]|err| |]; try done; destruct (flags_contains _ _).
  1,3,4,5: split; [done|]; intros fl ctx' out' _ Hi _ E; symmetry in E; by apply (Hsilent fl ctx' out').
  - pose proof (sendable_msg m Hf) as Hs. split; [by apply returns_send_and_continue|].
    intros fl ctx' out' Htr Hi Hh. apply send_and_continue_answered; try done. by apply Hcn.
  - destruct (@error_reply_spec SocketError err (MessageBody_Msg msg)) as (o & -> & Ho).
    destruct o as [b|].
    + split; [by apply returns_send_and_continue, Ho|]. intros fl ctx' out' Htr Hi Hh.
      apply send_and_continue_answered; try done; [by apply Ho|by apply Hcn].
    + split; [done|]. intros fl ctx' out' _ Hi _ [= <- <- <-]. split; [by apply Hcn|by left].
Qed.

(** The request id of an item. *)
Definition item_ids (item : outcome ProtocolError (Header * MessageBody)) : list Z :=
  match item with Ok (h, _) => [request_id h] | _ => [] end.
Definition item_ok (item : outcome ProtocolError (Header * MessageBody)) : Prop :=
  returns item ∧ Forall in_i32 (item_ids item).

Lemma process_item_spec config (handler : H) turn item ctx out : turn_ok turn → item_ok item →
  flow_returns (process_item crc build config handler turn item ctx out).1.1
  ∧ (∀ fl ctx' out', transport_ok turn → in_i32 (request_id_counter ctx) →
       process_item crc build config handler turn item ctx out = (fl, ctx', out') →
       in_i32 (request_id_counter ctx')
       ∧ (out' = out ∨ ∃ rid, item_ids item = [rid] ∧ answered rid out out')).
Proof.
  intros Ht [Hret Hid]. unfold process_item. destruct item as [[h body]|e| |]; try done.
  2: { split; [done|]. intros ??? _ Hi [= <- <- <-]. split; [done|by left]. }
  cbn [item_ids] in Hid. inversion_clear Hid as [|?? Hh _].
  assert (returns (unwrap_request build config body)) as Hu
    by (destruct body; try done; apply returns_unwrap_body).
  destruct (unwrap_request build config body) as [b|e| |]; try done.
  2: { split; [done|]. intros ??? _ Hi [= <- <- <-]. split; [done|by left]. }
  destruct b as [msg|q|p|c]; cbn [dispatch].
  - destruct (answer_msg_spec handler turn h msg ctx out Ht) as [Hf Ha]. split; [done|].
    intros fl ctx' out' Htr Hi E. destruct (Ha fl ctx' out' Htr Hi Hh E). split; [done|]. right. eauto.
  - destruct (answer_query_spec config turn h q ctx out Ht) as [Hf Ha]. split; [done|].
    intros fl ctx' out' Htr Hi E. destruct (Ha fl ctx' out' Htr Hi Hh E). split; [done|]. right. eauto.
  - split; [done|]. intros ??? _ Hi [= <- <- <-]. split; [done|by left].
  - split; [done|]. intros ??? _ Hi [= <- <- <-]. split; [done|by left].
Qed.

Definition requests (items : list (Turn * outcome ProtocolError (Header * MessageBody))) : list Z :=
  concat ((λ ti, item_ids ti.2) <$> items).

Lemma returns_process_items config (handler : H) items : ∀ ctx out,
  Forall (λ ti, turn_ok ti.1 ∧ item_ok ti.2) items →
  returns (process_items crc build config handler items ctx out).1.1.
Proof.
  induction items as [|[turn item] items IH]; intros ctx out Hall; [done|].
  inversion_clear Hall as [|?? [Ht Hi] Hrest]. cbn [process_items].
  pose proof (proj1 (process_item_spec config handler turn item ctx out Ht Hi)) as Hf.
  destruct (process_item crc build config handler turn item ctx out) as [[fl c'] o'].
  destruct fl; [by apply IH|done].
Qed.

Lemma process_items_stream config (handler : H) items : ∀ ctx out replies,
  Forall (λ ti, (turn_ok ti.1 ∧ transport_ok ti.1) ∧ item_ok ti.2) items →
  in_i32 (request_id_counter ctx) → stream crc out replies →
  ∃ more, stream crc (process_items crc build config handler items ctx out).2 (replies ++ more)
    ∧ sublist ((λ m, response_to m.1) <$> more) (requests items).
Proof.
  induction items as [|[turn item] items IH]; intros ctx out replies Hall Hi Hs.
  { exists []. rewrite app_nil_r. split; [done|constructor]. }
  inversion_clear Hall as [|?? [[Ht Htr] Hit] Hrest]. cbn [process_items].
  destruct (process_item_spec config handler turn item ctx out Ht Hit) as [_ Hspec].
  destruct (process_item crc build config handler turn item ctx out) as [[fl c'] o'].
  destruct (Hspec fl c' o' Htr Hi eq_refl) as [Hi' Hw].
  assert (∃ more, stream crc o' (replies ++ more)
            ∧ sublist ((λ m : Header * MessageBody, response_to m.1) <$> more) (item_ids item))
    as (m1 & Hs1 & Hl1).
  { destruct Hw as [->|(rid & Hid & [->|(w & h & b & -> & Hw & Hrid)])].
    - exists []. rewrite app_nil_r. split; [done|apply sublist_nil_l].
    - exists []. rewrite app_nil_r. split; [done|apply sublist_nil_l].
    - exists [(h, b)]. split; [by apply stream_app|]. cbn. by rewrite Hid, Hrid. }
  unfold requests in *. cbn [fmap list_fmap concat snd].
  destruct fl as [|r].
  - destruct (IH c' o' (replies ++ m1) Hrest Hi' Hs1) as (m2 & Hs2 & Hl2).
    exists (m1 ++ m2). rewrite app_assoc. split; [done|]. rewrite fmap_app. by apply sublist_app.
  - exists m1. split; [done|]. rewrite <- (app_nil_r (_ <$> m1)).
    apply sublist_app; [done|apply sublist_nil_l].
Qed.
End Loop.

(** ** Decoded replies *)

Lemma deep_of_document d : fields_ok d → document_nesting d <= MAX_NESTING_DEPTH →
  Document_encode d = Ok (document_wire d) → RawDocument_deep (document_wire d) = Ok d.
Proof.
  intros Hf Hn He. apply Document_encode_doc_ok in He as [_ [_ Hl]].
  rewrite deep_wire; [|done|unfold_ranges; lia]. by rewrite (proj2 (Z.leb_le _ _) Hn).
Qed.

(** Evaluate the lengths of literals. *)
Ltac lits := repeat match goal with
  | |- context [len (lit ?s)] => let v := eval vm_compute in (len (lit s)) in change (len (lit s)) with v
  end.

(** Error documents. *)
Definition error_document (code : Z) (code_name message : str) : Document :=
  [(lit "ok", Bson_Double 0); (lit "errmsg", Bson_String message); (lit "code", Bson_Int32 code);
   (lit "codeName", Bson_String code_name); (lit "$db", Bson_String (lit "admin"))].

(** Strings whose error document has an [i32] length. *)
Definition error_fits (code : Z) (code_name message : str) : Prop :=
  in_i32 code ∧ valid_utf8 code_name = true ∧ valid_utf8 message = true
  ∧ len code_name + len message <= 1000000.

Lemma error_document_ok code cn m : error_fits code cn m → fields_ok (error_document code cn m).
Proof.
  intros (Hc & Hn & Hm & Hl). pose proof (len_nonneg cn). pose proof (len_nonneg m).
  unfold_ranges.
  repeat apply List.Forall_cons; [..|constructor]; cbn [fst snd];
    (split; [by split|]); cbn; unfold_ranges; split_and!; done || lia.
Qed.

Lemma error_document_len code cn m : error_fits code cn m →
  len (document_wire (error_document code cn m)) <= 1001000.
Proof.
  intros (Hc & Hn & Hm & Hl). pose proof (len_nonneg cn). pose proof (len_nonneg m).
  unfold document_wire, doc_frame, fields_wire, error_document.
  cbn [fields_wire_with]. unfold field_wire_with.
  cbn [value_wire Bson_as_scalar scalar_wire]. unfold string_wire.
  len_tac. lits. lia.
Qed.

Lemma error_document_encodes code cn m (d := error_document code cn m) : error_fits code cn m →
  to_error_response_doc (WireError_Command code cn m) = Some d
  ∧ Document_encode d = Ok (document_wire d) ∧ RawDocument_deep (document_wire d) = Ok d.
Proof.
  intros Hf. pose proof (error_document_ok _ _ _ Hf) as Hok.
  assert (Document_encode d = Ok (document_wire d)) as He.
  { pose proof (Document_encode_writes d) as Hw.
    rewrite value_ok_encodable in Hw; [exact Hw|by apply value_ok_document|].
    etransitivity; [exact (error_document_len _ _ _ Hf)|done]. }
  split; [done|]. split; [exact He|]. apply deep_of_document; [exact Hok|done|exact He].
Qed.

(** A concrete handler for the witnesses: it answers every command with an
    error. *)
Definition rejecting (code : Z) : CommandHandler () := λ _ _ ctx _,
  (Err (WireError_command code (lit "Nope") (lit "no")), ctx).
Lemma rejecting_laws code : @HandlerLaws () (rejecting code).
Proof. by split. Qed.

Definition demo_request (fl : Z) : Header * MessageBody :=
  (mkHeader 0 7 0 Opcode_Msg,
   MessageBody_Msg (mkOpMsg fl (mkSections (encoded [(lit "find", Bson_Int32 1)]) []) None)).
Definition demo_turn : Turn := mkTurn demo_env None.
Definition no_codecs : Build := mkBuild None None None.

(** ** Theorems *)

(** The connection loop never panics: over any sequence of items the
    framed stream can yield (errors, unexpected messages, malformed commands
    and hostile compressed bodies included), any transport behaviour and any
    handler that keeps its contract, processing a connection returns.  The
    built-in and SASL handlers keep the contract whenever the handler they wrap
    does. *)
Lemma server_never_panics crc build H (h : CommandHandler H) (Hh : HandlerLaws H) C (s : CredentialSource C)
    c (Hc : CryptoLaws c) config (handler : H) peer items :
  (∀ w, in_u32 (crc w)) → Forall (λ ti, turn_ok ti.1 ∧ item_ok ti.2) items →
  returns (process_socket crc build config handler peer items).1.1
  ∧ HandlerLaws (BuiltinHandler H) ∧ @HandlerLaws (ScramBridge H C) (ScramBridge_handler c).
Proof.
  intros Hcrc Hall. split_and!; [by apply returns_process_items|apply BuiltinHandler_laws|by apply ScramBridge_laws].
Qed.

(** An OP_MSG request (compressed or not) that does not announce more to come,
    whose handler returns a message that fits in a frame, is answered by exactly
    one frame that parses to that message, with a valid checksum when the
    connection uses them, the request's id in [responseTo] and the connection's
    next id as its own, and the loop goes on. *)
Lemma message_answered crc build H (hd : CommandHandler H) config (handler : H) turn h body msg
    ctx out name m ctx1
    (command := mkCommand name (OpMsg_document msg) (sequences (sections msg)) (flags msg)) :
  (∀ w, in_u32 (crc w)) → transport_ok turn →
  unwrap_request build config body = Ok (MessageBody_Msg msg) →
  RawDocument_command (OpMsg_document msg) = Ok name →
  flags_contains (flags msg) MORE_TO_COME = false →
  handle_command handler (turn_env turn) ctx command = (Ok (Reply_Msg m), ctx1) →
  message_fine m → in_i32 (request_id_counter ctx1) → in_i32 (request_id h) →
  frame_len (MessageBody_Msg m) (ctx_checksum ctx1) <= MAX_MSG_LEN →
  ∃ w h', process_item crc build config handler turn (Ok (h, body)) ctx out
            = (flow_Continue, (next_request_id ctx1).2, out ++ w)
    ∧ stream crc w [(h', sent_body crc h' (MessageBody_Msg m) (ctx_checksum ctx1))]
    ∧ response_to h' = request_id h ∧ request_id h' = request_id_counter ctx1.
Proof.
  intros Hcrc Ht Hu Hn Hm Hh Hfine Hi Hr Hfit. unfold process_item. rewrite Hu. cbn [dispatch].
  unfold answer_msg. rewrite Hn. fold command. rewrite Hh. cbn [cmd_flags command]. rewrite Hm.
  pose proof (send_and_continue_sent crc Hcrc turn ctx1 (request_id h) (MessageBody_Msg m) out
    (sendable_msg m Hfine) Ht Hi Hr) as Hsend.
  cbn [is_msg] in Hsend. rewrite andb_true_r in Hsend. exact (Hsend Hfit).
Qed.

(** C26. Requests that announce more to come are never answered: whatever the
    handler, the configuration and the transport, such a request (compressed or
    not, with a readable command name) writes nothing; its handler still runs and its effect on the
    connection is kept, and the loop goes on if the handler returned. *)
Theorem more_to_come_silent crc build H (hd : CommandHandler H) config (handler : H) turn h body msg
    ctx out name (command := mkCommand name (OpMsg_document msg) (sequences (sections msg)) (flags msg)) :
  unwrap_request build config body = Ok (MessageBody_Msg msg) →
  flags_contains (flags msg) MORE_TO_COME = true →
  RawDocument_command (OpMsg_document msg) = Ok name →
  let '(r, ctx') := handle_command handler (turn_env turn) ctx command in
  ∃ fl, process_item crc build config handler turn (Ok (h, body)) ctx out = (fl, ctx', out)
    ∧ (returns r → fl = flow_Continue).
Proof.
  intros Hu Hm Hn. unfold process_item. rewrite Hu. cbn [dispatch]. unfold answer_msg. rewrite Hn.
  fold command. cbn [cmd_flags command]. rewrite Hm.
  destruct (handle_command handler (turn_env turn) ctx command) as [r ctx'].
  destruct r; eexists; (split; [reflexivity|]); done.
Qed.

Lemma more_to_come_silent_witness :
  process_item (λ _, 0) no_codecs ServerConfig_default (H0 := rejecting 59) () demo_turn
    (Ok (demo_request MORE_TO_COME)) ConnectionInfo_new [] = (flow_Continue, ConnectionInfo_new, []).
Proof.
  destruct (more_to_come_silent (λ _, 0) no_codecs () (rejecting 59) ServerConfig_default () demo_turn
              (fst (demo_request MORE_TO_COME)) (snd (demo_request MORE_TO_COME))
              (mkOpMsg MORE_TO_COME (mkSections (encoded [(lit "find", Bson_Int32 1)]) []) None)
              ConnectionInfo_new [] (lit "find")) as (fl & E & Hfl).
  - reflexivity.
  - reflexivity.
  - vm_compute. reflexivity.
  - rewrite <- (Hfl I). exact E.
Defined.

(** The replies the loop sends for a command error. *)
Lemma error_reply_msg {E} code cn m msg : error_fits code cn m →
  ∃ r, @error_reply E (WireError_Command code cn m) (MessageBody_Msg msg) = Ok (Some (MessageBody_Msg r))
    ∧ message_fine r ∧ RawDocument_deep (OpMsg_document r) = Ok (error_document code cn m)
    ∧ ∀ ck, frame_len (MessageBody_Msg r) ck <= MAX_MSG_LEN.
Proof.
  intros Hf. destruct (error_document_encodes _ _ _ Hf) as (Hd & He & Hdec).
  pose proof (error_document_len _ _ _ Hf) as Hl.
  destruct (@error_reply_spec E (WireError_Command code cn m) (MessageBody_Msg msg)) as (o & Ho & Hs).
  revert Ho. unfold error_reply. rewrite Hd, He. cbn [ok bind]. rewrite op_msg_Ok. intros [= <-].
  eexists. split; [reflexivity|]. split; [by destruct (Hs _ eq_refl)|]. split; [exact Hdec|].
  intros ck. unfold frame_len. cbn [body_wire msg_wire OpMsg_Laws]. unfold opmsg_wire.
  cbn [flags sections sec_body sequences checksum checksum_wire sequences_wire concat fmap list_fmap].
  unfold MSG_HEADER_LEN, MAX_MSG_LEN. destruct ck; len_tac; lia.
Qed.
Lemma error_reply_query {E} code cn m q : error_fits code cn m →
  ∃ raw, let p := mkOpReply (Z.lor AWAIT_CAPABLE QUERY_FAILURE) 0 0 1 [raw] in
    @error_reply E (WireError_Command code cn m) (MessageBody_Query q) = Ok (Some (MessageBody_Reply p))
    ∧ sendable (MessageBody_Reply p) ∧ RawDocument_deep raw = Ok (error_document code cn m)
    ∧ frame_len (MessageBody_Reply p) false <= MAX_MSG_LEN.
Proof.
  intros Hf. destruct (error_document_encodes _ _ _ Hf) as (Hd & He & Hdec).
  pose proof (error_document_len _ _ _ Hf) as Hl.
  destruct (@error_reply_spec E (WireError_Command code cn m) (MessageBody_Query q)) as (o & Ho & Hs).
  revert Ho. unfold error_reply. rewrite Hd, He. cbn [ok bind]. intros [= <-].
  eexists. split; [reflexivity|]. split; [exact (Hs _ eq_refl)|]. split; [exact Hdec|].
  unfold frame_len. cbn [body_wire msg_wire OpReply_Laws]. unfold reply_wire, reply_tail.
  cbn [response_flags cursor_id starting_from number_returned reply_documents concat].
  unfold MSG_HEADER_LEN, MAX_MSG_LEN. len_tac.
Qed.

(** C27. Errors on the wire.  A command error that a handler returns for an
    OP_MSG (compressed or not) that does not announce more to come is answered:
    exactly one frame is written, an OP_MSG with the request's id in
    [responseTo] whose document decodes to exactly [{ok: 0.0, errmsg, code,
    codeName, $db: admin}], and the loop goes on; likewise an OP_QUERY other
    than the handshake is answered by an OP_REPLY with the [QueryFailure] flag
    and the one document that says so.  A protocol error that a handler returns
    for such an OP_MSG, an unreadable command and a stream error close the
    connection with nothing written.  The socket accepts what is written; the
    error's name and message are valid UTF-8 of at most 1,000,000 bytes together. *)
Theorem error_replies crc build H (hd : CommandHandler H) config (handler : H) turn h body ctx out :
  (∀ w, in_u32 (crc w)) → transport_ok turn → in_i32 (request_id h) →
  (∀ msg name code cn m ctx1
     (command := mkCommand name (OpMsg_document msg) (sequences (sections msg)) (flags msg)),
     unwrap_request build config body = Ok (MessageBody_Msg msg) →
     RawDocument_command (OpMsg_document msg) = Ok name →
     flags_contains (flags msg) MORE_TO_COME = false →
     handle_command handler (turn_env turn) ctx command = (Err (WireError_Command code cn m), ctx1) →
     in_i32 (request_id_counter ctx1) → error_fits code cn m →
     ∃ w h' r, process_item crc build config handler turn (Ok (h, body)) ctx out
                 = (flow_Continue, (next_request_id ctx1).2, out ++ w)
       ∧ stream crc w [(h', MessageBody_Msg r)] ∧ response_to h' = request_id h
       ∧ request_id h' = request_id_counter ctx1
       ∧ RawDocument_deep (OpMsg_document r) = Ok (error_document code cn m))
  ∧ (∀ q name, unwrap_request build config body = Ok (MessageBody_Query q) →
     RawDocument_command (query q) = Ok name → is_hello name = false →
     in_i32 (request_id_counter ctx) →
     ∃ w h' p raw, process_item crc build config handler turn (Ok (h, body)) ctx out
                     = (flow_Continue, (next_request_id ctx).2, out ++ w)
       ∧ stream crc w [(h', MessageBody_Reply p)] ∧ response_to h' = request_id h
       ∧ request_id h' = request_id_counter ctx
       ∧ flags_contains (response_flags p) QUERY_FAILURE = true ∧ reply_documents p = [raw]
       ∧ RawDocument_deep raw
         = Ok (error_document 59 (lit "CommandNotFound") (lit "OP_QUERY only supports hello/isMaster")))
  ∧ (∀ msg name e ctx1
     (command := mkCommand name (OpMsg_document msg) (sequences (sections msg)) (flags msg)),
     unwrap_request build config body = Ok (MessageBody_Msg msg) →
     RawDocument_command (OpMsg_document msg) = Ok name →
     flags_contains (flags msg) MORE_TO_COME = false →
     handle_command handler (turn_env turn) ctx command = (Err (WireError_Protocol e), ctx1) →
     process_item crc build config handler turn (Ok (h, body)) ctx out = (flow_Return (Ok ()), ctx1, out))
  ∧ (∀ msg e, unwrap_request build config body = Ok (MessageBody_Msg msg) →
     RawDocument_command (OpMsg_document msg) = Err e →
     process_item crc build config handler turn (Ok (h, body)) ctx out = (flow_Return (Ok ()), ctx, out))
  ∧ (∀ e, process_item crc build config handler turn (Err e) ctx out = (flow_Return (Ok ()), ctx, out)).
Proof.
  intros Hcrc Ht Hr. split_and!; [| | | |done].
  - intros msg name code cn m ctx1 command Hu Hn Hm Hh Hi Hf. unfold process_item. rewrite Hu. cbn [dispatch].
    unfold answer_msg. rewrite Hn. fold command. rewrite Hh. cbn [cmd_flags command]. rewrite Hm.
    destruct (@error_reply_msg SocketError code cn m msg Hf) as (r & -> & Hfine & Hdec & Hl).
    destruct (send_and_continue_sent crc Hcrc turn ctx1 (request_id h) (MessageBody_Msg r) out
      (sendable_msg r Hfine) Ht Hi Hr (Hl _)) as (w & h' & -> & Hs & Hto & Hid). cbn [sent_body] in Hs.
    destruct (ctx_checksum ctx1 && is_msg (MessageBody_Msg r)); by eexists w, h', _.
  - intros q name Hu Hn Hq Hi. unfold process_item. rewrite Hu. cbn [dispatch]. unfold answer_query.
    rewrite Hn, Hq. cbn [negb].
    destruct (@error_reply_query SocketError 59 (lit "CommandNotFound")
      (lit "OP_QUERY only supports hello/isMaster") q) as (raw & Hraw & Hs & Hdec & Hl).
    { split; [split; discriminate|]. split_and!; [reflexivity|reflexivity|vm_compute; discriminate]. }
    unfold WireError_command. rewrite Hraw.
    destruct (send_and_continue_sent crc Hcrc turn ctx (request_id h) (MessageBody_Reply _) out Hs Ht Hi Hr)
      as (w & h' & -> & Hst & Hto & Hid); [by rewrite andb_false_r|]. by eexists w, h', _, raw.
  - intros msg name e ctx1 command Hu Hn Hm Hh. unfold process_item. rewrite Hu. cbn [dispatch].
    unfold answer_msg. rewrite Hn. fold command. rewrite Hh. cbn [cmd_flags command]. by rewrite Hm.
  - intros msg e Hu Hn. unfold process_item. rewrite Hu. cbn [dispatch]. unfold answer_msg. by rewrite Hn.
Qed.

Lemma error_replies_witness :
  ∃ w h' r, process_item (λ _, 0) no_codecs ServerConfig_default (H0 := rejecting 59) () demo_turn
      (Ok (demo_request 0)) ConnectionInfo_new [] = (flow_Continue, (next_request_id ConnectionInfo_new).2, w)
    ∧ stream (λ _, 0) w [(h', MessageBody_Msg r)] ∧ response_to h' = 7
    ∧ RawDocument_deep (OpMsg_document r) = Ok (error_document 59 (lit "Nope") (lit "no")).
Proof.
  destruct (error_replies (λ _, 0) no_codecs () (rejecting 59) ServerConfig_default () demo_turn
              (fst (demo_request 0)) (snd (demo_request 0)) ConnectionInfo_new []) as (Hmsg & _).
  - intros w. split; vm_compute; discriminate.
  - reflexivity.
  - split; vm_compute; discriminate.
  - destruct (Hmsg (mkOpMsg 0 (mkSections (encoded [(lit "find", Bson_Int32 1)]) []) None) (lit "find")
      59 (lit "Nope") (lit "no") ConnectionInfo_new) as (w & h' & r & E & Hs & Hto & _ & Hd).
    + reflexivity.
    + vm_compute. reflexivity.
    + reflexivity.
    + reflexivity.
    + split; vm_compute; discriminate.
    + split; [split; discriminate|]. split; [reflexivity|]. split; [reflexivity|]. vm_compute. discriminate.
    + exists w, h', r. split; [exact E|]. split; [exact Hs|]. split; [exact Hto|exact Hd].
Defined.

(** ** Negotiation *)

Lemma negotiate_member cfg req x :
  x ∈ negotiate cfg (Some req) ↔ x ∈ cfg ∧ CompressorId_name x ∈ req.
Proof.
  unfold negotiate. rewrite list_elem_of_In, filter_In, <- list_elem_of_In.
  rewrite existsb_exists. split.
  - intros (? & n & Hn & ->%bool_decide_eq_true). split; [done|by apply list_elem_of_In].
  - intros (? & Hn). split; [done|]. exists (CompressorId_name x).
    split; [by apply list_elem_of_In|apply str_eqb_refl].
Qed.

Lemma negotiate_sublist cfg req : sublist (negotiate cfg req) cfg.
Proof.
  destruct req as [req|]; [|apply sublist_nil_l]. unfold negotiate.
  induction cfg as [|c cfg IH]; [constructor|]. cbn [List.filter]. case_match; by constructor.
Qed.

Lemma compressor_names_fmap cs :
  compressor_names cs = (λ c, Bson_String (CompressorId_name c)) <$> cs.
Proof.
  unfold compressor_names, Array_new.
  assert (∀ acc, foldl (λ a c, Array_push a (Bson_String (CompressorId_name c))) acc cs
                 = acc ++ ((λ c, Bson_String (CompressorId_name c)) <$> cs)) as Hg.
  { induction cs as [|c cs IH]; intros acc; [by rewrite app_nil_r|].
    cbn [foldl fmap list_fmap]. rewrite IH. unfold Array_push. by rewrite <- app_assoc. }
  apply Hg.
Qed.

Lemma compressor_names_ok cs : value_ok (Bson_Array (compressor_names cs))
  ∧ nesting (Bson_Array (compressor_names cs)) = 1.
Proof.
  rewrite compressor_names_fmap. split.
  - apply value_ok_array, Forall_fmap, Forall_forall. intros c _.
    destruct c; (split; [reflexivity|vm_compute; discriminate]).
  - induction cs as [|c cs IH]; [reflexivity|].
    cbn [nesting fmap list_fmap foldr] in *. lia.
Qed.


(** The fields every handshake document has, before the optional array. *)
Definition handshake_fields (ms : Z) (max : Z) (legacy : bool) : Document :=
  handshake_document (Bson_DateTime ms) [] max legacy.

Lemma handshake_document_split ms cs max legacy :
  handshake_document (Bson_DateTime ms) cs max legacy
  = handshake_fields ms max legacy
    ++ (if bool_decide (cs = []) then [] else [(lit "compression", Bson_Array (compressor_names cs))]).
Proof.
  unfold handshake_fields, handshake_document. case_bool_decide; cbn [negb].
  - subst. rewrite bool_decide_true by done. by rewrite app_nil_r.
  - by rewrite bool_decide_true.
Qed.

Lemma handshake_fields_ok ms max legacy : in_i64 ms → in_i32 max →
  fields_ok (handshake_fields ms max legacy) ∧ document_nesting (handshake_fields ms max legacy) = 1.
Proof.
  intros Hms Hmax. split; [|by destruct legacy].
  unfold handshake_fields, handshake_document. rewrite bool_decide_true by done. cbn [negb].
  destruct legacy; repeat apply List.Forall_cons; try apply List.Forall_nil; cbn [fst snd];
    (split; [by split|]); cbn; unfold_ranges; split_and!; done || lia.
Qed.

Lemma nesting_app d d' : document_nesting (d ++ d') = Z.max (document_nesting d) (document_nesting d').
Proof.
  unfold document_nesting. cbn [nesting]. induction d as [|f d IH]; cbn [app foldr].
  - assert (0 <= foldr (λ f m, Z.max (nesting f.2) m) 0 d') by (induction d'; simpl; lia). lia.
  - lia.
Qed.

Lemma handshake_document_ok ms cs max legacy (d := handshake_document (Bson_DateTime ms) cs max legacy) :
  in_i64 ms → in_i32 max → fields_ok d ∧ document_nesting d <= 2.
Proof.
  intros Hms Hmax. destruct (handshake_fields_ok ms max legacy Hms Hmax) as [Hf Hn].
  subst d. rewrite handshake_document_split. destruct (compressor_names_ok cs) as [Hv Hvn].
  case_bool_decide.
  - rewrite app_nil_r, Hn. split; [done|lia].
  - split.
    + apply Forall_app. split; [exact Hf|]. constructor; [|constructor]. split; [by split|exact Hv].
    + rewrite nesting_app, Hn. unfold document_nesting.
      change (nesting (Bson_Document [(lit "compression", Bson_Array (compressor_names cs))]))
        with (1 + Z.max (nesting (Bson_Array (compressor_names cs))) 0). rewrite Hvn. lia.
Qed.

Lemma handshake_reply_decodes env cs max legacy m : env_ok env → in_i32 max →
  handshake_reply env cs max legacy = Ok m →
  RawDocument_deep (OpMsg_document m)
  = Ok (handshake_document (Bson_DateTime (as_i64 (now env / 1000000))) cs max legacy).
Proof.
  intros He Hmax. unfold handshake_reply, Bson_from_time, millis_from_time, duration_since_epoch, env_ok in *.
  rewrite (proj2 (Z.leb_le 0 (now env)) He). cbn [bind]. intros Hm. apply built_Ok_inv in Hm as [-> Henc].
  destruct (handshake_document_ok (as_i64 (now env / 1000000)) cs max legacy (as_i64_range _) Hmax) as [Hf Hn].
  unfold OpMsg_document. cbn [sections sec_body].
  apply deep_of_document; [exact Hf| |exact Henc]. unfold MAX_NESTING_DEPTH. lia.
Qed.

(** The handshake the protocol documents, field by field. *)
Definition documented_handshake (ms : Z) (cs : list CompressorId) (max : Z) (legacy : bool) : Document :=
  [(lit "ok", Bson_Double 4607182418800017408);
   (lit (if legacy then "ismaster" else "isWritablePrimary"), Bson_Bool true);
   (lit "helloOk", Bson_Bool true);
   (lit "maxBsonObjectSize", Bson_Int32 16777216);
   (lit "maxMessageSizeBytes", Bson_Int32 max);
   (lit "maxWriteBatchSize", Bson_Int32 100000);
   (lit "localTime", Bson_DateTime ms);
   (lit "logicalSessionTimeoutMinutes", Bson_Int32 30);
   (lit "connectionId", Bson_Int32 1);
   (lit "minWireVersion", Bson_Int32 0);
   (lit "maxWireVersion", Bson_Int32 21);
   (lit "readOnly", Bson_Bool false)]
  ++ match cs with
     | [] => []
     | cs => [(lit "compression", Bson_Array ((λ c, Bson_String (CompressorId_name c)) <$> cs))]
     end.
Lemma handshake_document_documented ms cs max legacy :
  handshake_document (Bson_DateTime ms) cs max legacy = documented_handshake ms cs max legacy.
Proof.
  unfold handshake_document. rewrite compressor_names_fmap.
  destruct cs as [|c cs]; cbn [bool_decide negb]; by destruct legacy.
Qed.

(** It always encodes. *)
Lemma compressor_values_len cs : ∀ i,
  len (values_wire i ((λ c, Bson_String (CompressorId_name c)) <$> cs)) <= 40 * Z.of_nat (length cs).
Proof.
  unfold values_wire. induction cs as [|c cs IH]; intros i; cbn [fmap list_fmap values_wire_with length]; [done|].
  specialize (IH (i + 1)). pose proof (dec_bytes_len i) as Hd. unfold field_wire_with.
  cbn [value_wire Bson_as_scalar scalar_wire]. unfold string_wire.
  assert (len (CompressorId_name c) <= 6) by (destruct c; vm_compute; discriminate).
  len_tac.
Qed.
Lemma documented_handshake_len ms cs max legacy : Z.of_nat (length cs) <= 1000000 →
  len (document_wire (documented_handshake ms cs max legacy)) <= i32_max.
Proof.
  intros Hl. unfold document_wire, doc_frame, fields_wire, documented_handshake.
  pose proof (compressor_values_len cs 0) as Hv. unfold values_wire in Hv.
  destruct cs as [|c cs]; destruct legacy; cbn [app fields_wire_with]; unfold field_wire_with;
    cbn [value_wire Bson_as_scalar scalar_wire fmap list_fmap] in *; unfold string_wire, doc_frame;
    len_tac; lits; unfold i32_max; cbn [length] in *; lia.
Qed.
Lemma handshake_reply_Ok env cs max legacy : env_ok env → in_i32 max → Z.of_nat (length cs) <= 1000000 →
  ∃ m, handshake_reply env cs max legacy = Ok m ∧ flags m = 0
    ∧ RawDocument_deep (OpMsg_document m)
      = Ok (documented_handshake (as_i64 (now env / 1000000)) cs max legacy).
Proof.
  intros He Hmax Hl. set (ms := as_i64 (now env / 1000000)).
  destruct (handshake_document_ok ms cs max legacy (as_i64_range _) Hmax) as [Hf _].
  pose proof (Document_encode_writes (handshake_document (Bson_DateTime ms) cs max legacy)) as Hw.
  rewrite value_ok_encodable in Hw; [|by apply value_ok_document|].
  2: { rewrite handshake_document_documented. by apply documented_handshake_len. }
  unfold writes in Hw. eexists. assert (handshake_reply env cs max legacy
    = Ok (mkOpMsg 0 (mkSections (document_wire (handshake_document (Bson_DateTime ms) cs max legacy)) []) None)) as E.
  { unfold handshake_reply, Bson_from_time, millis_from_time, duration_since_epoch, env_ok in *.
    rewrite (proj2 (Z.leb_le 0 (now env)) He). cbn [bind].
    change (as_i64 (Duration_as_millis (now env))) with ms. rewrite Hw. cbn [map_err bind]. by rewrite op_msg_Ok. }
  split; [exact E|]. split; [done|]. rewrite <- handshake_document_documented. by apply handshake_reply_decodes.
Qed.

(** The client names the compressor [x]: the [compression] array of its request
    has that string among its elements. *)
Definition names_compressor (body : RawDocument) (x : CompressorId) : Prop :=
  ∃ arr values, RawDocument_get body (lit "compression") = Ok (Some (RawBsonRef_Array arr))
    ∧ RawArray_shallow arr = Ok values ∧ Bson_String (CompressorId_name x) ∈ values.
Lemma requested_names {E} body req x : @requested_compressors E body = Ok req →
  (∃ names, req = Some names ∧ CompressorId_name x ∈ names) ↔ names_compressor body x.
Proof.
  unfold requested_compressors, names_compressor. destruct (RawDocument_get body _) as [field|e| |]; try done.
  2: { cbn. intros [= <-]. naive_solver. }
  cbn [ok bind]. destruct field as [v|]; [|intros [= <-]; naive_solver].
  destruct v; try (intros [= <-]; naive_solver). destruct (RawArray_shallow a) as [values|e| |] eqn:Ea; try done.
  2: { cbn. intros [= <-]. split; [naive_solver|]. intros (arr & vs & [= <-] & ? & _). congruence. }
  cbn. intros [= <-]. unfold string_elements. split.
  - intros (names & [= <-] & (v & Hv & Hx)%list_elem_of_omap). destruct v; try done. injection Hx as ->. eauto.
  - intros (arr & vs & [= <-] & Hvs & Hin). rewrite Ea in Hvs. injection Hvs as <-.
    eexists. split; [done|]. apply list_elem_of_omap. by eexists.
Qed.

(** C28. Handshake negotiation.  The built-in handler answers every [hello],
    [isMaster] and [ismaster] command: it records on the connection, and changes
    nothing else there, the configured compressors that the command's
    [compression] array names, in the server's order, and its reply decodes to
    exactly the documented handshake: success, the primary flag under its legacy
    key for the legacy commands and its modern one for [hello], the size limits,
    the clock's time, the wire versions, and the recorded compressors by name,
    without the array when there are none.  The clock is past the epoch and at most
    a million compressors are configured. *)
Theorem handshake_negotiation H (hd : CommandHandler H) (self : BuiltinHandler H) env ctx command :
  env_ok env → in_i32 (builtin_max_msg_len self) →
  Z.of_nat (length (builtin_compressors self)) <= 1000000 →
  cmd_name command ∈ [lit "hello"; lit "isMaster"; lit "ismaster"] →
  ∃ m cs, BuiltinHandler_handle_command self env ctx command = (Ok (Reply_Msg m), set_negotiated cs ctx)
    ∧ sublist cs (builtin_compressors self)
    ∧ (∀ x, x ∈ cs ↔ x ∈ builtin_compressors self ∧ names_compressor (cmd_body command) x)
    ∧ RawDocument_deep (OpMsg_document m)
      = Ok (documented_handshake (as_i64 (now env / 1000000)) cs (builtin_max_msg_len self)
              (bool_decide (cmd_name command ≠ lit "hello"))).
Proof.
  intros He Hmax Hlen Hname. unfold BuiltinHandler_handle_command.
  assert (is_hello (cmd_name command) = true) as ->.
  { unfold is_hello. apply elem_of_cons in Hname as [->|Hname]; [done|].
    apply elem_of_cons in Hname as [->|Hname]; [done|]. by apply list_elem_of_singleton in Hname as ->. }
  pose proof (@returns_requested WireError (cmd_body command)) as Hret.
  pose proof (@requested_never_fails WireError (cmd_body command)) as Hne.
  destruct (requested_compressors (cmd_body command)) as [req|e| |] eqn:Hreq; try done; [|by destruct (Hne e)].
  set (cs := negotiate (builtin_compressors self) req).
  pose proof (negotiate_sublist (builtin_compressors self) req : sublist cs _) as Hsub.
  replace (negb (str_eqb (cmd_name command) (lit "hello"))) with (bool_decide (cmd_name command ≠ lit "hello")).
  2: { destruct (str_eqb_spec (cmd_name command) (lit "hello")); case_bool_decide; done. }
  destruct (handshake_reply_Ok env cs (builtin_max_msg_len self) (bool_decide (cmd_name command ≠ lit "hello"))
    He Hmax) as (m & -> & _ & Hd).
  { apply sublist_length in Hsub. lia. }
  exists m, cs. split; [done|]. split; [done|]. split; [|done]. intros x.
  rewrite <- (requested_names _ _ _ Hreq). subst cs.
  destruct req as [names|]; [rewrite negotiate_member; naive_solver|].
  split; [intros Hx; by apply not_elem_of_nil in Hx|naive_solver].
Qed.

Lemma handshake_negotiation_witness :
  let self := mkBuiltin () [CompressorId_Zstd; CompressorId_Snappy; CompressorId_Zlib] MAX_MSG_LEN in
  let body := encoded [(lit "hello", Bson_Int32 1);
                       (lit "compression", Bson_Array [Bson_String (lit "zlib"); Bson_String (lit "zstd")])] in
  let command := mkCommand (lit "hello") body [] 0 in
  ∃ m ctx', BuiltinHandler_handle_command (H0 := rejecting 59) self demo_env ConnectionInfo_new command
              = (Ok (Reply_Msg m), ctx')
    ∧ negotiated_compressors ctx' = [CompressorId_Zstd; CompressorId_Zlib]
    ∧ RawDocument_deep (OpMsg_document m)
      = Ok (documented_handshake 0 [CompressorId_Zstd; CompressorId_Zlib] MAX_MSG_LEN false).
Proof.
  intros self body command.
  destruct (handshake_negotiation () (rejecting 59) self demo_env ConnectionInfo_new command)
    as (m & cs & E & _ & _ & Hd).
  - unfold env_ok. simpl. lia.
  - split; discriminate.
  - vm_compute. discriminate.
  - left.
  - exists m, (set_negotiated cs ConnectionInfo_new). split; [exact E|].
    pose proof (f_equal (λ r, negotiated_compressors (snd r)) E) as Hc.
    assert (cs = [CompressorId_Zstd; CompressorId_Zlib]) as -> by (etransitivity; [symmetry; exact Hc|vm_compute; reflexivity]).
    split; [reflexivity|exact Hd].
Defined.
