(* ===== verification/Demo.v ===== *)
(** * The example server: [examples/mongowire-server/src/main.rs]

    [DemoHandler] is an instance of the handler class, proved to keep the
    contract of the loop, so every theorem of [ServerCorrect] holds of the
    example.  The line it logs for each command is rendered in the model too:
    a panic of the formatter would be a panic of the handler.  What
    [ObjectId::new] reads (clock, random bytes, the process-wide counter) comes
    from the environment of the call. *)
From stdpp Require Import base list numbers strings.
From Stdlib Require Import ZArith Lia.
From S2P Require Import Prelude Utf8 Io Consts BsonScalar BsonValue Convert BsonEncode.
From S2P Require Import BsonDecode BsonRoundtrip LogText LogFormat.
From S2P Require Import Header Message OpMsg OpLegacy OpCompressed Framing.
From S2P Require Import StrOps Auth Scram Api SaslBridge Server ServerCorrect.
Local Open Scope Z_scope.

Definition GREETING : str := lit "hello from mongowire".

Record DemoHandler := mkDemo { demo_max_msg_len : Z }.

(** [ObjectId::new()]: five random bytes, then the counter's value at the call. *)
Definition fresh_object_id (env : Env) : ObjectId :=
  fst (ObjectId_new (Some (now env / nanos_per_sec)) (takeZ 5 (random env))
         (u32_of_le (takeZ 4 (dropZ 5 (random env))))).

(** The documents the handler answers with. *)
Definition build_info_document : Document :=
  let doc := Document_new in
  let doc := Document_add doc (lit "version") (Bson_String (lit "7.0.0-mongowire")) in
  let doc := Document_add doc (lit "gitVersion") (Bson_String (lit "demo")) in
  Document_add doc (lit "ok") (Bson_Double f64_one).
Definition find_document (id : ObjectId) : Document :=
  let first := Document_new in
  let first := Document_add first (lit "_id") (Bson_ObjectId id) in
  let first := Document_add first (lit "greeting") (Bson_String GREETING) in
  let cursor :=
    [(lit "id", Bson_Int64 0); (lit "ns", Bson_String (lit "demo.demo"));
     (lit "firstBatch", Bson_Array [Bson_Document first])] in
  [(lit "cursor", Bson_Document cursor); (lit "ok", Bson_Double f64_one)].

(** [op_msg(MsgFlags::empty(), doc.encode().map_err(bson_error)?)?]. *)
Definition document_reply (doc : Document) : outcome WireError Reply :=
  let* raw := map_err bson_error (Document_encode doc) in
  let* m := op_msg 0 raw in
  Ok (Reply_Msg m).

(** [DemoHandler::find]. *)
Definition DemoHandler_find (env : Env) (command : Command) : outcome WireError Reply :=
  let* field := map_err bson_error (RawDocument_get (cmd_body command) (lit "find")) in
  let* collection :=
    match field with
    | Some (RawBsonRef_String name) => Ok name
    | Some _ =>
        Err (WireError_command 73 (lit "TypeMismatch")
               (lit "find: the collection name must be a string"))
    | None =>
        Err (WireError_command 40414 (lit "Location40414")
               (lit "find: missing collection name"))
    end in
  if negb (str_eqb collection (lit "demo")) then
    Err (WireError_command 26 (lit "NamespaceNotFound")
           (lit "no such collection: demo." ++ collection))
  else document_reply (find_document (fresh_object_id env)).

Section Handler.
Context (unicode_plain : Z → bool).

(** The line [handle] prints: the command's name and its body. *)
Definition log_line {E} (command : Command) : outcome E str :=
  match RawDocument_fmt unicode_plain (cmd_body command) false with
  | Ok body => Ok (lit "[conn] " ++ cmd_name command ++ lit " " ++ body)
  | Err e => match e with end
  | Panic => Panic
  | Fuel => Fuel
  end.

(** [DemoHandler::handle]. *)
Definition DemoHandler_handle (self : DemoHandler) (env : Env) (command : Command)
  : outcome WireError Reply :=
  let* _ := log_line command in
  let name := cmd_name command in
  if str_eqb name (lit "hello") then
    let* m := handshake_reply env [] (demo_max_msg_len self) false in Ok (Reply_Msg m)
  else if str_eqb name (lit "isMaster") || str_eqb name (lit "ismaster") then
    let* m := handshake_reply env [] (demo_max_msg_len self) true in Ok (Reply_Msg m)
  else if str_eqb name (lit "ping") then let* m := ping_reply in Ok (Reply_Msg m)
  else if str_eqb name (lit "buildInfo") then document_reply build_info_document
  else if str_eqb name (lit "find") then DemoHandler_find env command
  else Err (WireError_command 59 (lit "CommandNotFound") (lit "no such command: " ++ name)).

(** The trait implementation leaves the context alone. *)
Definition DemoHandler_handle_command (self : DemoHandler) (env : Env) (ctx : ConnectionInfo)
    (command : Command) : outcome WireError Reply * ConnectionInfo :=
  (DemoHandler_handle self env command, ctx).
#[export] Instance DemoHandler_handler : CommandHandler DemoHandler := DemoHandler_handle_command.
End Handler.

(** [parse_args] on the arguments after the program name; [None] is the usage
    exit. *)
Fixpoint parse_args_loop (args : list str) (bind : str) (checksum : bool) : option (str * bool) :=
  match args with
  | [] => Some (bind, checksum)
  | arg :: args =>
      if str_eqb arg (lit "--bind") then
        match args with
        | value :: args => parse_args_loop args value checksum
        | [] => None
        end
      else if str_eqb arg (lit "--no-checksum") then parse_args_loop args bind false
      else None
  end.
Definition parse_args (args : list str) : option (str * bool) :=
  parse_args_loop args (lit "127.0.0.1:27017") true.
(** The configuration [main] serves with. *)
Definition main_config (args : list str) : option (str * ServerConfig) :=
  match parse_args args with
  | Some (bind, checksum) =>
      Some (bind, mkServerConfig (cfg_max_msg_len ServerConfig_default) checksum
                    (cfg_compressors ServerConfig_default))
  | None => None
  end.

#[local] Opaque RawDocument_get RawDocument_deep RawDocument_shallow.

(** ** The handler keeps the contract of the loop *)

Lemma log_line_returns unicode_plain {E} command : ∃ s, @log_line unicode_plain E command = Ok s.
Proof.
  unfold log_line. destruct (RawDocument_fmt_returns unicode_plain (cmd_body command) false) as [s ->].
  eauto.
Qed.

Lemma document_reply_fine doc : reply_fine (document_reply doc).
Proof.
  unfold document_reply. pose proof (built_fine doc) as H.
  destruct (map_err bson_error (Document_encode doc)); [|done..]. exact H.
Qed.

Lemma DemoHandler_find_fine env command : reply_fine (DemoHandler_find env command).
Proof.
  unfold DemoHandler_find. pose proof (returns_RawDocument_get (cmd_body command) (lit "find")) as Hr.
  destruct (RawDocument_get _ _) as [[raw|]| | |]; try done. cbn [map_err bind].
  destruct raw; try done. cbn [bind]. case_match; [done|]. apply document_reply_fine.
Qed.

#[export] Instance DemoHandler_laws unicode_plain :
  @HandlerLaws DemoHandler (DemoHandler_handler unicode_plain).
Proof.
  split; [|done]. intros self env ctx command He.
  change (reply_fine (DemoHandler_handle unicode_plain self env command)).
  unfold DemoHandler_handle. destruct (log_line_returns unicode_plain (E := WireError) command) as [s ->].
  cbn [bind].
  repeat match goal with |- context [if ?c then _ else _] => destruct c end; try done;
    auto using document_reply_fine, DemoHandler_find_fine;
    apply reply_of_result; first [by apply handshake_fine | apply built_fine].
Qed.

(** ** What it answers *)

Definition env_bytes_ok (env : Env) : Prop := len (random env) = 9.
Lemma fresh_object_id_len env : env_bytes_ok env → len (fresh_object_id env) = 12.
Proof.
  intros H. unfold fresh_object_id, ObjectId_new, be_encode, env_bytes_ok in *. cbn [fst].
  rewrite !len_app, len_takeZ by lia.
  unfold len. rewrite length_drop, !length_rev, !length_le_encode. done.
Qed.

Lemma find_document_ok id : len id = 12 → fields_ok (find_document id).
Proof.
  intros H. apply value_ok_document. cbn. unfold_ranges. split_and!; try done; lia.
Qed.
Lemma find_document_len id : len id = 12 → len (document_wire (find_document id)) <= i32_max.
Proof.
  intros H. unfold document_wire, doc_frame, fields_wire, find_document, Document_add, Document_new.
  repeat progress (unfold field_wire_with, doc_frame, string_wire, GREETING;
    cbn [app value_wire Bson_as_scalar scalar_wire fields_wire_with values_wire_with]).
  len_tac. lits. pose proof (dec_bytes_len 0). unfold_ranges. lia.
Qed.

(** A reply that carries the document [d]. *)
Definition replies_with (r : outcome WireError Reply) (d : Document) : Prop :=
  ∃ m, r = Ok (Reply_Msg m) ∧ flags m = 0 ∧ RawDocument_deep (OpMsg_document m) = Ok d.

Lemma document_reply_with d : fields_ok d → document_nesting d <= MAX_NESTING_DEPTH →
  len (document_wire d) <= i32_max → replies_with (document_reply d) d.
Proof.
  intros Hok Hn Hl. pose proof (Document_encode_writes d) as Hw.
  rewrite value_ok_encodable in Hw; [|by apply value_ok_document|exact Hl]. cbn in Hw.
  unfold document_reply. rewrite Hw. cbn [map_err bind]. rewrite op_msg_Ok. cbn [bind].
  eexists. split; [done|]. split; [done|]. by apply deep_of_document.
Qed.

(** Evaluate comparisons of literals. *)
Ltac eqb_lits := repeat match goal with
  | |- context [str_eqb (lit ?a) (lit ?b)] =>
      let v := eval vm_compute in (str_eqb (lit a) (lit b)) in
      change (str_eqb (lit a) (lit b)) with v
  end; cbn [orb]; cbv iota.

Section Answers.
Context (unicode_plain : Z → bool) (self : DemoHandler) (env : Env) (command : Command).
#[local] Abbreviation handled := (DemoHandler_handle unicode_plain self env command).

Lemma handle_find : cmd_name command = lit "find" → handled = DemoHandler_find env command.
Proof.
  intros E. unfold DemoHandler_handle. destruct (log_line_returns unicode_plain (E := WireError) command) as [s ->].
  cbn [bind]. rewrite E. by eqb_lits.
Qed.
Lemma handle_build_info : cmd_name command = lit "buildInfo" →
  handled = document_reply build_info_document.
Proof.
  intros E. unfold DemoHandler_handle. destruct (log_line_returns unicode_plain (E := WireError) command) as [s ->].
  cbn [bind]. rewrite E. by eqb_lits.
Qed.
Lemma handle_unknown :
  cmd_name command ∉ [lit "hello"; lit "isMaster"; lit "ismaster"; lit "ping";
                      lit "buildInfo"; lit "find"] →
  handled = Err (WireError_command 59 (lit "CommandNotFound")
                   (lit "no such command: " ++ cmd_name command)).
Proof.
  intros Hn. unfold DemoHandler_handle. destruct (log_line_returns unicode_plain (E := WireError) command) as [s ->].
  cbn [bind]. unfold str_eqb. rewrite !not_elem_of_cons in Hn. destruct_and! Hn.
  by rewrite !bool_decide_eq_false_2.
Qed.

Lemma handle_hello legacy : env_ok env → in_i32 (demo_max_msg_len self) →
  cmd_name command = lit "hello" ∧ legacy = false
  ∨ (cmd_name command = lit "isMaster" ∨ cmd_name command = lit "ismaster") ∧ legacy = true →
  replies_with handled (documented_handshake (as_i64 (now env / 1000000)) [] (demo_max_msg_len self) legacy).
Proof.
  intros He Hmax Hn. destruct (handshake_reply_Ok env [] (demo_max_msg_len self) legacy He Hmax) as (m & Hm & Hfl & Hd);
    [done|].
  assert (handled = Ok (Reply_Msg m)) as ->.
  { unfold DemoHandler_handle. destruct (log_line_returns unicode_plain (E := WireError) command) as [s ->].
    cbn [bind]. destruct Hn as [[-> ->]|[[->| ->] ->]]; eqb_lits; by rewrite Hm. }
  by exists m.
Qed.
Lemma handle_ping : cmd_name command = lit "ping" →
  replies_with handled [(lit "ok", Bson_Double 4607182418800017408)].
Proof.
  intros E. unfold DemoHandler_handle. destruct (log_line_returns unicode_plain (E := WireError) command) as [s ->].
  cbn [bind]. rewrite E. eqb_lits. eexists. split; [vm_compute; reflexivity|]. split; [reflexivity|].
  vm_compute. reflexivity.
Qed.

(** The cursor [find] answers with: one document, in the first and only batch. *)
Definition demo_cursor (id : ObjectId) : Document :=
  [(lit "cursor",
    Bson_Document [(lit "id", Bson_Int64 0); (lit "ns", Bson_String (lit "demo.demo"));
                   (lit "firstBatch",
                    Bson_Array [Bson_Document [(lit "_id", Bson_ObjectId id);
                                               (lit "greeting", Bson_String (lit "hello from mongowire"))]])]);
   (lit "ok", Bson_Double 4607182418800017408)].

(** [find] in terms of the decoded command document. *)
Lemma DemoHandler_find_spec d :
  env_bytes_ok env → RawDocument_deep (cmd_body command) = Ok d →
  let r := DemoHandler_find env command in
  match Document_get d (lit "find") with
  | Some (Bson_String coll) =>
      if bool_decide (coll = lit "demo")
      then replies_with r (demo_cursor (fresh_object_id env))
      else r = Err (WireError_Command 26 (lit "NamespaceNotFound")
                      (lit "no such collection: demo." ++ coll))
  | Some _ => r = Err (WireError_Command 73 (lit "TypeMismatch")
                         (lit "find: the collection name must be a string"))
  | None => r = Err (WireError_Command 40414 (lit "Location40414") (lit "find: missing collection name"))
  end.
Proof.
  intros He Hd. pose proof (raw_get_decoded _ d (lit "find") Hd) as Hg. cbv zeta.
  unfold DemoHandler_find. destruct (Document_get d (lit "find")) as [v|].
  - destruct Hg as (raw & -> & Hv%raw_deep_string & _). cbn [map_err bind].
    destruct raw; [destruct v; (done || eauto)|subst v|destruct v; (done || eauto)..]. cbn [bind].
    unfold str_eqb. case_bool_decide; cbn [negb]; [|done].
    change (demo_cursor (fresh_object_id env)) with (find_document (fresh_object_id env)).
    apply document_reply_with; [|done|]; [apply find_document_ok|apply find_document_len];
      by apply fresh_object_id_len.
  - rewrite Hg. done.
Qed.
End Answers.

(** C37. The example's commands.  For a well-formed command document: [hello]
    and its legacy spellings are answered by the documented handshake without
    compressors, [ping] by [{ok: 1.0}]; [find] on the collection [demo] is answered
    by a cursor with id 0, namespace [demo.demo] and one document in its first
    batch, a new identifier of twelve bytes and the greeting; any other collection
    is answered by NamespaceNotFound (26), a name that is no string by TypeMismatch
    (73), a missing one by error 40414; [buildInfo] is answered by the version
    document; and a command that is none of these names by CommandNotFound (59).
    The clock is past the epoch. *)
Theorem demo_commands unicode_plain self env command d :
  env_ok env → env_bytes_ok env → in_i32 (demo_max_msg_len self) →
  RawDocument_deep (cmd_body command) = Ok d →
  let r := DemoHandler_handle unicode_plain self env command in
  let handshake := documented_handshake (as_i64 (now env / 1000000)) [] (demo_max_msg_len self) in
  (cmd_name command = lit "hello" → replies_with r (handshake false))
  ∧ (cmd_name command = lit "isMaster" ∨ cmd_name command = lit "ismaster" → replies_with r (handshake true))
  ∧ (cmd_name command = lit "ping" → replies_with r [(lit "ok", Bson_Double 4607182418800017408)])
  ∧ (cmd_name command = lit "find" →
     match Document_get d (lit "find") with
     | Some (Bson_String coll) =>
         if bool_decide (coll = lit "demo")
         then len (fresh_object_id env) = 12 ∧ replies_with r (demo_cursor (fresh_object_id env))
         else r = Err (WireError_Command 26 (lit "NamespaceNotFound")
                         (lit "no such collection: demo." ++ coll))
     | Some _ => r = Err (WireError_Command 73 (lit "TypeMismatch")
                            (lit "find: the collection name must be a string"))
     | None => r = Err (WireError_Command 40414 (lit "Location40414") (lit "find: missing collection name"))
     end)
  ∧ (cmd_name command = lit "buildInfo" →
     replies_with r [(lit "version", Bson_String (lit "7.0.0-mongowire"));
                     (lit "gitVersion", Bson_String (lit "demo"));
                     (lit "ok", Bson_Double 4607182418800017408)])
  ∧ (cmd_name command ∉ [lit "hello"; lit "isMaster"; lit "ismaster"; lit "ping";
                         lit "buildInfo"; lit "find"] →
     r = Err (WireError_Command 59 (lit "CommandNotFound")
                (lit "no such command: " ++ cmd_name command))).
Proof.
  intros He Hb Hmax Hd r handshake. split_and!.
  - intros E. apply handle_hello; auto.
  - intros E. apply handle_hello; auto.
  - apply handle_ping.
  - intros E. unfold r. rewrite (handle_find unicode_plain self env command E).
    pose proof (DemoHandler_find_spec env command d Hb Hd) as Hs.
    destruct (Document_get d (lit "find")) as [[]|]; try exact Hs. case_bool_decide; [|exact Hs].
    split; [by apply fresh_object_id_len|exact Hs].
  - intros E. unfold r. rewrite (handle_build_info unicode_plain self env command E).
    by apply document_reply_with; [apply value_ok_document|..].
  - apply handle_unknown.
Qed.

Definition find_command (coll : str) : Command :=
  mkCommand (lit "find") (encoded [(lit "find", Bson_String coll)]) [] 0.
Definition nine_bytes : Env := mkEnv 1700000000000000000 (replicate 9 x07).
Lemma demo_commands_witness :
  replies_with (DemoHandler_handle (λ _, true) (mkDemo 48000000) nine_bytes (find_command (lit "demo")))
    (demo_cursor (fresh_object_id nine_bytes)).
Proof.
  destruct (demo_commands (λ _, true) (mkDemo 48000000) nine_bytes (find_command (lit "demo"))
    [(lit "find", Bson_String (lit "demo"))]) as (_ & _ & _ & H & _).
  - vm_compute. discriminate.
  - reflexivity.
  - split; vm_compute; discriminate.
  - vm_compute. reflexivity.
  - exact (proj2 (H eq_refl)).
Defined.
