(* ===== verification/ConnState.v ===== *)
(** * The type of a connection's state

    What holds of the [ConnectionInfo] of every connection at every moment, as
    an invariant that the loop and the stacked handlers preserve.  The contract
    between them is the class [KeepsConnection]; the built-in handler, the SASL
    bridge and the example's handler satisfy it. *)
From stdpp Require Import base list numbers strings.
From Stdlib Require Import ZArith Lia.
From S2P Require Import Prelude Utf8 Io Consts BsonScalar BsonValue Convert BsonEncode.
From S2P Require Import BsonDecode BsonRoundtrip Header Message OpMsg OpLegacy OpCompressed Framing.
From S2P Require Import StrOps Auth Scram ScramCorrect Api SaslBridge Server ServerCorrect Demo.
Local Open Scope Z_scope.

#[local] Opaque RawArray_shallow RawDocument_get RawDocument_deep.

(** An exchange in flight has accepted its first message and waits for the
    final one. *)
Definition in_flight_ok (a : AuthState) : Prop :=
  ∀ mech sv, scram a = Some (mech, sv) → sv_state sv = ServerState_ExpectClientFinal.

(** The id counter is an [i32]; the negotiated compressors are configured ones,
    in the configured order; the checksum setting and the peer are those the
    connection started with. *)
Definition connection_ok (config : ServerConfig) (peer : option SocketAddr) (ctx : ConnectionInfo)
  : Prop :=
  in_i32 (request_id_counter ctx) ∧ sublist (negotiated_compressors ctx) (cfg_compressors config)
  ∧ ctx_checksum ctx = cfg_checksum config ∧ peer_addr ctx = peer ∧ in_flight_ok (auth ctx).

Class KeepsConnection (config : ServerConfig) (peer : option SocketAddr) {H} `{CommandHandler H}
    (self : H) : Prop :=
  keeps_connection env ctx command : connection_ok config peer ctx →
    connection_ok config peer (handle_command self env ctx command).2.

Section Keeps.
Context (config : ServerConfig) (peer : option SocketAddr).
#[local] Abbreviation ok := (connection_ok config peer).

Lemma next_request_id_ok ctx : ok ctx → ok (next_request_id ctx).2.
Proof. intros (Hi & ?). split; [apply as_i32_range|done]. Qed.
Lemma set_negotiated_ok ctx req : ok ctx → ok (set_negotiated (negotiate (cfg_compressors config) req) ctx).
Proof. intros (? & _ & ?). split; [done|]. split; [apply negotiate_sublist|done]. Qed.
Lemma set_auth_ok ctx a : ok ctx → in_flight_ok a → ok (set_auth a ctx).
Proof. intros (? & ? & ? & ? & _) Ha. by split_and!. Qed.

Lemma BuiltinHandler_keeps {H} `{CommandHandler H} (self : BuiltinHandler H) :
  builtin_compressors self = cfg_compressors config →
  KeepsConnection config peer (builtin_inner self) → KeepsConnection config peer self.
Proof.
  intros Hc Hk env ctx command Hok.
  unfold handle_command, BuiltinHandler_handler, BuiltinHandler_handle_command.
  destruct (is_hello _).
  - rewrite Hc. destruct (requested_compressors _); try done. by apply set_negotiated_ok.
  - destruct (str_eqb _ _); [done|]. by apply Hk.
Qed.

Section Bridge.
Context (c : Crypto) `{!CryptoLaws c} {C : Type} `{CredentialSource C}.

Lemma sasl_accept_state (store : C) env body mech sv sfirst :
  sasl_accept c store env body = Ok (mech, sv, sfirst) → sv_state sv = ServerState_ExpectClientFinal.
Proof.
  intros (first & user & creds & _ & _ & _ & _ & Hf)%(sasl_accept_Ok_inv c).
  by apply first_step_state in Hf as [? _].
Qed.
Lemma sasl_start_ok (store : C) env ctx body : ok ctx → ok (sasl_start c store env ctx body).2.
Proof.
  intros Hok. unfold sasl_start. destruct (is_some _); [done|].
  destruct (sasl_accept c store env body) as [[[mech sv] sfirst]| | |] eqn:E; try done.
  apply set_auth_ok; [done|]. intros m s [= <- <-]. by eapply sasl_accept_state.
Qed.
Lemma sasl_continue_ok ctx body : ok ctx → ok (sasl_continue c ctx body).2.
Proof.
  intros Hok. unfold sasl_continue. destruct (payload_str body) as [final| | |]; try done.
  destruct (scram (auth ctx)) as [[mech sv]|]; [|done].
  assert (ok (set_scram None ctx)) as Hn by (by apply set_auth_ok).
  destruct (conversation_id_of body); try done.
  by destruct (handle_client_final c final sv) as [[f| | |] sv'].
Qed.
Lemma ScramBridge_keeps {T} `{CommandHandler T} (self : ScramBridge T C) :
  KeepsConnection config peer (bridge_inner self) →
  @KeepsConnection config peer _ (ScramBridge_handler c) self.
Proof.
  intros Hk env ctx command Hok. unfold handle_command, ScramBridge_handler, ScramBridge_handle_command.
  destruct (str_eqb _ _); [by apply sasl_start_ok|].
  destruct (str_eqb _ _); [by apply sasl_continue_ok|]. by apply Hk.
Qed.
End Bridge.

(** The example's handler leaves the connection alone. *)
#[export] Instance DemoHandler_keeps unicode_plain (self : DemoHandler) :
  @KeepsConnection config peer _ (DemoHandler_handler unicode_plain) self.
Proof. by intros env ctx command Hok. Qed.

(** ** The loop *)

Section Loop.
Context (crc : bytes → Z) (build : Build).

Lemma send_and_continue_ok turn ctx rid b out : ok ctx →
  ok (send_and_continue crc turn ctx rid b out).1.2.
Proof.
  intros Hok. unfold send_and_continue, send_reply.
  destruct (next_request_id ctx) as [id ctx'] eqn:E.
  assert (ok ctx') as Hok' by (change ctx' with (id, ctx').2; rewrite <- E; by apply next_request_id_ok).
  set (h := Header_new id rid (MessageBody_opcode b)).
  destruct (ctx_checksum ctx' && is_msg b).
  - destruct (encode_message crc h b true []) as [[r h'] frame]. destruct r; try done.
    unfold write_all. by destruct (turn_write turn).
  - destruct (MongoCodec_encode crc (h, b) []) as [r frame]. destruct r; try done.
    unfold write_all. by destruct (turn_write turn).
Qed.

Lemma answer_query_ok turn h q ctx out : ok ctx →
  ok (answer_query crc config turn h q ctx out).1.2.
Proof.
  intros Hok. unfold answer_query. destruct (RawDocument_command (query q)) as [name| | |]; try done.
  destruct (negb _).
  - destruct (error_reply _ _) as [[b|]| | |]; try done. by apply send_and_continue_ok.
  - destruct (requested_compressors _) as [req| | |]; try done.
    pose proof (set_negotiated_ok ctx req Hok) as Hn.
    destruct (handshake_reply _ _ _ _); try done. by apply send_and_continue_ok.
Qed.

Context {H : Type} `{CommandHandler H} (handler : H) `{!KeepsConnection config peer handler}.

Lemma answer_msg_ok turn h msg ctx out : ok ctx → ok (answer_msg crc handler turn h msg ctx out).1.2.
Proof.
  intros Hok. unfold answer_msg.
  destruct (RawDocument_command (OpMsg_document msg)) as [name| | |]; try done.
  set (command := mkCommand _ _ _ _).
  pose proof (keeps_connection (turn_env turn) ctx command Hok) as Hk.
  destruct (handle_command handler (turn_env turn) ctx command) as [r ctx']. cbn [snd] in Hk.
  destruct r as [[m|]|e| |]; try done; destruct (flags_contains _ _); try done.
  - by apply send_and_continue_ok.
  - destruct (error_reply _ _) as [[b|]| | |]; try done. by apply send_and_continue_ok.
Qed.

Lemma process_item_ok turn item ctx out : ok ctx →
  ok (process_item crc build config handler turn item ctx out).1.2.
Proof.
  intros Hok. unfold process_item. destruct item as [[h body]| | |]; try done.
  destruct (unwrap_request build config body) as [[msg|q|p|x]| | |]; try done;
    [by apply answer_msg_ok|by apply answer_query_ok].
Qed.
Lemma process_items_ok items : ∀ ctx out, ok ctx →
  ok (process_items crc build config handler items ctx out).1.2.
Proof.
  induction items as [|[turn item] items IH]; intros ctx out Hok; [done|]. cbn [process_items].
  pose proof (process_item_ok turn item ctx out Hok) as Hp.
  destruct (process_item crc build config handler turn item ctx out) as [[fl ctx'] out'].
  destruct fl; [by apply IH|done].
Qed.
End Loop.
End Keeps.

(** C14. The connection's state is well typed: after any prefix of any
    connection, served by the built-in commands over the SASL bridge over a
    handler that keeps it so, the id counter is an [i32], the negotiated
    compressors are among the configured ones and in their order, the checksum
    setting and the peer are the initial ones, and an authentication exchange
    in flight is exactly one that awaits its final message. *)
Theorem connection_typed crc build config peer c (Hc : CryptoLaws c) C (s : CredentialSource C)
    H (hd : CommandHandler H) (inner : H) (store : C) max items :
  KeepsConnection config peer inner →
  connection_ok config peer
    (process_socket crc build config (H0 := BuiltinHandler_handler (H0 := ScramBridge_handler c))
       (mkBuiltin (mkBridge inner store) (cfg_compressors config) max) peer items).1.2.
Proof.
  intros Hk. apply process_items_ok.
  - apply BuiltinHandler_keeps; [done|]. by apply ScramBridge_keeps.
  - split_and!; try done. apply sublist_nil_l.
Qed.
Lemma connection_typed_witness :
  connection_ok ServerConfig_default None
    (process_socket (λ _, 0) no_codecs ServerConfig_default
       (H0 := BuiltinHandler_handler
                (H0 := @ScramBridge_handler toy_crypto _ _ (DemoHandler_handler (λ _, true))
                         MemoryCredentialSource_source))
       (mkBuiltin (mkBridge (mkDemo 48000000) MemoryCredentialSource_default)
          (cfg_compressors ServerConfig_default) MAX_MSG_LEN) None
       [(demo_turn, Ok (demo_request 0))]).1.2.
Proof.
  apply (connection_typed (λ _, 0) no_codecs ServerConfig_default None toy_crypto toy_laws
           MemoryCredentialSource MemoryCredentialSource_source DemoHandler
           (DemoHandler_handler (λ _, true)) (mkDemo 48000000) MemoryCredentialSource_default
           MAX_MSG_LEN [(demo_turn, Ok (demo_request 0))]).
  apply DemoHandler_keeps.
Defined.
