(* ===== verification/Client.v ===== *)
(** * The test client: [mongowire/src/test_client.rs]

    The client's state is what it has written, what the socket will still
    deliver (in chunks) and its read buffer; the receive loop is [recv] of
    [Framing]. *)
From stdpp Require Import base list numbers strings.
From Stdlib Require Import ZArith Lia.
From S2P Require Import Prelude Utf8 Io Consts BsonScalar BsonValue Convert BsonEncode.
From S2P Require Import BsonDecode BsonRoundtrip Header Message OpMsg OpLegacy OpCompressed Framing.
From S2P Require Import StrOps Auth Scram Api SaslBridge Server ServerCorrect Demo.
Local Open Scope Z_scope.

#[local] Opaque RawArray_shallow RawDocument_get RawDocument_deep.

(** ** The client *)

(** [tc_accepts] is how the socket takes what is written: everything, or it fails
    after that many more bytes. *)
Record TestClient := mkClient {
  tc_sent : bytes; tc_accepts : option Z; tc_incoming : list bytes; tc_buf : bytes
}.

(** [io::Error]s, the ones that wrap an encoding failure apart, and protocol
    errors of a read. *)
Inductive ClientError :=
| ClientError_Io (e : IoError)
| ClientError_Encode (e : ProtocolError)
| ClientError_Protocol (e : ProtocolError).

(** [next_id]: the identifier and the counter left behind. *)
Definition next_id (counter : Z) : Z * Z := (counter, as_i32 (counter + 1)).

(** [TestClient::connect], given what [TcpStream::connect] returns: a socket that
    accepts [accepts] and will deliver [incoming]. *)
Definition connect (stream : outcome IoError (option Z * list bytes)) : outcome ClientError TestClient :=
  let* '(accepts, incoming) := map_err ClientError_Io stream in
  Ok (mkClient [] accepts incoming []).

Section Client.
Context (crc : bytes → Z).

Definition frame_bytes (request_id response_to : Z) (body : MessageBody) (ck : bool)
  : outcome ClientError bytes :=
  let header := Header_new request_id response_to (MessageBody_opcode body) in
  let '(r, _, out) := encode_message crc header body ck [] in
  let* _ := map_err ClientError_Encode r in
  Ok out.

(** [write_all] on the client's socket. *)
Definition client_write (self : TestClient) (w : bytes) : outcome ClientError () * TestClient :=
  match tc_accepts self with
  | None => (Ok (), mkClient (tc_sent self ++ w) None (tc_incoming self) (tc_buf self))
  | Some k =>
      if len w <=? k
      then (Ok (), mkClient (tc_sent self ++ w) (Some (k - len w)) (tc_incoming self) (tc_buf self))
      else (Err (ClientError_Io (IoError_Other "transport")),
            mkClient (tc_sent self ++ takeZ k w) (Some 0) (tc_incoming self) (tc_buf self))
  end.

Definition write_frame (self : TestClient) (request_id response_to : Z) (body : MessageBody)
    (ck : bool) : outcome ClientError () * TestClient :=
  match frame_bytes request_id response_to body ck with
  | Ok w => client_write self w
  | Err e => (Err e, self)
  | Panic => (Panic, self)
  | Fuel => (Fuel, self)
  end.
Definition send (self : TestClient) (request_id response_to : Z) (body : MessageBody)
  : outcome ClientError () * TestClient := write_frame self request_id response_to body false.
Definition send_with_checksum (self : TestClient) (request_id response_to : Z) (body : MessageBody)
  : outcome ClientError () * TestClient := write_frame self request_id response_to body true.

Definition send_op_query_handshake (self : TestClient) (counter : Z) (request : RawDocument)
  : outcome ClientError Z * TestClient * Z :=
  let '(id, counter) := next_id counter in
  let '(r, self) := send self id 0 (MessageBody_Query (OpQuery_handshake request)) in
  (let* _ := r in Ok id, self, counter).

(** [TestClient::recv] on the client's state. *)
Definition client_recv (self : TestClient)
  : outcome ClientError (option (Header * MessageBody)) * TestClient :=
  let '(r, buf, chunks) := recv crc (tc_incoming self) (tc_buf self) in
  (map_err ClientError_Protocol r, mkClient (tc_sent self) (tc_accepts self) chunks buf).

Definition recv_op_reply (self : TestClient) : outcome ClientError (Header * OpReply) * TestClient :=
  let '(r, self) := client_recv self in
  (let* msg := r in
   let* '(header, body) := expect msg in
   match body with MessageBody_Reply reply => Ok (header, reply) | _ => Panic end, self).

(** [TestClient::request]: the assertion on [responseTo] panics when it fails. *)
Definition request (self : TestClient) (counter : Z) (body : MessageBody)
  : outcome ClientError (Header * MessageBody) * TestClient * Z :=
  let '(id, counter) := next_id counter in
  match send self id 0 body with
  | (Ok _, self) =>
      let '(r, self) := client_recv self in
      (let* msg := r in
       let* '(header, reply) := expect msg in
       if response_to header =? id then Ok (header, reply) else Panic, self, counter)
  | (Err e, self) => (Err e, self, counter)
  | (Panic, self) => (Panic, self, counter)
  | (Fuel, self) => (Fuel, self, counter)
  end.
End Client.

(** ** Reading a reply *)

(** A larger limit accepts what a smaller one accepted. *)
Lemma parse_message_wider crc buf max max' m rest : max <= max' →
  parse_message crc buf max = (Ok (Some m), rest) → parse_message crc buf max' = (Ok (Some m), rest).
Proof.
  destruct m as [h b]. intros Hle E. pose proof E as E0.
  apply parse_message_Some in E as (Hp & Hh & Hc & body & -> & Hl & Hb).
  assert (peek_message crc (header_wire h ++ body ++ rest) max' = Ok (Some h)) as Hp'.
  { unfold peek_message in *. rewrite !len_app, len_header_wire in *.
    pose proof (len_nonneg body). pose proof (len_nonneg rest). zif.
    rewrite slice_prefix by (by rewrite len_header_wire). cbn [bind].
    pose proof (header_parse_wire max' h []) as Hpw. rewrite app_nil_r in Hpw.
    rewrite Hpw by (unfold header_ok in *; intuition lia). cbn [bind]. zif. by rewrite Hc. }
  destruct (parse_message_complete crc _ _ _ Hp') as (body' & rest' & Eq & Hl' & ->).
  apply app_inv_head in Eq. apply (app_inj_1 _ _ _ _) in Eq as [<- <-]; [|unfold len in *; lia].
  by rewrite Hb.
Qed.

(** A client that reads a stream of one frame, in any chunks, gets the message. *)
Lemma client_recv_stream crc sent accepts chunks w m : Forall (λ c, c ≠ []) chunks → concat chunks = w →
  stream crc w [m] → ∃ chunks', concat chunks' = []
    ∧ client_recv crc (mkClient sent accepts chunks []) = (Ok (Some m), mkClient sent accepts chunks' []).
Proof.
  intros Hc <- Hs. inversion Hs as [|? ? rest l Hp Hr]; subst. inversion Hr; subst.
  apply (parse_message_wider _ _ _ i32_max) in Hp; [|done].
  pose proof (recv_spec crc chunks Hc []) as H. cbn [app] in H. rewrite Hp in H.
  unfold client_recv. cbn [tc_incoming tc_buf tc_sent tc_accepts].
  destruct (recv crc chunks []) as [[r buf'] chunks']. destruct H as [Hn ->].
  apply app_eq_nil in Hn as [-> Hn]. by exists chunks'.
Qed.

(** The frame of a body that fits, with the message it parses back to. *)
Lemma frame_bytes_parse crc max counter b : (∀ w, in_u32 (crc w)) → in_i32 counter → sendable b →
  frame_len b false <= Z.min max MAX_MSG_LEN →
  let h := set_message_length (Header_new counter 0 (MessageBody_opcode b)) (frame_len b false) in
  ∃ w, frame_bytes crc counter 0 b false = Ok w
    ∧ parse_message crc w max = (Ok (Some (h, b)), []).
Proof.
  intros Hcrc Hi [Hb Hn] Hlen h.
  destruct (encode_parse_frame crc (Header_new counter 0 (MessageBody_opcode b)) max Hcrc Hi
    ltac:(done) b false []) as (w & Hw & Hp); try done; [lia|lia|].
  exists w. unfold frame_bytes. rewrite Hw. split; [done|]. rewrite app_nil_r in Hp.
  rewrite Hp. by destruct b.
Qed.
