(* ===== verification/Serve.v ===== *)
(** * The accept loop: [serve] in [mongowire/src/api/mod.rs]

    [serve] spawns a task per accepted connection; the tasks and the loop run
    interleaved.  The server is a labelled transition system over the pool of
    tasks: a label is what the outside does next (a connection arrives, bytes
    arrive, a task is scheduled).  A task is [process_socket] with the read
    buffer [tokio_util]'s [Framed] keeps for it: it reads when the codec asks for
    more, and reports an error when the stream ends inside a frame. *)
From stdpp Require Import base list numbers strings.
From Stdlib Require Import ZArith Lia.
From S2P Require Import Prelude Utf8 Io Consts BsonScalar BsonValue Convert BsonEncode.
From S2P Require Import BsonDecode BsonRoundtrip Header Message OpMsg OpLegacy OpCompressed Framing.
From S2P Require Import StrOps Auth Scram Api SaslBridge Server ServerCorrect Demo.
Local Open Scope Z_scope.

#[local] Opaque RawArray_shallow RawDocument_get RawDocument_deep.

(** ** Tasks *)

Record Task := mkTask {
  task_peer : option SocketAddr;
  task_ctx : ConnectionInfo;
  task_buf : bytes;                              (* read, not yet decoded *)
  task_out : bytes;                              (* written to the socket *)
  task_result : option (outcome SocketError ())  (* [None] while running *)
}.

Inductive Event :=
| Accepted (peer : option SocketAddr)
| AcceptFailed
| Received (i : nat) (chunk : bytes)
| Polled (i : nat) (turn : Turn)
| Eof (i : nat)
| Truncated (i : nat) (turn : Turn)
| ReadFailed (i : nat) (turn : Turn) (e : IoError).

Definition item : Type := outcome ProtocolError (Header * MessageBody).

(** The item a decoding attempt makes [Framed] yield, if any. *)
Definition framed_item (r : outcome ProtocolError (option (Header * MessageBody))) : option item :=
  match r with
  | Ok None => None
  | Ok (Some m) => Some (Ok m)
  | Err e => Some (Err e)
  | Panic => Some Panic
  | Fuel => Some Fuel
  end.

Section Serve.
Context (crc : bytes → Z) (build : Build) (config : ServerConfig).
Context {H : Type} `{CommandHandler H} (handler : H).
#[local] Abbreviation decode := (MongoCodec_decode crc (mkCodecConfig (cfg_max_msg_len config))).

(** [process_socket] up to its loop. *)
Definition spawn (peer : option SocketAddr) : Task :=
  let ctx := ConnectionInfo_new in
  let ctx := mkConnection (request_id_counter ctx) peer (negotiated_compressors ctx)
               (cfg_checksum config) (auth ctx) in
  mkTask peer ctx [] [] None.

(** One iteration of the task's loop, with [rest] left in the read buffer. *)
Definition task_turn (t : Task) (turn : Turn) (x : item) (rest : bytes) : Task :=
  let '(fl, ctx, out) := process_item crc build config handler turn x (task_ctx t) (task_out t) in
  mkTask (task_peer t) ctx rest out
    (match fl with flow_Continue => None | flow_Return r => Some r end).
Definition task_receive (t : Task) (chunk : bytes) : Task :=
  mkTask (task_peer t) (task_ctx t) (task_buf t ++ chunk) (task_out t) (task_result t).
(** The stream ended: the loop is left. *)
Definition task_end (t : Task) : Task :=
  mkTask (task_peer t) (task_ctx t) (task_buf t) (task_out t) (Some (Ok ())).

Inductive task_step (t : Task) (i : nat) : Event → Task → Prop :=
| task_received chunk :
    decode (task_buf t) = (Ok None, task_buf t) → chunk ≠ [] →
    task_step t i (Received i chunk) (task_receive t chunk)
| task_polled turn r x rest :
    decode (task_buf t) = (r, rest) → framed_item r = Some x →
    task_step t i (Polled i turn) (task_turn t turn x rest)
| task_eof : task_buf t = [] → task_step t i (Eof i) (task_end t)
| task_truncated turn :
    decode (task_buf t) = (Ok None, task_buf t) → task_buf t ≠ [] →
    task_step t i (Truncated i turn)
      (task_turn t turn (Err (ProtocolError_Io (IoError_Other "bytes remaining on stream"))) (task_buf t))
| task_read_failed turn e :
    decode (task_buf t) = (Ok None, task_buf t) →
    task_step t i (ReadFailed i turn e) (task_turn t turn (Err (ProtocolError_Io e)) (task_buf t)).

(** The accept loop and the scheduler. *)
Inductive serve : list Task → Event → list Task → Prop :=
| serve_accepted w peer : serve w (Accepted peer) (w ++ [spawn peer])
| serve_accept_failed w : serve w AcceptFailed w
| serve_task w i t ev t' :
    w !! i = Some t → task_result t = None → task_step t i ev t' →
    serve w ev (<[i := t']> w).

(** The pools a sequence of events leads to, from the start of [serve]. *)
Inductive run : list Event → list Task → Prop :=
| run_start : run [] []
| run_step tr w ev w' : run tr w → serve w ev w' → run (tr ++ [ev]) w'.
End Serve.

(** One handler serves all connections, and it may keep state of its own that
    they all read and change.  [H] is then the handler together with that state:
    each event meets the handler as it happens to be at that moment, with no
    assumption on how it got there. *)
Inductive shared_run (crc : bytes → Z) (build : Build) (config : ServerConfig) {H} `{CommandHandler H}
  : list (Event * H) → list Task → Prop :=
| shared_start : shared_run crc build config [] []
| shared_step tr w ev handler w' :
    shared_run crc build config tr w → serve crc build config handler w ev w' →
    shared_run crc build config (tr ++ [(ev, handler)]) w'.

(** ** The same transitions, computed *)

Section Executable.
Context (crc : bytes → Z) (build : Build) (config : ServerConfig).
Context {H : Type} `{CommandHandler H} (handler : H).

(** [None]: the event cannot happen to this task. *)
Definition task_event (t : Task) (ev : Event) : option Task :=
  let '(r, rest) := MongoCodec_decode crc (mkCodecConfig (cfg_max_msg_len config)) (task_buf t) in
  let empty := bool_decide (task_buf t = []) in
  match framed_item r, ev with
  | Some x, Polled _ turn => Some (task_turn crc build config handler t turn x rest)
  | None, Received _ chunk =>
      if bool_decide (chunk = []) then None else Some (task_receive t chunk)
  | None, Eof _ => if empty then Some (task_end t) else None
  | None, Truncated _ turn =>
      if empty then None
      else Some (task_turn crc build config handler t turn
                   (Err (ProtocolError_Io (IoError_Other "bytes remaining on stream"))) (task_buf t))
  | None, ReadFailed _ turn e =>
      Some (task_turn crc build config handler t turn (Err (ProtocolError_Io e)) (task_buf t))
  | _, _ => None
  end.
Definition event_task (ev : Event) : option nat :=
  match ev with
  | Accepted _ | AcceptFailed => None
  | Received i _ | Polled i _ | Eof i | Truncated i _ | ReadFailed i _ _ => Some i
  end.
Definition serve_event (w : list Task) (ev : Event) : option (list Task) :=
  match event_task ev with
  | None => Some (match ev with Accepted peer => w ++ [spawn config peer] | _ => w end)
  | Some i =>
      match w !! i with
      | Some t =>
          if is_some (task_result t) then None
          else match task_event t ev with Some t' => Some (<[i := t']> w) | None => None end
      | None => None
      end
  end.
Fixpoint run_events (w : list Task) (tr : list Event) : option (list Task) :=
  match tr with
  | [] => Some w
  | ev :: tr => match serve_event w ev with Some w' => run_events w' tr | None => None end
  end.

Lemma decode_none t r rest :
  MongoCodec_decode crc (mkCodecConfig (cfg_max_msg_len config)) (task_buf t) = (r, rest) →
  framed_item r = None →
  MongoCodec_decode crc (mkCodecConfig (cfg_max_msg_len config)) (task_buf t) = (Ok None, task_buf t).
Proof.
  intros E Hr. destruct r as [[m|]|e| |]; try done.
  apply parse_message_none in E as E'. by rewrite E, E'.
Qed.
Lemma decode_empty : MongoCodec_decode crc (mkCodecConfig (cfg_max_msg_len config)) [] = (Ok None, []).
Proof. done. Qed.

Lemma task_event_step t i ev t' : event_task ev = Some i →
  task_event t ev = Some t' ↔ task_step crc build config handler t i ev t'.
Proof.
  intros Hi. unfold task_event.
  destruct (MongoCodec_decode _ _ (task_buf t)) as [r rest] eqn:E.
  split.
  - intros Ht. destruct (framed_item r) as [x|] eqn:Ex.
    + destruct ev; try done. injection Hi as ->. injection Ht as <-. by eapply task_polled.
    + pose proof (decode_none t r rest E Ex) as En.
      destruct ev; try done; injection Hi as ->; try case_bool_decide; try done; injection Ht as <-;
        by constructor.
  - intros Hs. inversion Hs as [chunk En Hc|turn r' x rest' En Ex|En|turn En Hne|turn e En]; subst.
    + rewrite E in En. injection En as -> ->. simpl. by rewrite bool_decide_false.
    + rewrite E in En. injection En as <- <-. by rewrite Ex.
    + rewrite En, decode_empty in E. injection E as <- <-. simpl. by rewrite bool_decide_true.
    + rewrite E in En. injection En as -> ->. simpl. by rewrite bool_decide_false.
    + by rewrite E in En; injection En as -> ->.
Qed.

(** The computed transitions are those of the relation. *)
Lemma serve_event_serve w ev w' : serve_event w ev = Some w' ↔ serve crc build config handler w ev w'.
Proof.
  split.
  - intros Hs. unfold serve_event in Hs.
    destruct (event_task ev) as [i|] eqn:Ei; [|destruct ev; try done; injection Hs as <-; constructor].
    destruct (w !! i) as [t|] eqn:Ew; [|done]. destruct (task_result t) eqn:Er; [done|].
    simpl in Hs. destruct (task_event t ev) as [t'|] eqn:Et; [|done]. injection Hs as <-.
    eapply serve_task; [done..|]. by apply task_event_step.
  - intros Hs. inversion Hs as [? peer|?|? i t ? t' Hi Hr Hstep]; subst; [done..|].
    assert (event_task ev = Some i) as Ei by (by inversion Hstep).
    apply task_event_step in Hstep; [|done]. unfold serve_event. by rewrite Ei, Hi, Hr, Hstep.
Qed.
Lemma run_events_run tr w : run_events [] tr = Some w → run crc build config handler tr w.
Proof.
  assert (∀ tr0 w0, run crc build config handler tr0 w0 → run_events w0 tr = Some w →
    run crc build config handler (tr0 ++ tr) w) as Hgen.
  { induction tr as [|ev tr IH]; intros tr0 w0 Hr E; simpl in E.
    - injection E as <-. by rewrite app_nil_r.
    - destruct (serve_event w0 ev) as [w1|] eqn:Es; [|done]. apply serve_event_serve in Es.
      replace (tr0 ++ ev :: tr) with ((tr0 ++ [ev]) ++ tr) by (by rewrite <- app_assoc).
      apply (IH _ w1); [|done]. by eapply run_step. }
  apply (Hgen [] []). constructor.
Qed.
End Executable.

(** ** The view of one connection *)

Definition event_peers (ev : Event) : list (option SocketAddr) :=
  match ev with Accepted peer => [peer] | _ => [] end.
Definition event_bytes (i : nat) (ev : Event) : bytes :=
  match ev with Received j chunk => if bool_decide (i = j) then chunk else [] | _ => [] end.
Definition event_turns (i : nat) (ev : Event) : list Turn :=
  match ev with
  | Polled j turn | Truncated j turn | ReadFailed j turn _ => if bool_decide (i = j) then [turn] else []
  | _ => []
  end.

(** The peers in the order they were accepted; what connection [i] received; the
    turns its task took. *)
Definition peers (tr : list Event) : list (option SocketAddr) := tr ≫= event_peers.
Definition received (i : nat) (tr : list Event) : bytes := tr ≫= event_bytes i.
Definition turns_of (i : nat) (tr : list Event) : list Turn := tr ≫= event_turns i.
(** Those turns with the handler each of them met. *)
Definition seen {H} (i : nat) (tr : list (Event * H)) : list (Turn * H) :=
  tr ≫= (λ eh, (λ turn, (turn, eh.2)) <$> event_turns i eh.1).

(** The items a stream yields, with what is left undecoded. *)
Inductive yields (crc : bytes → Z) (config : CodecConfig) : bytes → list item → bytes → Prop :=
| yields_nil buf : yields crc config buf [] buf
| yields_message buf m buf' items rest :
    MongoCodec_decode crc config buf = (Ok (Some m), buf') →
    yields crc config buf' items rest → yields crc config buf (Ok m :: items) rest
| yields_error buf e rest :
    MongoCodec_decode crc config buf = (Err e, rest) → yields crc config buf [Err e] rest
| yields_end buf e :
    MongoCodec_decode crc config buf = (Ok None, buf) → yields crc config buf [Err e] buf.

Section Yields.
Context (crc : bytes → Z) (config : CodecConfig).
#[local] Abbreviation decode := (MongoCodec_decode crc config).
#[local] Abbreviation yields := (yields crc config).

(** Bytes that arrive after messages were decoded stay behind what is left. *)
Lemma yields_messages_app buf ms rest x :
  yields buf (Ok <$> ms) rest → yields (buf ++ x) (Ok <$> ms) (rest ++ x).
Proof.
  revert buf. induction ms as [|m ms IH]; intros buf Hy; inversion Hy; subst; [constructor|].
  apply (yields_message _ _ _ _ (buf' ++ x)); [by apply parse_message_stable|by apply IH].
Qed.
Lemma yields_app buf ms mid items rest :
  yields buf (Ok <$> ms) mid → yields mid items rest → yields buf ((Ok <$> ms) ++ items) rest.
Proof.
  revert buf. induction ms as [|m ms IH]; intros buf Hy Hr; inversion Hy; subst; [done|].
  eapply yields_message; [done|]. by apply IH.
Qed.
(** A decoded item, as the next item of the stream. *)
Lemma yields_one buf r x rest : decode buf = (r, rest) → framed_item r = Some x →
  yields buf [x] rest ∧ (∀ m, x = Ok m → r = Ok (Some m)).
Proof.
  intros E Hx. pose proof (returns_parse_message crc buf (max_msg_len config)) as Hr.
  unfold MongoCodec_decode in E. rewrite E in Hr.
  destruct r as [[m|]|e| |]; try done; injection Hx as <-.
  - split; [|by intros ? [= <-]]. eapply yields_message; [exact E|constructor].
  - split; [by apply yields_error|done].
Qed.

(** Streams that agree yield messages that agree; where one ends with an error so
    does the other, if it is as long. *)
Definition same_item (x y : item) : Prop :=
  match x, y with Err _, Err _ => True | _, _ => x = y end.
Lemma yields_same buf items1 rest1 items2 rest2 :
  yields buf items1 rest1 → yields buf items2 rest2 → length items1 = length items2 →
  Forall2 same_item items1 items2.
Proof.
  intros Hy. revert items2 rest2.
  induction Hy as [buf|buf m buf' items rest E _ IH|buf e rest E|buf e E]; intros items2 rest2 Hy2 Hl;
    inversion Hy2 as [?|? m2 ? items' ? E2 Hy'|? e2 ? E2|? e2 E2]; subst; try done;
    rewrite E in E2; try discriminate E2; try (repeat constructor; done).
  injection E2 as <- <-. constructor; [done|]. eapply IH; [exact Hy'|]. simpl in Hl. lia.
Qed.
Lemma yields_items_ok buf items rest : yields buf items rest → Forall item_ok items.
Proof.
  induction 1 as [buf|buf [h b] buf' items rest E _ IH|buf e rest E|buf e E]; constructor;
    try done; (split; [done|]); [|constructor..].
  apply parse_message_Some in E as (_ & (_ & _ & Hi & _) & _). by apply Forall_singleton.
Qed.
End Yields.

(** ** Every task is a [process_socket] of its own *)

Section Refinement.
Context (crc : bytes → Z) (build : Build) (config : ServerConfig).
Context {H : Type} `{CommandHandler H}.
#[local] Abbreviation yields := (yields crc (mkCodecConfig (cfg_max_msg_len config))).
#[local] Abbreviation shared_run := (shared_run crc build config (H := H)).

(** The loop of [process_socket], each iteration with the handler it meets. *)
Fixpoint process_seen (l : list ((Turn * H) * item)) (ctx : ConnectionInfo) (out : bytes)
  : outcome SocketError () * ConnectionInfo * bytes :=
  match l with
  | [] => (Ok (), ctx, out)
  | ((turn, handler), x) :: l =>
      match process_item crc build config handler turn x ctx out with
      | (flow_Continue, ctx, out) => process_seen l ctx out
      | (flow_Return r, ctx, out) => (r, ctx, out)
      end
  end.
Lemma process_seen_constant handler turns items : ∀ ctx out,
  process_seen (zip ((λ turn, (turn, handler)) <$> turns) items) ctx out
  = process_items crc build config handler (zip turns items) ctx out.
Proof.
  revert items. induction turns as [|turn turns IH]; intros [|x items] ctx out; try done.
  cbn [fmap list_fmap zip zip_with process_seen process_items].
  destruct (process_item crc build config handler turn x ctx out) as [[[] ?] ?]; [apply IH|done].
Qed.

(** The loop has taken these turns and is still running. *)
Inductive continues (peer : option SocketAddr)
  : list ((Turn * H) * item) → ConnectionInfo → bytes → Prop :=
| continues_start : continues peer [] (task_ctx (spawn config peer)) []
| continues_turn l turn handler x ctx out ctx' out' :
    continues peer l ctx out →
    process_item crc build config handler turn x ctx out = (flow_Continue, ctx', out') →
    continues peer (l ++ [((turn, handler), x)]) ctx' out'.

Lemma continues_process peer l ctx out : continues peer l ctx out → ∀ l',
  process_seen (l ++ l') (task_ctx (spawn config peer)) [] = process_seen l' ctx out.
Proof.
  induction 1 as [|l turn handler x ctx out ctx' out' _ IH E]; intros l'; [done|].
  rewrite <- app_assoc, IH. cbn [app process_seen]. by rewrite E.
Qed.

(** A running task has decoded messages and answered them; a finished one ended
    the way the loop does on its items. *)
Definition task_inv (i : nat) (tr : list (Event * H)) (t : Task) : Prop :=
  match task_result t with
  | None => ∃ ms, yields (received i (fst <$> tr)) (Ok <$> ms) (task_buf t)
      ∧ length (seen i tr) = length ms
      ∧ continues (task_peer t) (zip (seen i tr) (Ok <$> ms)) (task_ctx t) (task_out t)
  | Some r => ∃ items, yields (received i (fst <$> tr)) items (task_buf t)
      ∧ length (seen i tr) = length items
      ∧ process_seen (zip (seen i tr) items) (task_ctx (spawn config (task_peer t))) []
        = (r, task_ctx t, task_out t)
  end.

Lemma fst_snoc (tr : list (Event * H)) ev handler : fst <$> (tr ++ [(ev, handler)]) = (fst <$> tr) ++ [ev].
Proof. by rewrite fmap_app. Qed.
Lemma received_snoc i tr (ev : Event) (handler : H) :
  received i (fst <$> (tr ++ [(ev, handler)])) = received i (fst <$> tr) ++ event_bytes i ev.
Proof. unfold received. by rewrite fst_snoc, bind_app, bind_singleton. Qed.
Lemma seen_snoc i tr ev (handler : H) :
  seen i (tr ++ [(ev, handler)]) = seen i tr ++ ((λ turn, (turn, handler)) <$> event_turns i ev).
Proof. unfold seen. by rewrite bind_app, bind_singleton. Qed.
Lemma peers_snoc tr (ev : Event) (handler : H) :
  peers (fst <$> (tr ++ [(ev, handler)])) = peers (fst <$> tr) ++ event_peers ev.
Proof. unfold peers. by rewrite fst_snoc, bind_app, bind_singleton. Qed.

(** An event with nothing for connection [i]. *)
Lemma task_inv_other i tr ev handler t : event_bytes i ev = [] → event_turns i ev = [] →
  task_inv i tr t → task_inv i (tr ++ [(ev, handler)]) t.
Proof.
  intros Hb Ht. unfold task_inv. rewrite received_snoc, seen_snoc, Hb, Ht. cbn [fmap list_fmap].
  by rewrite !app_nil_r.
Qed.

(** A turn on the item [x] that the stream yields next. *)
Lemma task_turn_inv i tr ev handler t turn x rest :
  task_result t = None → task_inv i tr t → event_bytes i ev = [] → event_turns i ev = [turn] →
  yields (task_buf t) [x] rest →
  task_inv i (tr ++ [(ev, handler)]) (task_turn crc build config handler t turn x rest).
Proof.
  intros Hrun Hinv Hb Ht Hx. unfold task_inv in *. rewrite Hrun in Hinv.
  destruct Hinv as (ms & Hy & Hl & Hc). rewrite received_snoc, seen_snoc, Hb, Ht, app_nil_r.
  cbn [fmap list_fmap].
  pose proof (yields_app _ _ _ ms (task_buf t) _ _ Hy Hx) as Hy'.
  assert (zip (seen i tr ++ [(turn, handler)]) ((Ok <$> ms) ++ [x])
    = zip (seen i tr) (Ok <$> ms) ++ [((turn, handler), x)]) as Hzip
    by (by rewrite zip_with_app by (by rewrite length_fmap)).
  unfold task_turn, item in *.
  destruct (process_item crc build config handler turn x (task_ctx t) (task_out t)) as [[fl ctx] out] eqn:E.
  destruct fl as [|r]; cbn [task_result].
  - destruct x as [m| | |]; [|unfold process_item in E; done..].
    exists (ms ++ [m]). rewrite fmap_app. cbn [fmap list_fmap].
    cbn [task_buf task_peer task_ctx task_out].
    split_and!; [done|rewrite !length_app; simpl; lia|]. rewrite Hzip. by eapply continues_turn.
  - exists ((Ok <$> ms) ++ [x]).
    split_and!; [done|rewrite !length_app, length_fmap; simpl; lia|]. cbn [task_peer task_ctx task_out].
    rewrite Hzip, (continues_process _ _ _ _ Hc). cbn [process_seen]. by rewrite E.
Qed.

Lemma task_step_inv i tr ev handler t t' : task_result t = None → task_inv i tr t →
  task_step crc build config handler t i ev t' →
  task_peer t' = task_peer t ∧ task_inv i (tr ++ [(ev, handler)]) t'.
Proof.
  intros Hrun Hinv Hstep. inversion Hstep; subst.
  - split; [done|]. unfold task_inv in *. cbn [task_receive task_result]. rewrite Hrun in *.
    destruct Hinv as (ms & Hy & Hl & Hc). exists ms. rewrite received_snoc, seen_snoc. simpl.
    rewrite bool_decide_true, app_nil_r by done. split_and!; [by apply yields_messages_app|done..].
  - split; [unfold task_turn; by repeat case_match|].
    eapply task_turn_inv; try done; [simpl; by rewrite bool_decide_true|]. by eapply yields_one.
  - split; [done|]. unfold task_inv in *. cbn [task_end task_result]. rewrite Hrun in *.
    destruct Hinv as (ms & Hy & Hl & Hc). exists (Ok <$> ms).
    rewrite received_snoc, seen_snoc. cbn [event_bytes event_turns fmap list_fmap]. rewrite !app_nil_r, length_fmap.
    split_and!; [done..|]. rewrite <- (app_nil_r (zip _ _)). by rewrite (continues_process _ _ _ _ Hc).
  - split; [unfold task_turn; by repeat case_match|].
    eapply task_turn_inv; try done; [simpl; by rewrite bool_decide_true|]. by apply yields_end.
  - split; [unfold task_turn; by repeat case_match|].
    eapply task_turn_inv; try done; [simpl; by rewrite bool_decide_true|]. by apply yields_end.
Qed.

(** What a task does shows in no other connection, and accepts nobody. *)
Lemma task_step_other i j ev handler t t' : task_step crc build config handler t i ev t' → j ≠ i →
  event_bytes j ev = [] ∧ event_turns j ev = [].
Proof. intros Hstep Hne. inversion Hstep; subst; simpl; by rewrite ?bool_decide_false. Qed.
Lemma task_step_peers i ev handler t t' : task_step crc build config handler t i ev t' → event_peers ev = [].
Proof. by inversion 1. Qed.

(** The invariant of the pool. *)
Definition pool_inv (tr : list (Event * H)) (w : list Task) : Prop :=
  task_peer <$> w = peers (fst <$> tr)
  ∧ (∀ i, w !! i = None → received i (fst <$> tr) = [] ∧ seen i tr = [])
  ∧ ∀ i t, w !! i = Some t → task_inv i tr t.

Lemma spawn_inv i tr peer : received i (fst <$> tr) = [] → seen i tr = [] → task_inv i tr (spawn config peer).
Proof.
  intros Hr Ht. exists []. rewrite Hr, Ht. split_and!; [constructor|done|constructor].
Qed.

Lemma shared_run_inv tr w : shared_run tr w → pool_inv tr w.
Proof.
  induction 1 as [|tr w ev handler w' _ (Hp & Hnone & Hall) Hs]; [done|].
  inversion Hs as [? peer|?|? i t ? t' Hi Hr Hstep]; subst; (split; [|split]).
  - by rewrite fmap_app, peers_snoc, Hp.
  - intros i Hi. rewrite received_snoc, seen_snoc. cbn [event_bytes event_turns fmap list_fmap]. rewrite !app_nil_r.
    apply Hnone. apply lookup_ge_None. apply lookup_ge_None in Hi. rewrite length_app in Hi. lia.
  - intros i t Hi. apply task_inv_other; [done..|].
    apply lookup_app_Some in Hi as [Hi|[Hge Hi]]; [by apply Hall|].
    apply list_lookup_singleton_Some in Hi as [_ <-]. apply lookup_ge_None_2 in Hge.
    by apply spawn_inv; apply Hnone.
  - by rewrite peers_snoc, app_nil_r.
  - intros i Hi. rewrite received_snoc, seen_snoc. cbn [event_bytes event_turns fmap list_fmap].
    rewrite !app_nil_r. by apply Hnone.
  - intros i t Hi. apply task_inv_other; [done..|]. by apply Hall.
  - rewrite peers_snoc, (task_step_peers _ _ _ _ _ Hstep), app_nil_r, <- Hp.
    apply list_eq. intros j. rewrite !list_lookup_fmap. destruct (decide (i = j)) as [<-|Hne].
    + rewrite list_lookup_insert_eq, Hi by (by eapply lookup_lt_Some). simpl. f_equal.
      by apply (task_step_inv i tr ev handler t t' Hr (Hall i t Hi)).
    + by rewrite list_lookup_insert_ne.
  - intros j Hj. destruct (decide (i = j)) as [<-|Hne].
    + apply lookup_ge_None_1 in Hj. rewrite length_insert in Hj. apply lookup_lt_Some in Hi. lia.
    + rewrite list_lookup_insert_ne in Hj by done.
      destruct (task_step_other i j ev handler t t' Hstep) as [Hb Ht]; [done|].
      rewrite received_snoc, seen_snoc, Hb, Ht. cbn [fmap list_fmap]. rewrite !app_nil_r. by apply Hnone.
  - intros j u Hj. destruct (decide (i = j)) as [<-|Hne].
    + rewrite list_lookup_insert_eq in Hj by (by eapply lookup_lt_Some). injection Hj as <-.
      by apply (task_step_inv i tr ev handler t t' Hr (Hall i t Hi)).
    + rewrite list_lookup_insert_ne in Hj by done.
      destruct (task_step_other i j ev handler t t' Hstep) as [Hb Ht]; [done|].
      apply task_inv_other; [done..|]. by apply Hall.
Qed.

(** Both cases of the invariant in one. *)
Lemma shared_task tr w i t : shared_run tr w → w !! i = Some t → ∃ items,
  yields (received i (fst <$> tr)) items (task_buf t) ∧ length (seen i tr) = length items
  ∧ process_seen (zip (seen i tr) items) (task_ctx (spawn config (task_peer t))) []
    = (default (Ok ()) (task_result t), task_ctx t, task_out t).
Proof.
  intros (_ & _ & Hall)%shared_run_inv Hi. specialize (Hall i t Hi). unfold task_inv in Hall.
  destruct (task_result t) as [r|]; [done|]. destruct Hall as (ms & Hy & Hl & Hc).
  exists (Ok <$> ms). rewrite length_fmap. split_and!; [done..|].
  rewrite <- (app_nil_r (zip _ _)). by rewrite (continues_process _ _ _ _ Hc).
Qed.

(** A run with one handler throughout. *)
Section Constant.
Context (handler : H).
#[local] Abbreviation run := (run crc build config handler).
#[local] Abbreviation with_handler := (λ ev : Event, (ev, handler)).

Lemma run_shared tr w : run tr w → shared_run (with_handler <$> tr) w.
Proof.
  induction 1 as [|tr w ev w' _ IH Hs]; [constructor|]. rewrite fmap_app. by eapply shared_step.
Qed.
Lemma fst_with_handler (tr : list Event) : fst <$> (with_handler <$> tr) = tr.
Proof. rewrite <- list_fmap_compose. apply list_fmap_id. Qed.
Lemma seen_with_handler i tr : seen i (with_handler <$> tr) = (λ turn, (turn, handler)) <$> turns_of i tr.
Proof.
  unfold seen, turns_of. induction tr as [|ev tr IH]; [done|]. cbn. rewrite fmap_app. by f_equal.
Qed.
Lemma run_peers tr w : run tr w → task_peer <$> w = peers tr.
Proof. intros (Hp & _)%run_shared%shared_run_inv. by rewrite fst_with_handler in Hp. Qed.
Lemma run_task tr w i t : run tr w → w !! i = Some t → ∃ items,
  yields (received i tr) items (task_buf t) ∧ length (turns_of i tr) = length items
  ∧ process_socket crc build config handler (task_peer t) (zip (turns_of i tr) items)
    = (default (Ok ()) (task_result t), task_ctx t, task_out t).
Proof.
  intros Hr Hi. destruct (shared_task _ _ _ _ (run_shared _ _ Hr) Hi) as (items & Hy & Hl & E).
  rewrite fst_with_handler, seen_with_handler in *. rewrite length_fmap in Hl.
  rewrite process_seen_constant in E. by exists items.
Qed.
End Constant.

(** Handlers that answer alike, whatever their state. *)
Definition alike (h1 h2 : H) : Prop := ∀ env ctx command,
  handle_command h1 env ctx command = handle_command h2 env ctx command.
(** An error closes the connection, whatever it is; and the handler shows in its
    answers only. *)
Lemma process_item_same h1 h2 turn x y ctx out : alike h1 h2 → same_item x y →
  process_item crc build config h1 turn x ctx out = process_item crc build config h2 turn y ctx out.
Proof.
  intros Hh Hxy. assert (process_item crc build config h1 turn x ctx out
    = process_item crc build config h1 turn y ctx out) as ->.
  { destruct x, y; try done; by injection Hxy as <-. }
  unfold process_item, dispatch, answer_msg. destruct y as [[h body]| | |]; try done.
  destruct (unwrap_request build config body) as [[msg| | |]| | |]; try done.
  destruct (RawDocument_command _); try done. by rewrite Hh.
Qed.
Lemma process_seen_same seen1 seen2 items1 items2 :
  Forall2 (λ a b, a.1 = b.1 ∧ alike a.2 b.2) seen1 seen2 → Forall2 same_item items1 items2 → ∀ ctx out,
  process_seen (zip seen1 items1) ctx out = process_seen (zip seen2 items2) ctx out.
Proof.
  intros Hh. revert items1 items2.
  induction Hh as [|[turn h1] [turn' h2] s1 s2 [Ht Ha] _ IH]; intros items1 items2 Hs ctx out;
    destruct Hs as [|x y l1 l2 Hxy Hs]; try done. cbn [fst snd] in *. subst turn'.
  cbn [zip zip_with process_seen]. rewrite (process_item_same h1 h2 turn x y ctx out Ha Hxy).
  destruct (process_item crc build config h2 turn y ctx out) as [[[] ?] ?]; [by apply IH|done].
Qed.
End Refinement.

(** C2. [serve] is concurrent [process_socket]s.  In whatever order connections
    are accepted, bytes arrive and tasks are scheduled, the task of the [i]-th
    accepted connection is, at every moment, [process_socket] run for its peer
    on the items that the bytes received on its own socket yield; failed accepts
    change nothing. *)
Theorem serve_refines crc build config H (hd : CommandHandler H) (handler : H) tr w :
  run crc build config handler tr w →
  length w = length (peers tr) ∧
  ∀ i t, w !! i = Some t →
    peers tr !! i = Some (task_peer t)
    ∧ ∃ items, yields crc (mkCodecConfig (cfg_max_msg_len config)) (received i tr) items (task_buf t)
        ∧ length (turns_of i tr) = length items
        ∧ process_socket crc build config handler (task_peer t) (zip (turns_of i tr) items)
          = (default (Ok ()) (task_result t), task_ctx t, task_out t).
Proof.
  intros Hr. rewrite <- (run_peers _ _ _ _ _ _ Hr), length_fmap.
  split; [done|]. intros i t Hi. split; [by rewrite list_lookup_fmap, Hi|]. by eapply run_task.
Qed.

(** C5. Connections are isolated but for the handler.  One handler serves all
    connections, and its own state may change between any two events, by their
    doing or otherwise.  If a connection, in two runs of the server (or two
    connections of one run), has the same peer, has received the same bytes and
    its task has taken the same turns, at each of which the handler, in whatever
    state, would answer alike, then its state and everything written to it are
    the same: the handler is the only way in which connections influence each
    other, and chunk boundaries, scheduling and the handler's state while others
    are served have no influence. *)
Theorem connections_isolated crc build config H (hd : CommandHandler H)
    (tr1 tr2 : list (Event * H)) w1 i1 t1 w2 i2 t2 :
  shared_run crc build config tr1 w1 → w1 !! i1 = Some t1 →
  shared_run crc build config tr2 w2 → w2 !! i2 = Some t2 →
  task_peer t1 = task_peer t2 → received i1 (fst <$> tr1) = received i2 (fst <$> tr2) →
  Forall2 (λ a b, a.1 = b.1 ∧ alike a.2 b.2) (seen i1 tr1) (seen i2 tr2) →
  task_ctx t1 = task_ctx t2 ∧ task_out t1 = task_out t2.
Proof.
  intros Hr1 Hi1 Hr2 Hi2 Hp Hb Hs.
  destruct (shared_task _ _ _ _ _ _ _ Hr1 Hi1) as (items1 & Hy1 & Hl1 & E1).
  destruct (shared_task _ _ _ _ _ _ _ Hr2 Hi2) as (items2 & Hy2 & Hl2 & E2).
  rewrite Hb in Hy1. rewrite Hp in E1.
  rewrite (process_seen_same _ _ _ _ _ items1 items2 Hs) in E1.
  2: { eapply yields_same; [done..|]. rewrite <- Hl1, <- Hl2. by eapply Forall2_length. }
  rewrite E1 in E2. by injection E2 as _ -> ->.
Qed.

(** C3. Every connection is served.  Whatever the peers send, however the sockets
    behave and the tasks interleave, with a handler that keeps its contract and a
    clock past the epoch, no task ever panics; and while its transport keeps up, what was written to a
    connection is a sequence of complete frames that answer the ids of the
    messages received on it, in order, each at most once. *)
Theorem connections_served crc build config H (hd : CommandHandler H) (Hh : HandlerLaws H) (handler : H)
    tr w i t :
  (∀ b, in_u32 (crc b)) → run crc build config handler tr w → w !! i = Some t →
  Forall turn_ok (turns_of i tr) →
  returns (default (Ok ()) (task_result t))
  ∧ (Forall transport_ok (turns_of i tr) → ∃ items replies,
      yields crc (mkCodecConfig (cfg_max_msg_len config)) (received i tr) items (task_buf t)
      ∧ stream crc (task_out t) replies
      ∧ sublist ((λ m, response_to m.1) <$> replies) (requests (zip (turns_of i tr) items))).
Proof.
  intros Hcrc Hr Hi Ht. destruct (run_task _ _ _ _ _ _ _ _ Hr Hi) as (items & Hy & Hl & E).
  assert (∀ P, Forall P (turns_of i tr) →
    Forall (λ ti, P ti.1 ∧ item_ok ti.2) (zip (turns_of i tr) items)) as Hz.
  { intros P HP. apply yields_items_ok in Hy. clear -HP Hy. revert items Hy.
    induction HP as [|x ts Hp _ IH]; intros [|y l] Hy; try constructor;
      apply Forall_cons in Hy as [??]; [done|by apply IH]. }
  change (default (Ok ()) (task_result t)) with (default (Ok ()) (task_result t), task_ctx t, task_out t).1.1.
  rewrite <- E. split; [by apply returns_process_items, Hz|]. intros Htr. exists items.
  change (task_out t) with (default (Ok ()) (task_result t), task_ctx t, task_out t).2. rewrite <- E.
  destruct (process_items_stream crc build Hcrc config handler (zip (turns_of i tr) items)
    (task_ctx (spawn config (task_peer t))) [] []) as (replies & Hs & Hsub); [|done|constructor|].
  - apply (Hz (λ t, turn_ok t ∧ transport_ok t)). by apply Forall_and.
  - by exists replies.
Qed.

(** ** A run *)

(** Two connections to the example server, interleaved: the second is answered
    while the first has sent half a frame; a stray byte then closes it. *)
Definition ping_frame : bytes :=
  let msg := mkOpMsg 0 (mkSections (encoded [(lit "ping", Bson_Int32 1)]) []) None in
  (encode_message (λ _, 7) (Header_new 5 0 Opcode_Msg) (MessageBody_Msg msg) false []).2.
Definition ping_turn : Turn := mkTurn nine_bytes None.
Definition demo_trace : list Event :=
  [Accepted None; AcceptFailed; Accepted None; Received 0 (takeZ 10 ping_frame);
   Received 1 ping_frame; Polled 1 ping_turn; Received 0 (dropZ 10 ping_frame); Polled 0 ping_turn;
   Received 1 [x01]; Truncated 1 ping_turn].
#[local] Abbreviation demo_events :=
  (run_events (λ _, 7) no_codecs ServerConfig_default (H0 := DemoHandler_handler (λ _, true)) (mkDemo MAX_MSG_LEN)).
#[local] Abbreviation demo_run :=
  (run (λ _, 7) no_codecs ServerConfig_default (H0 := DemoHandler_handler (λ _, true)) (mkDemo MAX_MSG_LEN)).
Definition demo_pool (tr : list Event) : list Task := default [] (demo_events [] tr).
Definition demo_task (tr : list Event) (i : nat) : Task :=
  default (spawn ServerConfig_default None) (demo_pool tr !! i).

Lemma demo_trace_run : demo_run demo_trace (demo_pool demo_trace).
Proof. apply run_events_run. vm_compute. reflexivity. Qed.
Lemma serve_refines_witness :
  demo_run demo_trace (demo_pool demo_trace)
  ∧ length (demo_pool demo_trace) = length (peers demo_trace)
  ∧ task_result (demo_task demo_trace 0) = None ∧ task_result (demo_task demo_trace 1) = Some (Ok ()).
Proof.
  split; [exact demo_trace_run|]. split; [|vm_compute; split; reflexivity].
  apply (serve_refines (λ _, 7) no_codecs ServerConfig_default DemoHandler (DemoHandler_handler (λ _, true))
           (mkDemo MAX_MSG_LEN) demo_trace (demo_pool demo_trace) demo_trace_run).
Defined.

(** A handler with a counter that all connections see: it refuses every command
    with the counter's value as the code. *)
Definition counting : CommandHandler Z := λ n _ ctx _,
  (Err (WireError_command n (lit "Counted") (lit "no")), ctx).
Fixpoint shared_events (w : list Task) (tr : list (Event * Z)) : option (list Task) :=
  match tr with
  | [] => Some w
  | (ev, n) :: tr =>
      match serve_event (λ _, 7) no_codecs ServerConfig_default (H0 := counting) n w ev with
      | Some w' => shared_events w' tr
      | None => None
      end
  end.
Lemma shared_events_run tr : ∀ tr0 w0 w,
  shared_run (H0 := counting) (λ _, 7) no_codecs ServerConfig_default tr0 w0 → shared_events w0 tr = Some w →
  shared_run (H0 := counting) (λ _, 7) no_codecs ServerConfig_default (tr0 ++ tr) w.
Proof.
  induction tr as [|[ev n] tr IH]; intros tr0 w0 w Hr E; cbn [shared_events] in E.
  { injection E as <-. by rewrite app_nil_r. }
  destruct (serve_event _ _ _ n w0 ev) as [w1|] eqn:Es; [|done]. apply serve_event_serve in Es.
  replace (tr0 ++ (ev, n) :: tr) with ((tr0 ++ [(ev, n)]) ++ tr) by (by rewrite <- app_assoc).
  apply (IH _ w1); [|done]. by eapply shared_step.
Qed.
(** The first connection is served while the counter is 3, the second when it is
    4; and the first alone, with its frame cut elsewhere and other values of the
    counter before its turn. *)
Definition counted_trace : list (Event * Z) :=
  [(Accepted None, 1); (Accepted None, 1); (Received 0 (takeZ 10 ping_frame), 2);
   (Received 1 ping_frame, 2); (Received 0 (dropZ 10 ping_frame), 3); (Polled 0 ping_turn, 3);
   (Polled 1 ping_turn, 4)].
Definition counted_solo : list (Event * Z) :=
  [(Accepted None, 8); (Received 0 (takeZ 3 ping_frame), 9); (Received 0 (dropZ 3 ping_frame), 9);
   (Polled 0 ping_turn, 3)].
Definition counted_pool (tr : list (Event * Z)) : list Task := default [] (shared_events [] tr).
Definition counted_task (tr : list (Event * Z)) (i : nat) : Task :=
  default (spawn ServerConfig_default None) (counted_pool tr !! i).
Lemma counted_trace_run :
  shared_run (H0 := counting) (λ _, 7) no_codecs ServerConfig_default counted_trace (counted_pool counted_trace).
Proof. apply (shared_events_run counted_trace [] []); [constructor|vm_compute; reflexivity]. Qed.
Lemma counted_solo_run :
  shared_run (H0 := counting) (λ _, 7) no_codecs ServerConfig_default counted_solo (counted_pool counted_solo).
Proof. apply (shared_events_run counted_solo [] []); [constructor|vm_compute; reflexivity]. Qed.
(** The handler's state does show, where it is met. *)
Example shared_state_shows :
  received 0 (fst <$> counted_trace) = received 1 (fst <$> counted_trace)
  ∧ task_out (counted_task counted_trace 0) ≠ task_out (counted_task counted_trace 1).
Proof. vm_compute. split; [reflexivity|discriminate]. Qed.

Lemma connections_isolated_witness :
  task_ctx (counted_task counted_trace 0) = task_ctx (counted_task counted_solo 0)
  ∧ task_out (counted_task counted_trace 0) = task_out (counted_task counted_solo 0).
Proof.
  apply (connections_isolated (λ _, 7) no_codecs ServerConfig_default Z counting
           counted_trace counted_solo (counted_pool counted_trace) 0 (counted_task counted_trace 0)
           (counted_pool counted_solo) 0 (counted_task counted_solo 0)).
  - exact counted_trace_run.
  - vm_compute. reflexivity.
  - exact counted_solo_run.
  - vm_compute. reflexivity.
  - vm_compute. reflexivity.
  - vm_compute. reflexivity.
  - repeat constructor.
Defined.
Lemma connections_served_witness :
  returns (default (Ok ()) (task_result (demo_task demo_trace 1)))
  ∧ ∃ replies, stream (λ _, 7) (task_out (demo_task demo_trace 1)) replies.
Proof.
  destruct (connections_served (λ _, 7) no_codecs ServerConfig_default DemoHandler
           (DemoHandler_handler (λ _, true)) (DemoHandler_laws (λ _, true)) (mkDemo MAX_MSG_LEN)
           demo_trace (demo_pool demo_trace) 1 (demo_task demo_trace 1)) as [Hr Hs].
  - intros b. split; vm_compute; discriminate.
  - exact demo_trace_run.
  - vm_compute. reflexivity.
  - repeat constructor; vm_compute; discriminate.
  - split; [exact Hr|]. destruct Hs as (items & replies & _ & H & _); [repeat constructor|].
    exists replies. exact H.
Defined.
