(* ===== verification/ServeBounds.v ===== *)
(** * What a connection can make the server hold

    The read buffer of a task of [Serve] is bounded by the frame limit: the task
    reads only while the frame at the front of its buffer is incomplete, and a
    header that declares more than the limit, or too little, ends the connection
    before any more is read. *)
From stdpp Require Import base list numbers strings.
From Stdlib Require Import ZArith Lia.
From S2P Require Import Prelude Utf8 Io Consts BsonScalar BsonValue Convert BsonEncode.
From S2P Require Import BsonDecode BsonRoundtrip Header Message OpMsg OpLegacy OpCompressed Framing.
From S2P Require Import StrOps Auth Scram Api SaslBridge Server ServerCorrect Demo Serve.
Local Open Scope Z_scope.

#[local] Opaque RawArray_shallow RawDocument_get RawDocument_deep.

(** ** Incomplete frames *)

(** The largest frame a connection accepts, and the most it waits with. *)
Definition frame_limit (config : ServerConfig) : Z := Z.min (cfg_max_msg_len config) MAX_MSG_LEN.
Definition wait_limit (config : ServerConfig) : Z := Z.max MSG_HEADER_LEN (frame_limit config).

Lemma peek_message_none crc buf max : peek_message crc buf max = Ok None →
  len buf < Z.max MSG_HEADER_LEN (Z.min max MAX_MSG_LEN).
Proof.
  unfold peek_message. intros H. destruct (len buf <? MSG_HEADER_LEN) eqn:E; zbool; [lia|].
  apply bind_Ok_inv in H as (prefix & _ & H). apply bind_Ok_inv in H as (h & Hh & H).
  apply Header_parse_Ok_inv in Hh as [(Hl & Hm & _) _].
  destruct (len buf <? message_length h) eqn:E'; zbool; [lia|]. by inv_ok.
Qed.
Lemma parse_message_waits crc buf max buf' : parse_message crc buf max = (Ok None, buf') →
  len buf < Z.max MSG_HEADER_LEN (Z.min max MAX_MSG_LEN).
Proof.
  intros H. destruct (peek_message crc buf max) as [[h|]| | |] eqn:Hp;
    try (unfold parse_message in H; rewrite Hp in H; congruence).
  - destruct (parse_message_complete crc _ _ _ Hp) as (body & rest & _ & _ & Hr).
    rewrite H in Hr. injection Hr as Hr _. destruct (MessageBody_parse_body _ body); discriminate Hr.
  - by eapply peek_message_none.
Qed.

(** What a complete header declares decides at once. *)
Definition declared_length (buf : bytes) : Z := i32_of_le (takeZ 4 buf).
Lemma parse_message_declares crc buf max : MSG_HEADER_LEN <= len buf →
  declared_length buf < MSG_HEADER_LEN ∨ Z.min max MAX_MSG_LEN < declared_length buf →
  ∃ e, parse_message crc buf max = (Err e, buf).
Proof.
  unfold MSG_HEADER_LEN. intros Hl Hd.
  destruct (split_header (takeZ 16 buf)) as (a1 & a2 & a3 & a4 & H1 & H2 & H3 & H4 & E); [rewrite len_takeZ; lia|].
  assert (declared_length buf = a1) as Ed.
  { unfold declared_length. rewrite <- (takeZ_takeZ 4 16) by lia. rewrite E, takeZ_app by len_tac.
    by apply i32_of_le_encode. }
  assert (∃ e, peek_message crc buf max = Err e) as [e He].
  { unfold peek_message, MSG_HEADER_LEN. zif. rewrite slice_Ok by lia. cbn [bind].
    rewrite dropZ_0 by lia. replace (16 - 0) with 16 by lia.
    rewrite (header_parse_eq _ _ a1 a2 a3 a4 []) by (done || by rewrite app_nil_r). unfold MSG_HEADER_LEN.
    rewrite Ed in Hd. repeat case_match; zbool; cbn [bind]; try (by eexists); lia. }
  exists e. unfold parse_message. by rewrite He.
Qed.

(** ** The invariant *)

Section Bounds.
Context (crc : bytes → Z) (build : Build) (config : ServerConfig).
Context {H : Type} `{CommandHandler H} (handler : H).
#[local] Abbreviation decode := (MongoCodec_decode crc (mkCodecConfig (cfg_max_msg_len config))).
#[local] Abbreviation run := (run crc build config handler).

Lemma parse_message_shrinks buf max r rest : parse_message crc buf max = (r, rest) → len rest <= len buf.
Proof.
  intros Hp. destruct (peek_message crc buf max) as [[h|]|e| |] eqn:E;
    try (unfold parse_message in Hp; rewrite E in Hp; injection Hp as <- <-; lia).
  destruct (parse_message_complete crc _ _ _ E) as (body & rest' & Eb & _ & Hr).
  rewrite Hp in Hr. injection Hr as _ ->. rewrite Eb. len_tac.
Qed.

Definition task_bounded (chunk : Z) (t : Task) : Prop := len (task_buf t) < wait_limit config + chunk.

Lemma task_turn_buf t turn x rest : task_buf (task_turn crc build config handler t turn x rest) = rest.
Proof. unfold task_turn. by destruct (process_item _ _ _ _ _ _ _ _) as [[??]?]. Qed.
Lemma task_step_bounded chunk t i ev t' : 0 <= chunk →
  (∀ c, ev = Received i c → len c <= chunk) → task_bounded chunk t →
  task_step crc build config handler t i ev t' → task_bounded chunk t'.
Proof.
  intros Hc Hev Hb Hs. unfold task_bounded in *. destruct Hs as [c Hd Hne|turn r x rest Hd Hx|He|turn Hd Hne|turn e Hd];
    rewrite ?task_turn_buf; try done.
  - cbn [task_receive task_buf]. apply parse_message_waits in Hd. specialize (Hev c eq_refl).
    unfold wait_limit, frame_limit. cbn [max_msg_len] in Hd. len_tac.
  - apply parse_message_shrinks in Hd. lia.
Qed.

Lemma run_bounded chunk tr w : 0 <= chunk → run tr w →
  (∀ i c, Received i c ∈ tr → len c <= chunk) → Forall (task_bounded chunk) w.
Proof.
  intros Hc Hr. induction Hr as [|tr w ev w' Hr IH Hs]; intros Hev; [constructor|].
  assert (Forall (task_bounded chunk) w) as Hw by (apply IH; intros i c Hin; apply (Hev i), elem_of_app; by left).
  destruct Hs as [w peer|w|w i t ev t' Hi Hrun Hs]; [|done|].
  - apply Forall_app. split; [done|]. repeat constructor. unfold task_bounded, wait_limit, MSG_HEADER_LEN.
    cbn [spawn task_buf]. rewrite len_nil. lia.
  - apply Forall_insert; [done|]. eapply task_step_bounded; [done| |by eapply Forall_lookup_1|exact Hs].
    intros c ->. apply (Hev i), elem_of_app. right. by apply list_elem_of_singleton.
Qed.
End Bounds.

(** ** Properties *)

(** C25. Connections cannot make the server buffer without bound.  In every run,
    when no read brings more than [chunk] bytes, the read buffer of each connection
    holds less than [chunk] more than the frame limit, the smaller of the
    configured and the protocol's (or a header's size, should that be more); a task
    that waits for more holds less than that limit; and a header that declares a length beyond the limit, or below its own,
    closes the connection on its next turn, without a reply and before anything
    more is read. *)
Theorem buffers_bounded crc build config H (hd : CommandHandler H) (handler : H) chunk tr w i t :
  run crc build config handler tr w → 0 <= chunk → (∀ j c, Received j c ∈ tr → len c <= chunk) →
  w !! i = Some t →
  len (task_buf t) < wait_limit config + chunk
  ∧ (∀ c t', task_step crc build config handler t i (Received i c) t' → len (task_buf t) < wait_limit config)
  ∧ (MSG_HEADER_LEN <= len (task_buf t) →
     declared_length (task_buf t) < MSG_HEADER_LEN ∨ frame_limit config < declared_length (task_buf t) →
     (∀ c t', ¬ task_step crc build config handler t i (Received i c) t')
     ∧ (∃ turn t', task_step crc build config handler t i (Polled i turn) t')
     ∧ ∀ turn t', task_step crc build config handler t i (Polled i turn) t' →
         task_result t' = Some (Ok ()) ∧ task_out t' = task_out t).
Proof.
  intros Hr Hc Hev Hi. split_and!.
  - pose proof (run_bounded crc build config handler chunk tr w Hc Hr Hev) as Hb.
    exact (Forall_lookup_1 _ _ _ _ Hb Hi).
  - intros c t' Hs. inversion Hs as [c' Hd Hne| | | |]; subst. by apply parse_message_waits in Hd.
  - intros Hl Hd. destruct (parse_message_declares crc (task_buf t) (cfg_max_msg_len config) Hl Hd) as [e He].
    change (MongoCodec_decode crc (mkCodecConfig (cfg_max_msg_len config)) (task_buf t) = (Err e, task_buf t)) in He.
    split_and!.
    + intros c t' Hs. inversion Hs as [c' Hd' Hne| | | |]; subst. rewrite He in Hd'. discriminate.
    + exists (mkTurn nine_bytes None). eexists. by eapply task_polled.
    + intros turn t' Hs. inversion Hs as [|turn' r x rest Hd' Hx| | |]; subst. rewrite He in Hd'.
      injection Hd' as <- <-. injection Hx as <-. done.
Qed.

(** A peer announces fifty million bytes. *)
Definition flood_trace : list Event :=
  [Accepted None; Received 0 (le_encode 4 50000000 ++ replicate 12 x00)].
Definition flooded : Task := demo_task flood_trace 0.
Lemma buffers_bounded_witness :
  len (task_buf flooded) < wait_limit ServerConfig_default + 16
  ∧ ∀ turn t', task_step (λ _, 7) no_codecs ServerConfig_default (H0 := DemoHandler_handler (λ _, true))
                 (mkDemo MAX_MSG_LEN) flooded 0 (Polled 0 turn) t' → task_result t' = Some (Ok ()).
Proof.
  destruct (buffers_bounded (λ _, 7) no_codecs ServerConfig_default DemoHandler (DemoHandler_handler (λ _, true))
              (mkDemo MAX_MSG_LEN) 16 flood_trace (demo_pool flood_trace) 0 flooded) as (Hb & _ & Hd).
  - apply run_events_run. vm_compute. reflexivity.
  - lia.
  - intros j c Hin. apply elem_of_cons in Hin as [[=]|Hin]. apply elem_of_cons in Hin as [E|Hin].
    + injection E as -> ->. vm_compute. discriminate.
    + by apply not_elem_of_nil in Hin.
  - vm_compute. reflexivity.
  - split; [exact Hb|]. destruct Hd as (_ & _ & Hd); [vm_compute; discriminate|right; vm_compute; reflexivity|].
    intros turn t' Hs. by apply Hd in Hs as [? _].
Defined.
