(* ===== verification/Session.v ===== *)
(** * Conversations: the test client against the running server

    A client talks to one task of the pool of [Serve]: the frames it writes
    arrive in chunks, the task takes a turn, and what it wrote comes back in
    chunks.  The reference is a conversation at the level of the handler: which
    message it returns for which command, and how the connection's state moves. *)
From stdpp Require Import base list numbers strings.
From Stdlib Require Import ZArith Lia.
From S2P Require Import Prelude Utf8 Io Consts BsonScalar BsonValue Convert BsonEncode.
From S2P Require Import BsonDecode BsonRoundtrip Header Message OpMsg OpLegacy OpCompressed Framing.
From S2P Require Import StrOps Auth Scram ScramCorrect Api SaslBridge Server ServerCorrect Demo.
From S2P Require Import Client Serve.
Local Open Scope Z_scope.

#[local] Opaque RawArray_shallow RawDocument_get RawDocument_deep.

(** Cutting bytes into the pieces a socket delivers. *)
Definition chunking (cut : bytes → list bytes) : Prop :=
  ∀ b, concat (cut b) = b ∧ Forall (λ c, c ≠ []) (cut b).

(** The events of one request on connection [i]. *)
Definition request_events (i : nat) (chunks : list bytes) (turn : Turn) : list Event :=
  (Received i <$> chunks) ++ [Polled i turn].

Definition idle (t : Task) : Prop := task_result t = None ∧ task_buf t = [].

Section Exchange.
Context (crc : bytes → Z) (build : Build) (config : ServerConfig).
Context {H : Type} `{CommandHandler H} (handler : H).
#[local] Abbreviation decode := (MongoCodec_decode crc (mkCodecConfig (cfg_max_msg_len config))).
#[local] Abbreviation run_events := (run_events crc build config handler).

(** A frame still incomplete makes the codec ask for more. *)
Lemma decode_prefix pre x m : decode (pre ++ x) = (Ok (Some m), []) → x ≠ [] →
  decode pre = (Ok None, pre).
Proof.
  intros E Hx. destruct (decode pre) as [r rest] eqn:Ep. unfold MongoCodec_decode in *.
  destruct (is_none r) eqn:Er.
  - destruct r as [[?|]| | |]; try done. by apply parse_message_none in Ep as ->.
  - rewrite (parse_message_stable crc pre x _ r rest Ep Er) in E. injection E as _ E.
    by apply app_eq_nil in E as [_ ?].
Qed.

(** Receiving a frame chunk by chunk fills the read buffer. *)
Lemma run_receives i m ins tail : ∀ pool t,
  Forall (λ c, c ≠ []) ins → decode (task_buf t ++ concat ins) = (Ok (Some m), []) →
  pool !! i = Some t → task_result t = None →
  run_events pool ((Received i <$> ins) ++ tail)
  = run_events (<[i := task_receive t (concat ins)]> pool) tail.
Proof.
  induction ins as [|c ins IH]; intros pool t Hne E Hi Hr; cbn [fmap list_fmap app concat].
  - f_equal. rewrite list_insert_id; [done|]. rewrite Hi. f_equal. destruct t. unfold task_receive.
    simpl. by rewrite app_nil_r.
  - inversion_clear Hne as [|?? Hc Hne']. cbn [concat] in E.
    assert (c ++ concat ins ≠ []) as Hx by (by destruct c).
    pose proof (decode_prefix _ _ _ E Hx) as Hd.
    cbn [Serve.run_events]. unfold serve_event. cbn [event_task]. rewrite Hi, Hr. cbn [is_some].
    unfold task_event. rewrite Hd. cbn [framed_item]. rewrite bool_decide_false by done.
    rewrite (IH _ (task_receive t c)); [|done| | |done].
    + rewrite list_insert_insert_eq. unfold task_receive. cbn. by rewrite app_assoc.
    + cbn [task_receive task_buf]. by rewrite <- app_assoc.
    + apply list_lookup_insert_eq. by eapply lookup_lt_Some.
Qed.

(** A request that arrives whole and is answered by one frame. *)
Lemma run_request pool i t turn b counter ctx' o :
  let h := set_message_length (Header_new counter 0 (MessageBody_opcode b)) (frame_len b false) in
  (∀ w, in_u32 (crc w)) → in_i32 counter → sendable b →
  frame_len b false <= Z.min (cfg_max_msg_len config) MAX_MSG_LEN →
  pool !! i = Some t → idle t →
  process_item crc build config handler turn (Ok (h, b)) (task_ctx t) (task_out t)
    = (flow_Continue, ctx', task_out t ++ o) →
  ∃ w, frame_bytes crc counter 0 b false = Ok w
    ∧ ∀ ins, concat ins = w → Forall (λ c, c ≠ []) ins →
        run_events pool (request_events i ins turn)
        = Some (<[i := mkTask (task_peer t) ctx' [] (task_out t ++ o) None]> pool).
Proof.
  intros h Hcrc Hc Hb Hlen Hi [Hr Hbuf] Hp.
  destruct (frame_bytes_parse crc (cfg_max_msg_len config) counter b Hcrc Hc Hb Hlen) as (w & Hw & Hd).
  exists w. split; [done|]. intros ins <- Hne. unfold request_events.
  rewrite (run_receives i (h, b) ins _ pool t); [|done|by rewrite Hbuf|done..].
  cbn [Serve.run_events]. unfold serve_event. cbn [event_task].
  rewrite list_lookup_insert_eq by (by eapply lookup_lt_Some). cbn [task_receive task_result].
  rewrite Hr. cbn [is_some]. unfold task_event. cbn [task_receive task_buf]. rewrite Hbuf. cbn [app].
  unfold MongoCodec_decode. cbn [max_msg_len]. rewrite Hd. cbn [framed_item].
  unfold task_turn. cbn [task_receive task_ctx task_out task_peer]. fold h. rewrite Hp.
  by rewrite list_insert_insert_eq.
Qed.

(** ** Requests *)

(** The handler answers [msg] with [m] and leaves the connection as [ctx1]; both
    messages are well formed. *)
Definition answers (ctx : ConnectionInfo) (turn : Turn) (msg m : OpMsg) (ctx1 : ConnectionInfo) : Prop :=
  message_fine msg ∧ message_fine m ∧ in_i32 (request_id_counter ctx1)
  ∧ ∃ name, RawDocument_command (OpMsg_document msg) = Ok name
    ∧ flags_contains (flags msg) MORE_TO_COME = false
    ∧ handle_command handler (turn_env turn) ctx
        (mkCommand name (OpMsg_document msg) (sequences (sections msg)) (flags msg))
      = (Ok (Reply_Msg m), ctx1).
(** Both messages fit in a frame, and the socket takes the reply. *)
Definition fits (turn : Turn) (msg m : OpMsg) (ctx1 : ConnectionInfo) : Prop :=
  transport_ok turn
  ∧ frame_len (MessageBody_Msg msg) false <= Z.min (cfg_max_msg_len config) MAX_MSG_LEN
  ∧ frame_len (MessageBody_Msg m) (ctx_checksum ctx1) <= MAX_MSG_LEN.

(** What the client gets for [m]. *)
Definition reply_of (counter : Z) (ck : bool) (m : OpMsg) (r : Header * MessageBody) : Prop :=
  response_to r.1 = counter ∧ r.2 = sent_body crc r.1 (MessageBody_Msg m) ck.

Lemma request_exchange pool i t turn counter msg m ctx1 :
  (∀ w, in_u32 (crc w)) → in_i32 counter → pool !! i = Some t → idle t →
  answers (task_ctx t) turn msg m ctx1 → fits turn msg m ctx1 →
  ∃ w o r, frame_bytes crc counter 0 (MessageBody_Msg msg) false = Ok w
    ∧ reply_of counter (ctx_checksum ctx1) m r
    ∧ (∀ ins, concat ins = w → Forall (λ c, c ≠ []) ins →
        run_events pool (request_events i ins turn)
        = Some (<[i := mkTask (task_peer t) (next_request_id ctx1).2 [] (task_out t ++ o) None]> pool))
    ∧ ∀ sent outs, concat outs = o → Forall (λ c, c ≠ []) outs →
        ∃ outs', concat outs' = []
          ∧ request crc (mkClient sent None outs []) counter (MessageBody_Msg msg)
            = (Ok r, mkClient (sent ++ w) None outs' [], as_i32 (counter + 1)).
Proof.
  intros Hcrc Hc Hi Hidle (Hmsg & Hm & Hi1 & name & Hn & Hmore & Hh) (Ht & Hlen & Hfit).
  set (h := set_message_length (Header_new counter 0 Opcode_Msg) (frame_len (MessageBody_Msg msg) false)).
  destruct (message_answered crc build H _ config handler turn h (MessageBody_Msg msg) msg
    (task_ctx t) (task_out t) name m ctx1 Hcrc Ht eq_refl Hn Hmore Hh Hm Hi1 Hc Hfit)
    as (o & h' & Ep & Hs & Hrt & _).
  destruct (run_request pool i t turn (MessageBody_Msg msg) counter _ o Hcrc Hc
    (sendable_msg msg Hmsg) Hlen Hi Hidle Ep) as (w & Hw & Hrun).
  exists w, o, (h', sent_body crc h' (MessageBody_Msg m) (ctx_checksum ctx1)). split_and!; [done|split; [exact Hrt|reflexivity]|done|].
  intros sent outs Ho Hne.
  destruct (client_recv_stream crc (sent ++ w) None outs o _ Hne Ho Hs) as (outs' & Hn' & Hr).
  exists outs'. split; [done|]. unfold request, next_id, send, write_frame. rewrite Hw.
  unfold client_write.
  cbn [tc_accepts tc_sent tc_incoming tc_buf]. rewrite Hr. cbn [bind expect]. rewrite Hrt.
  unfold h. cbn [request_id set_message_length Header_new]. by rewrite Z.eqb_refl.
Qed.

(** ** Sequences of requests *)

(** The handler's side: the commands it is called with, in order, and what it
    returns. *)
Inductive conversation : ConnectionInfo → list (Turn * OpMsg) → list (OpMsg * bool) → ConnectionInfo → Prop :=
| conversation_end ctx : conversation ctx [] [] ctx
| conversation_request ctx turn msg m ctx1 script replies ctx' :
    answers ctx turn msg m ctx1 → fits turn msg m ctx1 →
    conversation (next_request_id ctx1).2 script replies ctx' →
    conversation ctx ((turn, msg) :: script) ((m, ctx_checksum ctx1) :: replies) ctx'.

(** The wire's side: the client makes its requests one after the other on
    connection [i]; [up] and [down] cut what is sent with each request id. *)
Fixpoint session (up down : Z → bytes → list bytes) (i : nat) (pool : list Task) (sent : bytes)
    (counter : Z) (script : list (Turn * OpMsg))
  : option (list (outcome ClientError (Header * MessageBody)) * list Task) :=
  match script with
  | [] => Some ([], pool)
  | (turn, msg) :: script =>
      match frame_bytes crc counter 0 (MessageBody_Msg msg) false, pool !! i with
      | Ok w, Some t =>
          match run_events pool (request_events i (up counter w) turn) with
          | Some pool' =>
              let o := match pool' !! i with
                       | Some t' => dropZ (len (task_out t)) (task_out t')
                       | None => []
                       end in
              let '(r, client, counter') :=
                request crc (mkClient sent None (down counter o) []) counter (MessageBody_Msg msg) in
              match session up down i pool' (tc_sent client) counter' script with
              | Some (rs, pool') => Some (r :: rs, pool')
              | None => None
              end
          | None => None
          end
      | _, _ => None
      end
  end.

(** The replies answer the requests, in order. *)
Fixpoint replies_of (counter : Z) (replies : list (OpMsg * bool)) (rs : list (Header * MessageBody)) : Prop :=
  match replies, rs with
  | [], [] => True
  | (m, ck) :: replies, r :: rs => reply_of counter ck m r ∧ replies_of (as_i32 (counter + 1)) replies rs
  | _, _ => False
  end.

Lemma session_conversation up down i script : (∀ w, in_u32 (crc w)) →
  (∀ n, chunking (up n)) → (∀ n, chunking (down n)) → ∀ pool t sent counter replies ctx',
  in_i32 counter → pool !! i = Some t → idle t → conversation (task_ctx t) script replies ctx' →
  ∃ rs t', session up down i pool sent counter script = Some (Ok <$> rs, <[i := t']> pool)
    ∧ replies_of counter replies rs ∧ idle t' ∧ task_ctx t' = ctx' ∧ task_peer t' = task_peer t.
Proof.
  intros Hcrc Hup Hdown. induction script as [|[turn msg] script IH];
    intros pool t sent counter replies ctx' Hc Hi Hidle Hconv;
    inversion Hconv as [|? ? ? m ctx1 ? rest ? Ha Hf Hconv']; subst.
  { exists [], t. cbn [session]. by rewrite list_insert_id. }
  destruct (request_exchange pool i t turn counter msg m ctx1 Hcrc Hc Hi Hidle Ha Hf)
    as (w & o & r & Hw & Hrep & Hrun & Hreq).
  destruct (Hup counter w) as [Hu1 Hu2]. destruct (Hdown counter o) as [Hd1 Hd2].
  destruct (Hreq sent (down counter o) Hd1 Hd2) as (outs' & _ & Hreq').
  set (t1 := mkTask (task_peer t) (next_request_id ctx1).2 [] (task_out t ++ o) None) in *.
  assert (<[i := t1]> pool !! i = Some t1) as Hi1
    by (apply list_lookup_insert_eq; by eapply lookup_lt_Some).
  destruct (IH (<[i := t1]> pool) t1 (sent ++ w) (as_i32 (counter + 1)) rest ctx')
    as (rs & t' & Hs & Hr & Hi' & Hc' & Hp'); [apply as_i32_range|done..|].
  exists (r :: rs), t'. cbn [session]. rewrite Hw, Hi, (Hrun _ Hu1 Hu2), Hi1. cbn [task_out t1].
  rewrite dropZ_app, Hreq' by done. cbn [tc_sent]. rewrite Hs, list_insert_insert_eq. done.
Qed.
End Exchange.

(** ** From end to end *)

(** C4. Requests are answered over the wire.  A client makes requests one after
    the other on an idle connection of a running server (messages that fit the
    frame limit and do not announce more to come), the bytes being cut into
    chunks arbitrarily in both directions; if the handler, called with
    those commands in that order, returns messages that fit in frames, then each
    [TestClient::request] returns the handler's message for its command (with
    its checksum where the connection uses them), its assertion on [responseTo]
    holding; the connection is idle again, in the state the handler left, and no
    other connection has changed. *)
Theorem session_end_to_end crc build config H (hd : CommandHandler H) (handler : H) up down i script
    pool t sent counter replies ctx' :
  (∀ w, in_u32 (crc w)) → (∀ n, chunking (up n)) → (∀ n, chunking (down n)) →
  in_i32 counter → pool !! i = Some t → idle t →
  conversation config handler (task_ctx t) script replies ctx' →
  ∃ rs t', session crc build config handler up down i pool sent counter script
             = Some (Ok <$> rs, <[i := t']> pool)
    ∧ replies_of crc counter replies rs ∧ idle t' ∧ task_ctx t' = ctx' ∧ task_peer t' = task_peer t.
Proof. intros. by eapply session_conversation. Qed.

(** The legacy handshake over the wire.  [send_op_query_handshake] on a fresh
    or idle connection makes the server record the compressors both sides know,
    in its own order, and the OP_REPLY that [recv_op_reply] returns carries the
    request's id and the documented handshake, with the legacy key, announcing
    exactly those compressors. *)
Lemma legacy_handshake crc build config H (hd : CommandHandler H) (handler : H) i pool t turn sent
    counter doc name req m (cs := negotiate (cfg_compressors config) req)
    (reply := query_handshake_reply (OpMsg_document m)) :
  (∀ w, in_u32 (crc w)) → in_i32 counter → pool !! i = Some t → idle t →
  in_i32 (request_id_counter (task_ctx t)) → in_i32 (cfg_max_msg_len config) →
  transport_ok turn → env_ok (turn_env turn) →
  sendable (MessageBody_Query (OpQuery_handshake doc)) →
  frame_len (MessageBody_Query (OpQuery_handshake doc)) false
    <= Z.min (cfg_max_msg_len config) MAX_MSG_LEN →
  RawDocument_command doc = Ok name → is_hello name = true →
  requested_compressors (E := SocketError) doc = Ok req →
  handshake_reply (turn_env turn) cs (cfg_max_msg_len config) true = Ok m →
  frame_len (MessageBody_Reply reply) false <= MAX_MSG_LEN →
  RawDocument_deep (OpMsg_document m)
    = Ok (handshake_document (Bson_DateTime (as_i64 (now (turn_env turn) / 1000000))) cs
            (cfg_max_msg_len config) true)
  ∧ ∃ w o h t',
      (∀ outs, send_op_query_handshake crc (mkClient sent None outs []) counter doc
         = (Ok counter, mkClient (sent ++ w) None outs [], as_i32 (counter + 1)))
      ∧ (∀ ins, concat ins = w → Forall (λ c, c ≠ []) ins →
           run_events crc build config handler pool (request_events i ins turn) = Some (<[i := t']> pool))
      ∧ idle t' ∧ negotiated_compressors (task_ctx t') = cs ∧ task_out t' = task_out t ++ o
      ∧ response_to h = counter
      ∧ ∀ outs, concat outs = o → Forall (λ c, c ≠ []) outs → ∃ outs', concat outs' = []
          ∧ recv_op_reply crc (mkClient (sent ++ w) None outs [])
            = (Ok (h, reply), mkClient (sent ++ w) None outs' []).
Proof.
  intros Hcrc Hc Hi Hidle Hid Hmax Ht He Hq Hlen Hn Hh Hreq Hr Hfit.
  split; [by apply handshake_reply_decodes|].
  set (h := set_message_length (Header_new counter 0 Opcode_Query)
              (frame_len (MessageBody_Query (OpQuery_handshake doc)) false)).
  set (ctx := set_negotiated cs (task_ctx t)).
  assert (sendable (MessageBody_Reply reply)) as Hs.
  { apply query_reply_sendable; [|done].
    unfold handshake_reply in Hr. apply bind_Ok_inv in Hr as (lt & _ & Hr).
    apply built_Ok_inv in Hr as [-> Henc]. by apply Document_encode_doc_ok in Henc as [_ ?]. }
  destruct (send_reply crc turn ctx counter (MessageBody_Reply reply) (task_out t)) as [[r ctx'] out'] eqn:E.
  apply send_reply_frame in E as Hf; try done. cbn [is_msg] in Hf. rewrite andb_false_r in Hf.
  rewrite (proj2 (Z.leb_le _ _) Hfit) in Hf. destruct Hf as (-> & -> & o & -> & Hstr).
  assert (process_item crc build config handler turn (Ok (h, MessageBody_Query (OpQuery_handshake doc)))
    (task_ctx t) (task_out t) = (flow_Continue, (next_request_id ctx).2, task_out t ++ o)) as Hp.
  { unfold process_item. cbn [unwrap_request dispatch]. unfold answer_query.
    change (query (OpQuery_handshake doc)) with doc. rewrite Hn, Hh. cbn [negb]. rewrite Hreq. fold cs.
    rewrite Hr. unfold send_and_continue. change (request_id h) with counter. fold ctx reply. by rewrite E. }
  destruct (run_request crc build config handler pool i t turn (MessageBody_Query (OpQuery_handshake doc))
    counter _ o Hcrc Hc Hq Hlen Hi Hidle Hp) as (w & Hw & Hrun).
  match type of Hstr with stream _ _ [(?h', _)] => exists w, o, h' end.
  eexists. split_and!; [|exact Hrun|done..|].
  - intros outs. unfold send_op_query_handshake, next_id, send, write_frame. rewrite Hw. done.
  - intros outs Ho Hne. destruct (client_recv_stream crc (sent ++ w) None outs o _ Hne Ho Hstr) as (outs' & Hn' & Hrecv).
    exists outs'. split; [done|]. unfold recv_op_reply. rewrite Hrecv. done.
Qed.

(** A command message. *)
Definition command_message (body : RawDocument) : OpMsg := mkOpMsg 0 (mkSections body []) None.

Lemma command_message_fine body : doc_ok body → message_fine (command_message body).
Proof. intros Hb. split; [|done]. apply (OpMsg_new_ok 0 body []); [done|done|done|constructor]. Qed.
Lemma sasl_reply_fine id done payload m : sasl_reply id done payload = Ok m → message_fine m.
Proof.
  intros Hm. unfold sasl_reply in Hm. pose proof (built_fine (sasl_document id done payload)) as Hb.
  rewrite Hm in Hb. exact Hb.
Qed.

(** C15. Logging in over the wire.  When the store holds credentials derived from
    the client's password and the connection has no exchange in flight, the
    server's answer to the client's [saslStart] makes the client produce its
    final message, and the answer to the [saslContinue] that carries it makes
    the client accept the server; sent over an idle connection in any chunks,
    with messages that fit in frames, the two requests are answered with exactly
    these replies and the connection ends up authenticated as the client's user
    name, whatever commas and equals signs it contains. *)
Theorem wire_login crc build config c (Hc : CryptoLaws c) C (s : CredentialSource C)
    H (hd : CommandHandler H) (inner : H) (store : C)
    mech user pwd random_c slt it creds cl first cl1 body1
    up down i pool t sent counter turn1 turn2
    (handler := mkBridge inner store) (hb := ScramBridge_handler c) :
  len random_c = 18 → len (random (turn_env turn1)) = 18 → 1 <= it <= MAX_SCRAM_ITERATIONS →
  StoredCredentials_derive c mech (effective_password c mech user pwd) slt it = Ok creds →
  lookup_credentials store mech user = Some creds →
  ScramClient_new c mech user pwd random_c = Ok cl →
  client_first_message cl = (Ok first, cl1) →
  doc_ok body1 → RawDocument_command body1 = Ok (lit "saslStart") →
  parse_mechanism body1 = Ok mech → payload_str body1 = Ok first →
  (∀ w, in_u32 (crc w)) → (∀ n, chunking (up n)) → (∀ n, chunking (down n)) → in_i32 counter →
  pool !! i = Some t → idle t → scram (auth (task_ctx t)) = None →
  in_i32 (request_id_counter (task_ctx t)) →
  ∃ sfirst cl2 final cl3,
    receive_server_first c sfirst cl1 = (Ok (), cl2) ∧ client_final_message c cl2 = (Ok final, cl3)
    ∧ ∀ m1 body2, sasl_reply 1 false sfirst = Ok m1 →
      doc_ok body2 → RawDocument_command body2 = Ok (lit "saslContinue") → payload_str body2 = Ok final →
      ∃ id sfinal cl4,
        receive_server_final c sfinal cl3 = (Ok (), cl4) ∧ cl_state cl4 = ClientState_Done
        ∧ ∀ m2, sasl_reply id true sfinal = Ok m2 →
          fits config turn1 (command_message body1) m1 (task_ctx t) →
          fits config turn2 (command_message body2) m2 (task_ctx t) →
          ∃ rs t',
            session crc build config (H0 := hb) handler up down i pool sent counter
              [(turn1, command_message body1); (turn2, command_message body2)]
            = Some (Ok <$> rs, <[i := t']> pool)
            ∧ replies_of crc counter [(m1, ctx_checksum (task_ctx t)); (m2, ctx_checksum (task_ctx t))] rs
            ∧ authenticated (auth (task_ctx t')) = Some user.
Proof.
  intros Hl1 Hl2 Hit Hder Hlook Hcl Hfirst Hb1 Hn1 Hmech Hpay Hcrc Hup Hdown Hcnt Hi Hidle Hscram Hid.
  destruct (login_steps c Hc C s store mech user pwd random_c slt it creds cl first cl1 (turn_env turn1)
    (task_ctx t) body1 Hl1 Hl2 Hit Hder Hlook Hcl Hfirst Hscram Hmech Hpay)
    as (sfirst & ctx1 & cl2 & final & cl3 & E1 & Hc1 & E2 & E3 & Hcont).
  exists sfirst, cl2, final, cl3. split; [done|]. split; [done|]. intros m1 body2 Hm1 Hb2 Hn2 Hpay2.
  rewrite Hm1 in E1. cbn [bind] in E1.
  destruct (Hcont body2 (next_request_id ctx1).2 eq_refl Hpay2)
    as (id & sfinal & cl4 & ctx2 & E4 & Hc2 & Hauth & _ & E5 & Hdone).
  exists id, sfinal, cl4. split; [done|]. split; [done|]. intros m2 Hm2 (Ht1 & Hf1 & Hg1) (Ht2 & Hf2 & Hg2).
  rewrite Hm2 in E4. cbn [bind] in E4.
  destruct Hc1 as [Hctr1 Hck1]. destruct Hc2 as [Hctr2 Hck2].
  assert (conversation config (H0 := hb) handler (task_ctx t)
    [(turn1, command_message body1); (turn2, command_message body2)]
    [(m1, ctx_checksum ctx1); (m2, ctx_checksum ctx2)] (next_request_id ctx2).2) as Hconv.
  { apply (conversation_request _ _ _ _ _ _ ctx1); [|split_and!; [done..|by rewrite Hck1]|].
    - split_and!; [by apply command_message_fine|by eapply sasl_reply_fine|by rewrite Hctr1|].
      by exists (lit "saslStart").
    - apply (conversation_request _ _ _ _ _ _ ctx2); [| |constructor].
      + split_and!; [by apply command_message_fine|by eapply sasl_reply_fine| |].
        * rewrite Hctr2. apply as_i32_range.
        * by exists (lit "saslContinue").
      + split_and!; [done..|]. rewrite Hck2. cbn [next_request_id snd ctx_checksum]. by rewrite Hck1. }
  destruct (session_conversation crc build config handler up down i _ Hcrc Hup Hdown pool t sent counter _ _
    Hcnt Hi Hidle Hconv) as (rs & t' & Hs & Hrep & _ & Hctx & _).
  exists rs, t'. split; [done|]. rewrite Hck2 in Hrep. cbn [next_request_id snd ctx_checksum] in Hrep.
  rewrite Hck1 in Hrep. split; [exact Hrep|]. by rewrite Hctx.
Qed.

(** ** Examples *)

(** One byte at a time. *)
Definition bytewise (b : bytes) : list bytes := (λ x, [x]) <$> b.
Lemma bytewise_chunking : chunking bytewise.
Proof.
  intros b. split; [induction b as [|x b IH]; [done|]; cbn; by f_equal|].
  unfold bytewise. apply Forall_fmap, Forall_forall. by intros x _.
Qed.
Lemma encoded_doc_ok d : match Document_encode d with Ok _ => True | _ => False end → doc_ok (encoded d).
Proof.
  unfold encoded. destruct (Document_encode d) as [r| | |] eqn:E; try done.
  by apply Document_encode_doc_ok in E as [_ ?].
Qed.

(** Two pings on the second of two connections to the example server. *)
Definition ping_message : OpMsg := command_message (encoded [(lit "ping", Bson_Int32 1)]).
Definition pong_message : OpMsg := command_message (encoded [(lit "ok", Bson_Double f64_one)]).
Definition two_spawned : list Task := [spawn ServerConfig_default None; spawn ServerConfig_default None].
Lemma session_end_to_end_witness :
  ∃ rs t', session (λ _, 7) no_codecs ServerConfig_default (H0 := DemoHandler_handler (λ _, true))
             (mkDemo MAX_MSG_LEN) (λ _, bytewise) (λ _, bytewise) 1 two_spawned [] 5
             [(ping_turn, ping_message); (ping_turn, ping_message)]
           = Some (Ok <$> rs, <[1%nat := t']> two_spawned)
    ∧ replies_of (λ _, 7) 5 [(pong_message, true); (pong_message, true)] rs.
Proof.
  destruct (session_end_to_end (λ _, 7) no_codecs ServerConfig_default DemoHandler
    (DemoHandler_handler (λ _, true)) (mkDemo MAX_MSG_LEN) (λ _, bytewise) (λ _, bytewise) 1
    [(ping_turn, ping_message); (ping_turn, ping_message)] two_spawned (spawn ServerConfig_default None)
    [] 5 [(pong_message, true); (pong_message, true)]
    (mkConnection 2 None [] true AuthState_default)) as (rs & t' & Hs & Hr & _).
  - intros w. split; vm_compute; discriminate.
  - intros _. exact bytewise_chunking.
  - intros _. exact bytewise_chunking.
  - split; vm_compute; discriminate.
  - reflexivity.
  - split; reflexivity.
  - assert (∀ n, in_i32 n → answers (H0 := DemoHandler_handler (λ _, true)) (mkDemo MAX_MSG_LEN)
      (mkConnection n None [] true AuthState_default) ping_turn ping_message pong_message
      (mkConnection n None [] true AuthState_default)) as Ha.
    { intros n Hn. split; [apply command_message_fine, encoded_doc_ok; vm_compute; exact I|].
      split; [apply command_message_fine, encoded_doc_ok; vm_compute; exact I|]. split; [exact Hn|].
      exists (lit "ping"). split; [vm_compute; reflexivity|]. split; reflexivity. }
    assert (∀ n, fits ServerConfig_default ping_turn ping_message pong_message
      (mkConnection n None [] true AuthState_default)) as Hf
      by (intros n; split; [reflexivity|split; vm_compute; discriminate]).
    apply (conversation_request _ _ _ _ _ _ (mkConnection 0 None [] true AuthState_default));
      [apply Ha; split; vm_compute; discriminate|apply Hf|].
    apply (conversation_request _ _ _ _ _ _ (mkConnection 1 None [] true AuthState_default));
      [apply Ha; split; vm_compute; discriminate|apply Hf|constructor].
  - exists rs, t'. split; [exact Hs|exact Hr].
Defined.

Definition is_master_document : RawDocument :=
  encoded [(lit "isMaster", Bson_Int32 1); (lit "compression", Bson_Array [Bson_String (lit "zlib")])].
Definition zlib_config : ServerConfig :=
  mkServerConfig MAX_MSG_LEN true [CompressorId_Snappy; CompressorId_Zlib].
Lemma is_master_sendable : sendable (MessageBody_Query (OpQuery_handshake is_master_document)).
Proof.
  split; [|discriminate]. split; [reflexivity|]. split; [discriminate|]. split; [split; reflexivity|].
  split; [split; discriminate|]. split; [split; discriminate|]. split; [|exact I].
  apply encoded_doc_ok. vm_compute. exact I.
Qed.
Example legacy_handshake_run :
  ∃ w t', frame_bytes (λ _, 7) 5 0 (MessageBody_Query (OpQuery_handshake is_master_document)) false = Ok w
    ∧ run_events (λ _, 7) no_codecs zlib_config (H0 := DemoHandler_handler (λ _, true)) (mkDemo MAX_MSG_LEN)
        [spawn zlib_config None] (request_events 0 (bytewise w) ping_turn) = Some [t']
    ∧ negotiated_compressors (task_ctx t') = [CompressorId_Zlib].
Proof.
  set (m := match handshake_reply nine_bytes [CompressorId_Zlib] MAX_MSG_LEN true with Ok m => m | _ => ping_message end).
  destruct (legacy_handshake (λ _, 7) no_codecs zlib_config DemoHandler (DemoHandler_handler (λ _, true))
    (mkDemo MAX_MSG_LEN) 0 [spawn zlib_config None] (spawn zlib_config None) ping_turn [] 5
    is_master_document (lit "isMaster") (Some [lit "zlib"]) m) as (_ & w & o & h & t' & Hsend & Hrun & _ & Hn & _).
  - intros w. split; vm_compute; discriminate.
  - split; vm_compute; discriminate.
  - reflexivity.
  - split; reflexivity.
  - split; vm_compute; discriminate.
  - split; vm_compute; discriminate.
  - reflexivity.
  - vm_compute. discriminate.
  - exact is_master_sendable.
  - vm_compute. discriminate.
  - vm_compute. reflexivity.
  - reflexivity.
  - vm_compute. reflexivity.
  - vm_compute. reflexivity.
  - vm_compute. discriminate.
  - exists w, t'. specialize (Hsend []). unfold send_op_query_handshake, next_id, send, write_frame in Hsend.
    destruct (frame_bytes _ _ _ _ _) as [w'| | |]; try discriminate Hsend.
    cbn in Hsend. injection Hsend as ->. split; [reflexivity|]. split; [|exact Hn].
    destruct (bytewise_chunking w) as [H1 H2]. exact (Hrun _ H1 H2).
Qed.

(** A login on the toy cryptography, over a socket that delivers byte by byte. *)
Definition start_body : RawDocument := encoded (sasl_start_document ScramMechanism_Sha256 demo_first).
Definition continue_body : RawDocument := encoded (sasl_continue_document demo_final).
Definition login_turn : Turn := mkTurn demo_env None.
Example wire_login_run :
  match session (λ _, 7) no_codecs ServerConfig_default
          (H0 := @ScramBridge_handler toy_crypto _ _ no_handler MemoryCredentialSource_source) demo_bridge
          (λ _, bytewise) (λ _, bytewise) 0 [spawn ServerConfig_default None] [] 1
          [(login_turn, command_message start_body); (login_turn, command_message continue_body)] with
  | Some ([Ok _; Ok _], [t]) => authenticated (auth (task_ctx t))
  | _ => None
  end = Some (lit "a,b").
Proof. vm_compute. reflexivity. Qed.

Lemma wire_login_witness :
  ∃ sfirst cl2 final cl3,
    receive_server_first toy_crypto sfirst (client_first_message demo_client).2 = (Ok (), cl2)
    ∧ client_final_message toy_crypto cl2 = (Ok final, cl3).
Proof.
  destruct (lookup_credentials demo_store ScramMechanism_Sha256 (lit "a,b")) as [creds|] eqn:El;
    [|vm_compute in El; discriminate El].
  destruct (wire_login (λ _, 7) no_codecs ServerConfig_default toy_crypto toy_laws
    MemoryCredentialSource MemoryCredentialSource_source () no_handler () demo_store ScramMechanism_Sha256
    (lit "a,b") (lit "pw") (replicate 18 x00) (of_u8 <$> seqZ 0 16) 15000 creds demo_client demo_first
    (client_first_message demo_client).2 start_body (λ _, bytewise) (λ _, bytewise) 0
    [spawn ServerConfig_default None] (spawn ServerConfig_default None) [] 1 login_turn login_turn)
    as (sfirst & cl2 & final & cl3 & H1 & H2 & _).
  - reflexivity.
  - reflexivity.
  - unfold MAX_SCRAM_ITERATIONS. lia.
  - vm_compute in El. injection El as <-. vm_compute. reflexivity.
  - exact El.
  - reflexivity.
  - vm_compute. reflexivity.
  - apply encoded_doc_ok. vm_compute. exact I.
  - vm_compute. reflexivity.
  - vm_compute. reflexivity.
  - vm_compute. reflexivity.
  - intros w. split; vm_compute; discriminate.
  - intros _. exact bytewise_chunking.
  - intros _. exact bytewise_chunking.
  - split; vm_compute; discriminate.
  - reflexivity.
  - split; reflexivity.
  - reflexivity.
  - split; vm_compute; discriminate.
  - exists sfirst, cl2, final, cl3. split; [exact H1|exact H2].
Defined.
