(* ===== verification/Main.v ===== *)
(** * The example's [main]: [examples/mongowire-server/src/main.rs]

    The command line, the exits and the hand-over to [serve].  Binding a
    listener is the operating system's: its outcome is an argument. *)
From stdpp Require Import base list numbers strings.
From Stdlib Require Import ZArith Lia.
From S2P Require Import Prelude Utf8 Io Consts BsonScalar BsonValue Convert BsonEncode.
From S2P Require Import BsonDecode BsonRoundtrip Header Message OpMsg OpLegacy OpCompressed Framing.
From S2P Require Import StrOps Auth Scram Api SaslBridge Server ServerCorrect Demo.
Local Open Scope Z_scope.

(** What the process does: it exits with a code and a line on standard error, or
    prints a line and serves. *)
Inductive Process :=
| Exits (code : Z) (stderr : str)
| Serves (stdout : str) (config : ServerConfig) (handler : DemoHandler).

Definition usage : Process :=
  Exits 2 (lit "usage: mongowire-server [--bind <ip:port>] [--no-checksum]").

(** [listen bind] is what [TcpListener::bind] reports: the text of an error, or
    success. *)
Definition main (args : list str) (listen : str → option str) : Process :=
  match main_config args with
  | None => usage
  | Some (bind, config) =>
      match listen bind with
      | Some e => Exits 1 (lit "mongowire-server: cannot bind " ++ bind ++ lit ": " ++ e)
      | None => Serves (lit "listening on " ++ bind) config (mkDemo (cfg_max_msg_len config))
      end
  end.

(** ** The command line as a list of options *)

Inductive Opt := Opt_bind (addr : str) | Opt_no_checksum.
Definition opt_args (o : Opt) : list str :=
  match o with Opt_bind addr => [lit "--bind"; addr] | Opt_no_checksum => [lit "--no-checksum"] end.
Definition opts_args (opts : list Opt) : list str := opts ≫= opt_args.
Definition opt_addr (o : Opt) : option str := match o with Opt_bind addr => Some addr | _ => None end.
(** The last address given, or the default; checksums unless they are turned off. *)
Definition opts_bind (opts : list Opt) : str := default (lit "127.0.0.1:27017") (last (omap opt_addr opts)).
Definition opts_checksum (opts : list Opt) : bool :=
  negb (existsb (λ o, match o with Opt_no_checksum => true | _ => false end) opts).

Lemma parse_args_loop_opts opts bind ck :
  parse_args_loop (opts_args opts) bind ck
  = Some (default bind (last (omap opt_addr opts)), ck && opts_checksum opts).
Proof.
  revert bind ck. induction opts as [|o opts IH]; intros bind ck; [by rewrite andb_true_r|].
  destruct o as [addr|].
  - change (opts_args (Opt_bind addr :: opts)) with (lit "--bind" :: addr :: opts_args opts).
    change (parse_args_loop (lit "--bind" :: addr :: opts_args opts) bind ck)
      with (parse_args_loop (opts_args opts) addr ck).
    rewrite IH. f_equal. f_equal. cbn [omap list_omap opt_addr]. rewrite last_cons.
    by destruct (last (omap opt_addr opts)).
  - change (parse_args_loop (opts_args (Opt_no_checksum :: opts)) bind ck)
      with (parse_args_loop (opts_args opts) bind false).
    rewrite IH. cbn. by rewrite andb_false_r.
Qed.
Lemma parse_args_loop_Some args : ∀ bind ck r, parse_args_loop args bind ck = Some r →
  ∃ opts, args = opts_args opts.
Proof.
  induction args as [args IH] using (well_founded_induction (well_founded_ltof _ (@length str))).
  intros bind ck r Hp. destruct args as [|arg args]; [by exists []|]. cbn [parse_args_loop] in Hp.
  unfold str_eqb in Hp. case_bool_decide as Hb.
  - destruct args as [|value args]; [done|].
    destruct (IH args) with (2 := Hp) as [opts ->]; [unfold ltof; simpl; lia|].
    exists (Opt_bind value :: opts). by rewrite Hb.
  - case_bool_decide as Hn; [|done]. destruct (IH args) with (2 := Hp) as [opts ->]; [unfold ltof; simpl; lia|].
    exists (Opt_no_checksum :: opts). by rewrite Hn.
Qed.

(** The example's command line.  [main] prints the usage and exits with 2
    exactly when the arguments are not a sequence of the two options.  Otherwise
    the last [--bind] (or the default address) is the address it binds, checksums
    are on unless [--no-checksum] is given, a failure to bind exits with 1 and
    names the address, and otherwise it serves with the default limits, the
    handler advertising the limit the codec enforces. *)
Lemma main_outcome args listen :
  (main args listen = usage ↔ ¬ ∃ opts, args = opts_args opts)
  ∧ ∀ opts, args = opts_args opts →
      main args listen =
        match listen (opts_bind opts) with
        | Some e => Exits 1 (lit "mongowire-server: cannot bind " ++ opts_bind opts ++ lit ": " ++ e)
        | None => Serves (lit "listening on " ++ opts_bind opts)
                    (mkServerConfig MAX_MSG_LEN (opts_checksum opts) []) (mkDemo MAX_MSG_LEN)
        end.
Proof.
  assert (∀ opts, args = opts_args opts →
      main args listen =
        match listen (opts_bind opts) with
        | Some e => Exits 1 (lit "mongowire-server: cannot bind " ++ opts_bind opts ++ lit ": " ++ e)
        | None => Serves (lit "listening on " ++ opts_bind opts)
                    (mkServerConfig MAX_MSG_LEN (opts_checksum opts) []) (mkDemo MAX_MSG_LEN)
        end) as Hok.
  { intros opts ->. unfold main, main_config, parse_args. rewrite parse_args_loop_opts.
    rewrite andb_true_l. by destruct (listen _). }
  split; [|done]. split.
  - intros Hu (opts & Ho). rewrite (Hok opts Ho) in Hu. by destruct (listen _).
  - intros Hn. unfold main, main_config. destruct (parse_args args) as [[bind ck]|] eqn:E; [|done].
    apply parse_args_loop_Some in E. by destruct Hn.
Qed.

Example main_run :
  main [lit "--bind"; lit "[::1]:1"; lit "--no-checksum"; lit "--bind"; lit "[::1]:2"] (λ _, None)
  = Serves (lit "listening on [::1]:2") (mkServerConfig MAX_MSG_LEN false []) (mkDemo MAX_MSG_LEN).
Proof.
  exact (proj2 (main_outcome _ (λ _, None))
           [Opt_bind (lit "[::1]:1"); Opt_no_checksum; Opt_bind (lit "[::1]:2")] eq_refl).
Defined.
