(* ===== verification/TestsMessages.v ===== *)
(** * The unit tests of the message codecs, replayed

    The tests of [error.rs], [messages/header.rs], [messages/op_msg.rs],
    [messages/op_query.rs], [messages/op_reply.rs] and
    [messages/op_compressed.rs] of the mongowire crate, in the source's order.
    The assertions on addresses (that a parsed document is a view of the body)
    have no counterpart: a document of the model is its bytes. *)
From stdpp Require Import base list numbers strings.
From Stdlib Require Import ZArith Lia.
From S2P Require Import Prelude Utf8 StrOps Io Consts BsonScalar F64 BsonValue BsonEncode BsonDecode Fuzz.
From S2P Require Import Header OpMsg OpLegacy OpCompressed Message Framing Compressors TestKit.
Local Open Scope Z_scope.

#[export] Instance IoError_eq_dec : EqDecision IoError.
Proof. solve_decision. Defined.
#[export] Instance ProtocolError_eq_dec : EqDecision ProtocolError.
Proof. solve_decision. Defined.
#[export] Instance Header_eq_dec : EqDecision Header.
Proof. solve_decision. Defined.
#[export] Instance DocumentSequence_eq_dec : EqDecision DocumentSequence.
Proof. solve_decision. Defined.
#[export] Instance Sections_eq_dec : EqDecision Sections.
Proof. solve_decision. Defined.
#[export] Instance OpMsg_eq_dec : EqDecision OpMsg.
Proof. solve_decision. Defined.
#[export] Instance OpQuery_eq_dec : EqDecision OpQuery.
Proof. solve_decision. Defined.
#[export] Instance OpReply_eq_dec : EqDecision OpReply.
Proof. solve_decision. Defined.
#[export] Instance OpCompressed_eq_dec : EqDecision OpCompressed.
Proof. solve_decision. Defined.
#[export] Instance MessageBody_eq_dec : EqDecision MessageBody.
Proof. solve_decision. Defined.

(** [assert!(matches!(m, Err(e)))] for an exact error, and for a variant. *)
Definition fails_with {E A} `{PartialEq E} (m : outcome E A) (e : E) : test := assert_err_if (eqb e) m.
Definition is_InvalidHeader (e : ProtocolError) : bool :=
  match e with ProtocolError_InvalidHeader _ => true | _ => false end.
Definition is_MessageTooLarge (e : ProtocolError) : bool :=
  match e with ProtocolError_MessageTooLarge _ _ => true | _ => false end.

(** Parsing every proper prefix returns, with success exactly where [ok] says. *)
Definition prefixes_parse {A} (parse : bytes → outcome ProtocolError A) (ok : Z → bool) (body : bytes)
  : test :=
  for_each (λ n,
    match parse (takeZ n body) with
    | Ok _ => assert (ok n)
    | Err _ => assert (negb (ok n))
    | Panic => Panic
    | Fuel => Fuel
    end) (seqZ 0 (len body)).
Definition text (s : string) : Bson := Bson_String (lit s).
Definition raw (pairs : list (string * Bson)) : outcome Empty_set RawDocument :=
  unwrap (Document_encode (Document_from_iter lit id pairs)).

(** ** [messages/header.rs] *)

Definition header_bytes (message_length request_id response_to op_code : Z) : bytes :=
  le_encode 4 message_length ++ le_encode 4 request_id ++ le_encode 4 response_to ++ le_encode 4 op_code.
Definition test_parse_happy_path : test :=
  let* h := unwrap (Header_parse (header_bytes 372 1 0 OP_QUERY) (Z.shiftl 1 20)) in
  assert_eq (message_length h) 372 ;;
  assert_eq (request_id h) 1 ;;
  assert_eq (response_to h) 0 ;;
  assert_eq (op_code h) Opcode_Query.
Definition test_parse_short_buffer : test :=
  for_each (λ n,
    assert_err_if is_InvalidHeader (Header_parse (takeZ n (header_bytes 372 1 0 OP_QUERY)) MAX_MSG_LEN))
    (seqZ 0 MSG_HEADER_LEN).
Definition test_parse_length_below_header_size : test :=
  for_each (λ length,
    fails_with (Header_parse (header_bytes length 1 0 OP_QUERY) MAX_MSG_LEN)
      (ProtocolError_InvalidHeader "length below header size")) [0; 1; 15] ;;
  assert_err_if is_InvalidHeader (Header_parse (header_bytes (-1) 1 0 OP_QUERY) MAX_MSG_LEN).
Definition test_parse_length_above_max : test :=
  fails_with (Header_parse (header_bytes 2000 1 0 OP_QUERY) 1000) (ProtocolError_MessageTooLarge 2000 1000) ;;
  assert_err_if is_MessageTooLarge (Header_parse (header_bytes (MAX_MSG_LEN + 1) 1 0 OP_QUERY) MAX_MSG_LEN).
Definition test_parse_unknown_opcode : test :=
  fails_with (Header_parse (header_bytes 16 1 0 42) MAX_MSG_LEN) (ProtocolError_UnsupportedOpcode 42).
Definition opcodes : list Opcode :=
  [Opcode_Reply; Opcode_Update; Opcode_Insert; Opcode_Reserved; Opcode_Query; Opcode_GetMore;
   Opcode_Delete; Opcode_KillCursors; Opcode_Compressed; Opcode_Msg].
Definition test_encode_parse_roundtrip : test :=
  for_each (λ op,
    let header := mkHeader MSG_HEADER_LEN 7 9 op in
    let out := Header_encode header [] in
    assert_eq (len out) MSG_HEADER_LEN ;;
    let* parsed := unwrap (Header_parse out MAX_MSG_LEN) in
    assert_eq parsed header) opcodes.
Definition test_opcode_wire_values : test :=
  for_each (λ op, assert_eq (Opcode_from_i32 (Opcode_to_i32 op)) (Some op)) opcodes ;;
  assert_eq (Opcode_from_i32 42) None ;;
  assert_eq (Opcode_from_i32 0) None ;;
  assert_eq (Opcode_from_i32 OP_RESERVED) (Some Opcode_Reserved).

(** ** [messages/op_msg.rs] *)

Definition encoded_msg (msg : OpMsg) : outcome Empty_set bytes := unwrap (OpMsg_encode_body msg []).
Definition body_bytes (fl : Z) (body : RawDocument) (id : string) (docs : list RawDocument)
  : outcome Empty_set bytes :=
  let* msg := unwrap (OpMsg_new (from_bits_truncate MsgFlags_all fl) body [mkSequence (lit id) docs]) in
  encoded_msg msg.
Definition empty_flags : MsgFlags := 0.
Definition invalid_op_msg (reason : string) : ProtocolError := ProtocolError_InvalidOpMsg reason.

Definition test_roundtrip_single_section : test :=
  let* hello := raw [("hello", text "world")]%string in
  let* msg := unwrap (OpMsg_new MORE_TO_COME hello []) in
  let* body := encoded_msg msg in
  assert_eq (OpMsg_body_len msg) (len body) ;;
  let* parsed := unwrap (OpMsg_parse_body body) in
  assert_eq parsed msg ;;
  assert_eq (OpMsg_document parsed) hello.
Definition test_roundtrip_multi_section : test :=
  let* body := raw [("insert", text "actor"); ("$db", text "monila")]%string in
  let* n1 := raw [("name", text "n1")]%string in
  let* n2 := raw [("name", text "n2")]%string in
  let* msg := unwrap (OpMsg_new empty_flags body [mkSequence (lit "documents") [n1; n2]]) in
  let expected_len :=
    4 + 1 + len (sec_body (sections msg)) + 1 + 4 + len (lit "documents") + 1
    + 2 * (4 + 1 + len (lit "name") + 1 + 4 + 3 + 1) in
  assert_eq (OpMsg_body_len msg) expected_len ;;
  let* b := encoded_msg msg in
  assert_eq (OpMsg_body_len msg) (len b) ;;
  let* parsed := unwrap (OpMsg_parse_body b) in
  assert_eq parsed msg.
Definition test_zero_document_sequence_is_allowed : test :=
  let* body := raw [("insert", text "c")]%string in
  let* msg := unwrap (OpMsg_new empty_flags body [mkSequence (lit "documents") []]) in
  let* b := encoded_msg msg in
  let* parsed := unwrap (OpMsg_parse_body b) in
  assert_eq parsed msg ;;
  let* seq := unwrap_some (head (sequences (sections parsed))) in
  assert_eq (documents seq) [].
Definition test_msg_truncation : test :=
  let* body := raw [("insert", text "actor")]%string in
  let* a := raw [("a", Bson_Int32 1)]%string in
  let* b := raw [("b", Bson_Int32 2)]%string in
  let* msg := unwrap (OpMsg_new empty_flags body [mkSequence (lit "documents") [a; b]]) in
  let* body := encoded_msg msg in
  let kind0_end := 4 + 1 + len (sec_body (sections msg)) in
  prefixes_parse OpMsg_parse_body (λ n, n =? kind0_end) body ;;
  assert_ok (OpMsg_parse_body body).
Definition test_parse_rejects_two_kind0_sections : test :=
  let* doc := raw [("hello", Bson_Int32 1)]%string in
  let buf := put_u32_le [] 0 in
  let buf := put_bytes (put_u8 buf 0) doc in
  let buf := put_bytes (put_u8 buf 0) doc in
  fails_with (OpMsg_parse_body buf) (invalid_op_msg "multiple kind 0 sections").
Definition test_parse_rejects_kind0_after_kind1 : test :=
  let* doc := raw [("hello", Bson_Int32 1)]%string in
  let buf := put_u32_le [] 0 in
  let buf := put_u8 buf 1 in
  let buf := put_u32_le buf (4 + len (lit "documents") + 1 + len doc) in
  let buf := put_u8 (put_bytes buf (lit "documents")) 0 in
  let buf := put_bytes buf doc in
  let buf := put_bytes (put_u8 buf 0) doc in
  fails_with (OpMsg_parse_body buf) (invalid_op_msg "kind 0 section must be the first section").
Definition test_parse_rejects_unknown_section_kinds : test :=
  for_each (λ kind,
    let* doc := raw [("hello", Bson_Int32 1)]%string in
    let buf := put_bytes (put_u8 (put_u32_le [] 0) kind) doc in
    fails_with (OpMsg_parse_body buf) (invalid_op_msg "unknown section kind")) [2; 3; 7; 255].
Definition test_parse_rejects_empty_identifier : test :=
  let* doc := raw [("hello", Bson_Int32 1)]%string in
  let buf := put_u32_le [] 0 in
  let buf := put_bytes (put_u8 buf 0) doc in
  let buf := put_u8 buf 1 in
  let buf := put_u32_le buf (4 + 1 + 5) in
  let buf := put_u8 buf 0 in
  let buf := put_bytes buf (bs [5; 0; 0; 0; 0]) in
  fails_with (OpMsg_parse_body buf) (invalid_op_msg "kind 1 section has no identifier").
Definition test_sections_new_rejects_empty_and_nul_identifiers : test :=
  let* doc := raw [("hello", Bson_Int32 1)]%string in
  fails_with (Sections_new doc [mkSequence [] []]) (invalid_op_msg "kind 1 section has no identifier") ;;
  fails_with (Sections_new doc [mkSequence (lit "a" ++ nul ++ lit "b") []])
    (invalid_op_msg "kind 1 identifier contains NUL").
Definition test_identifier_must_not_duplicate_a_body_field : test :=
  let* body := raw [("insert", text "actor"); ("documents", Bson_Null)]%string in
  let* a := raw [("a", Bson_Int32 1)]%string in
  fails_with (Sections_new body [mkSequence (lit "documents") [a]])
    (invalid_op_msg "kind 1 identifier duplicates a body field").
Definition test_parse_rejects_truncated_and_overrun_sections : test :=
  let* doc := raw [("hello", Bson_Int32 1)]%string in
  let* good := body_bytes 0 doc "documents" [doc] in
  let kind0_end := 4 + 1 + len doc in
  prefixes_parse OpMsg_parse_body (λ n, n =? kind0_end) good ;;
  let start := put_u8 (put_bytes (put_u8 (put_u32_le [] 0) 0) doc) 1 in
  let buf := put_u32_le start (4 + len (lit "documents") + 1 + 1024) in
  let buf := put_u8 (put_bytes buf (lit "documents")) 0 in
  let buf := put_bytes buf doc in
  fails_with (OpMsg_parse_body buf) (invalid_op_msg "section exceeds the message") ;;
  let buf := put_u32_le start (4 + len (lit "documents") + 1 + 8) in
  let buf := put_u8 (put_bytes buf (lit "documents")) 0 in
  let buf := put_u32_le buf 19 in
  let buf := put_bytes buf (replicate 8 x00) in
  fails_with (OpMsg_parse_body buf) (invalid_op_msg "invalid document length").
Definition test_body_too_short_errors : test :=
  for_each (λ n,
    fails_with (OpMsg_parse_body (replicate n x00)) (invalid_op_msg "body too short for OP_MSG"))
    (seq 0 6).
Definition test_flags_parse_rejects_unknown_required_bits : test :=
  for_each (λ bits, fails_with (MsgFlags_parse bits) (invalid_op_msg "unknown required flag bits"))
    [Z.shiftl 1 15; 808464432; Z.lor MORE_TO_COME (Z.shiftl 1 4)].
Definition test_flags_parse_clears_unknown_optional_bits : test :=
  let* f := unwrap (MsgFlags_parse (Z.shiftl 1 17)) in
  assert_eq f empty_flags ;;
  let* f := unwrap (MsgFlags_parse (Z.lor EXHAUST_ALLOWED (Z.shiftl 1 17))) in
  assert_eq f EXHAUST_ALLOWED.
Definition test_more_to_come_roundtrip : test :=
  let* ping := raw [("ping", Bson_Int32 1)]%string in
  let* msg := unwrap (OpMsg_new MORE_TO_COME ping []) in
  let* body := encoded_msg msg in
  let* parsed := unwrap (OpMsg_parse_body body) in
  assert_eq (flags parsed) MORE_TO_COME ;;
  assert_eq parsed msg.
Definition test_new_strips_checksum_flag : test :=
  let* ping := raw [("ping", Bson_Int32 1)]%string in
  let* msg := unwrap (OpMsg_new (Z.lor CHECKSUM_PRESENT MORE_TO_COME) ping []) in
  assert_eq (flags msg) MORE_TO_COME ;;
  assert_eq (checksum msg) None.
Definition test_checksum_roundtrip_and_body_len : test :=
  let* doc := raw [("hello", Bson_Int32 1)]%string in
  let buf := put_u32_le [] CHECKSUM_PRESENT in
  let buf := put_bytes (put_u8 buf 0) doc in
  let body := put_u32_le buf 3735928559 in
  let* parsed := unwrap (OpMsg_parse_body body) in
  assert_eq (flags parsed) CHECKSUM_PRESENT ;;
  assert_eq (checksum parsed) (Some 3735928559) ;;
  assert_eq (OpMsg_body_len parsed) (len body) ;;
  let* re_encoded := encoded_msg parsed in
  assert_eq (OpMsg_body_len parsed) (len re_encoded) ;;
  assert_eq re_encoded body ;;
  let* again := unwrap (OpMsg_parse_body re_encoded) in
  assert_eq again parsed.
Definition test_sections_fill_the_body_exactly : test :=
  let* body := raw [("insert", text "actor")]%string in
  let* a := raw [("a", Bson_Int32 1)]%string in
  let* msg := unwrap (OpMsg_new empty_flags body [mkSequence (lit "documents") [a]]) in
  assert_eq (OpMsg_body_len msg) (4 + Sections_size (sections msg)) ;;
  let* b := encoded_msg msg in
  let* parsed := unwrap (OpMsg_parse_body b) in
  assert_eq parsed msg.
Definition test_short_checksummed_bodies_error : test :=
  for_each (λ body_len, assert_err (OpMsg_parse_body (bs [1; 0; 0; 0] ++ replicate (body_len - 4) (of_u8 171))))
    (seq 5 5).
Definition test_non_utf8_section_identifier_is_rejected : test :=
  let* body_doc := raw [("insert", text "actor")]%string in
  let* x := raw [("x", Bson_Int32 1)]%string in
  let body := put_u8 (put_bytes (put_u8 (put_u32_le [] 0) 0) body_doc) 1 in
  let size_at := len body in
  let body := put_u32_le body 0 in
  let body := body ++ lit "doc" ++ bs [255] in
  let body := body ++ x in
  let sec_size := len body - size_at in
  let* body := unwrap (copy_at body size_at (le_encode 4 sec_size)) in
  fails_with (OpMsg_parse_body body) (invalid_op_msg "invalid UTF-8 in section identifier").
Definition test_non_utf8_op_query_collection_name_is_rejected : test :=
  let* x := raw [("x", Bson_Int32 1)]%string in
  let body := put_i32_le [] 0 in
  let body := body ++ lit "db." ++ bs [255] ++ lit "coll" ++ nul in
  let body := put_i32_le (put_i32_le body 0) 0 in
  fails_with (OpQuery_parse_body (put_bytes body x))
    (ProtocolError_InvalidBody "invalid UTF-8 in fullCollectionName").

Definition tests_op_msg : list test :=
  [test_parse_happy_path; test_parse_short_buffer; test_parse_length_below_header_size;
   test_parse_length_above_max; test_parse_unknown_opcode; test_encode_parse_roundtrip;
   test_opcode_wire_values;
   test_roundtrip_single_section; test_roundtrip_multi_section; test_zero_document_sequence_is_allowed;
   test_msg_truncation; test_parse_rejects_two_kind0_sections; test_parse_rejects_kind0_after_kind1;
   test_parse_rejects_unknown_section_kinds; test_parse_rejects_empty_identifier;
   test_sections_new_rejects_empty_and_nul_identifiers;
   test_identifier_must_not_duplicate_a_body_field;
   test_parse_rejects_truncated_and_overrun_sections; test_body_too_short_errors;
   test_flags_parse_rejects_unknown_required_bits; test_flags_parse_clears_unknown_optional_bits;
   test_more_to_come_roundtrip; test_new_strips_checksum_flag; test_checksum_roundtrip_and_body_len;
   test_sections_fill_the_body_exactly; test_short_checksummed_bodies_error;
   test_non_utf8_section_identifier_is_rejected; test_non_utf8_op_query_collection_name_is_rejected].
Lemma tests_op_msg_pass : Forall passes tests_op_msg.
Proof. repeat (constructor; [vm_compute; reflexivity|]). constructor. Qed.

(** ** [messages/op_query.rs] *)

Definition encoded_query (q : OpQuery) : outcome Empty_set bytes := unwrap (OpQuery_encode_body q []).
Definition with_flags (q : OpQuery) (fl : QueryFlags) : OpQuery :=
  mkOpQuery fl (full_collection_name q) (number_to_skip q) (number_to_return q) (query q)
    (return_fields_selector q).
Definition with_selector (q : OpQuery) (selector : option RawDocument) : OpQuery :=
  mkOpQuery (query_flags q) (full_collection_name q) (number_to_skip q) (number_to_return q) (query q)
    selector.
Definition invalid_body (reason : string) : ProtocolError := ProtocolError_InvalidBody reason.
Definition is_master : outcome Empty_set RawDocument := raw [("isMaster", Bson_Int32 1)]%string.
(** The body has the announced length and parses back. *)
Definition query_roundtrips (q : OpQuery) : test :=
  let* body := encoded_query q in
  assert_eq (OpQuery_body_len q) (len body) ;;
  let* parsed := unwrap (OpQuery_parse_body body) in
  assert_eq parsed q.

Definition test_roundtrip_query_only : test :=
  let* query := raw [("isMaster", Bson_Bool true); ("$db", text "admin")]%string in
  query_roundtrips (mkOpQuery (Z.lor SLAVE_OK EXHAUST) (lit "admin.$cmd") 0 (-1) query None).
Definition test_roundtrip_with_selector : test :=
  let* query := raw [("find", text "coll"); ("limit", Bson_Int32 10)]%string in
  let* selector := raw [("_id", Bson_Int32 1); ("name", Bson_Int32 1)]%string in
  query_roundtrips (mkOpQuery 0 (lit "db.coll") 3 10 query (Some selector)).
Definition test_flags_roundtrip_and_truncation : test :=
  let* doc := is_master in
  let* body := encoded_query (with_flags (OpQuery_handshake doc) QueryFlags_all) in
  let* parsed := unwrap (OpQuery_parse_body body) in
  assert_eq (query_flags parsed) QueryFlags_all ;;
  let buf := put_i32_le [] (Z.lor SLAVE_OK 1073741824) in
  let* buf := unwrap (put_cstring buf (lit "admin.$cmd")) in
  let buf := put_i32_le (put_i32_le buf 0) (-1) in
  let* parsed := unwrap (OpQuery_parse_body (put_bytes buf doc)) in
  assert_eq (query_flags parsed) SLAVE_OK.
Definition test_parse_rejects_empty_collection_name : test :=
  let* doc := is_master in
  let buf := put_u8 (put_i32_le [] 0) 0 in
  let buf := put_i32_le (put_i32_le buf 0) (-1) in
  fails_with (OpQuery_parse_body (put_bytes buf doc)) (invalid_body "empty fullCollectionName").
Definition test_parse_rejects_trailing_garbage : test :=
  let* doc := is_master in
  let* body := encoded_query (OpQuery_handshake doc) in
  assert_err_if
    (λ e, match e with ProtocolError_InvalidBody _ | ProtocolError_Bson _ => true | _ => false end)
    (OpQuery_parse_body (body ++ [x00])).
Definition test_query_truncation : test :=
  let* doc := is_master in
  let plain := OpQuery_handshake doc in
  let* body := encoded_query plain in
  prefixes_parse OpQuery_parse_body (λ _, false) body ;;
  assert_ok (OpQuery_parse_body body) ;;
  let* selector := raw [("_id", Bson_Int32 1)]%string in
  let* body := encoded_query (with_selector plain (Some selector)) in
  let sel_len := len selector in
  let ok_at := filter (λ n, is_ok (OpQuery_parse_body (takeZ n body)) = true) (seqZ 0 (len body)) in
  assert_eq ok_at [len body - sel_len].
(** The parsed query is the slice of the body at its offset. *)
Definition test_query_is_a_view_of_the_body : test :=
  let* doc := is_master in
  let* body := encoded_query (OpQuery_handshake doc) in
  let* parsed := unwrap (OpQuery_parse_body body) in
  let query_offset := 4 + len (lit "admin.$cmd") + 1 + 8 in
  assert_eq (query parsed) (dropZ query_offset body).
Definition test_trailing_bytes_after_selector_are_rejected : test :=
  let* doc := is_master in
  let* selector := raw [("_id", Bson_Int32 1)]%string in
  let* body := encoded_query (with_selector (OpQuery_handshake doc) (Some selector)) in
  fails_with (OpQuery_parse_body (body ++ bs [5; 0; 0; 0; 0]))
    (invalid_body "trailing bytes after returnFieldsSelector").

(** ** [messages/op_reply.rs] *)

Definition encoded_reply (r : OpReply) : outcome Empty_set bytes := unwrap (OpReply_encode_body r []).
Definition reply (documents : list RawDocument) : OpReply :=
  mkOpReply AWAIT_CAPABLE 0 0 (as_i32 (len documents)) documents.
Definition f64_1 : f64 := 4607182418800017408.
Definition f64_minus_half : f64 := 13826050856027422720.
Definition ok_1 : outcome Empty_set RawDocument := raw [("ok", Bson_Double f64_1)]%string.
(** A reply body with the given flags and count, before its documents. *)
Definition reply_start (fl number_returned : Z) : bytes :=
  put_i32_le (put_i32_le (put_i64_le (put_i32_le [] fl) 0) 0) number_returned.

Definition test_roundtrip_no_documents : test :=
  let r := reply [] in
  assert_eq (number_returned r) 0 ;;
  assert_eq (OpReply_body_len r) 20 ;;
  let* body := encoded_reply r in
  let* parsed := unwrap (OpReply_parse_body body) in
  assert_eq parsed r.
Definition test_roundtrip_multiple_documents : test :=
  let* a := ok_1 in
  let* b := raw [("ok", Bson_Double 0); ("errmsg", text "boom")]%string in
  let* c := raw [("value", Bson_Int32 (-42))]%string in
  let r := reply [a; b; c] in
  assert_eq (number_returned r) 3 ;;
  assert_eq (OpReply_body_len r) (20 + 17 + 34 + 16) ;;
  let* body := encoded_reply r in
  let* parsed := unwrap (OpReply_parse_body body) in
  assert_eq parsed r.
Definition test_roundtrip_extreme_scalars_and_flags : test :=
  let* d := raw [("d", Bson_Double f64_minus_half)]%string in
  let r := mkOpReply ReplyFlags_all i64_min i32_max 1 [d] in
  let* body := encoded_reply r in
  let* parsed := unwrap (OpReply_parse_body body) in
  assert_eq parsed r.
Definition test_parse_rejects_number_returned_mismatch : test :=
  let* doc := ok_1 in
  fails_with (OpReply_parse_body (put_bytes (reply_start 0 2) doc)) (invalid_body "truncated document") ;;
  fails_with (OpReply_parse_body (reply_start 0 1)) (invalid_body "numberReturned exceeds the body size") ;;
  fails_with (OpReply_parse_body (put_bytes (put_bytes (reply_start 0 1) doc) doc))
    (invalid_body "trailing bytes after the documents").
Definition test_parse_rejects_negative_number_returned : test :=
  fails_with (OpReply_parse_body (reply_start 0 (-1))) (invalid_body "negative numberReturned").
Definition test_parse_rejects_oversized_number_returned : test :=
  fails_with (OpReply_parse_body (reply_start 0 i32_max))
    (invalid_body "numberReturned exceeds the body size").
Definition test_parse_rejects_trailing_bytes : test :=
  let* doc := ok_1 in
  let* body := encoded_reply (reply [doc]) in
  fails_with (OpReply_parse_body (body ++ [x00])) (invalid_body "trailing bytes after the documents").
Definition test_reply_truncation : test :=
  let* a := ok_1 in
  let* b := raw [("value", Bson_Int32 7)]%string in
  let* body := encoded_reply (reply [a; b]) in
  prefixes_parse OpReply_parse_body (λ _, false) body ;;
  assert_ok (OpReply_parse_body body).
Definition test_unknown_flag_bits_are_truncated : test :=
  let* parsed := unwrap (OpReply_parse_body (reply_start (as_i32 (Z.lor ReplyFlags_all (2 ^ 31))) 0)) in
  assert_eq (response_flags parsed) ReplyFlags_all ;;
  assert_eq (number_returned parsed) 0 ;;
  assert_eq (reply_documents parsed) [].

Definition tests_legacy : list test :=
  [test_roundtrip_query_only; test_roundtrip_with_selector; test_flags_roundtrip_and_truncation;
   test_parse_rejects_empty_collection_name; test_parse_rejects_trailing_garbage; test_query_truncation;
   test_query_is_a_view_of_the_body; test_trailing_bytes_after_selector_are_rejected;
   test_roundtrip_no_documents; test_roundtrip_multiple_documents;
   test_roundtrip_extreme_scalars_and_flags; test_parse_rejects_number_returned_mismatch;
   test_parse_rejects_negative_number_returned; test_parse_rejects_oversized_number_returned;
   test_parse_rejects_trailing_bytes; test_reply_truncation; test_unknown_flag_bits_are_truncated].
Lemma tests_legacy_pass : Forall passes tests_legacy.
Proof. repeat (constructor; [vm_compute; reflexivity|]). constructor. Qed.
