(* ===== verification/Recorded.v ===== *)
(** * Recorded traffic

    The hex dumps under [mongowire/tests/data], as the texts the tests read.
    Only the offset and the hex columns are kept: the column of printable
    characters at the end of a line, which the parsers of the dumps skip, holds
    quotation marks. *)
From Stdlib Require Import String.
#[local] Open Scope string_scope.

Definition handshake1_header_hex : string :=
"00000000  74 01 00 00 01 00 00 00  00 00 00 00 d4 07 00 00
".

Definition handshake1_body_hex : string :=
"00000000  00 00 00 00 61 64 6d 69  6e 2e 24 63 6d 64 00 00
00000010  00 00 00 ff ff ff ff 4d  01 00 00 08 69 73 6d 61
00000020  73 74 65 72 00 01 03 63  6c 69 65 6e 74 00 08 01
00000030  00 00 03 64 72 69 76 65  72 00 30 00 00 00 02 6e
00000040  61 6d 65 00 07 00 00 00  6e 6f 64 65 6a 73 00 02
00000050  76 65 72 73 69 6f 6e 00  0d 00 00 00 34 2e 30 2e
00000060  30 2d 62 65 74 61 2e 36  00 00 03 6f 73 00 51 00
00000070  00 00 02 74 79 70 65 00  07 00 00 00 44 61 72 77
00000080  69 6e 00 02 6e 61 6d 65  00 07 00 00 00 64 61 72
00000090  77 69 6e 00 02 61 72 63  68 69 74 65 63 74 75 72
000000a0  65 00 04 00 00 00 78 36  34 00 02 76 65 72 73 69
000000b0  6f 6e 00 07 00 00 00 32  30 2e 36 2e 30 00 00 02
000000c0  70 6c 61 74 66 6f 72 6d  00 3e 00 00 00 4e 6f 64
000000d0  65 2e 6a 73 20 76 31 34  2e 31 37 2e 33 2c 20 4c
000000e0  45 20 28 75 6e 69 66 69  65 64 29 7c 4e 6f 64 65
000000f0  2e 6a 73 20 76 31 34 2e  31 37 2e 33 2c 20 4c 45
00000100  20 28 75 6e 69 66 69 65  64 29 00 03 61 70 70 6c
00000110  69 63 61 74 69 6f 6e 00  1d 00 00 00 02 6e 61 6d
00000120  65 00 0e 00 00 00 6d 6f  6e 67 6f 73 68 20 31 2e
00000130  30 2e 31 00 00 00 04 63  6f 6d 70 72 65 73 73 69
00000140  6f 6e 00 11 00 00 00 02  30 00 05 00 00 00 6e 6f
00000150  6e 65 00 00 08 6c 6f 61  64 42 61 6c 61 6e 63 65
00000160  64 00 00 00
".

Definition handshake2_header_hex : string :=
"00000000  3f 01 00 00 22 01 00 00  01 00 00 00 01 00 00 00
".

Definition handshake2_body_hex : string :=
"00000000  08 00 00 00 00 00 00 00  00 00 00 00 00 00 00 00
00000010  01 00 00 00 1b 01 00 00  08 69 73 6d 61 73 74 65
00000020  72 00 01 03 74 6f 70 6f  6c 6f 67 79 56 65 72 73
00000030  69 6f 6e 00 2d 00 00 00  07 70 72 6f 63 65 73 73
00000040  49 64 00 60 fb ed 53 71  fe 1b ae 70 33 95 05 12
00000050  63 6f 75 6e 74 65 72 00  00 00 00 00 00 00 00 00
00000060  00 10 6d 61 78 42 73 6f  6e 4f 62 6a 65 63 74 53
00000070  69 7a 65 00 00 00 00 01  10 6d 61 78 4d 65 73 73
00000080  61 67 65 53 69 7a 65 42  79 74 65 73 00 00 6c dc
00000090  02 10 6d 61 78 57 72 69  74 65 42 61 74 63 68 53
000000a0  69 7a 65 00 a0 86 01 00  09 6c 6f 63 61 6c 54 69
000000b0  6d 65 00 a3 00 95 d8 7a  01 00 00 10 6c 6f 67 69
000000c0  63 61 6c 53 65 73 73 69  6f 6e 54 69 6d 65 6f 75
000000d0  74 4d 69 6e 75 74 65 73  00 1e 00 00 00 10 63 6f
000000e0  6e 6e 65 63 74 69 6f 6e  49 64 00 1c 00 00 00 10
000000f0  6d 69 6e 57 69 72 65 56  65 72 73 69 6f 6e 00 00
00000100  00 00 00 10 6d 61 78 57  69 72 65 56 65 72 73 69
00000110  6f 6e 00 0d 00 00 00 08  72 65 61 64 4f 6e 6c 79
00000120  00 00 01 6f 6b 00 00 00  00 00 00 00 f0 3f 00
".

Definition handshake3_header_hex : string :=
"00000000  74 01 00 00 02 00 00 00  00 00 00 00 d4 07 00 00
".

Definition handshake3_body_hex : string :=
"00000000  00 00 00 00 61 64 6d 69  6e 2e 24 63 6d 64 00 00
00000010  00 00 00 ff ff ff ff 4d  01 00 00 08 69 73 6d 61
00000020  73 74 65 72 00 01 03 63  6c 69 65 6e 74 00 08 01
00000030  00 00 03 64 72 69 76 65  72 00 30 00 00 00 02 6e
00000040  61 6d 65 00 07 00 00 00  6e 6f 64 65 6a 73 00 02
00000050  76 65 72 73 69 6f 6e 00  0d 00 00 00 34 2e 30 2e
00000060  30 2d 62 65 74 61 2e 36  00 00 03 6f 73 00 51 00
00000070  00 00 02 74 79 70 65 00  07 00 00 00 44 61 72 77
00000080  69 6e 00 02 6e 61 6d 65  00 07 00 00 00 64 61 72
00000090  77 69 6e 00 02 61 72 63  68 69 74 65 63 74 75 72
000000a0  65 00 04 00 00 00 78 36  34 00 02 76 65 72 73 69
000000b0  6f 6e 00 07 00 00 00 32  30 2e 36 2e 30 00 00 02
000000c0  70 6c 61 74 66 6f 72 6d  00 3e 00 00 00 4e 6f 64
000000d0  65 2e 6a 73 20 76 31 34  2e 31 37 2e 33 2c 20 4c
000000e0  45 20 28 75 6e 69 66 69  65 64 29 7c 4e 6f 64 65
000000f0  2e 6a 73 20 76 31 34 2e  31 37 2e 33 2c 20 4c 45
00000100  20 28 75 6e 69 66 69 65  64 29 00 03 61 70 70 6c
00000110  69 63 61 74 69 6f 6e 00  1d 00 00 00 02 6e 61 6d
00000120  65 00 0e 00 00 00 6d 6f  6e 67 6f 73 68 20 31 2e
00000130  30 2e 31 00 00 00 04 63  6f 6d 70 72 65 73 73 69
00000140  6f 6e 00 11 00 00 00 02  30 00 05 00 00 00 6e 6f
00000150  6e 65 00 00 08 6c 6f 61  64 42 61 6c 61 6e 63 65
00000160  64 00 00 00
".

Definition handshake4_header_hex : string :=
"00000000  3f 01 00 00 23 01 00 00  02 00 00 00 01 00 00 00
".

Definition handshake4_body_hex : string :=
"00000000  08 00 00 00 00 00 00 00  00 00 00 00 00 00 00 00
00000010  01 00 00 00 1b 01 00 00  08 69 73 6d 61 73 74 65
00000020  72 00 01 03 74 6f 70 6f  6c 6f 67 79 56 65 72 73
00000030  69 6f 6e 00 2d 00 00 00  07 70 72 6f 63 65 73 73
00000040  49 64 00 60 fb ed 53 71  fe 1b ae 70 33 95 05 12
00000050  63 6f 75 6e 74 65 72 00  00 00 00 00 00 00 00 00
00000060  00 10 6d 61 78 42 73 6f  6e 4f 62 6a 65 63 74 53
00000070  69 7a 65 00 00 00 00 01  10 6d 61 78 4d 65 73 73
00000080  61 67 65 53 69 7a 65 42  79 74 65 73 00 00 6c dc
00000090  02 10 6d 61 78 57 72 69  74 65 42 61 74 63 68 53
000000a0  69 7a 65 00 a0 86 01 00  09 6c 6f 63 61 6c 54 69
000000b0  6d 65 00 b8 00 95 d8 7a  01 00 00 10 6c 6f 67 69
000000c0  63 61 6c 53 65 73 73 69  6f 6e 54 69 6d 65 6f 75
000000d0  74 4d 69 6e 75 74 65 73  00 1e 00 00 00 10 63 6f
000000e0  6e 6e 65 63 74 69 6f 6e  49 64 00 1d 00 00 00 10
000000f0  6d 69 6e 57 69 72 65 56  65 72 73 69 6f 6e 00 00
00000100  00 00 00 10 6d 61 78 57  69 72 65 56 65 72 73 69
00000110  6f 6e 00 0d 00 00 00 08  72 65 61 64 4f 6e 6c 79
00000120  00 00 01 6f 6b 00 00 00  00 00 00 00 f0 3f 00
".

Definition handshake5_header_hex : string :=
"00000000  5c 00 00 00 03 00 00 00  00 00 00 00 dd 07 00 00
".

Definition handshake5_body_hex : string :=
"00000000  00 00 00 00 00 47 00 00  00 10 62 75 69 6c 64 49
00000010  6e 66 6f 00 01 00 00 00  03 6c 73 69 64 00 1e 00
00000020  00 00 05 69 64 00 10 00  00 00 04 a3 19 f2 b4 a1
00000030  75 40 c7 b8 e7 a3 a3 2e  c2 56 be 00 02 24 64 62
00000040  00 06 00 00 00 61 64 6d  69 6e 00 00
".

Definition handshake6_header_hex : string :=
"00000000  8b 07 00 00 24 01 00 00  03 00 00 00 dd 07 00 00
".

Definition handshake6_body_hex : string :=
"00000000  00 00 00 00 00 76 07 00  00 02 76 65 72 73 69 6f
00000010  6e 00 06 00 00 00 35 2e  30 2e 30 00 02 67 69 74
00000020  56 65 72 73 69 6f 6e 00  29 00 00 00 31 31 38 34
00000030  66 30 30 34 61 39 39 36  36 30 64 65 36 66 35 65
00000040  37 34 35 35 37 33 34 31  39 62 64 61 38 61 32 38
00000050  63 30 65 39 00 04 6d 6f  64 75 6c 65 73 00 05 00
00000060  00 00 00 02 61 6c 6c 6f  63 61 74 6f 72 00 09 00
00000070  00 00 74 63 6d 61 6c 6c  6f 63 00 02 6a 61 76 61
00000080  73 63 72 69 70 74 45 6e  67 69 6e 65 00 06 00 00
00000090  00 6d 6f 7a 6a 73 00 02  73 79 73 49 6e 66 6f 00
000000a0  0b 00 00 00 64 65 70 72  65 63 61 74 65 64 00 04
000000b0  76 65 72 73 69 6f 6e 41  72 72 61 79 00 21 00 00
000000c0  00 10 30 00 05 00 00 00  10 31 00 00 00 00 00 10
000000d0  32 00 00 00 00 00 10 33  00 00 00 00 00 00 03 6f
000000e0  70 65 6e 73 73 6c 00 58  00 00 00 02 72 75 6e 6e
000000f0  69 6e 67 00 1c 00 00 00  4f 70 65 6e 53 53 4c 20
00000100  31 2e 31 2e 31 66 20 20  33 31 20 4d 61 72 20 32
00000110  30 32 30 00 02 63 6f 6d  70 69 6c 65 64 00 1c 00
00000120  00 00 4f 70 65 6e 53 53  4c 20 31 2e 31 2e 31 66
00000130  20 20 33 31 20 4d 61 72  20 32 30 32 30 00 00 03
00000140  62 75 69 6c 64 45 6e 76  69 72 6f 6e 6d 65 6e 74
00000150  00 a6 05 00 00 02 64 69  73 74 6d 6f 64 00 0b 00
00000160  00 00 75 62 75 6e 74 75  32 30 30 34 00 02 64 69
00000170  73 74 61 72 63 68 00 07  00 00 00 78 38 36 5f 36
00000180  34 00 02 63 63 00 32 00  00 00 2f 6f 70 74 2f 6d
00000190  6f 6e 67 6f 64 62 74 6f  6f 6c 63 68 61 69 6e 2f
000001a0  76 33 2f 62 69 6e 2f 67  63 63 3a 20 67 63 63 20
000001b0  28 47 43 43 29 20 38 2e  35 2e 30 00 02 63 63 66
000001c0  6c 61 67 73 00 d6 01 00  00 2d 57 65 72 72 6f 72
000001d0  20 2d 69 6e 63 6c 75 64  65 20 6d 6f 6e 67 6f 2f
000001e0  70 6c 61 74 66 6f 72 6d  2f 62 61 73 69 63 2e 68
000001f0  20 2d 66 61 73 79 6e 63  68 72 6f 6e 6f 75 73 2d
00000200  75 6e 77 69 6e 64 2d 74  61 62 6c 65 73 20 2d 67
00000210  67 64 62 20 2d 57 61 6c  6c 20 2d 57 73 69 67 6e
00000220  2d 63 6f 6d 70 61 72 65  20 2d 57 6e 6f 2d 75 6e
00000230  6b 6e 6f 77 6e 2d 70 72  61 67 6d 61 73 20 2d 57
00000240  69 6e 76 61 6c 69 64 2d  70 63 68 20 2d 66 6e 6f
00000250  2d 6f 6d 69 74 2d 66 72  61 6d 65 2d 70 6f 69 6e
00000260  74 65 72 20 2d 66 6e 6f  2d 73 74 72 69 63 74 2d
00000270  61 6c 69 61 73 69 6e 67  20 2d 4f 32 20 2d 6d 61
00000280  72 63 68 3d 73 61 6e 64  79 62 72 69 64 67 65 20
00000290  2d 6d 74 75 6e 65 3d 67  65 6e 65 72 69 63 20 2d
000002a0  6d 70 72 65 66 65 72 2d  76 65 63 74 6f 72 2d 77
000002b0  69 64 74 68 3d 31 32 38  20 2d 57 6e 6f 2d 75 6e
000002c0  75 73 65 64 2d 6c 6f 63  61 6c 2d 74 79 70 65 64
000002d0  65 66 73 20 2d 57 6e 6f  2d 75 6e 75 73 65 64 2d
000002e0  66 75 6e 63 74 69 6f 6e  20 2d 57 6e 6f 2d 64 65
000002f0  70 72 65 63 61 74 65 64  2d 64 65 63 6c 61 72 61
00000300  74 69 6f 6e 73 20 2d 57  6e 6f 2d 75 6e 75 73 65
00000310  64 2d 63 6f 6e 73 74 2d  76 61 72 69 61 62 6c 65
00000320  20 2d 57 6e 6f 2d 75 6e  75 73 65 64 2d 62 75 74
00000330  2d 73 65 74 2d 76 61 72  69 61 62 6c 65 20 2d 57
00000340  6e 6f 2d 6d 69 73 73 69  6e 67 2d 62 72 61 63 65
00000350  73 20 2d 66 73 74 61 63  6b 2d 70 72 6f 74 65 63
00000360  74 6f 72 2d 73 74 72 6f  6e 67 20 2d 57 61 2c 2d
00000370  2d 6e 6f 63 6f 6d 70 72  65 73 73 2d 64 65 62 75
00000380  67 2d 73 65 63 74 69 6f  6e 73 20 2d 66 6e 6f 2d
00000390  62 75 69 6c 74 69 6e 2d  6d 65 6d 63 6d 70 00 02
000003a0  63 78 78 00 32 00 00 00  2f 6f 70 74 2f 6d 6f 6e
000003b0  67 6f 64 62 74 6f 6f 6c  63 68 61 69 6e 2f 76 33
000003c0  2f 62 69 6e 2f 67 2b 2b  3a 20 67 2b 2b 20 28 47
000003d0  43 43 29 20 38 2e 35 2e  30 00 02 63 78 78 66 6c
000003e0  61 67 73 00 4e 00 00 00  2d 57 6f 76 65 72 6c 6f
000003f0  61 64 65 64 2d 76 69 72  74 75 61 6c 20 2d 57 6e
00000400  6f 2d 6d 61 79 62 65 2d  75 6e 69 6e 69 74 69 61
00000410  6c 69 7a 65 64 20 2d 66  73 69 7a 65 64 2d 64 65
00000420  61 6c 6c 6f 63 61 74 69  6f 6e 20 2d 73 74 64 3d
00000430  63 2b 2b 31 37 00 02 6c  69 6e 6b 66 6c 61 67 73
00000440  00 02 01 00 00 2d 57 6c  2c 2d 2d 66 61 74 61 6c
00000450  2d 77 61 72 6e 69 6e 67  73 20 2d 70 74 68 72 65
00000460  61 64 20 2d 57 6c 2c 2d  7a 2c 6e 6f 77 20 2d 66
00000470  75 73 65 2d 6c 64 3d 67  6f 6c 64 20 2d 66 73 74
00000480  61 63 6b 2d 70 72 6f 74  65 63 74 6f 72 2d 73 74
00000490  72 6f 6e 67 20 2d 57 6c  2c 2d 2d 6e 6f 2d 74 68
000004a0  72 65 61 64 73 20 2d 57  6c 2c 2d 2d 62 75 69 6c
000004b0  64 2d 69 64 20 2d 57 6c  2c 2d 2d 68 61 73 68 2d
000004c0  73 74 79 6c 65 3d 67 6e  75 20 2d 57 6c 2c 2d 7a
000004d0  2c 6e 6f 65 78 65 63 73  74 61 63 6b 20 2d 57 6c
000004e0  2c 2d 2d 77 61 72 6e 2d  65 78 65 63 73 74 61 63
000004f0  6b 20 2d 57 6c 2c 2d 7a  2c 72 65 6c 72 6f 20 2d
00000500  57 6c 2c 2d 2d 63 6f 6d  70 72 65 73 73 2d 64 65
00000510  62 75 67 2d 73 65 63 74  69 6f 6e 73 3d 6e 6f 6e
00000520  65 20 2d 57 6c 2c 2d 7a  2c 6f 72 69 67 69 6e 20
00000530  2d 57 6c 2c 2d 2d 65 6e  61 62 6c 65 2d 6e 65 77
00000540  2d 64 74 61 67 73 00 02  74 61 72 67 65 74 5f 61
00000550  72 63 68 00 07 00 00 00  78 38 36 5f 36 34 00 02
00000560  74 61 72 67 65 74 5f 6f  73 00 06 00 00 00 6c 69
00000570  6e 75 78 00 02 63 70 70  64 65 66 69 6e 65 73 00
00000580  72 01 00 00 53 41 46 45  49 4e 54 5f 55 53 45 5f
00000590  49 4e 54 52 49 4e 53 49  43 53 20 30 20 50 43 52
000005a0  45 5f 53 54 41 54 49 43  20 4e 44 45 42 55 47 20
000005b0  5f 58 4f 50 45 4e 5f 53  4f 55 52 43 45 20 37 30
000005c0  30 20 5f 47 4e 55 5f 53  4f 55 52 43 45 20 5f 52
000005d0  45 45 4e 54 52 41 4e 54  20 31 20 5f 46 4f 52 54
000005e0  49 46 59 5f 53 4f 55 52  43 45 20 32 20 42 4f 4f
000005f0  53 54 5f 54 48 52 45 41  44 5f 56 45 52 53 49 4f
00000600  4e 20 35 20 42 4f 4f 53  54 5f 54 48 52 45 41 44
00000610  5f 55 53 45 53 5f 44 41  54 45 54 49 4d 45 20 42
00000620  4f 4f 53 54 5f 53 59 53  54 45 4d 5f 4e 4f 5f 44
00000630  45 50 52 45 43 41 54 45  44 20 42 4f 4f 53 54 5f
00000640  4d 41 54 48 5f 4e 4f 5f  4c 4f 4e 47 5f 44 4f 55
00000650  42 4c 45 5f 4d 41 54 48  5f 46 55 4e 43 54 49 4f
00000660  4e 53 20 42 4f 4f 53 54  5f 45 4e 41 42 4c 45 5f
00000670  41 53 53 45 52 54 5f 44  45 42 55 47 5f 48 41 4e
00000680  44 4c 45 52 20 42 4f 4f  53 54 5f 4c 4f 47 5f 4e
00000690  4f 5f 53 48 4f 52 54 48  41 4e 44 5f 4e 41 4d 45
000006a0  53 20 42 4f 4f 53 54 5f  4c 4f 47 5f 55 53 45 5f
000006b0  4e 41 54 49 56 45 5f 53  59 53 4c 4f 47 20 42 4f
000006c0  4f 53 54 5f 4c 4f 47 5f  57 49 54 48 4f 55 54 5f
000006d0  54 48 52 45 41 44 5f 41  54 54 52 20 41 42 53 4c
000006e0  5f 46 4f 52 43 45 5f 41  4c 49 47 4e 45 44 5f 41
000006f0  43 43 45 53 53 00 00 10  62 69 74 73 00 40 00 00
00000700  00 08 64 65 62 75 67 00  00 10 6d 61 78 42 73 6f
00000710  6e 4f 62 6a 65 63 74 53  69 7a 65 00 00 00 00 01
00000720  04 73 74 6f 72 61 67 65  45 6e 67 69 6e 65 73 00
00000730  3e 00 00 00 02 30 00 08  00 00 00 64 65 76 6e 75
00000740  6c 6c 00 02 31 00 11 00  00 00 65 70 68 65 6d 65
00000750  72 61 6c 46 6f 72 54 65  73 74 00 02 32 00 0b 00
00000760  00 00 77 69 72 65 64 54  69 67 65 72 00 00 01 6f
00000770  6b 00 00 00 00 00 00 00  f0 3f 00
".

Definition import_hex : string :=
"0000   47 01 00 00 07 00 00 00 00 00 00 00 dd 07 00 00
0010   00 00 00 00 00 54 00 00 00 02 69 6e 73 65 72 74
0020   00 06 00 00 00 61 63 74 6f 72 00 08 6f 72 64 65
0030   72 65 64 00 01 03 77 72 69 74 65 43 6f 6e 63 65
0040   72 6e 00 15 00 00 00 02 77 00 09 00 00 00 6d 61
0050   6a 6f 72 69 74 79 00 00 02 24 64 62 00 07 00 00
0060   00 6d 6f 6e 69 6c 61 00 00 01 dd 00 00 00 64 6f
0070   63 75 6d 65 6e 74 73 00 69 00 00 00 07 5f 69 64
0080   00 61 2e c2 80 00 00 00 01 00 00 00 01 10 61 63
0090   74 6f 72 5f 69 64 00 01 00 00 00 02 66 69 72 73
00a0   74 5f 6e 61 6d 65 00 09 00 00 00 50 45 4e 45 4c
00b0   4f 50 45 00 02 6c 61 73 74 5f 6e 61 6d 65 00 08
00c0   00 00 00 47 55 49 4e 45 53 53 00 09 6c 61 73 74
00d0   5f 75 70 64 61 74 65 00 28 18 33 48 70 01 00 00
00e0   00 66 00 00 00 07 5f 69 64 00 61 2e c2 80 00 00
00f0   00 02 00 00 00 02 10 61 63 74 6f 72 5f 69 64 00
0100   02 00 00 00 02 66 69 72 73 74 5f 6e 61 6d 65 00
0110   05 00 00 00 4e 49 43 4b 00 02 6c 61 73 74 5f 6e
0120   61 6d 65 00 09 00 00 00 57 41 48 4c 42 45 52 47
0130   00 09 6c 61 73 74 5f 75 70 64 61 74 65 00 28 18
0140   33 48 70 01 00 00 00
".

Definition msg_fuzz1_hex : string :=
"00000000  30 00 00 00 30 30 30 30  30 30 30 30 dd 07 00 00
00000010  30 30 30 30 01 30 30 30  ff 30 30 30 30 30 30 30
00000020  30 30 30 30 30 30 30 30  30 30 30 30 30 30 30 30
".
