(* ===== verification/RecordedBson.v ===== *)
(** * Recorded documents

    The hex dumps under [wirebson/tests/data], as the texts the tests read, with
    the offset and the hex columns (see [Recorded]). *)
From Stdlib Require Import String.
#[local] Open Scope string_scope.

Definition all_hex : string :=
"00000000  3c 02 00 00 04 64 6f 63  75 6d 65 6e 74 00 36 00
00000010  00 00 03 30 00 26 00 00  00 02 00 04 00 00 00 66
00000020  6f 6f 00 02 62 61 72 00  04 00 00 00 62 61 7a 00
00000030  02 00 04 00 00 00 71 75  78 00 00 03 31 00 05 00
00000040  00 00 00 00 04 61 72 72  61 79 00 20 00 00 00 04
00000050  30 00 10 00 00 00 02 30  00 04 00 00 00 66 6f 6f
00000060  00 00 04 31 00 05 00 00  00 00 00 04 66 6c 6f 61
00000070  74 36 34 00 52 00 00 00  01 30 00 71 3d 0a d7 a3
00000080  10 45 40 01 31 00 00 00  00 00 00 00 00 00 01 32
00000090  00 00 00 00 00 00 00 00  80 01 33 00 00 00 00 00
000000a0  00 00 f0 7f 01 34 00 00  00 00 00 00 00 f0 ff 01
000000b0  35 00 01 00 00 00 00 00  f8 7f 01 36 00 01 00 0f
000000c0  00 0f 00 f8 7f 00 04 73  74 72 69 6e 67 00 18 00
000000d0  00 00 02 30 00 04 00 00  00 66 6f 6f 00 02 31 00
000000e0  01 00 00 00 00 00 04 62  69 6e 61 72 79 00 16 00
000000f0  00 00 05 30 00 01 00 00  00 80 42 05 31 00 00 00
00000100  00 00 00 00 04 75 6e 64  65 66 69 6e 65 64 00 08
00000110  00 00 00 06 30 00 00 04  6f 62 6a 65 63 74 49 44
00000120  00 23 00 00 00 07 30 00  42 00 00 00 00 00 00 00
00000130  00 00 00 00 07 31 00 00  00 00 00 00 00 00 00 00
00000140  00 00 00 00 04 62 6f 6f  6c 00 0d 00 00 00 08 30
00000150  00 01 08 31 00 00 00 04  64 61 74 65 74 69 6d 65
00000160  00 1b 00 00 00 09 30 00  2b e6 51 e7 7a 01 00 00
00000170  09 31 00 00 28 d3 ed 7c  c7 ff ff 00 04 6e 75 6c
00000180  6c 00 08 00 00 00 0a 30  00 00 04 72 65 67 65 78
00000190  00 11 00 00 00 0b 30 00  70 00 6f 00 0b 31 00 00
000001a0  00 00 04 69 6e 74 33 32  00 13 00 00 00 10 30 00
000001b0  2a 00 00 00 10 31 00 00  00 00 00 00 04 74 69 6d
000001c0  65 73 74 61 6d 70 00 1b  00 00 00 11 30 00 2a 00
000001d0  00 00 00 00 00 00 11 31  00 00 00 00 00 00 00 00
000001e0  00 00 04 69 6e 74 36 34  00 1b 00 00 00 12 30 00
000001f0  2a 00 00 00 00 00 00 00  12 31 00 00 00 00 00 00
00000200  00 00 00 00 04 64 65 63  69 6d 61 6c 31 32 38 00
00000210  2b 00 00 00 13 30 00 2a  00 00 00 00 00 00 00 0d
00000220  00 00 00 00 00 00 00 13  31 00 00 00 00 00 00 00
00000230  00 00 00 00 00 00 00 00  00 00 00 00
".

Definition nested_hex : string :=
"00000000  b0 04 00 00 04 66 00 a8  04 00 00 03 30 00 a0 04
00000010  00 00 04 66 00 98 04 00  00 03 30 00 90 04 00 00
00000020  04 66 00 88 04 00 00 03  30 00 80 04 00 00 04 66
00000030  00 78 04 00 00 03 30 00  70 04 00 00 04 66 00 68
00000040  04 00 00 03 30 00 60 04  00 00 04 66 00 58 04 00
00000050  00 03 30 00 50 04 00 00  04 66 00 48 04 00 00 03
00000060  30 00 40 04 00 00 04 66  00 38 04 00 00 03 30 00
00000070  30 04 00 00 04 66 00 28  04 00 00 03 30 00 20 04
00000080  00 00 04 66 00 18 04 00  00 03 30 00 10 04 00 00
00000090  04 66 00 08 04 00 00 03  30 00 00 04 00 00 04 66
000000a0  00 f8 03 00 00 03 30 00  f0 03 00 00 04 66 00 e8
000000b0  03 00 00 03 30 00 e0 03  00 00 04 66 00 d8 03 00
000000c0  00 03 30 00 d0 03 00 00  04 66 00 c8 03 00 00 03
000000d0  30 00 c0 03 00 00 04 66  00 b8 03 00 00 03 30 00
000000e0  b0 03 00 00 04 66 00 a8  03 00 00 03 30 00 a0 03
000000f0  00 00 04 66 00 98 03 00  00 03 30 00 90 03 00 00
00000100  04 66 00 88 03 00 00 03  30 00 80 03 00 00 04 66
00000110  00 78 03 00 00 03 30 00  70 03 00 00 04 66 00 68
00000120  03 00 00 03 30 00 60 03  00 00 04 66 00 58 03 00
00000130  00 03 30 00 50 03 00 00  04 66 00 48 03 00 00 03
00000140  30 00 40 03 00 00 04 66  00 38 03 00 00 03 30 00
00000150  30 03 00 00 04 66 00 28  03 00 00 03 30 00 20 03
00000160  00 00 04 66 00 18 03 00  00 03 30 00 10 03 00 00
00000170  04 66 00 08 03 00 00 03  30 00 00 03 00 00 04 66
00000180  00 f8 02 00 00 03 30 00  f0 02 00 00 04 66 00 e8
00000190  02 00 00 03 30 00 e0 02  00 00 04 66 00 d8 02 00
000001a0  00 03 30 00 d0 02 00 00  04 66 00 c8 02 00 00 03
000001b0  30 00 c0 02 00 00 04 66  00 b8 02 00 00 03 30 00
000001c0  b0 02 00 00 04 66 00 a8  02 00 00 03 30 00 a0 02
000001d0  00 00 04 66 00 98 02 00  00 03 30 00 90 02 00 00
000001e0  04 66 00 88 02 00 00 03  30 00 80 02 00 00 04 66
000001f0  00 78 02 00 00 03 30 00  70 02 00 00 04 66 00 68
00000200  02 00 00 03 30 00 60 02  00 00 04 66 00 58 02 00
00000210  00 03 30 00 50 02 00 00  04 66 00 48 02 00 00 03
00000220  30 00 40 02 00 00 04 66  00 38 02 00 00 03 30 00
00000230  30 02 00 00 04 66 00 28  02 00 00 03 30 00 20 02
00000240  00 00 04 66 00 18 02 00  00 03 30 00 10 02 00 00
00000250  04 66 00 08 02 00 00 03  30 00 00 02 00 00 04 66
00000260  00 f8 01 00 00 03 30 00  f0 01 00 00 04 66 00 e8
00000270  01 00 00 03 30 00 e0 01  00 00 04 66 00 d8 01 00
00000280  00 03 30 00 d0 01 00 00  04 66 00 c8 01 00 00 03
00000290  30 00 c0 01 00 00 04 66  00 b8 01 00 00 03 30 00
000002a0  b0 01 00 00 04 66 00 a8  01 00 00 03 30 00 a0 01
000002b0  00 00 04 66 00 98 01 00  00 03 30 00 90 01 00 00
000002c0  04 66 00 88 01 00 00 03  30 00 80 01 00 00 04 66
000002d0  00 78 01 00 00 03 30 00  70 01 00 00 04 66 00 68
000002e0  01 00 00 03 30 00 60 01  00 00 04 66 00 58 01 00
000002f0  00 03 30 00 50 01 00 00  04 66 00 48 01 00 00 03
00000300  30 00 40 01 00 00 04 66  00 38 01 00 00 03 30 00
00000310  30 01 00 00 04 66 00 28  01 00 00 03 30 00 20 01
00000320  00 00 04 66 00 18 01 00  00 03 30 00 10 01 00 00
00000330  04 66 00 08 01 00 00 03  30 00 00 01 00 00 04 66
00000340  00 f8 00 00 00 03 30 00  f0 00 00 00 04 66 00 e8
00000350  00 00 00 03 30 00 e0 00  00 00 04 66 00 d8 00 00
00000360  00 03 30 00 d0 00 00 00  04 66 00 c8 00 00 00 03
00000370  30 00 c0 00 00 00 04 66  00 b8 00 00 00 03 30 00
00000380  b0 00 00 00 04 66 00 a8  00 00 00 03 30 00 a0 00
00000390  00 00 04 66 00 98 00 00  00 03 30 00 90 00 00 00
000003a0  04 66 00 88 00 00 00 03  30 00 80 00 00 00 04 66
000003b0  00 78 00 00 00 03 30 00  70 00 00 00 04 66 00 68
000003c0  00 00 00 03 30 00 60 00  00 00 04 66 00 58 00 00
000003d0  00 03 30 00 50 00 00 00  04 66 00 48 00 00 00 03
000003e0  30 00 40 00 00 00 04 66  00 38 00 00 00 03 30 00
000003f0  30 00 00 00 04 66 00 28  00 00 00 03 30 00 20 00
00000400  00 00 04 66 00 18 00 00  00 03 30 00 10 00 00 00
00000410  04 66 00 08 00 00 00 0a  30 00 00 00 00 00 00 00
00000420  00 00 00 00 00 00 00 00  00 00 00 00 00 00 00 00
00000430  00 00 00 00 00 00 00 00  00 00 00 00 00 00 00 00
00000440  00 00 00 00 00 00 00 00  00 00 00 00 00 00 00 00
00000450  00 00 00 00 00 00 00 00  00 00 00 00 00 00 00 00
00000460  00 00 00 00 00 00 00 00  00 00 00 00 00 00 00 00
00000470  00 00 00 00 00 00 00 00  00 00 00 00 00 00 00 00
00000480  00 00 00 00 00 00 00 00  00 00 00 00 00 00 00 00
00000490  00 00 00 00 00 00 00 00  00 00 00 00 00 00 00 00
000004a0  00 00 00 00 00 00 00 00  00 00 00 00 00 00 00 00
".

Definition handshake1_document_hex : string :=
"00000000  4d 01 00 00 08 69 73 6d  61 73 74 65 72 00 01 03
00000010  63 6c 69 65 6e 74 00 08  01 00 00 03 64 72 69 76
00000020  65 72 00 30 00 00 00 02  6e 61 6d 65 00 07 00 00
00000030  00 6e 6f 64 65 6a 73 00  02 76 65 72 73 69 6f 6e
00000040  00 0d 00 00 00 34 2e 30  2e 30 2d 62 65 74 61 2e
00000050  36 00 00 03 6f 73 00 51  00 00 00 02 74 79 70 65
00000060  00 07 00 00 00 44 61 72  77 69 6e 00 02 6e 61 6d
00000070  65 00 07 00 00 00 64 61  72 77 69 6e 00 02 61 72
00000080  63 68 69 74 65 63 74 75  72 65 00 04 00 00 00 78
00000090  36 34 00 02 76 65 72 73  69 6f 6e 00 07 00 00 00
000000a0  32 30 2e 36 2e 30 00 00  02 70 6c 61 74 66 6f 72
000000b0  6d 00 3e 00 00 00 4e 6f  64 65 2e 6a 73 20 76 31
000000c0  34 2e 31 37 2e 33 2c 20  4c 45 20 28 75 6e 69 66
000000d0  69 65 64 29 7c 4e 6f 64  65 2e 6a 73 20 76 31 34
000000e0  2e 31 37 2e 33 2c 20 4c  45 20 28 75 6e 69 66 69
000000f0  65 64 29 00 03 61 70 70  6c 69 63 61 74 69 6f 6e
00000100  00 1d 00 00 00 02 6e 61  6d 65 00 0e 00 00 00 6d
00000110  6f 6e 67 6f 73 68 20 31  2e 30 2e 31 00 00 00 04
00000120  63 6f 6d 70 72 65 73 73  69 6f 6e 00 11 00 00 00
00000130  02 30 00 05 00 00 00 6e  6f 6e 65 00 00 08 6c 6f
00000140  61 64 42 61 6c 61 6e 63  65 64 00 00 00
".

Definition handshake2_document_hex : string :=
"00000000  4d 01 00 00 08 69 73 6d  61 73 74 65 72 00 01 03
00000010  63 6c 69 65 6e 74 00 08  01 00 00 03 64 72 69 76
00000020  65 72 00 30 00 00 00 02  6e 61 6d 65 00 07 00 00
00000030  00 6e 6f 64 65 6a 73 00  02 76 65 72 73 69 6f 6e
00000040  00 0d 00 00 00 34 2e 30  2e 30 2d 62 65 74 61 2e
00000050  36 00 00 03 6f 73 00 51  00 00 00 02 74 79 70 65
00000060  00 07 00 00 00 44 61 72  77 69 6e 00 02 6e 61 6d
00000070  65 00 07 00 00 00 64 61  72 77 69 6e 00 02 61 72
00000080  63 68 69 74 65 63 74 75  72 65 00 04 00 00 00 78
00000090  36 34 00 02 76 65 72 73  69 6f 6e 00 07 00 00 00
000000a0  32 30 2e 36 2e 30 00 00  02 70 6c 61 74 66 6f 72
000000b0  6d 00 3e 00 00 00 4e 6f  64 65 2e 6a 73 20 76 31
000000c0  34 2e 31 37 2e 33 2c 20  4c 45 20 28 75 6e 69 66
000000d0  69 65 64 29 7c 4e 6f 64  65 2e 6a 73 20 76 31 34
000000e0  2e 31 37 2e 33 2c 20 4c  45 20 28 75 6e 69 66 69
000000f0  65 64 29 00 03 61 70 70  6c 69 63 61 74 69 6f 6e
00000100  00 1d 00 00 00 02 6e 61  6d 65 00 0e 00 00 00 6d
00000110  6f 6e 67 6f 73 68 20 31  2e 30 2e 31 00 00 00 04
00000120  63 6f 6d 70 72 65 73 73  69 6f 6e 00 11 00 00 00
00000130  02 30 00 05 00 00 00 6e  6f 6e 65 00 00 08 6c 6f
00000140  61 64 42 61 6c 61 6e 63  65 64 00 00 00
".

Definition handshake3_document_hex : string :=
"00000000  47 00 00 00 10 62 75 69  6c 64 49 6e 66 6f 00 01
00000010  00 00 00 03 6c 73 69 64  00 1e 00 00 00 05 69 64
00000020  00 10 00 00 00 04 a3 19  f2 b4 a1 75 40 c7 b8 e7
00000030  a3 a3 2e c2 56 be 00 02  24 64 62 00 06 00 00 00
00000040  61 64 6d 69 6e 00 00
".

Definition handshake4_document_hex : string :=
"00000000  76 07 00 00 02 76 65 72  73 69 6f 6e 00 06 00 00
00000010  00 35 2e 30 2e 30 00 02  67 69 74 56 65 72 73 69
00000020  6f 6e 00 29 00 00 00 31  31 38 34 66 30 30 34 61
00000030  39 39 36 36 30 64 65 36  66 35 65 37 34 35 35 37
00000040  33 34 31 39 62 64 61 38  61 32 38 63 30 65 39 00
00000050  04 6d 6f 64 75 6c 65 73  00 05 00 00 00 00 02 61
00000060  6c 6c 6f 63 61 74 6f 72  00 09 00 00 00 74 63 6d
00000070  61 6c 6c 6f 63 00 02 6a  61 76 61 73 63 72 69 70
00000080  74 45 6e 67 69 6e 65 00  06 00 00 00 6d 6f 7a 6a
00000090  73 00 02 73 79 73 49 6e  66 6f 00 0b 00 00 00 64
000000a0  65 70 72 65 63 61 74 65  64 00 04 76 65 72 73 69
000000b0  6f 6e 41 72 72 61 79 00  21 00 00 00 10 30 00 05
000000c0  00 00 00 10 31 00 00 00  00 00 10 32 00 00 00 00
000000d0  00 10 33 00 00 00 00 00  00 03 6f 70 65 6e 73 73
000000e0  6c 00 58 00 00 00 02 72  75 6e 6e 69 6e 67 00 1c
000000f0  00 00 00 4f 70 65 6e 53  53 4c 20 31 2e 31 2e 31
00000100  66 20 20 33 31 20 4d 61  72 20 32 30 32 30 00 02
00000110  63 6f 6d 70 69 6c 65 64  00 1c 00 00 00 4f 70 65
00000120  6e 53 53 4c 20 31 2e 31  2e 31 66 20 20 33 31 20
00000130  4d 61 72 20 32 30 32 30  00 00 03 62 75 69 6c 64
00000140  45 6e 76 69 72 6f 6e 6d  65 6e 74 00 a6 05 00 00
00000150  02 64 69 73 74 6d 6f 64  00 0b 00 00 00 75 62 75
00000160  6e 74 75 32 30 30 34 00  02 64 69 73 74 61 72 63
00000170  68 00 07 00 00 00 78 38  36 5f 36 34 00 02 63 63
00000180  00 32 00 00 00 2f 6f 70  74 2f 6d 6f 6e 67 6f 64
00000190  62 74 6f 6f 6c 63 68 61  69 6e 2f 76 33 2f 62 69
000001a0  6e 2f 67 63 63 3a 20 67  63 63 20 28 47 43 43 29
000001b0  20 38 2e 35 2e 30 00 02  63 63 66 6c 61 67 73 00
000001c0  d6 01 00 00 2d 57 65 72  72 6f 72 20 2d 69 6e 63
000001d0  6c 75 64 65 20 6d 6f 6e  67 6f 2f 70 6c 61 74 66
000001e0  6f 72 6d 2f 62 61 73 69  63 2e 68 20 2d 66 61 73
000001f0  79 6e 63 68 72 6f 6e 6f  75 73 2d 75 6e 77 69 6e
00000200  64 2d 74 61 62 6c 65 73  20 2d 67 67 64 62 20 2d
00000210  57 61 6c 6c 20 2d 57 73  69 67 6e 2d 63 6f 6d 70
00000220  61 72 65 20 2d 57 6e 6f  2d 75 6e 6b 6e 6f 77 6e
00000230  2d 70 72 61 67 6d 61 73  20 2d 57 69 6e 76 61 6c
00000240  69 64 2d 70 63 68 20 2d  66 6e 6f 2d 6f 6d 69 74
00000250  2d 66 72 61 6d 65 2d 70  6f 69 6e 74 65 72 20 2d
00000260  66 6e 6f 2d 73 74 72 69  63 74 2d 61 6c 69 61 73
00000270  69 6e 67 20 2d 4f 32 20  2d 6d 61 72 63 68 3d 73
00000280  61 6e 64 79 62 72 69 64  67 65 20 2d 6d 74 75 6e
00000290  65 3d 67 65 6e 65 72 69  63 20 2d 6d 70 72 65 66
000002a0  65 72 2d 76 65 63 74 6f  72 2d 77 69 64 74 68 3d
000002b0  31 32 38 20 2d 57 6e 6f  2d 75 6e 75 73 65 64 2d
000002c0  6c 6f 63 61 6c 2d 74 79  70 65 64 65 66 73 20 2d
000002d0  57 6e 6f 2d 75 6e 75 73  65 64 2d 66 75 6e 63 74
000002e0  69 6f 6e 20 2d 57 6e 6f  2d 64 65 70 72 65 63 61
000002f0  74 65 64 2d 64 65 63 6c  61 72 61 74 69 6f 6e 73
00000300  20 2d 57 6e 6f 2d 75 6e  75 73 65 64 2d 63 6f 6e
00000310  73 74 2d 76 61 72 69 61  62 6c 65 20 2d 57 6e 6f
00000320  2d 75 6e 75 73 65 64 2d  62 75 74 2d 73 65 74 2d
00000330  76 61 72 69 61 62 6c 65  20 2d 57 6e 6f 2d 6d 69
00000340  73 73 69 6e 67 2d 62 72  61 63 65 73 20 2d 66 73
00000350  74 61 63 6b 2d 70 72 6f  74 65 63 74 6f 72 2d 73
00000360  74 72 6f 6e 67 20 2d 57  61 2c 2d 2d 6e 6f 63 6f
00000370  6d 70 72 65 73 73 2d 64  65 62 75 67 2d 73 65 63
00000380  74 69 6f 6e 73 20 2d 66  6e 6f 2d 62 75 69 6c 74
00000390  69 6e 2d 6d 65 6d 63 6d  70 00 02 63 78 78 00 32
000003a0  00 00 00 2f 6f 70 74 2f  6d 6f 6e 67 6f 64 62 74
000003b0  6f 6f 6c 63 68 61 69 6e  2f 76 33 2f 62 69 6e 2f
000003c0  67 2b 2b 3a 20 67 2b 2b  20 28 47 43 43 29 20 38
000003d0  2e 35 2e 30 00 02 63 78  78 66 6c 61 67 73 00 4e
000003e0  00 00 00 2d 57 6f 76 65  72 6c 6f 61 64 65 64 2d
000003f0  76 69 72 74 75 61 6c 20  2d 57 6e 6f 2d 6d 61 79
00000400  62 65 2d 75 6e 69 6e 69  74 69 61 6c 69 7a 65 64
00000410  20 2d 66 73 69 7a 65 64  2d 64 65 61 6c 6c 6f 63
00000420  61 74 69 6f 6e 20 2d 73  74 64 3d 63 2b 2b 31 37
00000430  00 02 6c 69 6e 6b 66 6c  61 67 73 00 02 01 00 00
00000440  2d 57 6c 2c 2d 2d 66 61  74 61 6c 2d 77 61 72 6e
00000450  69 6e 67 73 20 2d 70 74  68 72 65 61 64 20 2d 57
00000460  6c 2c 2d 7a 2c 6e 6f 77  20 2d 66 75 73 65 2d 6c
00000470  64 3d 67 6f 6c 64 20 2d  66 73 74 61 63 6b 2d 70
00000480  72 6f 74 65 63 74 6f 72  2d 73 74 72 6f 6e 67 20
00000490  2d 57 6c 2c 2d 2d 6e 6f  2d 74 68 72 65 61 64 73
000004a0  20 2d 57 6c 2c 2d 2d 62  75 69 6c 64 2d 69 64 20
000004b0  2d 57 6c 2c 2d 2d 68 61  73 68 2d 73 74 79 6c 65
000004c0  3d 67 6e 75 20 2d 57 6c  2c 2d 7a 2c 6e 6f 65 78
000004d0  65 63 73 74 61 63 6b 20  2d 57 6c 2c 2d 2d 77 61
000004e0  72 6e 2d 65 78 65 63 73  74 61 63 6b 20 2d 57 6c
000004f0  2c 2d 7a 2c 72 65 6c 72  6f 20 2d 57 6c 2c 2d 2d
00000500  63 6f 6d 70 72 65 73 73  2d 64 65 62 75 67 2d 73
00000510  65 63 74 69 6f 6e 73 3d  6e 6f 6e 65 20 2d 57 6c
00000520  2c 2d 7a 2c 6f 72 69 67  69 6e 20 2d 57 6c 2c 2d
00000530  2d 65 6e 61 62 6c 65 2d  6e 65 77 2d 64 74 61 67
00000540  73 00 02 74 61 72 67 65  74 5f 61 72 63 68 00 07
00000550  00 00 00 78 38 36 5f 36  34 00 02 74 61 72 67 65
00000560  74 5f 6f 73 00 06 00 00  00 6c 69 6e 75 78 00 02
00000570  63 70 70 64 65 66 69 6e  65 73 00 72 01 00 00 53
00000580  41 46 45 49 4e 54 5f 55  53 45 5f 49 4e 54 52 49
00000590  4e 53 49 43 53 20 30 20  50 43 52 45 5f 53 54 41
000005a0  54 49 43 20 4e 44 45 42  55 47 20 5f 58 4f 50 45
000005b0  4e 5f 53 4f 55 52 43 45  20 37 30 30 20 5f 47 4e
000005c0  55 5f 53 4f 55 52 43 45  20 5f 52 45 45 4e 54 52
000005d0  41 4e 54 20 31 20 5f 46  4f 52 54 49 46 59 5f 53
000005e0  4f 55 52 43 45 20 32 20  42 4f 4f 53 54 5f 54 48
000005f0  52 45 41 44 5f 56 45 52  53 49 4f 4e 20 35 20 42
00000600  4f 4f 53 54 5f 54 48 52  45 41 44 5f 55 53 45 53
00000610  5f 44 41 54 45 54 49 4d  45 20 42 4f 4f 53 54 5f
00000620  53 59 53 54 45 4d 5f 4e  4f 5f 44 45 50 52 45 43
00000630  41 54 45 44 20 42 4f 4f  53 54 5f 4d 41 54 48 5f
00000640  4e 4f 5f 4c 4f 4e 47 5f  44 4f 55 42 4c 45 5f 4d
00000650  41 54 48 5f 46 55 4e 43  54 49 4f 4e 53 20 42 4f
00000660  4f 53 54 5f 45 4e 41 42  4c 45 5f 41 53 53 45 52
00000670  54 5f 44 45 42 55 47 5f  48 41 4e 44 4c 45 52 20
00000680  42 4f 4f 53 54 5f 4c 4f  47 5f 4e 4f 5f 53 48 4f
00000690  52 54 48 41 4e 44 5f 4e  41 4d 45 53 20 42 4f 4f
000006a0  53 54 5f 4c 4f 47 5f 55  53 45 5f 4e 41 54 49 56
000006b0  45 5f 53 59 53 4c 4f 47  20 42 4f 4f 53 54 5f 4c
000006c0  4f 47 5f 57 49 54 48 4f  55 54 5f 54 48 52 45 41
000006d0  44 5f 41 54 54 52 20 41  42 53 4c 5f 46 4f 52 43
000006e0  45 5f 41 4c 49 47 4e 45  44 5f 41 43 43 45 53 53
000006f0  00 00 10 62 69 74 73 00  40 00 00 00 08 64 65 62
00000700  75 67 00 00 10 6d 61 78  42 73 6f 6e 4f 62 6a 65
00000710  63 74 53 69 7a 65 00 00  00 00 01 04 73 74 6f 72
00000720  61 67 65 45 6e 67 69 6e  65 73 00 3e 00 00 00 02
00000730  30 00 08 00 00 00 64 65  76 6e 75 6c 6c 00 02 31
00000740  00 11 00 00 00 65 70 68  65 6d 65 72 61 6c 46 6f
00000750  72 54 65 73 74 00 02 32  00 0b 00 00 00 77 69 72
00000760  65 64 54 69 67 65 72 00  00 01 6f 6b 00 00 00 00
00000770  00 00 00 f0 3f 00
".
