(* ===== verification/TestsWire.v ===== *)
(** * The unit tests of framing and compression, replayed

    The tests of [error.rs], [compression/mod.rs], [messages/op_compressed.rs],
    [framing.rs] and the golden suite of the mongowire crate.  The checksum crate
    is a parameter of the model; the tests run with the function
    [castagnoli] below, which satisfies the vector the source tests the crate
    against, and with the default build, in which only the noop compressor is
    enabled. *)
From stdpp Require Import base list numbers strings.
From Stdlib Require Import ZArith Lia.
From S2P Require Import Prelude Utf8 StrOps Io Consts BsonScalar F64 BsonValue BsonEncode BsonDecode Fuzz.
From S2P Require Import LogText Header OpMsg OpLegacy OpCompressed Message Framing Compressors.
From S2P Require Import TestKit TestsMessages Recorded.
Local Open Scope Z_scope.

(** ** The checksum function of the tests *)

(** One bit and one byte of the reflected CRC with polynomial 0x82f63b78. *)
Definition castagnoli_bit (c : Z) : Z :=
  if Z.testbit c 0 then Z.lxor (Z.shiftr c 1) 2197175160 else Z.shiftr c 1.
Definition castagnoli_byte (c : Z) (b : byte) : Z := Nat.iter 8 castagnoli_bit (Z.lxor c (u8 b)).
Definition castagnoli (data : bytes) : Z := Z.lxor (foldl castagnoli_byte u32_max data) u32_max.

(** ** [crc32c.rs] *)

Definition test_known_vector (crc : bytes → Z) : test :=
  assert_eq (crc_checksum crc (lit "123456789")) 3808858755.
Lemma known_vector_passes : passes (test_known_vector castagnoli).
Proof. by vm_compute. Qed.

Definition default_build : Build := mkBuild None None None.
#[local] Notation parse_message := (Framing.parse_message castagnoli).
#[local] Notation encode_message := (Framing.encode_message castagnoli).

(** [encode_message(&mut header, &body, checksum, &mut out).unwrap()] on an empty
    buffer: the updated header and the frame. *)
Definition frame_of (h : Header) (body : MessageBody) (ck : bool) : outcome Empty_set (Header * bytes) :=
  match encode_message h body ck [] with
  | (r, h, out) => let* _ := unwrap r in Ok (h, out)
  end.
(** [parse_message(&mut buf, MAX_MSG_LEN).unwrap().unwrap()], and the buffer left. *)
Definition parsed_of (buf : bytes) : outcome Empty_set (Header * MessageBody * bytes) :=
  match parse_message buf MAX_MSG_LEN with
  | (r, buf) => let* m := unwrap r in let* m := unwrap_some m in Ok (m, buf)
  end.
Definition parse_result (buf : bytes) : outcome ProtocolError (option (Header * MessageBody)) :=
  (parse_message buf MAX_MSG_LEN).1.

(** ** [error.rs] *)

(** The [Display] of [Error::Command]. *)
Definition Command_to_string (code : Z) (code_name message : str) : str :=
  lit "command error " ++ int_bytes code ++ lit " (" ++ code_name ++ lit "): " ++ message.
Fixpoint contains (pat s : str) : bool :=
  starts_with pat s || match s with [] => false | _ :: s => contains pat s end.
Definition test_command_error_display : test :=
  match WireError_command 96 (lit "OperationFailed") (lit "boom") with
  | WireError_Command code code_name message =>
      let s := Command_to_string code code_name message in
      assert (contains (lit "96") s) ;; assert (contains (lit "boom") s)
  | WireError_Protocol _ => Panic
  end.
Definition test_command_error_maps_to_response_doc : test :=
  let* doc := unwrap_some (to_error_response_doc
                (WireError_command 18 (lit "AuthenticationFailed") (lit "nope"))) in
  assert_eq (Document_get doc (lit "ok")) (Some (Bson_Double 0)) ;;
  assert_eq (Document_get doc (lit "errmsg")) (Some (text "nope")) ;;
  assert_eq (Document_get doc (lit "code")) (Some (Bson_Int32 18)) ;;
  assert_eq (Document_get doc (lit "codeName")) (Some (text "AuthenticationFailed")) ;;
  assert_eq (Document_get doc (lit "$db")) (Some (text "admin")).
Definition test_protocol_error_has_no_response_doc : test :=
  assert_eq (to_error_response_doc (WireError_Protocol (ProtocolError_UnsupportedOpcode 42))) None.
Definition test_response_doc_encodes_and_reparses : test :=
  let* doc := unwrap_some (to_error_response_doc
                (WireError_command 59 (lit "CommandNotFound") (lit "unknown command"))) in
  let* raw := unwrap (Document_encode doc) in
  let* name := unwrap (RawDocument_command raw) in
  assert_eq name (lit "ok") ;;
  let* doc := unwrap (RawDocument_shallow raw) in
  assert_eq (Document_get doc (lit "code")) (Some (Bson_Int32 59)).

(** ** [compression/mod.rs] *)

Definition test_noop_roundtrip : test :=
  let data := lit "the quick brown fox" in
  let* compressed := unwrap (compress default_build CompressorId_Noop data) in
  assert_eq compressed data ;;
  let* out := unwrap (decompress default_build CompressorId_Noop compressed (len data)) in
  assert_eq out data.
Definition test_disabled_compressor_errors (build : Build) : test :=
  if negb (CompressorId_is_enabled build CompressorId_Zstd)
  then fails_with (compress build CompressorId_Zstd (lit "x")) (ProtocolError_UnsupportedCompressor 3)
  else Ok ().
Definition test_id_mapping : test :=
  assert_eq (CompressorId_from_u8 2) (Some CompressorId_Zlib) ;;
  assert_eq (CompressorId_from_u8 4) None ;;
  assert_eq (CompressorId_from_name (lit "snappy")) (Some CompressorId_Snappy) ;;
  assert_eq (CompressorId_name CompressorId_Zstd) (lit "zstd").

(** ** [messages/op_compressed.rs] *)

Definition msg_body : outcome Empty_set bytes :=
  let* doc := raw [("insert", text "actor"); ("$db", text "monila")]%string in
  let* msg := unwrap (OpMsg_new empty_flags doc []) in
  encoded_msg msg.
Definition noop_wrap (op : Opcode) (body : bytes) : outcome Empty_set OpCompressed :=
  unwrap (OpCompressed_wrap default_build op body CompressorId_Noop).
Definition with_size (c : OpCompressed) (size : Z) : OpCompressed :=
  mkOpCompressed (original_opcode c) size (compressor_id c) (compressed_message c).
(** [let MessageBody::Msg(msg) = body else { panic!() }]. *)
Definition expect_msg (body : MessageBody) : outcome Empty_set OpMsg :=
  match body with MessageBody_Msg msg => Ok msg | _ => Panic end.
Definition expect_compressed (body : MessageBody) : outcome Empty_set OpCompressed :=
  match body with MessageBody_Compressed c => Ok c | _ => Panic end.
Definition is_size_mismatch (e : ProtocolError) : bool :=
  match e with ProtocolError_DecompressedSizeMismatch _ _ => true | _ => false end.

Definition test_noop_roundtrip_through_wrap_parse_unwrap : test :=
  let* body := msg_body in
  let* compressed := noop_wrap Opcode_Msg body in
  assert_eq (compressed_message compressed) body ;;
  assert_eq (uncompressed_size compressed) (as_i32 (len body)) ;;
  assert_eq (OpCompressed_body_len compressed) (4 + 4 + 1 + len body) ;;
  let* out := unwrap (OpCompressed_encode_body compressed []) in
  assert_eq (len out) (OpCompressed_body_len compressed) ;;
  let* parsed := unwrap (OpCompressed_parse_body out) in
  assert_eq parsed compressed ;;
  let* body := unwrap (OpCompressed_unwrap_body default_build parsed MAX_MSG_LEN) in
  let* msg := expect_msg body in
  let* name := unwrap (RawDocument_command (OpMsg_document msg)) in
  assert_eq name (lit "insert").
Definition test_full_frame_roundtrip_through_framing : test :=
  let* body := msg_body in
  let* compressed := noop_wrap Opcode_Msg body in
  let* '(_, out) := frame_of (Header_new 9 0 Opcode_Compressed) (MessageBody_Compressed compressed) false in
  let* '(header, parsed, _) := parsed_of out in
  assert_eq (op_code header) Opcode_Compressed ;;
  let* c := expect_compressed parsed in
  assert_eq (original_opcode c) Opcode_Msg ;;
  let* body := unwrap (OpCompressed_unwrap_body default_build c MAX_MSG_LEN) in
  let* _ := expect_msg body in
  Ok ().
Definition test_nested_compressed_is_rejected : test :=
  let* body := msg_body in
  let* inner := noop_wrap Opcode_Msg body in
  let* inner_bytes := unwrap (OpCompressed_encode_body inner []) in
  let* outer := noop_wrap Opcode_Compressed inner_bytes in
  fails_with (OpCompressed_unwrap_body default_build outer MAX_MSG_LEN)
    (invalid_op_msg "nested OP_COMPRESSED").
Definition test_oversized_uncompressed_size_is_rejected : test :=
  let* body := msg_body in
  let compressed := mkOpCompressed Opcode_Msg 2147483647 CompressorId_Noop body in
  assert_err_if is_MessageTooLarge (OpCompressed_unwrap_body default_build compressed MAX_MSG_LEN).
Definition test_tampered_uncompressed_size_is_caught : test :=
  let* body := msg_body in
  let* compressed := noop_wrap Opcode_Msg body in
  let wrong := with_size compressed (uncompressed_size compressed + 1) in
  fails_with (OpCompressed_unwrap_body default_build wrong MAX_MSG_LEN)
    (ProtocolError_DecompressedSizeMismatch (uncompressed_size wrong) (uncompressed_size wrong - 1)) ;;
  fails_with (OpCompressed_unwrap_body default_build (with_size compressed (-1)) MAX_MSG_LEN)
    (invalid_op_msg "negative uncompressedSize").
Definition test_parse_rejects_negative_size_and_truncation : test :=
  let buf := put_i32_le [] (Opcode_to_i32 Opcode_Msg) in
  let buf := put_u8 (put_i32_le buf (-1)) (CompressorId_to_u8 CompressorId_Noop) in
  fails_with (OpCompressed_parse_body buf) (invalid_op_msg "negative uncompressedSize") ;;
  let* body := msg_body in
  let* compressed := noop_wrap Opcode_Msg body in
  let* body := unwrap (OpCompressed_encode_body compressed []) in
  prefixes_parse OpCompressed_parse_body (λ n, 9 <=? n) body ;;
  let* cut := unwrap (OpCompressed_parse_body (takeZ 9 body)) in
  assert_eq (compressed_message cut) [] ;;
  assert_err_if is_size_mismatch (OpCompressed_unwrap_body default_build cut MAX_MSG_LEN).
Definition test_parse_rejects_unknown_opcode_and_compressor : test :=
  let buf := put_u8 (put_i32_le (put_i32_le [] 42) 0) (CompressorId_to_u8 CompressorId_Noop) in
  fails_with (OpCompressed_parse_body buf) (ProtocolError_UnsupportedOpcode 42) ;;
  let buf := put_u8 (put_i32_le (put_i32_le [] (Opcode_to_i32 Opcode_Msg)) 0) 200 in
  fails_with (OpCompressed_parse_body buf) (ProtocolError_UnsupportedCompressor 200).
Definition test_disabled_compressor_is_rejected (build : Build) : test :=
  if negb (CompressorId_is_enabled build CompressorId_Snappy)
  then let* body := msg_body in
       fails_with (OpCompressed_wrap build Opcode_Msg body CompressorId_Snappy)
         (ProtocolError_UnsupportedCompressor 1)
  else Ok ().
(** [check_roundtrip]: with a real compressor the repetitive body shrinks and
    survives. *)
Definition repetitive_msg : outcome Empty_set OpMsg :=
  let long := mjoin (replicate 200 (lit "actor-")) in
  let* doc := raw [("insert", text "actor"); ("notes", Bson_String long); ("$db", text "monila")]%string in
  unwrap (OpMsg_new empty_flags doc []).
Definition check_roundtrip (build : Build) (id : CompressorId) : test :=
  let* msg := repetitive_msg in
  let* body := encoded_msg msg in
  let* compressed := unwrap (OpCompressed_wrap build Opcode_Msg body id) in
  assert (len (compressed_message compressed) <? len body) ;;
  assert_eq (OpCompressed_body_len compressed) (4 + 4 + 1 + len (compressed_message compressed)) ;;
  let* out := unwrap (OpCompressed_encode_body compressed []) in
  let* parsed := unwrap (OpCompressed_parse_body out) in
  assert_eq (compressor_id parsed) id ;;
  let* unwrapped := unwrap (OpCompressed_unwrap_body build parsed MAX_MSG_LEN) in
  let* unwrapped := expect_msg unwrapped in
  assert_eq unwrapped msg.

Definition tests_compression : list test :=
  [test_command_error_display; test_command_error_maps_to_response_doc;
   test_protocol_error_has_no_response_doc; test_response_doc_encodes_and_reparses;
   test_noop_roundtrip; test_disabled_compressor_errors default_build; test_id_mapping;
   test_noop_roundtrip_through_wrap_parse_unwrap; test_full_frame_roundtrip_through_framing;
   test_nested_compressed_is_rejected; test_oversized_uncompressed_size_is_rejected;
   test_tampered_uncompressed_size_is_caught; test_parse_rejects_negative_size_and_truncation;
   test_parse_rejects_unknown_opcode_and_compressor; test_disabled_compressor_is_rejected default_build].
Lemma tests_compression_pass : Forall passes tests_compression.
Proof. repeat (constructor; [vm_compute; reflexivity|]). constructor. Qed.

(** The round trip passes with every compressor that is lossless and shrinks the
    repetitive body. *)
Lemma repetitive_msg_ok : ∃ msg, repetitive_msg = Ok msg ∧ encoded_msg msg = Ok (opmsg_wire msg) ∧
  body_ok (MessageBody_Msg msg) ∧ len (opmsg_wire msg) = 1256.
Proof.
  assert (match repetitive_msg with
          | Ok m => MessageBody_parse_body Opcode_Msg (opmsg_wire m) = Ok (MessageBody_Msg m) ∧
                    len (opmsg_wire m) = 1256 ∧ encoded_msg m = Ok (opmsg_wire m)
          | _ => False
          end) as H by (vm_compute; done).
  destruct repetitive_msg as [m| | |]; try done. destruct H as (H & Hl & He).
  apply body_parse_Ok_inv in H as (_ & Hok & _). by exists m.
Qed.
Lemma check_roundtrip_passes build id c z msg :
  repetitive_msg = Ok msg → codec_of build id = Some c → codec_lossless c →
  codec_compress c (opmsg_wire msg) = inr z → len z < len (opmsg_wire msg) →
  passes (check_roundtrip build id).
Proof.
  intros Hm Hc Hl Hz Hlen. destruct repetitive_msg_ok as (m & Hm' & He & Hok & Hn).
  rewrite Hm in Hm'. injection Hm' as <-. unfold passes, check_roundtrip. rewrite Hm. cbn [bind].
  rewrite He. cbn [bind]. change (opmsg_wire msg) with (body_wire (MessageBody_Msg msg)) in *.
  set (body := body_wire (MessageBody_Msg msg)) in *.
  assert (OpCompressed_wrap build Opcode_Msg body id = Ok (mkOpCompressed Opcode_Msg (len body) id z)) as Hw.
  { unfold OpCompressed_wrap. rewrite Hn. cbn [i32_try_from ok_or bind].
    assert (compress build id body = Ok z) as ->; [|done].
    destruct id; [done| | |]; cbn [compress]; by rewrite Hc, Hz. }
  rewrite Hw. cbn [unwrap or_panic bind compressed_message].
  assert (len z <? len body = true) as -> by (apply Z.ltb_lt; lia). cbn [assert bind].
  change (OpCompressed_body_len _) with (4 + 4 + 1 + len z). rewrite assert_eq_refl. cbn [bind].
  edestruct (wrap_parse_unwrap build id (MessageBody_Msg msg)) as [Hp Hu];
    [|exact Hok|done| |exact Hw|].
  { intros c' Hc'. rewrite Hc in Hc'. by injection Hc' as <-. }
  { instantiate (1 := MAX_MSG_LEN). unfold body in Hn. rewrite Hn. by vm_compute. }
  rewrite compressed_encode_wire.
  2:{ unfold compressed_ok. cbn [uncompressed_size]. unfold_ranges. lia. }
  cbn [unwrap or_panic bind app]. rewrite Hp. cbn [unwrap or_panic bind compressor_id].
  rewrite assert_eq_refl. cbn [bind]. rewrite Hu. cbn [unwrap or_panic bind expect_msg]. apply assert_eq_refl.
Qed.
