(* ===== verification/TestsFraming.v ===== *)
(** * The unit tests of framing, replayed

    The tests of [framing.rs] and the golden suite [mongowire/tests/golden.rs]
    over the recorded traffic: each recorded frame is parsed by the model of the
    framing layer and re-encoded_msg to the recorded bytes. *)
From stdpp Require Import base list numbers strings.
From Stdlib Require Import ZArith Lia.
From S2P Require Import Prelude Utf8 StrOps Io Consts BsonScalar F64 BsonValue BsonEncode BsonDecode Fuzz.
From S2P Require Import Header OpMsg OpLegacy OpCompressed Message Framing Compressors.
From S2P Require Import TestKit TestsMessages Recorded TestsWire.
Local Open Scope Z_scope.

#[local] Notation parse_message := (Framing.parse_message castagnoli).
#[local] Notation encode_message := (Framing.encode_message castagnoli).

(** ** Hex dumps *)

Definition line_feed : byte := x0a.
Definition bar : byte := x7c.
(** [char::is_whitespace] on ASCII. *)
Definition ascii_space (b : byte) : bool := (u8 b =? 32) || ((9 <=? u8 b) && (u8 b <=? 13)).
(** [split_whitespace]. *)
Fixpoint words (s : str) (word : str) : list str :=
  let flush := match word with [] => [] | _ => [word] end in
  match s with
  | [] => flush
  | b :: s => if ascii_space b then flush ++ words s [] else words s (word ++ [b])
  end.
Definition split_whitespace (s : str) : list str := words s [].
Definition is_hex (tok : str) : bool := forallb (λ b, is_some (hex_digit b)) tok.
(** [u8::from_str_radix(tok, 16).unwrap()]; the tokens carry no sign. *)
Definition u8_from_hex (tok : str) : outcome Empty_set byte :=
  let* _ := assert (negb (is_empty tok)) in
  let* v := foldl (λ acc b, let* v := acc in let* d := expect (hex_digit b) in Ok (16 * v + d))
              (Ok 0) tok in
  let* _ := assert (v <=? u8_max) in
  Ok (of_u8 v).

(** ** [framing.rs] *)

(** One line, and the whole dump: the part before the first bar, without the
    offset column. *)
Definition hexdump_line (line : str) : outcome Empty_set bytes :=
  let hex := default [] (head (split_on bar line)) in
  match split_whitespace hex with
  | [] => Ok []
  | off :: tokens =>
      let tokens := if (len off =? 8) && is_hex off then tokens else off :: tokens in
      mapM_outcome u8_from_hex tokens
  end.
Definition hexdump (s : str) : outcome Empty_set bytes :=
  let* lines := mapM_outcome hexdump_line (split_on line_feed s) in
  Ok (mjoin lines).
Definition recorded (dump : string) : outcome Empty_set bytes := hexdump (lit dump).
Definition recorded_frame (parts : list string) : outcome Empty_set bytes :=
  let* parts := mapM_outcome recorded parts in
  Ok (mjoin parts).
Definition handshake_query : outcome Empty_set bytes := recorded_frame [handshake1_header_hex; handshake1_body_hex].
(** Re-encoding a parsed message gives the recorded bytes. *)
Definition reencodes (header : Header) (body : MessageBody) (frame : bytes) : test :=
  let* '(_, out) := frame_of header body false in
  assert_eq out frame.
Definition expect_query (body : MessageBody) : outcome Empty_set OpQuery :=
  match body with MessageBody_Query q => Ok q | _ => Panic end.
Definition expect_reply (body : MessageBody) : outcome Empty_set OpReply :=
  match body with MessageBody_Reply r => Ok r | _ => Panic end.
(** [matches!(parse_message(&mut buf, MAX_MSG_LEN), Ok(None))]. *)
Definition assert_incomplete (buf : bytes) : test :=
  let* m := unwrap (parse_result buf) in assert (negb (is_some m)).

Definition test_hexdump_parser_handles_both_column_layouts : test :=
  let* b := hexdump (lit "00000000  74 01 00 00  |t...|") in
  assert_eq b (bs [116; 1; 0; 0]) ;;
  let* b := hexdump (lit "00000164  64 00 00 00") in
  assert_eq b (bs [100; 0; 0; 0]) ;;
  let* b := hexdump [] in
  assert_eq b [].
Definition test_incomplete_frames_wait_and_consume_nothing : test :=
  let* frame := handshake_query in
  for_each (λ n,
    let before := takeZ n frame in
    let '(r, buf) := parse_message before MAX_MSG_LEN in
    let* m := unwrap r in
    assert (negb (is_some m)) ;;
    assert_eq buf before) [0; 1; 4; 15; 16; 17; 100; len frame - 1].
Definition test_handshake1_op_query_golden : test :=
  let* frame := handshake_query in
  let* '(header, body, buf) := parsed_of frame in
  assert_eq buf [] ;;
  assert_eq (message_length header) 372 ;;
  assert_eq (request_id header) 1 ;;
  assert_eq (response_to header) 0 ;;
  assert_eq (op_code header) Opcode_Query ;;
  let* q := expect_query body in
  assert_eq (query_flags q) 0 ;;
  assert_eq (full_collection_name q) (lit "admin.$cmd") ;;
  assert_eq (number_to_skip q) 0 ;;
  assert_eq (number_to_return q) (-1) ;;
  assert (negb (is_some (return_fields_selector q))) ;;
  let* query := unwrap (RawDocument_shallow (query q)) in
  assert_eq (Document_command query) (Some (lit "ismaster")) ;;
  assert_eq (Document_get query (lit "ismaster")) (Some (Bson_Bool true)) ;;
  reencodes header body frame.
Definition test_handshake2_op_reply_golden : test :=
  let* frame := recorded_frame [handshake2_header_hex; handshake2_body_hex] in
  let* '(header, body, _) := parsed_of frame in
  assert_eq (message_length header) 319 ;;
  assert_eq (request_id header) 290 ;;
  assert_eq (response_to header) 1 ;;
  assert_eq (op_code header) Opcode_Reply ;;
  let* r := expect_reply body in
  assert_eq (response_flags r) AWAIT_CAPABLE ;;
  assert_eq (cursor_id r) 0 ;;
  assert_eq (starting_from r) 0 ;;
  assert_eq (number_returned r) 1 ;;
  assert_eq (len (reply_documents r)) 1 ;;
  let* d := unwrap_some (head (reply_documents r)) in
  let* name := unwrap (RawDocument_command d) in
  assert_eq name (lit "ismaster") ;;
  let* doc := unwrap (RawDocument_shallow d) in
  assert_eq (Document_get doc (lit "ok")) (Some (Bson_Double f64_1)) ;;
  reencodes header body frame.
Definition test_handshake3_and_4_are_the_retry_exchange : test :=
  let* frame := recorded_frame [handshake3_header_hex; handshake3_body_hex] in
  let* '(header, body, _) := parsed_of frame in
  assert_eq header (mkHeader 372 2 0 Opcode_Query) ;;
  reencodes header body frame ;;
  let* frame := recorded_frame [handshake4_header_hex; handshake4_body_hex] in
  let* '(header, body, _) := parsed_of frame in
  assert_eq header (mkHeader 319 291 2 Opcode_Reply) ;;
  let* _ := expect_reply body in
  reencodes header body frame.
Definition test_handshake5_and_6_headers_are_op_msg : test :=
  for_each (λ dump,
    let* header_bytes := recorded dump in
    let* header := unwrap (Header_parse header_bytes MAX_MSG_LEN) in
    assert_eq (op_code header) Opcode_Msg) [handshake5_header_hex; handshake6_header_hex] ;;
  let* b := recorded handshake5_header_hex in
  assert_eq (takeZ 4 b) (le_encode 4 92).

(** [chunks(n)]. *)
Fixpoint chunks_of_loop (fuel : nat) (n : Z) (b : bytes) : list bytes :=
  match fuel, b with
  | S fuel, _ :: _ => takeZ n b :: chunks_of_loop fuel n (dropZ n b)
  | _, _ => []
  end.
Definition chunks_of (n : Z) (b : bytes) : list bytes := chunks_of_loop (length b) n b.
(** The loop that feeds a buffer chunk by chunk: the messages parsed, in order,
    and the bytes left. *)
Fixpoint feed (l : list bytes) (buf : bytes) : outcome Empty_set (list (Header * MessageBody) * bytes) :=
  match l with
  | [] => Ok ([], buf)
  | chunk :: l =>
      let '(r, buf) := parse_message (buf ++ chunk) MAX_MSG_LEN in
      let* m := unwrap r in
      let* '(parsed, buf) := feed l buf in
      Ok (option_list m ++ parsed, buf)
  end.
Definition test_frames_feed_incrementally : test :=
  let* frame := handshake_query in
  let* '(parsed, buf) := feed (chunks_of 7 frame) [] in
  let* m := unwrap_some (last parsed) in
  assert_eq (message_length m.1) 372 ;;
  assert_eq buf [].
Definition test_body_parse_error_consumes_the_frame : test :=
  let frame := header_bytes 21 1 0 2004 ++ bs [0; 0; 0; 0; 0] in
  let '(r, buf) := parse_message frame MAX_MSG_LEN in
  fails_with r (invalid_body "empty fullCollectionName") ;;
  assert_eq buf [].
Definition test_absurd_length_fails_fast_without_the_body : test :=
  assert_err_if is_MessageTooLarge (parse_result (header_bytes (MAX_MSG_LEN + 1) 0 0 2004)).
Definition test_negative_length_is_a_protocol_error : test :=
  assert_err_if is_InvalidHeader (parse_result (le_encode 4 (-1) ++ replicate 12 x00)).
Definition test_encode_sets_message_length_and_roundtrips : test :=
  let* doc := is_master in
  let q := OpQuery_handshake doc in
  let body := MessageBody_Query q in
  let* '(header, out) := frame_of (Header_new 42 0 Opcode_Query) body false in
  assert_eq (message_length header) (as_i32 (16 + MessageBody_body_len body)) ;;
  let* '(written_length, _) := unwrap (read_i32_le out) in
  assert_eq written_length (message_length header) ;;
  let* '(header2, body2, _) := parsed_of out in
  assert_eq (request_id header2) 42 ;;
  assert_eq (message_length header2) (message_length header) ;;
  let* q2 := expect_query body2 in
  assert_eq q2 q.
(** The document of the test has [MAX_MSG_LEN] bytes. *)
Definition test_encode_rejects_oversize (doc : RawDocument) : test :=
  let body := MessageBody_Reply (mkOpReply 0 0 0 1 [doc]) in
  match encode_message (Header_new 1 0 Opcode_Reply) body false [] with
  | (r, _, out) => assert_err_if is_MessageTooLarge r ;; assert_eq out []
  end.

(** A checksummed OP_MSG ready for [encode_message] with a trailer. *)
Definition checksummed_msg : outcome Empty_set (Header * MessageBody) :=
  let* doc := raw [("ping", Bson_Int32 1)]%string in
  let* msg := unwrap (OpMsg_new MORE_TO_COME doc []) in
  Ok (Header_new 7 0 Opcode_Msg, MessageBody_Msg msg).
Definition checksummed_frame : outcome Empty_set (Header * bytes) :=
  let* '(header, body) := checksummed_msg in frame_of header body true.
(** [u32::from_le_bytes(out[out.len() - 4..])]. *)
Definition trailer (out : bytes) : outcome Empty_set Z :=
  let* '(v, _) := unwrap (read_u32_le (dropZ (len out - 4) out)) in Ok v.
(** [out[i] ^= mask]. *)
Definition flip (out : bytes) (i mask : Z) : outcome Empty_set bytes :=
  let* b := index out i in
  Ok (takeZ i out ++ of_u8 (Z.lxor (u8 b) mask) :: dropZ (i + 1) out).
Definition is_mismatch (p : Z → Z → bool) (e : ProtocolError) : bool :=
  match e with ProtocolError_ChecksumMismatch expected computed => p expected computed | _ => false end.

Definition test_checksum_encoding_roundtrips : test :=
  let* '(header, out) := checksummed_frame in
  assert_eq (message_length header) (len out) ;;
  let* '(written_len, _) := unwrap (read_i32_le out) in
  assert_eq written_len (message_length header) ;;
  let expected_checksum := crc_checksum castagnoli (takeZ (len out - 4) out) in
  let* stored := trailer out in
  assert_eq stored expected_checksum ;;
  let* '(header2, body2, out) := parsed_of out in
  assert_eq out [] ;;
  assert_eq (message_length header2) (message_length header) ;;
  let* msg := expect_msg body2 in
  assert_eq (flags msg) (Z.lor CHECKSUM_PRESENT MORE_TO_COME) ;;
  assert_eq (checksum msg) (Some expected_checksum) ;;
  let* ping := raw [("ping", Bson_Int32 1)]%string in
  assert_eq (OpMsg_document msg) ping.
Definition test_corrupt_trailer_byte_fails_checksum : test :=
  let* '(_, out) := checksummed_frame in
  let* expected := trailer out in
  let last := len out - 1 in
  let* out := flip out last 1 in
  assert_err_if (is_mismatch (λ e c, negb (e =? expected) && (c =? expected))) (parse_result out).
Definition test_corrupt_body_byte_fails_checksum : test :=
  let* '(_, out) := checksummed_frame in
  let* expected := trailer out in
  let mid := len out - 5 in
  let* out := flip out mid 128 in
  assert_err_if (is_mismatch (λ e c, (e =? expected) && negb (c =? expected))) (parse_result out).
Definition test_checksummed_frames_feed_incrementally : test :=
  let* '(_, frame) := checksummed_frame in
  let* '(parsed, buf) := feed (chunks_of 5 frame) [] in
  let* '(header, body) := unwrap_some (last parsed) in
  assert_eq (op_code header) Opcode_Msg ;;
  let* m := expect_msg body in
  assert (is_some (checksum m)) ;;
  assert_eq buf [].
Definition test_non_msg_bodies_take_the_trailer_without_flag_patch : test :=
  let body := MessageBody_Reply (mkOpReply 0 0 0 0 []) in
  let* '(header, out) := frame_of (Header_new 1 0 Opcode_Reply) body true in
  assert_eq (message_length header) (len out) ;;
  let expected := crc_checksum castagnoli (takeZ (len out - 4) out) in
  let* stored := trailer out in
  assert_eq stored expected.
Definition test_short_checksummed_frame_is_rejected : test :=
  let frame := header_bytes 22 1 0 2013 ++ bs [1; 0; 0; 0] ++ bs [0] ++ bs [171] in
  assert_eq (len frame) 22 ;;
  assert_err_if (λ e, match e with ProtocolError_InvalidOpMsg _ => true | _ => false end)
    (parse_result frame).
Definition test_trailing_bytes_after_op_query_selector : test :=
  let* query := raw [("isMaster", Bson_Bool true)]%string in
  let* selector := raw [("_id", Bson_Int32 1)]%string in
  let body := MessageBody_Query (with_selector (OpQuery_handshake query) (Some selector)) in
  let* '(header, frame) := frame_of (Header_new 1 0 Opcode_Query) body false in
  let frame := frame ++ bs [5; 0; 0; 0; 0] in
  let grown := message_length header + 5 in
  let* frame := unwrap (copy_at frame 0 (le_encode 4 grown)) in
  fails_with (parse_result frame) (invalid_body "trailing bytes after returnFieldsSelector").

Definition tests_framing : list test :=
  [test_hexdump_parser_handles_both_column_layouts; test_incomplete_frames_wait_and_consume_nothing;
   test_handshake1_op_query_golden; test_handshake2_op_reply_golden;
   test_handshake3_and_4_are_the_retry_exchange; test_handshake5_and_6_headers_are_op_msg;
   test_frames_feed_incrementally; test_body_parse_error_consumes_the_frame;
   test_absurd_length_fails_fast_without_the_body; test_negative_length_is_a_protocol_error;
   test_encode_sets_message_length_and_roundtrips; test_checksum_encoding_roundtrips;
   test_corrupt_trailer_byte_fails_checksum; test_corrupt_body_byte_fails_checksum;
   test_checksummed_frames_feed_incrementally; test_non_msg_bodies_take_the_trailer_without_flag_patch;
   test_short_checksummed_frame_is_rejected; test_trailing_bytes_after_op_query_selector].
Lemma tests_framing_pass : Forall passes tests_framing.
Proof. repeat (constructor; [vm_compute; reflexivity|]). constructor. Qed.
Lemma encode_rejects_oversize_passes doc : len doc = MAX_MSG_LEN →
  passes (test_encode_rejects_oversize doc).
Proof.
  intros Hd. unfold passes, test_encode_rejects_oversize, Framing.encode_message.
  assert (MessageBody_body_len (MessageBody_Reply (mkOpReply 0 0 0 1 [doc])) = 20 + (MAX_MSG_LEN + 0)) as ->.
  { cbn. unfold OpReply_body_len. cbn. by rewrite Hd. }
  by vm_compute.
Qed.

(** ** [tests/golden.rs] *)

(** The parser of the golden suite stops a line at the first token that is not a
    two-digit byte. *)
Fixpoint push_bytes (tokens : list str) : outcome Empty_set bytes :=
  match tokens with
  | [] => Ok []
  | tok :: tokens =>
      if (len tok =? 2) && is_hex tok
      then let* b := u8_from_hex tok in let* rest := push_bytes tokens in Ok (b :: rest)
      else Ok []
  end.
Definition golden_line (line : str) : outcome Empty_set bytes :=
  match split_whitespace line with
  | [] => Ok []
  | off :: tokens =>
      if ((len off =? 4) || (len off =? 8)) && is_hex off then push_bytes tokens
      else let* b := push_bytes [off] in let* rest := push_bytes tokens in Ok (b ++ rest)
  end.
Definition golden (dumps : list string) : outcome Empty_set bytes :=
  let* files := mapM_outcome (λ dump,
    let* lines := mapM_outcome golden_line (split_on line_feed (lit dump)) in Ok (mjoin lines)) dumps in
  Ok (mjoin files).
(** The frame parses, is consumed whole, and holds an OP_MSG. *)
Definition golden_frame (frame : bytes) : outcome Empty_set (Header * MessageBody) :=
  let* '(header, body, buf) := parsed_of frame in
  let* _ := assert_eq buf [] in
  Ok (header, body).
Definition field_of (doc : RawDocument) (name : string) : outcome Empty_set Bson :=
  let* v := unwrap (RawDocument_get doc (lit name)) in
  let* v := unwrap_some v in
  unwrap (RawBsonRef_to_bson v).
Definition assert_command (doc : RawDocument) (name : string) : test :=
  let* c := unwrap (RawDocument_command doc) in assert_eq c (lit name).
Definition assert_field (doc : RawDocument) (name : string) (v : Bson) : test :=
  let* f := field_of doc name in assert_eq f v.
Definition assert_document_field (doc : RawDocument) (name : string) : test :=
  let* f := field_of doc name in
  assert (match f with Bson_Document _ => true | _ => false end).

Definition test_handshake5_op_msg_golden : test :=
  let* frame := golden [handshake5_header_hex; handshake5_body_hex] in
  assert_eq (len frame) 92 ;;
  let* '(header, body) := golden_frame frame in
  assert_eq header (mkHeader 92 3 0 Opcode_Msg) ;;
  let* msg := expect_msg body in
  assert_eq (flags msg) empty_flags ;;
  assert_eq (checksum msg) None ;;
  assert_eq (sequences (sections msg)) [] ;;
  let doc := OpMsg_document msg in
  assert_command doc "buildInfo" ;;
  assert_field doc "buildInfo" (Bson_Int32 1) ;;
  assert_field doc "$db" (text "admin") ;;
  assert_document_field doc "lsid" ;;
  reencodes header (MessageBody_Msg msg) frame.
Definition test_handshake6_op_msg_golden : test :=
  let* frame := golden [handshake6_header_hex; handshake6_body_hex] in
  assert_eq (len frame) 1931 ;;
  let* '(header, body) := golden_frame frame in
  assert_eq header (mkHeader 1931 292 3 Opcode_Msg) ;;
  let* msg := expect_msg body in
  assert_eq (flags msg) empty_flags ;;
  assert_eq (checksum msg) None ;;
  let doc := OpMsg_document msg in
  assert_command doc "version" ;;
  assert_field doc "version" (text "5.0.0") ;;
  assert_field doc "ok" (Bson_Double f64_1) ;;
  let* git := field_of doc "gitVersion" in
  assert (match git with
          | Bson_String s => starts_with (lit "1184f004a99660de6f5e7455734") s
          | _ => false
          end) ;;
  reencodes header (MessageBody_Msg msg) frame.
Definition test_import_op_msg_golden : test :=
  let* frame := golden [import_hex] in
  assert_eq (len frame) 327 ;;
  let* '(header, body) := golden_frame frame in
  assert_eq header (mkHeader 327 7 0 Opcode_Msg) ;;
  let* msg := expect_msg body in
  assert_eq (flags msg) empty_flags ;;
  assert_eq (checksum msg) None ;;
  let doc := OpMsg_document msg in
  assert_command doc "insert" ;;
  assert_field doc "insert" (text "actor") ;;
  assert_field doc "ordered" (Bson_Bool true) ;;
  assert_field doc "$db" (text "monila") ;;
  assert_document_field doc "writeConcern" ;;
  assert_eq (len (sequences (sections msg))) 1 ;;
  let* seq := unwrap_some (head (sequences (sections msg))) in
  assert_eq (identifier seq) (lit "documents") ;;
  assert_eq (len (documents seq)) 2 ;;
  for_each (λ actor,
    let* id := field_of actor "_id" in
    assert (match id with Bson_ObjectId _ => true | _ => false end)) (documents seq) ;;
  assert_eq (Sections_size (sections msg)) (OpMsg_body_len msg - 4) ;;
  reencodes header (MessageBody_Msg msg) frame.
Definition test_import_frame_feeds_incrementally : test :=
  let* frame := golden [import_hex] in
  let* '(parsed, buf) := feed (chunks_of 13 frame) [] in
  assert_eq (len parsed) 1 ;;
  assert_eq buf [].
Definition test_msg_fuzz1_is_rejected_cleanly : test :=
  let* frame := golden [msg_fuzz1_hex] in
  assert_eq (len frame) 48 ;;
  fails_with (parse_result frame) (invalid_op_msg "unknown required flag bits") ;;
  for_each (λ n, assert_incomplete (takeZ n frame)) (seqZ 0 (len frame)).
Definition test_recorded_op_msg_bodies_round_trip_through_op_msg_new : test :=
  for_each (λ dumps,
    let* frame := golden dumps in
    let* '(_, body) := golden_frame frame in
    let* msg := expect_msg body in
    let* rebuilt := unwrap (OpMsg_new (flags msg) (OpMsg_document msg) []) in
    let* out := encoded_msg rebuilt in
    assert_eq out (dropZ MSG_HEADER_LEN frame))
    [[handshake5_header_hex; handshake5_body_hex]; [handshake6_header_hex; handshake6_body_hex]] ;;
  let* frame := golden [import_hex] in
  let* '(_, body) := golden_frame frame in
  let* msg := expect_msg body in
  let* seq := unwrap_some (head (sequences (sections msg))) in
  let* rebuilt := unwrap (OpMsg_new (flags msg) (OpMsg_document msg) [seq]) in
  assert_eq rebuilt msg ;;
  let* v := unwrap (RawDocument_get (OpMsg_document msg) (lit "documents")) in
  assert (negb (is_some v)).

Definition tests_golden : list test :=
  [test_handshake5_op_msg_golden; test_handshake6_op_msg_golden; test_import_op_msg_golden;
   test_import_frame_feeds_incrementally; test_msg_fuzz1_is_rejected_cleanly;
   test_recorded_op_msg_bodies_round_trip_through_op_msg_new].
Lemma tests_golden_pass : Forall passes tests_golden.
Proof. repeat (constructor; [vm_compute; reflexivity|]). constructor. Qed.
