(* ===== verification/TestsScram.v ===== *)
(** * The unit tests of SCRAM, replayed

    The tests of [mongo_common/src/auth/scram.rs] on the model of the two state
    machines.  The cryptographic crates are a parameter of the model; the tests
    run with [test_crypto] below, which has the real base64 and stands in for the
    digests, and the two RFC exchanges with the digests of the vectors tabulated.
    The one digest [mongo_sha1_quirk_roundtrip] pins is not replayed. *)
From stdpp Require Import base list numbers strings.
From Stdlib Require Import ZArith Lia.
From S2P Require Import Prelude Utf8 StrOps Io Consts BsonScalar F64 BsonValue BsonDecode Fuzz.
From S2P Require Import LogText Auth Scram ScramCorrect TestKit.
Local Open Scope Z_scope.


(** ** The cryptography of the tests *)

(** The standard base64 engine, by the encoder and the decoder of [LogText]. *)
Definition b64_encode (data : bytes) : str := match base64 data with Ok s => s | _ => [] end.
Definition test_crypto : Crypto :=
  mkCrypto (pbkdf2_array toy_crypto) (hmac toy_crypto) (digest toy_crypto) (md5 toy_crypto)
    b64_encode LogText.base64_decode (ct_eq toy_crypto).

(** ** [auth/scram.rs] *)

(** [.unwrap()] of a step, and [assert_eq!(step, Err(e))]: the result and the
    state left behind. *)
Definition stepped {S A} (m : outcome AuthError A * S) : outcome Empty_set (A * S) :=
  let* a := unwrap m.1 in Ok (a, m.2).
Definition step_fails {S A} (m : outcome AuthError A * S) (e : AuthError) : outcome Empty_set S :=
  let* _ := assert_err_if (eqb e) m.1 in Ok m.2.

Section Tests.
Context (c : Crypto).

Definition client_with_nonce (m : ScramMechanism) (username password nonce : string) : ScramClient :=
  ScramClient_with_nonce m (lit username) (effective_password c m (lit username) (lit password)) (lit nonce).
Definition raw_password_client_with_nonce (m : ScramMechanism) (username raw_password nonce : string)
  : ScramClient := ScramClient_with_nonce m (lit username) (lit raw_password) (lit nonce).
Definition server_with_nonce (m : ScramMechanism) (nonce : string) : ScramServer :=
  ScramServer_with_nonce m (lit nonce).

(** One full exchange; [Err] is the error an honest step reports. *)
Definition run_exchange (client : ScramClient) (server : ScramServer) (username : str)
    (creds : StoredCredentials) : outcome AuthError () :=
  let '(r, client) := client_first_message client in
  let* client_first := r in
  let '(r, server) := handle_client_first c client_first username creds server in
  let* server_first := r in
  let '(r, client) := receive_server_first c server_first client in
  let* _ := r in
  let '(r, client) := client_final_message c client in
  let* client_final := r in
  let '(r, server) := handle_client_final c client_final server in
  let* server_final := r in
  let* _ := assert (eqb (sv_username server) username) in
  let '(r, client) := receive_server_final c server_final client in
  let* _ := r in
  let* _ := assert (eqb (handle_client_final c client_final server).1 (Err AuthError_State)) in
  assert (eqb (receive_server_final c server_final client).1 (Err AuthError_State)).

Definition salt16 : bytes := lit "0123456789abcdef".
Definition sha256_credentials (password : string) : outcome Empty_set StoredCredentials :=
  unwrap (StoredCredentials_derive c ScramMechanism_Sha256 (lit password) salt16 4096).
Definition sha256_client : ScramClient :=
  client_with_nonce ScramMechanism_Sha256 "user" "pencil" "clientnonce123456".
Definition sha256_server : ScramServer := server_with_nonce ScramMechanism_Sha256 "servernonce1234567".
(** The exchange up to the client-final message, with the client's password. *)
Definition until_client_final (client : ScramClient) (password : string)
  : outcome Empty_set (str * ScramClient * ScramServer) :=
  let* creds := sha256_credentials password in
  let* '(first, client) := stepped (client_first_message client) in
  let* '(server_first, server) := stepped (handle_client_first c first (lit "user") creds sha256_server) in
  let* '(_, client) := stepped (receive_server_first c server_first client) in
  let* '(final_msg, client) := stepped (client_final_message c client) in
  Ok (final_msg, client, server).

Definition test_full_roundtrip_sha1 (random_c random_s : bytes) : test :=
  let* creds := unwrap (StoredCredentials_derive c ScramMechanism_Sha1
                  (mongo_sha1_password c (lit "bob") (lit "s3cret")) salt16
                  (ScramMechanism_default_iterations ScramMechanism_Sha1)) in
  let* client := unwrap (ScramClient_new c ScramMechanism_Sha1 (lit "bob") (lit "s3cret") random_c) in
  assert_ok (run_exchange client (ScramServer_new c ScramMechanism_Sha1 random_s) (lit "bob") creds).
Definition test_full_roundtrip_sha256 (random_c random_s : bytes) : test :=
  let* creds := sha256_credentials "pencil" in
  let* client := unwrap (ScramClient_new c ScramMechanism_Sha256 (lit "user") (lit "pencil") random_c) in
  assert_ok (run_exchange client (ScramServer_new c ScramMechanism_Sha256 random_s) (lit "user") creds).
Definition test_mongo_sha1_quirk_roundtrip : test :=
  let digest := mongo_sha1_password c (lit "user") (lit "pwd") in
  assert_eq (len digest) 32 ;;
  assert (forallb (λ b, ((48 <=? u8 b) && (u8 b <=? 57)) || ((97 <=? u8 b) && (u8 b <=? 102))) digest) ;;
  let* creds := unwrap (StoredCredentials_derive c ScramMechanism_Sha1 digest (lit "saltsalt") 4096) in
  let quirked := client_with_nonce ScramMechanism_Sha1 "user" "pwd" "clientnonce123456" in
  let server := server_with_nonce ScramMechanism_Sha1 "servernonce1234567" in
  assert_ok (run_exchange quirked server (lit "user") creds) ;;
  let raw := raw_password_client_with_nonce ScramMechanism_Sha1 "user" "pwd" "clientnonce123456" in
  assert_err (run_exchange raw server (lit "user") creds).
Definition test_wrong_password_rejected : test :=
  let client := client_with_nonce ScramMechanism_Sha256 "user" "wrong-password" "clientnonce123456" in
  let* '(final_msg, _, server) := until_client_final client "right-password" in
  let* _ := step_fails (handle_client_final c final_msg server) AuthError_ClientProofMismatch in
  Ok ().
Definition test_tampered_server_nonce_rejected_by_client : test :=
  let* '(_, client) := stepped (client_first_message sha256_client) in
  let forged := lit "r=tamperednonce,s=MDIzNDU2Nzg=,i=4096" in
  let* _ := step_fails (receive_server_first c forged client) AuthError_NonceMismatch in
  Ok ().
(** [find(",p=")]: the text through that pattern and the rest. *)
Fixpoint split_proof (s : str) : option (str * str) :=
  if starts_with (lit ",p=") s then Some (takeZ 3 s, dropZ 3 s)
  else match s with
       | [] => None
       | b :: s => '(h, t) ← split_proof s; Some (b :: h, t)
       end.
Definition test_tampered_proof_rejected_by_server : test :=
  let* '(final_msg, _, server) := until_client_final sha256_client "pencil" in
  let* '(hd, tl) := unwrap_some (split_proof final_msg) in
  let flipped := if starts_with (lit "d") tl then lit "e" else lit "d" in
  let tampered := hd ++ flipped ++ dropZ 1 tl in
  assert_ne tampered final_msg ;;
  let* _ := step_fails (handle_client_final c tampered server) AuthError_ClientProofMismatch in
  Ok ().
Definition test_wrong_server_signature_rejected_by_client : test :=
  let* '(final_msg, client, server) := until_client_final sha256_client "pencil" in
  let* '(server_final, _) := stepped (handle_client_final c final_msg server) in
  let forged := lit "v=" ++ base64_encode c (replicate 32 x00) in
  assert_ne forged server_final ;;
  let* _ := step_fails (receive_server_final c forged client) AuthError_ServerSignatureMismatch in
  Ok ().
Definition test_truncated_server_signature_rejected : test :=
  let* '(_, client, _) := until_client_final sha256_client "pencil" in
  let* _ := step_fails (receive_server_final c (lit "v=AAAA") client) AuthError_ServerSignatureMismatch in
  Ok ().
Definition test_server_error_message_is_surfaced : test :=
  let* '(_, client, _) := until_client_final sha256_client "pencil" in
  let* _ := step_fails (receive_server_final c (lit "e=invalid-credentials") client)
              (AuthError_Failure (lit "invalid-credentials")) in
  Ok ().
Definition test_gs2_channel_binding_rejected_by_server : test :=
  let* creds := sha256_credentials "user" in
  for_each (λ case : string * string,
    let* _ := step_fails (handle_client_first c (lit case.1) (lit "user") creds sha256_server)
                (AuthError_InvalidMessage case.2) in
    Ok ())
    [("y,,n=user,r=nonce123", "channel binding is not supported");
     ("p=tls-server-end-point,,n=user,r=nonce123", "channel binding is not supported");
     ("gibberish", "invalid GS2 header")]%string.
Definition test_client_first_username_is_escaped : test :=
  let client := client_with_nonce ScramMechanism_Sha256 "co=mma,user" "p" "nonce12345678" in
  let* '(first, _) := stepped (client_first_message client) in
  assert_eq first (lit "n,,n=co=3Dmma=2Cuser,r=nonce12345678").
Definition set_sv_server_first_message (s : ScramServer) (msg : str) : ScramServer :=
  mkServer (sv_mechanism s) (sv_server_nonce s) (sv_client_first_bare s) msg (sv_state s)
    (sv_username s) (sv_client_nonce s) (sv_credentials s).
Definition test_server_first_attributes_may_be_reordered : test :=
  let* creds := sha256_credentials "pencil" in
  let* '(first, client) := stepped (client_first_message sha256_client) in
  let* '(_, server) := stepped (handle_client_first c first (lit "user") creds sha256_server) in
  let permuted :=
    lit "s=" ++ base64_encode c (salt creds) ++ lit ",i=4096,r=clientnonce123456servernonce1234567" in
  assert_ne permuted (sv_server_first_message server) ;;
  let server := set_sv_server_first_message server permuted in
  let* '(_, client) := stepped (receive_server_first c permuted client) in
  let* '(final_msg, client) := stepped (client_final_message c client) in
  let* '(server_final, _) := stepped (handle_client_final c final_msg server) in
  let* _ := stepped (receive_server_final c server_final client) in
  Ok ().
Definition malformed_server_firsts : list str :=
  [lit ""; lit "r=clientnonce123456extra,s=MDIzNDU2Nzg="; lit "s=MDIzNDU2Nzg=,i=4096";
   lit "r=notmyclientnonce,s=MDIzNDU2Nzg=,i=4096"; lit "r=clientnonce123456,s=!!!,i=4096";
   lit "r=clientnonce123456,s=MDIzNDU2Nzg=,i=zero"; lit "r=clientnonce123456,s=MDIzNDU2Nzg=,i=0";
   lit "r=clientnonce123456,s=MDIzNDU2Nzg=,i=99999999999999999999";
   lit "noncettribute,s=MDIzNDU2Nzg=,i=4096"; lit "€=x,s=MDIzNDU2Nzg=,i=4096"].
(** The client is kept between the attempts. *)
Definition test_malformed_server_first_messages_rejected : test :=
  let* '(_, client) := stepped (client_first_message sha256_client) in
  let* _ := foldl (λ acc bad,
      let* client := acc in
      let '(r, client) := receive_server_first c bad client in
      let* _ := assert_err r in Ok client) (Ok client) malformed_server_firsts in
  Ok ().
Definition test_state_machine_enforced_on_client : test :=
  let* client := step_fails (client_final_message c sha256_client) AuthError_State in
  let* client := step_fails (receive_server_final c (lit "v=AAAA") client) AuthError_State in
  let* '(first, client) := stepped (client_first_message client) in
  let* client := step_fails (client_first_message client) AuthError_State in
  let* creds := sha256_credentials "pencil" in
  let* '(server_first, server) := stepped (handle_client_first c first (lit "user") creds sha256_server) in
  let* '(_, fresh) := stepped (client_first_message sha256_client) in
  let* _ := step_fails (client_final_message c fresh) AuthError_State in
  let* '(_, client) := stepped (receive_server_first c server_first client) in
  let* client := step_fails (receive_server_first c server_first client) AuthError_State in
  let* '(final_msg, client) := stepped (client_final_message c client) in
  let* client := step_fails (client_final_message c client) AuthError_State in
  let* '(server_final, _) := stepped (handle_client_final c final_msg server) in
  let* _ := stepped (receive_server_final c server_final client) in
  Ok ().
Definition test_state_machine_enforced_on_server : test :=
  let* creds := sha256_credentials "pencil" in
  let* server := step_fails (handle_client_final c (lit "c=biws,r=x,p=AAAA") sha256_server) AuthError_State in
  let* '(first, _) := stepped (client_first_message sha256_client) in
  let* '(_, server) := stepped (handle_client_first c first (lit "user") creds server) in
  let* _ := step_fails (handle_client_first c first (lit "user") creds server) AuthError_State in
  Ok ().
Definition test_malformed_client_final_rejected_by_server : test :=
  let* creds := sha256_credentials "pencil" in
  let* '(first, client) := stepped (client_first_message sha256_client) in
  let* '(_, server) := stepped (handle_client_first c first (lit "user") creds sha256_server) in
  let* '(_, client) := stepped (receive_server_first c
                         (lit "r=clientnonce123456servernonce1234567,s=MDIzNDU2Nzg=,i=4096") client) in
  let* _ := stepped (client_final_message c client) in
  let* _ := foldl (λ acc case,
      let* server := acc in
      step_fails (handle_client_final c (lit case.1) server) case.2) (Ok server)
    [("c=eHl6,r=clientnonce123456servernonce1234567,p=dGhlIHBhc3N3b3Jk"%string,
        AuthError_InvalidMessage "expected c=biws channel binding");
     ("c=biws,r=othernonce,p=dGhlIHBhc3N3b3Jk"%string, AuthError_NonceMismatch);
     ("c=biws,r=clientnonce123456servernonce1234567"%string,
        AuthError_InvalidMessage "missing p=<proof> attribute");
     ("c=biws,r=clientnonce123456servernonce1234567,p=!!!"%string,
        AuthError_InvalidMessage "invalid base64 client proof");
     ("c=biws,r=clientnonce123456servernonce1234567,p=dGhlIHBhc3N3b3Jk,z=extra"%string,
        AuthError_InvalidMessage "unexpected attribute in client-final message")] in
  Ok ().
Definition test_generated_nonces_have_sufficient_entropy (random_c random_s : bytes) : test :=
  let* client := unwrap (ScramClient_new c ScramMechanism_Sha256 (lit "user") (lit "pwd") random_c) in
  let server := ScramServer_new c ScramMechanism_Sha256 random_s in
  assert (18 <=? len (cl_client_nonce client)) ;;
  assert (18 <=? len (sv_server_nonce server)).
End Tests.

Definition rnd (k : Z) : bytes := of_u8 <$> seqZ k 18.
Definition tests_scram : list test :=
  [test_full_roundtrip_sha1 test_crypto (rnd 1) (rnd 101);
   test_full_roundtrip_sha256 test_crypto (rnd 1) (rnd 101);
   test_mongo_sha1_quirk_roundtrip test_crypto; test_wrong_password_rejected test_crypto;
   test_tampered_server_nonce_rejected_by_client test_crypto;
   test_tampered_proof_rejected_by_server test_crypto;
   test_wrong_server_signature_rejected_by_client test_crypto;
   test_truncated_server_signature_rejected test_crypto; test_server_error_message_is_surfaced test_crypto;
   test_gs2_channel_binding_rejected_by_server test_crypto;
   test_client_first_username_is_escaped test_crypto;
   test_server_first_attributes_may_be_reordered test_crypto;
   test_malformed_server_first_messages_rejected test_crypto;
   test_state_machine_enforced_on_client test_crypto; test_state_machine_enforced_on_server test_crypto;
   test_malformed_client_final_rejected_by_server test_crypto;
   test_generated_nonces_have_sufficient_entropy test_crypto (rnd 1) (rnd 101)].
Lemma tests_scram_pass : Forall passes tests_scram.
Proof. repeat (constructor; [vm_compute; reflexivity|]). constructor. Qed.

(** ** The RFC vectors *)

(** The digests of an exchange, tabulated: salted password, client key, stored
    key, server key and the two signatures over the authentication message. *)
Record Vector := mkVector {
  v_salt : str; v_auth_message : str; v_salted : bytes; v_client_key : bytes; v_stored_key : bytes;
  v_server_key : bytes; v_client_signature : bytes; v_server_signature : bytes
}.
Definition hx (s : string) : bytes := match hex_pairs (lit s) with Ok b => b | _ => [] end.
Definition rfc5802 : Vector :=
  mkVector (lit "QSXCR+Q6sek8bf92")
    (lit "n=user,r=fyko+d2lbbFgONRv9qkxdawL,r=fyko+d2lbbFgONRv9qkxdawL3rfcNHYJY1ZVvWVs7j,s=QSXCR+Q6sek8bf92,i=4096,c=biws,r=fyko+d2lbbFgONRv9qkxdawL3rfcNHYJY1ZVvWVs7j")
    (hx "1d96ee3a529b5a5f9e47c01f229a2cb8a6e15f7d")
    (hx "e234c47bf6c36696dd6d852b99aaa2ba26555728")
    (hx "e9d94660c39d65c38fbad91c358f14da0eef2bd6")
    (hx "0fe09258b3ac852ba502cc62ba903eaacdbf7d31")
    (hx "5d7138c486b0bfabdf49e3e2da8bd6e5c79db613")
    (hx "ae617da6a57c4bbb2e0286568dae1d251905b0a4").
Definition rfc7677 : Vector :=
  mkVector (lit "W22ZaJ0SNY7soEsUEjb6gQ==")
    (lit "n=user,r=rOprNGfwEbeRWgbNEkqO,r=rOprNGfwEbeRWgbNEkqO%hvYDpWUa2RaTCAfuxFIlj)hNlF$k0,s=W22ZaJ0SNY7soEsUEjb6gQ==,i=4096,c=biws,r=rOprNGfwEbeRWgbNEkqO%hvYDpWUa2RaTCAfuxFIlj)hNlF$k0")
    (hx "c4a49510323ab4f952cac1fa99441939e78ea74d6be81ddf7096e87513dc615d")
    (hx "a60fc923d67e8644a92d16b96eda5ef4656b0c725c484374be25535576996e8b")
    (hx "586e5df283e6dceb5c3e791d8b8528ec191e664045ce971792e2e6b5bb13e2a6")
    (hx "c1f3cbc1c13a9d35a14c0990eed97629ea225863e566a4314ab99f3f00e5d9d5")
    (hx "d27312467c28a40a8a7f05c73c0de33eb3cbfb4a83783b58144cf19ac6be1bdf")
    (hx "eabae24d1062db75a9451ff0b6ea7e98c8546549ff741e672d3251b2397de46e").
(** The crates at the inputs of the vector; anything else fails. *)
Definition vector_hmac (v : Vector) (key input : bytes) : option bytes :=
  if eqb key (v_salted v) && eqb input (lit "Client Key") then Some (v_client_key v)
  else if eqb key (v_salted v) && eqb input (lit "Server Key") then Some (v_server_key v)
  else if eqb key (v_stored_key v) && eqb input (v_auth_message v) then Some (v_client_signature v)
  else if eqb key (v_server_key v) && eqb input (v_auth_message v) then Some (v_server_signature v)
  else None.
Definition vector_crypto (v : Vector) : Crypto :=
  mkCrypto
    (λ _ p s i, if eqb p (lit "pencil") && eqb (Some s) (LogText.base64_decode (v_salt v)) && (i =? 4096)
                then Some (v_salted v) else None)
    (λ _, vector_hmac v)
    (λ _ x, if eqb x (v_client_key v) then v_stored_key v else [])
    (md5 toy_crypto) b64_encode LogText.base64_decode (ct_eq toy_crypto).

(** ** [auth/scram.rs] *)

(** An exchange with every message pinned. *)
Definition pinned_exchange (c : Crypto) (m : ScramMechanism) (salt64 client_nonce server_nonce : string)
    (client_first server_first client_final server_final : string) : test :=
  let* salt := unwrap_some (base64_decode c (lit salt64)) in
  let* creds := unwrap (StoredCredentials_derive c m (lit "pencil") salt 4096) in
  let client := raw_password_client_with_nonce m "user" "pencil" client_nonce in
  let server := server_with_nonce m server_nonce in
  let* '(sent, client) := stepped (client_first_message client) in
  assert_eq sent (lit client_first) ;;
  let* '(sent, server) := stepped (handle_client_first c (lit client_first) (lit "user") creds server) in
  assert_eq sent (lit server_first) ;;
  let* '(_, client) := stepped (receive_server_first c (lit server_first) client) in
  let* '(sent, client) := stepped (client_final_message c client) in
  assert_eq sent (lit client_final) ;;
  let* '(sent, server) := stepped (handle_client_final c (lit client_final) server) in
  assert_eq sent (lit server_final) ;;
  let* _ := stepped (receive_server_final c (lit server_final) client) in
  Ok ().
Definition test_rfc5802_scram_sha1_vector (c : Crypto) : test :=
  pinned_exchange c ScramMechanism_Sha1 "QSXCR+Q6sek8bf92" "fyko+d2lbbFgONRv9qkxdawL" "3rfcNHYJY1ZVvWVs7j"
    "n,,n=user,r=fyko+d2lbbFgONRv9qkxdawL"
    "r=fyko+d2lbbFgONRv9qkxdawL3rfcNHYJY1ZVvWVs7j,s=QSXCR+Q6sek8bf92,i=4096"
    "c=biws,r=fyko+d2lbbFgONRv9qkxdawL3rfcNHYJY1ZVvWVs7j,p=v0X8v3Bz2T0CJGbJQyF0X+HI4Ts="
    "v=rmF9pqV8S7suAoZWja4dJRkFsKQ=".
Definition test_rfc7677_scram_sha256_vector (c : Crypto) : test :=
  pinned_exchange c ScramMechanism_Sha256 "W22ZaJ0SNY7soEsUEjb6gQ==" "rOprNGfwEbeRWgbNEkqO"
    "%hvYDpWUa2RaTCAfuxFIlj)hNlF$k0" "n,,n=user,r=rOprNGfwEbeRWgbNEkqO"
    "r=rOprNGfwEbeRWgbNEkqO%hvYDpWUa2RaTCAfuxFIlj)hNlF$k0,s=W22ZaJ0SNY7soEsUEjb6gQ==,i=4096"
    "c=biws,r=rOprNGfwEbeRWgbNEkqO%hvYDpWUa2RaTCAfuxFIlj)hNlF$k0,p=dHzbZapWIk4jUhN+Ute9ytag9zjfMHgsqmmiz7AndVQ="
    "v=6rriTRBi23WpRR/wtup+mMhUZUn/dB5nLTJRsjl95G4=".
Lemma rfc_vectors_pass :
  passes (test_rfc5802_scram_sha1_vector (vector_crypto rfc5802)) ∧
  passes (test_rfc7677_scram_sha256_vector (vector_crypto rfc7677)).
Proof. split; vm_compute; reflexivity. Qed.
