(* ===== verification/TestsServer.v ===== *)
(** * The unit tests of the server, replayed

    The tests of [api/response.rs], [test_client.rs] and [api/mod.rs]: the
    server tests run the pool of tasks of [Serve], from the accepted connection
    to the reply bytes the client parses.  The clock, the checksum and the
    compressors are those of [TestsWire]. *)
From stdpp Require Import base list numbers strings.
From Stdlib Require Import ZArith Lia.
From S2P Require Import Prelude Utf8 StrOps Io Consts BsonScalar F64 BsonValue Convert BsonEncode BsonDecode Fuzz.
From S2P Require Import Header OpMsg OpLegacy OpCompressed Message Framing Compressors.
From S2P Require Import Auth Scram Api SaslBridge Server Client Serve.
From S2P Require Import TestKit TestsMessages Recorded TestsWire TestsFraming.
Local Open Scope Z_scope.

(** The environment of every call: a clock after the epoch and random bytes. *)
Definition test_env : Env := mkEnv 1700000000123000000 (replicate 18 x2a).
Definition test_turn : Turn := mkTurn test_env None.

(** ** [api/response.rs] *)

Definition reply_body (msg : OpMsg) : outcome Empty_set Document :=
  unwrap (RawDocument_shallow (OpMsg_document msg)).
Definition assert_get (doc : Document) (name : string) (v : option Bson) : test :=
  assert_eq (Document_get doc (lit name)) v.
Definition test_hello_reply_fields (env : Env) : test :=
  let* msg := unwrap (handshake_reply env [] 48000000 false) in
  let* doc := reply_body msg in
  assert_get doc "ok" (Some (Bson_Double f64_1)) ;;
  assert_get doc "isWritablePrimary" (Some (Bson_Bool true)) ;;
  assert_get doc "ismaster" None ;;
  assert_get doc "helloOk" (Some (Bson_Bool true)) ;;
  assert_get doc "maxBsonObjectSize" (Some (Bson_Int32 16777216)) ;;
  assert_get doc "maxMessageSizeBytes" (Some (Bson_Int32 48000000)) ;;
  assert_get doc "maxWriteBatchSize" (Some (Bson_Int32 100000)) ;;
  assert_get doc "logicalSessionTimeoutMinutes" (Some (Bson_Int32 30)) ;;
  assert_get doc "connectionId" (Some (Bson_Int32 1)) ;;
  assert_get doc "minWireVersion" (Some (Bson_Int32 0)) ;;
  assert_get doc "maxWireVersion" (Some (Bson_Int32 21)) ;;
  assert_get doc "readOnly" (Some (Bson_Bool false)) ;;
  let* v := unwrap_some (Document_get doc (lit "localTime")) in
  let* ms := match v with Bson_DateTime ms => Ok ms | _ => Panic end in
  let now := now env / 1000000 in
  assert (Z.abs (ms - now) <? 60000) ;;
  assert_get doc "compression" None ;;
  assert_eq (flags msg) empty_flags ;;
  assert_eq (checksum msg) None.
Definition test_legacy_is_master_reply_uses_legacy_key : test :=
  let* msg := unwrap (handshake_reply test_env [] 48000000 true) in
  let* doc := reply_body msg in
  assert_get doc "ismaster" (Some (Bson_Bool true)) ;;
  assert_get doc "isWritablePrimary" None.
Definition test_compression_array_lists_names_in_preference_order : test :=
  let compressors := [CompressorId_Zlib; CompressorId_Snappy; CompressorId_Zstd; CompressorId_Noop] in
  let* msg := unwrap (handshake_reply test_env compressors 48000000 false) in
  let* doc := reply_body msg in
  assert_get doc "compression" (Some (Bson_Array [text "zlib"; text "snappy"; text "zstd"; text "noop"])).
Definition test_ping_reply_is_ok_only : test :=
  let* msg := unwrap ping_reply in
  let* doc := reply_body msg in
  assert_eq (Document_len doc) 1 ;;
  assert_get doc "ok" (Some (Bson_Double f64_1)).

(** ** [test_client.rs] *)

Definition ping_body : outcome Empty_set MessageBody :=
  let* doc := raw [("ping", Bson_Int32 1)]%string in
  let* msg := unwrap (OpMsg_new empty_flags doc []) in
  Ok (MessageBody_Msg msg).
Definition test_handshake_frame_roundtrips_through_framing : test :=
  let* request := is_master in
  let* frame := unwrap (frame_bytes castagnoli 5 0 (MessageBody_Query (OpQuery_handshake request)) false) in
  let* '(header, parsed, _) := parsed_of frame in
  assert_eq (request_id header) 5 ;;
  assert_eq (response_to header) 0 ;;
  let* q := expect_query parsed in
  assert_eq (full_collection_name q) (lit "admin.$cmd") ;;
  assert_eq (number_to_return q) (-1) ;;
  assert_eq (query q) request.
Definition test_checksummed_frame_roundtrips_through_framing : test :=
  let* body := ping_body in
  let* frame := unwrap (frame_bytes castagnoli 9 0 body true) in
  let* '(header, parsed, _) := parsed_of frame in
  assert_eq (request_id header) 9 ;;
  let* msg := expect_msg parsed in
  assert (flags_contains (flags msg) CHECKSUM_PRESENT) ;;
  let* c := unwrap_some (checksum msg) in
  assert_eq c (crc_checksum castagnoli (takeZ (len frame - 4) frame)) ;;
  let* ping := raw [("ping", Bson_Int32 1)]%string in
  assert_eq (OpMsg_document msg) ping.

(** ** [api/mod.rs] *)

Definition names (l : list string) : Bson := Bson_Array (text <$> l).
Definition test_negotiate_intersects_in_server_preference_order : test :=
  let configured := [CompressorId_Zlib; CompressorId_Snappy; CompressorId_Zstd] in
  let requested := [lit "zstd"; lit "snappy"; lit "noop"] in
  assert_eq (negotiate configured (Some requested)) [CompressorId_Snappy; CompressorId_Zstd] ;;
  assert_eq (negotiate configured None) [] ;;
  assert_eq (negotiate [] (Some requested)) [].
Definition test_requested_compressors_reads_the_handshake_field : test :=
  let* body := raw [("hello", Bson_Int32 1);
                    ("compression", Bson_Array [text "snappy"; Bson_Int32 1; text "zlib"])]%string in
  let* r := requested_compressors body in
  assert_eq r (Some [lit "snappy"; lit "zlib"]) ;;
  let* body := raw [("hello", Bson_Int32 1)]%string in
  let* r := requested_compressors body in
  assert_eq r None ;;
  let* body := raw [("hello", Bson_Int32 1); ("compression", Bson_Null)]%string in
  let* r := requested_compressors body in
  assert_eq r None.
(** An OP_MSG request document. *)
Definition msg (fl : MsgFlags) (pairs : list (string * Bson)) : outcome Empty_set MessageBody :=
  let* doc := raw pairs in
  let* m := unwrap (op_msg fl doc) in
  Ok (MessageBody_Msg m).
Definition reply_doc (reply : MessageBody) : outcome Empty_set Document :=
  let* m := expect_msg reply in reply_body m.
Definition test_command_errors_become_op_msg_error_bodies : test :=
  let err := WireError_command 59 (lit "CommandNotFound") (lit "no such command") in
  let* request := msg empty_flags [("ping", Bson_Int32 1)]%string in
  let* reply := error_reply err request in
  let* reply := unwrap_some reply in
  let* m := expect_msg reply in
  assert_eq (flags m) empty_flags ;;
  let* doc := reply_body m in
  assert_get doc "ok" (Some (Bson_Double 0)) ;;
  assert_get doc "errmsg" (Some (text "no such command")) ;;
  assert_get doc "code" (Some (Bson_Int32 59)) ;;
  assert_get doc "codeName" (Some (text "CommandNotFound")).
Definition test_query_errors_become_op_reply_query_failures : test :=
  let err := WireError_command 59 (lit "CommandNotFound") (lit "OP_QUERY only supports hello/isMaster") in
  let* doc := raw [("find", text "x")]%string in
  let* reply := error_reply err (MessageBody_Query (OpQuery_handshake doc)) in
  let* reply := unwrap_some reply in
  let* r := expect_reply reply in
  assert (flags_contains (response_flags r) QUERY_FAILURE) ;;
  assert_eq (number_returned r) 1 ;;
  let* d := unwrap_some (head (reply_documents r)) in
  let* doc := unwrap (RawDocument_shallow d) in
  assert_get doc "ok" (Some (Bson_Double 0)) ;;
  assert_get doc "code" (Some (Bson_Int32 59)).
Definition test_protocol_errors_have_no_reply : test :=
  let* request := msg empty_flags [("ping", Bson_Int32 1)]%string in
  let* reply := error_reply (WireError_Protocol (ProtocolError_ChecksumMismatch 1 2)) request in
  assert (negb (is_some reply)).

Inductive EchoHandler := mkEcho.
Definition EchoHandler_handle_command (_ : EchoHandler) (_ : Env) (ctx : ConnectionInfo) (command : Command)
  : outcome WireError Reply * ConnectionInfo :=
  (if str_eqb (cmd_name command) (lit "echo") then
     let* doc := or_panic (raw [("ok", Bson_Double f64_1); ("echo", Bson_String (cmd_name command))]%string) in
     let* m := op_msg empty_flags doc in
     Ok (Reply_Msg m)
   else Err (WireError_command 59 (lit "CommandNotFound") (lit "unknown command " ++ cmd_name command)), ctx).
#[export] Instance EchoHandler_handler : CommandHandler EchoHandler := EchoHandler_handle_command.
Definition test_handlers (compressors : list CompressorId) : BuiltinHandler EchoHandler :=
  mkBuiltin mkEcho compressors MAX_MSG_LEN.

(** The server under test: its handler, its configuration and its tasks. *)
Record Running := mkRunning {
  run_handler : BuiltinHandler EchoHandler; run_config : ServerConfig; run_pool : list Task
}.
Definition spawn_server (handler : BuiltinHandler EchoHandler) (config : ServerConfig) : Running :=
  mkRunning handler config [].
Definition events (s : Running) (tr : list Event) : outcome Empty_set Running :=
  let* w := expect (run_events castagnoli default_build (run_config s) (run_handler s) (run_pool s) tr) in
  Ok (mkRunning (run_handler s) (run_config s) w).
(** A client: its connection, and how much of the server's output it has read. *)
Definition TestConn : Type := nat * Z.
Definition conn_open (s : Running) : outcome Empty_set (TestConn * Running) :=
  let* s' := events s [Accepted None] in
  Ok ((length (run_pool s), 0), s').
(** Bytes arrive at the server, which takes the turn they complete. *)
Definition deliver (s : Running) (conn : TestConn) (frame : bytes) : outcome Empty_set Running :=
  events s [Received conn.1 frame; Polled conn.1 test_turn].
Definition conn_send (s : Running) (conn : TestConn) (id : Z) (body : MessageBody) : outcome Empty_set Running :=
  let* frame := unwrap (to_bytes castagnoli (Header_new id 0 (MessageBody_opcode body)) body false).1 in
  deliver s conn frame.
(** What the server has written to this client and the client has not read, and
    whether the connection is closed. *)
Definition unread (s : Running) (conn : TestConn) : outcome Empty_set (bytes * bool) :=
  let* t := expect (run_pool s !! conn.1) in
  Ok (dropZ conn.2 (task_out t), is_some (task_result t)).
(** The next message; [None] is the end of the stream. *)
Definition conn_recv (s : Running) (conn : TestConn)
  : outcome Empty_set (option (Header * MessageBody) * TestConn) :=
  let* '(buf, closed) := unread s conn in
  let '(r, rest) := Framing.parse_message castagnoli buf i32_max in
  let* m := unwrap r in
  match m with
  | Some m => Ok (Some m, (conn.1, conn.2 + (len buf - len rest)))
  | None => assert (is_empty rest && closed) ;; Ok (None, conn)
  end.
(** [send], [recv] and [expect("connection closed")]. *)
Definition ask (s : Running) (conn : TestConn) (id : Z) (body : MessageBody)
  : outcome Empty_set (Header * MessageBody * TestConn * Running) :=
  let* s := conn_send s conn id body in
  let* '(m, conn) := conn_recv s conn in
  let* m := unwrap_some m in
  Ok (m, conn, s).

Definition server_session (handler : BuiltinHandler EchoHandler) (config : ServerConfig)
  : outcome Empty_set (TestConn * Running) := conn_open (spawn_server handler config).
Definition default_session : outcome Empty_set (TestConn * Running) :=
  server_session (test_handlers []) ServerConfig_default.

Definition test_hello_over_op_msg : test :=
  let* '(conn, s) := default_session in
  let* request := msg empty_flags [("hello", Bson_Int32 1)]%string in
  let* '(header, reply, _, _) := ask s conn 7 request in
  assert_eq (op_code header) Opcode_Msg ;;
  assert_eq (response_to header) 7 ;;
  let* doc := reply_doc reply in
  assert_get doc "ok" (Some (Bson_Double f64_1)) ;;
  assert_get doc "isWritablePrimary" (Some (Bson_Bool true)) ;;
  let* m := expect_msg reply in
  assert (flags_contains (flags m) CHECKSUM_PRESENT) ;;
  assert (is_some (checksum m)).
Definition test_ping_over_op_msg : test :=
  let* '(conn, s) := default_session in
  let* request := msg empty_flags [("ping", Bson_Int32 1)]%string in
  let* '(header, reply, _, _) := ask s conn 8 request in
  assert_eq (response_to header) 8 ;;
  let* doc := reply_doc reply in
  assert_get doc "ok" (Some (Bson_Double f64_1)).
Definition test_echo_is_forwarded_past_the_builtin_handler : test :=
  let* '(conn, s) := default_session in
  let* request := msg empty_flags [("echo", Bson_Int32 1)]%string in
  let* '(_, reply, _, _) := ask s conn 9 request in
  let* doc := reply_doc reply in
  assert_get doc "ok" (Some (Bson_Double f64_1)) ;;
  assert_get doc "echo" (Some (text "echo")).
Definition test_hello_negotiates_compression_with_op_msg : test :=
  let* '(conn, s) := server_session (test_handlers [CompressorId_Zlib; CompressorId_Snappy])
                       ServerConfig_default in
  let* request := msg empty_flags [("hello", Bson_Int32 1);
                                   ("compression", names ["zstd"; "snappy"])]%string in
  let* '(_, reply, _, _) := ask s conn 10 request in
  let* doc := reply_doc reply in
  assert_get doc "compression" (Some (names ["snappy"]%string)).
Definition test_hello_over_op_query_gets_an_op_reply : test :=
  let config := mkServerConfig MAX_MSG_LEN true [CompressorId_Snappy] in
  let* '(conn, s) := server_session (test_handlers (cfg_compressors config)) config in
  let* request := raw [("ismaster", Bson_Bool true); ("compression", names ["snappy"])]%string in
  let* '(header, reply, _, _) := ask s conn 11 (MessageBody_Query (OpQuery_handshake request)) in
  assert_eq (op_code header) Opcode_Reply ;;
  assert_eq (response_to header) 11 ;;
  let* r := expect_reply reply in
  assert (flags_contains (response_flags r) AWAIT_CAPABLE) ;;
  assert (negb (flags_contains (response_flags r) QUERY_FAILURE)) ;;
  assert_eq (number_returned r) 1 ;;
  let* d := unwrap_some (head (reply_documents r)) in
  let* doc := unwrap (RawDocument_shallow d) in
  assert_get doc "ok" (Some (Bson_Double f64_1)) ;;
  assert_get doc "ismaster" (Some (Bson_Bool true)) ;;
  assert_get doc "compression" (Some (names ["snappy"]%string)).
Definition test_non_handshake_op_query_gets_a_query_failure : test :=
  let* '(conn, s) := default_session in
  let* request := raw [("find", text "coll")]%string in
  let* '(header, reply, conn, s) := ask s conn 12 (MessageBody_Query (OpQuery_handshake request)) in
  assert_eq (op_code header) Opcode_Reply ;;
  assert_eq (response_to header) 12 ;;
  let* r := expect_reply reply in
  assert (flags_contains (response_flags r) QUERY_FAILURE) ;;
  let* d := unwrap_some (head (reply_documents r)) in
  let* doc := unwrap (RawDocument_shallow d) in
  assert_get doc "ok" (Some (Bson_Double 0)) ;;
  let* ping := msg empty_flags [("ping", Bson_Int32 1)]%string in
  let* '(_, reply, _, _) := ask s conn 13 ping in
  let* doc := reply_doc reply in
  assert_get doc "ok" (Some (Bson_Double f64_1)).
Definition test_unknown_command_gets_an_error_reply : test :=
  let* '(conn, s) := default_session in
  let* request := msg empty_flags [("fooey", Bson_Int32 1)]%string in
  let* '(header, reply, _, _) := ask s conn 14 request in
  assert_eq (response_to header) 14 ;;
  let* doc := reply_doc reply in
  assert_get doc "ok" (Some (Bson_Double 0)) ;;
  assert_get doc "code" (Some (Bson_Int32 59)) ;;
  assert_get doc "codeName" (Some (text "CommandNotFound")) ;;
  assert (is_some (Document_get doc (lit "errmsg"))).
(** The wait for a reply: nothing has been written, and nothing more happens
    while the client is silent. *)
Definition test_more_to_come_requests_get_no_reply : test :=
  let* '(conn, s) := default_session in
  let* request := msg MORE_TO_COME [("ping", Bson_Int32 1)]%string in
  let* s := conn_send s conn 15 request in
  let* '(out, closed) := unread s conn in
  assert_eq out [] ;;
  assert (negb closed) ;;
  assert (negb (is_some (run_events castagnoli default_build (run_config s) (run_handler s) (run_pool s)
                           [Polled conn.1 test_turn]))).
Definition test_no_checksum_config_does_not_checksum : test :=
  let config := mkServerConfig MAX_MSG_LEN false [] in
  let* '(conn, s) := server_session (test_handlers []) config in
  let* request := msg empty_flags [("ping", Bson_Int32 1)]%string in
  let* '(_, reply, _, _) := ask s conn 16 request in
  let* m := expect_msg reply in
  assert (negb (flags_contains (flags m) CHECKSUM_PRESENT)) ;;
  assert_eq (checksum m) None.
Definition test_protocol_error_closes_the_connection : test :=
  let* '(conn, s) := default_session in
  let* request := msg CHECKSUM_PRESENT [("ping", Bson_Int32 1)]%string in
  let* frame := unwrap (to_bytes castagnoli (Header_new 17 0 Opcode_Msg) request true).1 in
  let* frame := flip frame (len frame - 1) 255 in
  let* s := deliver s conn frame in
  let* '(received, _) := conn_recv s conn in
  assert (negb (is_some received)).
Definition test_clean_eof_ends_process_socket : test :=
  let* '(conn, s) := default_session in
  let* ping := msg empty_flags [("ping", Bson_Int32 1)]%string in
  let* '(_, _, conn, s) := ask s conn 18 ping in
  let* s := events s [Eof conn.1] in
  let* '(conn, s) := conn_open s in
  let* '(_, reply, _, _) := ask s conn 19 ping in
  let* doc := reply_doc reply in
  assert_get doc "ok" (Some (Bson_Double f64_1)).
Definition test_builtin_handler_updates_negotiated_compressors : test :=
  let handler := test_handlers [CompressorId_Snappy] in
  let* body := raw [("hello", Bson_Int32 1); ("compression", names ["snappy"])]%string in
  let '(r, ctx) := handle_command handler test_env ConnectionInfo_new
                     (mkCommand (lit "hello") body [] empty_flags) in
  let* reply := unwrap r in
  let* m := match reply with Reply_Msg m => Ok m | Reply_NoReply => Panic end in
  let* doc := reply_body m in
  assert_get doc "isWritablePrimary" (Some (Bson_Bool true)) ;;
  assert_eq (negotiated_compressors ctx) [CompressorId_Snappy] ;;
  let* body := raw [("isMaster", Bson_Int32 1)]%string in
  let '(r, ctx) := handle_command handler test_env ctx (mkCommand (lit "isMaster") body [] empty_flags) in
  let* reply := unwrap r in
  let* m := match reply with Reply_Msg m => Ok m | Reply_NoReply => Panic end in
  let* doc := reply_body m in
  assert_get doc "ismaster" (Some (Bson_Bool true)) ;;
  assert_get doc "compression" None ;;
  assert_eq (negotiated_compressors ctx) [].

Definition tests_server : list test :=
  [test_hello_reply_fields test_env; test_legacy_is_master_reply_uses_legacy_key;
   test_compression_array_lists_names_in_preference_order; test_ping_reply_is_ok_only;
   test_handshake_frame_roundtrips_through_framing; test_checksummed_frame_roundtrips_through_framing;
   test_negotiate_intersects_in_server_preference_order;
   test_requested_compressors_reads_the_handshake_field;
   test_command_errors_become_op_msg_error_bodies; test_query_errors_become_op_reply_query_failures;
   test_protocol_errors_have_no_reply; test_hello_over_op_msg; test_ping_over_op_msg;
   test_echo_is_forwarded_past_the_builtin_handler; test_hello_negotiates_compression_with_op_msg;
   test_hello_over_op_query_gets_an_op_reply; test_non_handshake_op_query_gets_a_query_failure;
   test_unknown_command_gets_an_error_reply; test_more_to_come_requests_get_no_reply;
   test_no_checksum_config_does_not_checksum; test_protocol_error_closes_the_connection;
   test_clean_eof_ends_process_socket; test_builtin_handler_updates_negotiated_compressors].
Lemma tests_server_pass : Forall passes tests_server.
Proof. repeat (constructor; [vm_compute; reflexivity|]). constructor. Qed.
