(* ===== verification/TestsAuth.v ===== *)
(** * The unit tests of the SASL bridge, replayed

    The tests of [api/auth.rs], with the cryptography of [TestsScram]. *)
From stdpp Require Import base list numbers strings gmap.
From Stdlib Require Import ZArith Lia.
From S2P Require Import Prelude Utf8 StrOps Io Consts BsonScalar F64 BsonValue Convert BsonEncode BsonDecode Fuzz.
From S2P Require Import Header OpMsg OpLegacy OpCompressed Message Framing Compressors.
From S2P Require Import Auth Scram ScramCorrect Api SaslBridge Server.
From S2P Require Import TestKit TestsMessages TestsWire TestsScram TestsServer.
Local Open Scope Z_scope.

(** ** [api/auth.rs] *)

#[export] Instance StoredCredentials_eq_dec : EqDecision StoredCredentials.
Proof. solve_decision. Defined.
#[local] Abbreviation c := test_crypto.
#[local] Existing Instance ScramBridge_handler.

(** The probe answers every command it receives; its counter is never read. *)
Inductive ForwardProbe := mkProbe.
Definition ForwardProbe_handle_command (_ : ForwardProbe) (_ : Env) (ctx : ConnectionInfo) (_ : Command)
  : outcome WireError Reply * ConnectionInfo :=
  (let* m := or_panic ping_reply in Ok (Reply_Msg m), ctx).
#[export] Instance ForwardProbe_handler : CommandHandler ForwardProbe := ForwardProbe_handle_command.

Abbreviation TestBridge := (ScramBridge ForwardProbe MemoryCredentialSource).
Definition store : outcome Empty_set MemoryCredentialSource :=
  let* s := unwrap (MemoryCredentialSource_insert c MemoryCredentialSource_default
              ScramMechanism_Sha256 (lit "ada") (lit "lovelace")) in
  unwrap (MemoryCredentialSource_insert c s ScramMechanism_Sha1 (lit "grace") (lit "hopper")).
Definition bridge (store : MemoryCredentialSource) : TestBridge := mkBridge mkProbe store.
Definition sasl_command (name : string) (mechanism : option str) (payload : str)
    (extra : list (str * Bson)) : outcome Empty_set Command :=
  let doc := Document_add Document_new (lit name) (Bson_Int32 1) in
  let doc := match mechanism with
             | Some m => Document_add doc (lit "mechanism") (Bson_String m)
             | None => doc
             end in
  let doc := Document_add doc (lit "payload") (Bson_Binary (mkBinary BinarySubtype_Generic payload)) in
  let doc := Document_add doc (lit "conversationId") (Bson_Int32 1) in
  let doc := foldl (λ doc kv, Document_add doc kv.1 kv.2) doc extra in
  let doc := Document_add doc (lit "$db") (text "admin") in
  let* body := unwrap (Document_encode doc) in
  Ok (mkCommand (lit name) body [] empty_flags).
Definition handle (bridge : TestBridge) (ctx : ConnectionInfo) (command : Command)
  : outcome WireError Document * ConnectionInfo :=
  let '(r, ctx) := ScramBridge_handle_command c bridge test_env ctx command in
  (let* reply := r in
   match reply with Reply_Msg m => or_panic (reply_body m) | Reply_NoReply => Panic end, ctx).
Definition reply_payload (reply : Document) : outcome WireError str :=
  match Document_get reply (lit "payload") with
  | Some (Bson_Binary b) =>
      let* _ := assert (eqb (subtype b) BinarySubtype_Generic) in
      or_panic (from_utf8 (binary_bytes b))
  | _ => Panic
  end.
(** The assertions on a SASL reply. *)
Definition check_reply (reply : Document) (finished : bool) : outcome WireError () :=
  let* _ := assert (eqb (Document_get reply (lit "ok")) (Some (Bson_Double f64_1))) in
  let* _ := assert (eqb (Document_get reply (lit "conversationId")) (Some (Bson_Int32 1))) in
  assert (eqb (Document_get reply (lit "done")) (Some (Bson_Bool finished))).
(** A full exchange through the bridge; [Err] is the error of a step. *)
Definition bridge_exchange (store : MemoryCredentialSource) (m : ScramMechanism) (user password : str)
  : outcome WireError () :=
  let bridge := bridge store in
  let* client := or_panic (ScramClient_new c m user password (rnd 1)) in
  let '(r, client) := client_first_message client in
  let* first := or_panic r in
  let* command := or_panic (sasl_command "saslStart" (Some (ScramMechanism_name m)) first []) in
  let '(r, ctx) := handle bridge ConnectionInfo_new command in
  let* reply := r in
  let* _ := check_reply reply false in
  let* payload := reply_payload reply in
  let '(r, client) := receive_server_first c payload client in
  let* _ := or_panic r in
  let '(r, client) := client_final_message c client in
  let* final_msg := or_panic r in
  let* command := or_panic (sasl_command "saslContinue" None final_msg []) in
  let '(r, ctx) := handle bridge ctx command in
  let* reply := r in
  let* _ := check_reply reply true in
  let* payload := reply_payload reply in
  let* _ := or_panic (receive_server_final c payload client).1 in
  let* _ := assert (eqb (authenticated (auth ctx)) (Some user)) in
  assert (negb (is_some (scram (auth ctx)))).
Definition is_auth_failed (e : WireError) : bool :=
  match e with WireError_Command code _ _ => code =? AUTHENTICATION_FAILED | _ => false end.

Definition test_scram_sha256_happy_path : test :=
  let* s := store in assert_ok (bridge_exchange s ScramMechanism_Sha256 (lit "ada") (lit "lovelace")).
Definition test_scram_sha1_happy_path : test :=
  let* s := store in assert_ok (bridge_exchange s ScramMechanism_Sha1 (lit "grace") (lit "hopper")).
Definition test_wrong_password_fails_with_authentication_failed : test :=
  let* s := store in
  assert_err_if (λ e,
    match e with
    | WireError_Command code code_name message =>
        (code =? AUTHENTICATION_FAILED) && eqb code_name (lit "AuthenticationFailed")
        && contains (lit "client proof mismatch") message
    | _ => false
    end) (bridge_exchange s ScramMechanism_Sha256 (lit "ada") (lit "wrong")).
Definition test_unknown_user_fails_without_leaking_why : test :=
  let* s := store in
  assert_err_if is_auth_failed (bridge_exchange s ScramMechanism_Sha256 (lit "nobody") (lit "whatever")).
Definition first_message (random : bytes) (user password : str) : outcome Empty_set str :=
  let* client := unwrap (ScramClient_new c ScramMechanism_Sha256 user password random) in
  unwrap (client_first_message client).1.
Definition test_string_payloads_are_accepted : test :=
  let* s := store in
  let* first := first_message (rnd 1) (lit "ada") (lit "lovelace") in
  let* body := raw [("saslStart", Bson_Int32 1); ("mechanism", text "SCRAM-SHA-256");
                    ("payload", Bson_String first); ("$db", text "admin")]%string in
  let* reply := unwrap (handle (bridge s) ConnectionInfo_new
                          (mkCommand (lit "saslStart") body [] empty_flags)).1 in
  assert_get reply "ok" (Some (Bson_Double f64_1)).
Definition test_unsupported_mechanism_is_rejected : test :=
  let* s := store in
  let* command := sasl_command "saslStart" (Some (lit "SCRAM-SHA-3")) (lit "n,,n=ada,r=nonce") [] in
  assert_err_if is_auth_failed (handle (bridge s) ConnectionInfo_new command).1.
Definition test_sasl_continue_without_start_is_rejected : test :=
  let* s := store in
  let* command := sasl_command "saslContinue" None (lit "c=biws,r=x,p=AAAA") [] in
  assert_err_if is_auth_failed (handle (bridge s) ConnectionInfo_new command).1.
Definition test_second_sasl_start_while_in_flight_is_rejected : test :=
  let* s := store in
  let* first := first_message (rnd 1) (lit "ada") (lit "lovelace") in
  let* command := sasl_command "saslStart" (Some (lit "SCRAM-SHA-256")) first [] in
  let '(r, ctx) := handle (bridge s) ConnectionInfo_new command in
  let* _ := unwrap r in
  let* other_first := first_message (rnd 51) (lit "ada") (lit "lovelace") in
  let* command := sasl_command "saslStart" (Some (lit "SCRAM-SHA-256")) other_first [] in
  assert_err_if is_auth_failed (handle (bridge s) ctx command).1.
Definition test_missing_or_wrong_typed_fields_are_rejected : test :=
  let* s := store in
  let* body := raw [("saslStart", Bson_Int32 1); ("mechanism", text "SCRAM-SHA-256")]%string in
  let '(r, ctx) := handle (bridge s) ConnectionInfo_new (mkCommand (lit "saslStart") body [] empty_flags) in
  assert_err_if is_auth_failed r ;;
  let* body := raw [("saslStart", Bson_Int32 1); ("payload", text "n,,n=ada,r=nonce")]%string in
  assert_err_if is_auth_failed (handle (bridge s) ctx (mkCommand (lit "saslStart") body [] empty_flags)).1.
Definition test_other_commands_are_forwarded_to_the_inner_handler : test :=
  let* s := store in
  let* body := raw [("ping", Bson_Int32 1); ("$db", text "admin")]%string in
  let* body := unwrap (RawDocument_from_vec body) in
  let* reply := unwrap (ScramBridge_handle_command c (bridge s) test_env ConnectionInfo_new
                          (mkCommand (lit "ping") body [] empty_flags)).1 in
  assert (match reply with Reply_Msg _ => true | Reply_NoReply => false end).
Definition test_username_escaping_is_undone : test :=
  assert_eq (parse_client_first_username (lit "n,,n=co=3Dmma=2Cuser,r=nonce")) (Some (lit "co=mma,user")) ;;
  assert_eq (parse_client_first_username (lit "n,,n=plain,r=x")) (Some (lit "plain")) ;;
  assert_eq (parse_client_first_username (lit "n,,r=noname")) None ;;
  assert_eq (parse_client_first_username []) None.
Definition test_escaped_usernames_authenticate_end_to_end : test :=
  let* s := unwrap (MemoryCredentialSource_insert c MemoryCredentialSource_default
              ScramMechanism_Sha256 (lit "co=mma,user") (lit "pw")) in
  assert_ok (bridge_exchange s ScramMechanism_Sha256 (lit "co=mma,user") (lit "pw")).
Definition test_memory_store_derives_mechanism_appropriate_credentials : test :=
  let* s := store in
  let* salted := unwrap_some (MemoryCredentialSource_lookup s ScramMechanism_Sha1 (lit "grace")) in
  let* reference := unwrap (StoredCredentials_derive c ScramMechanism_Sha1
                      (mongo_sha1_password c (lit "grace") (lit "hopper")) (of_u8 <$> seqZ 0 16)
                      (ScramMechanism_default_iterations ScramMechanism_Sha1)) in
  assert_eq salted reference ;;
  assert (negb (is_some (MemoryCredentialSource_lookup s ScramMechanism_Sha256 (lit "grace")))).

Definition tests_auth : list test :=
  [test_scram_sha256_happy_path; test_scram_sha1_happy_path;
   test_wrong_password_fails_with_authentication_failed; test_unknown_user_fails_without_leaking_why;
   test_string_payloads_are_accepted; test_unsupported_mechanism_is_rejected;
   test_sasl_continue_without_start_is_rejected; test_second_sasl_start_while_in_flight_is_rejected;
   test_missing_or_wrong_typed_fields_are_rejected;
   test_other_commands_are_forwarded_to_the_inner_handler; test_username_escaping_is_undone;
   test_escaped_usernames_authenticate_end_to_end;
   test_memory_store_derives_mechanism_appropriate_credentials].
Lemma tests_auth_pass : Forall passes tests_auth.
Proof. repeat (constructor; [vm_compute; reflexivity|]). constructor. Qed.
