(* ===== verification/TestsGolden.v ===== *)
(** * The suites of wirebson's tests directory and of [tests/roundtrip.rs]

    [wirebson/tests/golden.rs]: recorded documents decode and re-encode byte for
    byte.  [mongowire/tests/roundtrip.rs]: the property tests, with the strategies
    as predicates on the values they produce, proved for every such value. *)
From stdpp Require Import base list numbers strings.
From Stdlib Require Import ZArith Lia.
From S2P Require Import Prelude Utf8 StrOps Io Consts BsonScalar F64 BsonValue Convert BsonEncode BsonDecode BsonRoundtrip Fuzz.
From S2P Require Import LogText LogQuote Header OpMsg OpLegacy OpCompressed Message Framing Compressors.
From S2P Require Import TestKit TestsBson TestsMessages TestsWire TestsFraming RecordedBson.
Local Open Scope Z_scope.

(** ** [wirebson/tests/golden.rs] *)

(** [usize::from_str_radix(tok, 16).expect(..)]; the tokens carry no sign. *)
Definition usize_from_hex (tok : str) : outcome Empty_set Z :=
  let* _ := assert (negb (is_empty tok)) in
  let* v := foldl (λ acc b, let* v := acc in let* d := expect (hex_digit b) in Ok (16 * v + d)) (Ok 0) tok in
  let* _ := assert (v <=? u64_max) in
  Ok v.
(** One line of a dump, appended to [out]. *)
Definition parse_hexdump_line (out : bytes) (line : str) : outcome Empty_set bytes :=
  match split_whitespace line with
  | [] => Ok out
  | _ =>
      let* hex_part := expect (head (split_on bar line)) in
      match split_whitespace hex_part with
      | [] => Panic
      | off :: tokens =>
          let* offset := usize_from_hex off in
          let* _ := assert_eq offset (len out) in
          let* row := mapM_outcome (λ tok, let* _ := assert_eq (len tok) 2 in u8_from_hex tok) tokens in
          Ok (out ++ row)
      end
  end.
Definition parse_hexdump (text : str) : outcome Empty_set bytes :=
  foldl (λ acc line, let* out := acc in parse_hexdump_line out line) (Ok []) (split_on line_feed text).
Definition load (dump : string) : outcome Empty_set bytes := parse_hexdump (lit dump).

(** [fields().collect::<Result<_, _>>().unwrap()], names only. *)
Fixpoint fields_names (fuel : nat) (it : FieldsIter) : outcome Empty_set (list str) :=
  match fuel with
  | O => Fuel
  | S fuel =>
      let* '(item, it) := unwrap (FieldsIter_next it) in
      match item with
      | None => Ok []
      | Some (inl _) => Panic
      | Some (inr (name, _)) => let* rest := fields_names fuel it in Ok (name :: rest)
      end
  end.
(** Both decode depths re-encode to the input. *)
Definition both_reencode (raw : RawDocument) (bytes : bytes) : test :=
  for_each (λ decode : RawDocument → outcome BsonError Document,
    let* decoded := unwrap (decode raw) in
    let* enc := unwrap (Document_encode decoded) in
    assert_eq enc bytes) [RawDocument_shallow; RawDocument_deep].
Definition array_at (doc : Document) (name : string) : outcome Empty_set Array :=
  match Document_get doc (lit name) with Some (Bson_Array arr) => Ok arr | _ => Panic end.

Definition test_all_roundtrips_byte_exactly : test :=
  let* bytes := load all_hex in
  let* raw := unwrap (RawDocument_from_bytes bytes) in
  let* c := unwrap (RawDocument_command raw) in
  assert_eq c (lit "document") ;;
  let* fields := fields_names (length bytes) (RawDocument_fields raw) in
  assert_eq fields (lit <$> ["document"; "array"; "float64"; "string"; "binary"; "undefined"; "objectID";
    "bool"; "datetime"; "null"; "regex"; "int32"; "timestamp"; "int64"; "decimal128"]%string) ;;
  both_reencode raw bytes ;;
  let* doc := unwrap (RawDocument_deep raw) in
  let* strings := array_at doc "string" in
  assert_eq strings [text "foo"; Bson_String []] ;;
  let* binary := array_at doc "binary" in
  assert_eq binary [Bson_Binary (mkBinary (BinarySubtype_UserDefined x80) [x42]);
                    Bson_Binary (mkBinary BinarySubtype_Generic [])].

(** The walk through the levels of the nested document: the region, whether its
    parent is an array, and the level. *)
Fixpoint walk (fuel : nat) (region : bytes) (parent_is_array : bool) (level : Z)
  : outcome Empty_set (bytes * Z) :=
  match fuel with
  | O => Fuel
  | S fuel =>
      let level := level + 1 in
      let* _ := assert_eq (len region) (1200 - 8 * (level - 1)) in
      let* name := slice region 5 7 in
      let* _ := assert_eq name (if parent_is_array then lit "0" ++ nul else lit "f" ++ nul) in
      let* tag := index region 4 in
      if (u8 tag =? 3) || (u8 tag =? 4) then
        let* l := slice region 7 11 in
        let* region := slice region 7 (7 + u32_of_le l) in
        walk fuel region (u8 tag =? 4) level
      else if u8 tag =? 10 then
        let* _ := assert_eq level 150 in
        Ok (region, level)
      else Panic
  end.
Definition test_nested_is_valid_but_too_deep_to_decode : test :=
  let* bytes := load nested_hex in
  assert_eq (len bytes) 1200 ;;
  let* raw := unwrap (RawDocument_from_bytes bytes) in
  let* '(region, level) := walk 151 raw false 0 in
  assert_eq level 150 ;;
  assert_eq (len region) 8 ;;
  assert_eq (RawDocument_deep raw) (Err (BsonError_NestedTooDeep MAX_NESTING_DEPTH)) ;;
  assert_eq (RawDocument_shallow raw) (Err (BsonError_NestedTooDeep MAX_NESTING_DEPTH)) ;;
  assert_eq raw bytes ;;
  let* again := unwrap (RawDocument_from_bytes raw) in
  assert_eq again bytes.

Definition wrap_level (value : Bson) (i : Z) : Bson :=
  if i mod 2 =? 0 then Bson_Array (Array_from_iter [value])
  else Bson_Document (Document_from_iter lit id [("f"%string, value)]).
Definition test_nested_within_limit_roundtrips : test :=
  let value := foldl wrap_level (Bson_Document (Document_from_iter lit id [("f"%string, Bson_Null)])) (seqZ 0 18) in
  let doc := Document_from_iter lit id [("f"%string, value)] in
  let* bytes := unwrap (Document_encode doc) in
  let* raw := unwrap (RawDocument_from_bytes bytes) in
  for_each (λ decode : RawDocument → outcome BsonError Document,
    let* decoded := unwrap (decode raw) in
    assert_eq decoded doc ;;
    let* enc := unwrap (Document_encode decoded) in
    assert_eq enc bytes) [RawDocument_shallow; RawDocument_deep] ;;
  let too_deep := Document_from_iter lit id [("f"%string, Bson_Array (Array_from_iter [value]))] in
  let* enc := unwrap (Document_encode too_deep) in
  let* raw := unwrap (RawDocument_from_bytes enc) in
  assert_eq (RawDocument_deep raw) (Err (BsonError_NestedTooDeep MAX_NESTING_DEPTH)).

Definition test_handshakes_roundtrip_byte_exactly : test :=
  for_each (λ name,
    let* bytes := load name in
    let* raw := unwrap (RawDocument_from_bytes bytes) in
    both_reencode raw bytes)
    [handshake1_document_hex; handshake2_document_hex; handshake3_document_hex; handshake4_document_hex].

Definition documents_golden : list test :=
  [test_all_roundtrips_byte_exactly; test_nested_is_valid_but_too_deep_to_decode;
   test_nested_within_limit_roundtrips; test_handshakes_roundtrip_byte_exactly].
Lemma documents_golden_pass : Forall passes documents_golden.
Proof. repeat (constructor; [vm_compute; reflexivity|]). constructor. Qed.

(** ** [mongowire/tests/roundtrip.rs] *)

(** The regular expression [[^\u{0}]{0,n}]. *)
Definition arb_text (n : Z) (s : str) : Prop :=
  valid_utf8 s = true ∧ has_nul s = false ∧ len (str_chars s) <= n.
Definition arb_binary (b : Binary) : Prop :=
  len (binary_bytes b) < 64
  ∧ ∃ raw, u8 raw <= 6 ∧ subtype b = match BinarySubtype_from_u8 raw with
                                      | Ok subtype => subtype
                                      | _ => BinarySubtype_Generic
                                      end.

Section Strategies.
(** What [any::<f64>()] produces: doubles, but no NaN. *)
Context (any_f64 : f64 → Prop).
Hypothesis any_f64_ok : ∀ f, any_f64 f → in_u64 f ∧ f64_is_nan f = false.

Definition arb_leaf (v : Bson) : Prop :=
  match v with
  | Bson_Double f => any_f64 f
  | Bson_String s | Bson_JavaScript s => arb_text 32 s
  | Bson_Symbol s => arb_text 16 s
  | Bson_Bool _ | Bson_Undefined | Bson_Null | Bson_MinKey | Bson_MaxKey => True
  | Bson_DateTime i | Bson_Int64 i => in_i64 i
  | Bson_Int32 i => in_i32 i
  | Bson_Binary b => arb_binary b
  | Bson_Regex r => arb_text 16 (pattern r) ∧ arb_text 4 (options r)
  | Bson_Timestamp t => in_u32 (seconds t) ∧ in_u32 (increment t)
  | Bson_Decimal128 bytes => len bytes = 16
  | _ => False
  end.
Fixpoint arb_value (depth : nat) (v : Bson) : Prop :=
  arb_leaf v
  ∨ match depth, v with
    | S depth, Bson_Array vs => len vs < 4 ∧ Forall (arb_value depth) vs
    | S depth, Bson_Document fs => len fs < 4 ∧ Forall (λ f, arb_text 12 f.1 ∧ arb_value depth f.2) fs
    | _, _ => False
    end.

(** The two properties. *)
Definition test_document_roundtrips_byte_exactly (doc : Bson) : test :=
  match doc with
  | Bson_Document doc =>
      let* raw := unwrap (Document_encode doc) in
      let* decoded := unwrap (RawDocument_deep raw) in
      let* reencoded := unwrap (Document_encode decoded) in
      assert_eq raw reencoded ;;
      assert_eq (Bson_Document doc) (Bson_Document decoded) ;;
      assert_ok (RawDocument_from_bytes raw)
  | _ => Ok ()
  end.
Definition test_truncated_documents_never_panic (doc : Bson) : test :=
  match doc with
  | Bson_Document doc =>
      let* raw := unwrap (Document_encode doc) in
      for_each (λ n, assert_err (let* r := RawDocument_from_bytes (takeZ n raw) in RawDocument_deep r))
        (seqZ 0 (len raw))
  | _ => Ok ()
  end.

(** *** What the strategies produce *)

Lemma valid_char_len c : valid_char c = true → len c <= 4.
Proof. destruct c as [|b0 [|b1 [|b2 [|b3 [|]]]]]; try done; intros _; len_tac; lia. Qed.
Lemma arb_text_len n s : arb_text n s → len s <= 4 * n.
Proof.
  intros (Hv & _ & Hl). unfold valid_utf8 in Hv. destruct (utf8_error s 0) eqn:He; [done|].
  destruct (utf8_chars (length s) s 0 ltac:(lia) He) as [E F]. fold (str_chars s) in E, F.
  assert (len (concat (str_chars s)) <= 4 * len (str_chars s)) as H; [|rewrite E in H; lia].
  clear -F. induction F as [|c l Hc F IH]; [done|]. cbn [concat]. rewrite len_app, len_cons.
  apply valid_char_len in Hc. lia.
Qed.

(** Such a value is well formed, encodes, and equals itself. *)
Record generated (n : nat) (v : Bson) : Prop := mkGenerated {
  gen_ok : value_ok v;
  gen_nesting : nesting v <= Z.of_nat n;
  gen_encodable : Z.of_nat n <= 3 → encodable v = true;
  gen_size : len (value_wire v) <= 300 * 4 ^ Z.of_nat n;
  gen_eq : Bson_eq v v = true
}.

Lemma f64_eq_refl f : f64_is_nan f = false → f64_eq f f = true.
Proof. intros H. unfold f64_eq, f64_le. rewrite H, Z.leb_refl. done. Qed.
Lemma arb_binary_ok b : arb_binary b → subtype_canonical (subtype b) ∧ len (binary_bytes b) < 64.
Proof.
  intros [Hl (raw & Hr & ->)]. split; [|done]. unfold BinarySubtype_from_u8.
  repeat case_match; simplify_eq; try done; simpl; zbool; lia.
Qed.

Lemma leaf_size n : 300 <= 300 * 4 ^ Z.of_nat n.
Proof. pose proof (Z.pow_pos_nonneg 4 (Z.of_nat n)). lia. Qed.
Lemma arb_leaf_generated n v : arb_leaf v → generated n v.
Proof.
  pose proof (leaf_size n) as Hn. destruct v; cbn [arb_leaf]; intros Ha; try done;
    repeat match goal with
    | H : arb_text _ _ |- _ => pose proof (arb_text_len _ _ H); destruct H as (? & ? & _)
    | H : _ ∧ _ |- _ => destruct H
    | H : any_f64 _ |- _ => apply any_f64_ok in H
    | H : arb_binary _ |- _ => apply arb_binary_ok in H
    end; split; cbn [value_ok nesting encodable value_wire Bson_as_scalar scalar_ok scalar_fits
                     scalar_encode_error scalar_wire Bson_eq]; try done; try lia;
    try (apply str_eqb_refl); try (apply Bool.eqb_reflx); try (by apply bool_decide_eq_true_2);
    try (by apply f64_eq_refl); try (split; [done|]; unfold_ranges; lia);
    try (unfold string_wire, binary_wire; repeat case_match; len_tac; lia).
  all: intros; try (split; [done|]); unfold_ranges; repeat case_match; simplify_eq; zbool; congruence || lia.
Qed.

(** One more level: what a list of generated values contributes. *)
Lemma values_generated n vs : Forall (generated n) vs → ∀ i,
  Forall value_ok vs
  ∧ foldr (λ x m, Z.max (nesting x) m) 0 vs <= Z.of_nat n
  ∧ (Z.of_nat n <= 3 → forallb encodable vs = true)
  ∧ len (values_wire_with value_wire i vs) <= len vs * (50 + 300 * 4 ^ Z.of_nat n)
  ∧ values_eq Bson_eq vs vs = true.
Proof.
  induction 1 as [|v vs [Ho Hn He Hs Hq] _ IH]; intros i; [split_and!; (done || constructor || (simpl; lia))|].
  destruct (IH (i + 1)) as (IHo & IHn & IHe & IHs & IHq). split_and!.
  - by constructor.
  - cbn [foldr]. lia.
  - intros H. cbn [forallb]. by rewrite He, IHe.
  - cbn [values_wire_with]. unfold field_wire_with. pose proof (dec_bytes_len i). len_tac.
  - cbn [values_eq]. by rewrite Hq, IHq.
Qed.
Lemma fields_generated n fs : Forall (λ f, arb_text 12 f.1 ∧ generated n f.2) fs →
  fields_ok fs
  ∧ foldr (λ f m, Z.max (nesting f.2) m) 0 fs <= Z.of_nat n
  ∧ (Z.of_nat n <= 3 → forallb (λ f, negb (has_nul f.1) && encodable f.2) fs = true)
  ∧ len (fields_wire_with value_wire fs) <= len fs * (50 + 300 * 4 ^ Z.of_nat n)
  ∧ fields_eq Bson_eq fs fs = true.
Proof.
  induction 1 as [|[name v] fs [Ha [Ho Hn He Hs Hq]] _ (IHo & IHn & IHe & IHs & IHq)];
    [split_and!; (done || constructor || (simpl; lia))|].
  cbn [fst snd] in *. pose proof (arb_text_len _ _ Ha). destruct Ha as (Hv & Hz & _). split_and!.
  - by constructor.
  - cbn [foldr snd]. lia.
  - intros H'. cbn [forallb fst snd]. by rewrite Hz, He, IHe.
  - cbn [fields_wire_with]. unfold field_wire_with. len_tac.
  - cbn [fields_eq]. by rewrite str_eqb_refl, Hq, IHq.
Qed.

Lemma level_size n k : 0 <= k < 4 → 5 + k * (50 + 300 * 4 ^ Z.of_nat n) <= 300 * 4 ^ Z.of_nat (S n).
Proof.
  intros Hk. rewrite Nat2Z.inj_succ, Z.pow_succ_r by lia. pose proof (Z.pow_pos_nonneg 4 (Z.of_nat n)). nia.
Qed.
Lemma size_fits n : Z.of_nat n <= 3 → 300 * 4 ^ Z.of_nat n <= i32_max.
Proof.
  intros Hn. assert (4 ^ Z.of_nat n <= 4 ^ 3) as H by (apply Z.pow_le_mono_r; lia).
  change (4 ^ 3) with 64 in H. unfold_ranges. lia.
Qed.

Lemma arb_value_generated n : ∀ v, arb_value n v → generated n v.
Proof.
  induction n as [|n IH]; intros v [H|H]; try done; try by apply arb_leaf_generated.
  destruct v as [| |fs|vs| | | | | | | | | | | | | | | | |]; try done; destruct H as [Hl H].
  - assert (Forall (λ f, arb_text 12 f.1 ∧ generated n f.2) fs) as Hg
      by (eapply Forall_impl; [exact H|naive_solver]).
    destruct (fields_generated n fs Hg) as (Ho & Hn & He & Hs & Hq).
    pose proof (level_size n (len fs) ltac:(pose proof (len_nonneg fs); lia)) as Hsz.
    assert (len (value_wire (Bson_Document fs)) <= 300 * 4 ^ Z.of_nat (S n)) as Hw
      by (cbn [value_wire]; rewrite len_doc_frame; lia).
    split; [by apply value_ok_document|cbn [nesting]; lia| |done|done].
    intros Hd. cbn [encodable]. rewrite He by lia. pose proof (size_fits _ Hd). cbn [andb]. apply Z.leb_le. lia.
  - assert (Forall (generated n) vs) as Hg by (eapply Forall_impl; [exact H|exact IH]).
    destruct (values_generated n vs Hg 0) as (Ho & Hn & He & Hs & Hq).
    pose proof (level_size n (len vs) ltac:(pose proof (len_nonneg vs); lia)) as Hsz.
    assert (len (value_wire (Bson_Array vs)) <= 300 * 4 ^ Z.of_nat (S n)) as Hw
      by (cbn [value_wire]; rewrite len_doc_frame; lia).
    split; [by apply value_ok_array|cbn [nesting]; lia| |done|done].
    intros Hd. cbn [encodable]. rewrite He by lia. pose proof (size_fits _ Hd). cbn [andb]. apply Z.leb_le. lia.
Qed.

#[local] Opaque RawDocument_deep RawDocument_shallow.

(** *** The properties hold of everything the strategies produce *)

Lemma arb_document_encodes n d : Z.of_nat n <= 3 → arb_value n (Bson_Document d) →
  Document_encode d = Ok (document_wire d) ∧ RawDocument_deep (document_wire d) = Ok d
  ∧ raw_ok (document_wire d) ∧ Bson_eq (Bson_Document d) (Bson_Document d) = true.
Proof.
  intros Hn [Ho Hd He Hs Hq]%arb_value_generated. specialize (He Hn). pose proof (size_fits n Hn) as Hf.
  change (value_wire (Bson_Document d)) with (document_wire d) in Hs. apply value_ok_document in Ho.
  pose proof (Document_encode_writes d) as Hw. unfold writes in Hw. rewrite He in Hw. cbn [app] in Hw.
  assert (len (document_wire d) <= u32_max) as Hu by (unfold_ranges; lia).
  split_and!; [done| | |done].
  - rewrite deep_wire by done. change (document_nesting d) with (nesting (Bson_Document d)).
    unfold MAX_NESTING_DEPTH. by zif.
  - apply raw_ok_frame. exists (fields_wire d). split; [done|]. unfold document_wire in Hu.
    by rewrite len_doc_frame in Hu.
Qed.

Lemma document_roundtrips n v : Z.of_nat n <= 3 → arb_value n v →
  passes (test_document_roundtrips_byte_exactly v).
Proof.
  intros Hn Hv. destruct v; try done.
  destruct (arb_document_encodes n fields Hn Hv) as (He & Hd & Hr & Hq).
  unfold passes, test_document_roundtrips_byte_exactly, unwrap. rewrite He. cbn [or_panic bind].
  rewrite Hd. cbn [or_panic bind]. rewrite He. cbn [or_panic bind].
  unfold assert_eq at 1. rewrite bytes_eqb_refl. cbn [assert bind].
  unfold assert_eq, eqb, PartialEq_Bson. rewrite Hq. cbn [assert bind].
  unfold assert_ok, unwrap. by rewrite RawDocument_from_bytes_ok.
Qed.

(** A proper prefix of a raw document is not one. *)
Lemma raw_ok_proper_prefix b n : raw_ok b → n < len b → ¬ raw_ok (takeZ n b).
Proof.
  intros (x & -> & Hx) Hn (y & Ey & Hy). pose proof (len_nonneg x). pose proof (len_nonneg y).
  assert (len (takeZ n (le_encode 4 (len x + 5) ++ x ++ [x00])) = len y + 5) as El.
  { rewrite Ey. len_tac. }
  destruct (Z.le_gt_cases n 0) as [Hz|Hz]; [rewrite takeZ_0 in El by done; change (len (@nil byte)) with 0 in El; lia|].
  rewrite len_takeZ in El by lia.
  apply (f_equal (takeZ 4)) in Ey. rewrite takeZ_takeZ, !takeZ_app in Ey by (done || lia).
  apply (f_equal u32_of_le) in Ey. rewrite !u32_of_le_encode in Ey by (unfold in_u32; lia).
  revert Hn. len_tac.
Qed.
Lemma truncation_rejected b n : raw_ok b → n < len b →
  passes (assert_err (let* r := RawDocument_from_bytes (takeZ n b) in RawDocument_deep r)).
Proof.
  intros Hb Hn. pose proof (returns_RawDocument_from_bytes (takeZ n b)) as Hret.
  destruct (RawDocument_from_bytes (takeZ n b)) as [r|e| |] eqn:E; try done. exfalso.
  apply RawDocument_from_bytes_Ok_inv in E as [_ E]. exact (raw_ok_proper_prefix b n Hb Hn E).
Qed.
Lemma for_each_passes {A} (f : A → test) l : Forall (λ x, passes (f x)) l → passes (for_each f l).
Proof. unfold passes. induction 1 as [|x l Hx _ IH]; [done|]. cbn [for_each]. by rewrite Hx. Qed.
Lemma truncated_documents n v : Z.of_nat n <= 3 → arb_value n v →
  passes (test_truncated_documents_never_panic v).
Proof.
  intros Hn Hv. destruct v; try done.
  destruct (arb_document_encodes n fields Hn Hv) as (He & _ & Hr & _).
  unfold test_truncated_documents_never_panic, unwrap. rewrite He. cbn [or_panic bind].
  apply for_each_passes, Forall_forall. intros i Hi%elem_of_seqZ. apply truncation_rejected; [done|lia].
Qed.
End Strategies.

(** The strategies at the depths of the suite. *)
Lemma roundtrip_suite_passes any_f64 : (∀ f, any_f64 f → in_u64 f ∧ f64_is_nan f = false) → ∀ v,
  (arb_value any_f64 3 v → passes (test_document_roundtrips_byte_exactly v))
  ∧ (arb_value any_f64 2 v → passes (test_truncated_documents_never_panic v)).
Proof. intros Hf v. split; [by apply (document_roundtrips _ Hf 3)|by apply (truncated_documents _ Hf 2)]. Qed.
(** They produce documents of every kind of leaf. *)
Example arb_value_run :
  arb_value (λ f, in_u64 f ∧ f64_is_nan f = false) 3
    (Bson_Document [(lit "a", Bson_Array [Bson_Double f64_1; Bson_String (lit "x"); Bson_Null]);
                    (lit "b", Bson_Document [(lit "c", Bson_Binary (mkBinary BinarySubtype_Uuid [x01]))]);
                    (lit "d", Bson_Regex (mkRegex (lit "^a") (lit "i")))]).
Proof.
  assert (∀ n s, valid_utf8 s = true → has_nul s = false → len (str_chars s) <= n → arb_text n s) as T by done.
  right. split; [reflexivity|]. rewrite !Forall_cons, Forall_nil. cbn [fst snd].
  split_and!; try (apply T; vm_compute; done); [| | |done].
  - right. split; [done|]. rewrite !Forall_cons, Forall_nil. split_and!; [..|done]; left; [|apply T; vm_compute; done|done].
    vm_compute. repeat split; done.
  - right. split; [done|]. rewrite Forall_cons, Forall_nil. cbn [fst snd].
    split_and!; [apply T; vm_compute; done|left|done]. split; [done|]. exists x04. by split.
  - left. split; apply T; vm_compute; done.
Qed.

(** ** [encode.rs] *)

Section EncodeStrategies.
Context (any_f64 : f64 → Prop).
Hypothesis any_f64_ok : ∀ f, any_f64 f → in_u64 f ∧ f64_is_nan f = false.

(** The strategies of the encoder's property test. *)
Definition stable_value (v : Bson) : Prop :=
  match v with
  | Bson_Double f => any_f64 f
  | Bson_String s => arb_text 8 s
  | Bson_Int32 i => in_i32 i
  | Bson_Int64 i => in_i64 i
  | Bson_Bool _ | Bson_Null | Bson_Undefined | Bson_MinKey | Bson_MaxKey => True
  | Bson_Timestamp t => in_u32 (seconds t) ∧ in_u32 (increment t)
  | Bson_Document d => ∃ s, arb_text 4 s ∧ d = Document_from_iter lit id [("s"%string, Bson_String s)]
  | Bson_Array a => ∃ s, arb_text 4 s ∧ a = Array_from_iter [Bson_Int32 1; Bson_String s]
  | _ => False
  end.
Definition stable_document (d : Document) : Prop :=
  len d < 12 ∧ Forall (λ f, arb_text 8 f.1 ∧ stable_value f.2) d.

Lemma arb_text_le n m s : arb_text n s → n <= m → arb_text m s.
Proof. intros (? & ? & ?) Hle. split_and!; [done..|lia]. Qed.
(** They are among those of the round-trip suite, at depth one. *)
Lemma stable_value_arb v : stable_value v → arb_value any_f64 1 v.
Proof.
  destruct v; cbn [stable_value]; intros H; try done; try (by left).
  - left. by eapply arb_text_le.
  - destruct H as (s & Hs & ->). change (Document_from_iter _ _ _) with [(lit "s", Bson_String s)].
    right. split; [done|]. rewrite Forall_cons, Forall_nil. split; [|done].
    split; [|by left; eapply arb_text_le]. by repeat split.
  - destruct H as (s & Hs & ->). unfold Array_from_iter. right. split; [done|]. rewrite !Forall_cons, Forall_nil.
    split_and!; [by left|by left; eapply arb_text_le|done].
Qed.
Lemma encode_suite_passes d : stable_document d → passes (test_encode_decode_byte_stable d).
Proof.
  intros [Hl Hd]. assert (Forall (λ f, arb_text 12 f.1 ∧ generated 1 f.2) d) as Hg.
  { eapply Forall_impl; [exact Hd|]. intros f [Hn Hv]. split; [by eapply arb_text_le|].
    by eapply arb_value_generated, stable_value_arb. }
  destruct (fields_generated 1 d Hg) as (Ho & Hn & He & Hs & _). specialize (He ltac:(done)).
  change (4 ^ Z.of_nat 1) with 4 in Hs.
  apply (byte_stable_passes d (document_wire d)); [done| |].
  - unfold document_nesting, MAX_NESTING_DEPTH. cbn [nesting]. lia.
  - pose proof (Document_encode_writes d) as Hw. unfold writes in Hw.
    assert (encodable (Bson_Document d) = true) as Hd'; [|rewrite Hd' in Hw; cbn [app] in Hw; exact Hw].
    cbn [encodable]. rewrite He. cbn [andb value_wire]. rewrite len_doc_frame. apply Z.leb_le. unfold_ranges. lia.
Qed.
End EncodeStrategies.
