(* ===== verification/TestsIntegration.v ===== *)
(** * The integration suite, [mongowire/tests/integration_server.rs]

    A server with the suite's own handler and a [TestClient] on one connection:
    what the client writes reaches the server's pool of tasks, which takes the turn
    it completes, and what the task writes is the client's next chunk. *)
From stdpp Require Import base list numbers strings.
From Stdlib Require Import ZArith Lia.
From S2P Require Import Prelude Utf8 StrOps Io Consts BsonScalar F64 BsonValue Convert BsonEncode BsonDecode Fuzz.
From S2P Require Import Header OpMsg OpLegacy OpCompressed Message Framing Compressors.
From S2P Require Import Auth Scram Api SaslBridge Server Client Serve.
From S2P Require Import TestKit TestsMessages TestsWire TestsFraming TestsServer.
Local Open Scope Z_scope.

(** ** [tests/integration_server.rs] *)

Inductive MiniHandler := mkMini.
Definition MiniHandler_handle_command (_ : MiniHandler) (env : Env) (ctx : ConnectionInfo) (command : Command)
  : outcome WireError Reply * ConnectionInfo :=
  let reply (m : outcome WireError OpMsg) : outcome WireError Reply := let* m := m in Ok (Reply_Msg m) in
  let named name := str_eqb (cmd_name command) (lit name) in
  (if named "hello" then reply (handshake_reply env [] MAX_MSG_LEN false)
   else if named "isMaster" || named "ismaster" then reply (handshake_reply env [] MAX_MSG_LEN true)
   else if named "ping" then reply ping_reply
   else if named "echo" then reply (op_msg empty_flags (cmd_body command))
   else Err (WireError_command 59 (lit "CommandNotFound") (lit "no such command: " ++ cmd_name command)), ctx)%string.
#[export] Instance MiniHandler_handler : CommandHandler MiniHandler := MiniHandler_handle_command.

(** The server's tasks, the client, and the process-wide request counter. *)
Record Net := mkNet { net_pool : list Task; net_client : TestClient; net_counter : Z }.
Definition net_events : list Task → list Event → option (list Task) :=
  run_events castagnoli default_build ServerConfig_default mkMini.
Definition connect_mini : outcome Empty_set Net :=
  let* pool := expect (net_events [] [Accepted None]) in
  let* client := unwrap (connect (Ok (None, []))) in
  Ok (mkNet pool client 1).
(** The server receives [w] and answers [o]. *)
Definition server_answers (pool : list Task) (w : bytes) : outcome Empty_set (list Task * bytes) :=
  let* t := expect (pool !! 0%nat) in
  let* pool := expect (net_events pool [Received 0 w; Polled 0 test_turn]) in
  let* t' := expect (pool !! 0%nat) in
  Ok (pool, dropZ (len (task_out t)) (task_out t')).
Definition arrives (c : TestClient) (o : bytes) : TestClient :=
  mkClient (tc_sent c) (tc_accepts c) (tc_incoming c ++ [o]) (tc_buf c).
(** A [send] of the client, delivered. *)
Definition net_sent (s : Net) (r : outcome ClientError Z * TestClient * Z) : outcome Empty_set (Z * Net) :=
  let '(r, c, counter) := r in
  let* id := unwrap r in
  let* '(pool, o) := server_answers (net_pool s) (dropZ (len (tc_sent (net_client s))) (tc_sent c)) in
  Ok (id, mkNet pool (arrives c o) counter).
Definition net_send (s : Net) (ck : bool) (id : Z) (body : MessageBody) : outcome Empty_set Net :=
  let '(r, c) := (if ck then send_with_checksum else send) castagnoli (net_client s) id 0 body in
  let* '(_, s) := net_sent s (let* _ := r in Ok id, c, net_counter s) in
  Ok s.
(** [recv().await.unwrap().expect("server closed the connection")]. *)
Definition net_recv (s : Net) : outcome Empty_set (Header * MessageBody) :=
  let* m := unwrap (client_recv castagnoli (net_client s)).1 in
  unwrap_some m.
(** [client.request(..)], the reply to the frame it sends being under way. *)
Definition net_request (s : Net) (body : MessageBody) : outcome Empty_set (Header * MessageBody * Net) :=
  let c := net_client s in
  let* frame := unwrap (frame_bytes castagnoli (next_id (net_counter s)).1 0 body false) in
  let* '(pool, o) := server_answers (net_pool s) frame in
  let '(r, c, counter) := request castagnoli (arrives c o) (net_counter s) body in
  let* m := unwrap r in
  Ok (m, mkNet pool c counter).

Definition request_msg (name : string) : outcome Empty_set OpMsg :=
  let* doc := raw [(name, Bson_Int32 1)] in
  unwrap (OpMsg_new empty_flags doc []).
Definition as_op_msg (body : MessageBody) : outcome Empty_set OpMsg :=
  match body with
  | MessageBody_Msg msg => Ok msg
  | MessageBody_Compressed c =>
      let* body := unwrap (OpCompressed_unwrap_body default_build c MAX_MSG_LEN) in
      match body with MessageBody_Msg msg => Ok msg | _ => Panic end
  | _ => Panic
  end.
Definition ok_of (doc : RawDocument) : outcome Empty_set f64 :=
  match RawDocument_get doc (lit "ok") with Ok (Some (RawBsonRef_Double ok)) => Ok ok | _ => Panic end.
(** [assert_eq!(ok_of(as_op_msg(body).document()), 1.0)]. *)
Definition assert_pong (body : MessageBody) : test :=
  let* reply := as_op_msg body in
  let* ok := ok_of (OpMsg_document reply) in
  assert (f64_eq ok f64_1).

Definition test_op_msg_ping_roundtrip : test :=
  let* s := connect_mini in
  let* ping := request_msg "ping" in
  let* s := net_send s false 7 (MessageBody_Msg ping) in
  let* '(header, body) := net_recv s in
  assert_eq (response_to header) 7 ;;
  assert_pong body.
Definition test_op_query_handshake_gets_op_reply : test :=
  let* s := connect_mini in
  let* request := raw [("isMaster", Bson_Int32 1)]%string in
  let* '(request_id, s) := net_sent s
    (send_op_query_handshake castagnoli (net_client s) (net_counter s) request) in
  let* '(header, reply) := unwrap (recv_op_reply castagnoli (net_client s)).1 in
  assert_eq (response_to header) request_id ;;
  assert_eq (number_returned reply) 1 ;;
  let* doc := index (reply_documents reply) 0 in
  let* ok := ok_of doc in
  assert (f64_eq ok f64_1) ;;
  let* v := unwrap (RawDocument_get doc (lit "ismaster")) in
  assert_eq v (Some (RawBsonRef_Bool true)) ;;
  assert (match RawDocument_get doc (lit "helloOk") with Ok (Some _) => true | _ => false end).
Definition test_checksummed_ping_roundtrip : test :=
  let* s := connect_mini in
  let* ping := request_msg "ping" in
  let* s := net_send s true 11 (MessageBody_Msg ping) in
  let* '(header, body) := net_recv s in
  assert_eq (response_to header) 11 ;;
  assert_pong body.
Definition test_op_compressed_noop_ping_roundtrip : test :=
  let* s := connect_mini in
  let* ping := request_msg "ping" in
  let* body := unwrap (OpMsg_encode_body ping []) in
  let* compressed := unwrap (OpCompressed_wrap default_build Opcode_Msg body CompressorId_Noop) in
  let* '(_, reply, _) := net_request s (MessageBody_Compressed compressed) in
  assert_pong reply.
Definition test_echo_roundtrip : test :=
  let* s := connect_mini in
  let* body := raw [("echo", text "hi"); ("$db", text "admin")]%string in
  let* msg := unwrap (OpMsg_new empty_flags body []) in
  let* '(_, reply, _) := net_request s (MessageBody_Msg msg) in
  let* msg := as_op_msg reply in
  assert_eq (OpMsg_document msg) body.
Definition test_unknown_command_yields_error_reply_and_lives_on : test :=
  let* s := connect_mini in
  let* unknown := request_msg "definitelyNotACommand" in
  let* '(_, reply, s) := net_request s (MessageBody_Msg unknown) in
  let* msg := as_op_msg reply in
  let doc := OpMsg_document msg in
  let* v := unwrap (RawDocument_get doc (lit "ok")) in
  assert_eq v (Some (RawBsonRef_Double 0)) ;;
  assert (match RawDocument_get doc (lit "errmsg") with Ok (Some (RawBsonRef_String _)) => true | _ => false end) ;;
  let* ping := request_msg "ping" in
  let* '(_, reply, _) := net_request s (MessageBody_Msg ping) in
  assert_pong reply.

Definition tests_integration : list test :=
  [test_op_msg_ping_roundtrip; test_op_query_handshake_gets_op_reply; test_checksummed_ping_roundtrip;
   test_op_compressed_noop_ping_roundtrip; test_echo_roundtrip;
   test_unknown_command_yields_error_reply_and_lives_on].
Lemma tests_integration_pass : Forall passes tests_integration.
Proof. repeat (constructor; [vm_compute; reflexivity|]). constructor. Qed.
